(* ===== verification/_CoqProject ===== *)
-Q . S2P
Prelude.v
Message.v
Mailbox.v
Queue.v
MailboxCorrect.v
MailboxConc.v
MailboxTheorems.v
SeriValue.v
SeriPack.v
SeriUnpack.v
SeriBuffer.v
SeriToken.v
SeriRefine.v
SeriDecode.v
SeriRoundTrip.v
SeriContent.v
SeriTotal.v
SeriTheorems.v
SeriApi.v
SeriApiTheorems.v
Concur.v
ServiceState.v
Service.v
ServiceInv.v
ServiceLogic.v
ServiceSafe.v
ServiceSystem.v
ServiceExec.v
ServiceTheorems.v
Log.v
LogCorrect.v
LogTheorems.v
LoadLuv.v
LoadLuvCorrect.v
LoadLuvTheorems.v
ServiceLua.v
ServiceLuaCorrect.v
ServiceLuaTheorems.v
LService.v
LServiceTheorems.v
