(* ===== verification/Prelude.v ===== *)
(** * service.lua: a verification library for the C runtime

    service.lua runs Lua services as actors, one LuaJIT state and one thread
    each, that exchange messages.  This development models its C code,
    [src/src/*.c], and proves what each part guarantees to the others.

    ** The parts of the program

    - Messages (message.c): six fields and an owned payload.
    - Mailbox (mailbox.c): a ring buffer behind a spinlock, with a flag that is
      raised by the first push after a rearm, so that a burst of messages wakes
      its receiver once.
    - Services (service.c): a pool of at most 32 services.  A service has a state,
      protected by [state_lock], a route and a count of pins, protected by the
      pool's lock, a mailbox, a Lua state and a libuv loop with two async
      handles.  [service_send] pins the receiver, pushes, notifies and unpins;
      the receiver's thread runs the loop, whose callbacks call the Lua handler
      or shut the service down; stop, join and free come from any thread.
    - Serializer (lua-seri.c): Lua values to bytes and back, with shared tables
      and cycles.
    - Logger (log.c): one record, one write, with limits and a journal format.
    - luv loader (loadluv.c): finds luv once for the process and opens it in each
      Lua state.
    - Lua binding (lservice.c): the functions Lua calls.

    The Lua layer calls the binding; the binding calls services, the serializer
    and the logger; services own mailboxes, and free messages and payloads; a
    service's thread loads luv into its Lua state.

    ** The files

    [Prelude] has machine integers, lists as C arrays, C buffers with bounds,
    labelled transition systems with forward simulation, and shared tactics.

    - [Message], [Mailbox]: message.c and mailbox.c, one definition per function
      and critical section; [mailbox_try_push] is a machine ([push_step]), since
      it lets the lock go around its allocation.  [Queue]: what a mailbox
      promises, and the class [Inbox] clients are proved against.
      [MailboxCorrect]: the ring implements the queue.  [MailboxConc]: any number
      of threads, interleaved between spinlock accesses.  [MailboxTheorems].
    - [SeriValue], [SeriPack], [SeriUnpack]: values, the writing and the reading
      half of lua-seri.c.  [SeriBuffer]: the chain of blocks is a byte string.
      [SeriToken]: a reference encoder; [SeriRefine]: the code implements it.
      [SeriDecode], [SeriRoundTrip], [SeriContent]: reading gives the values back.
      [SeriTotal]: both halves end, reading stays in its buffer.  [SeriTheorems].
      [SeriApi], [SeriApiTheorems]: pack, unpack and unpack_remove as Lua calls
      them, with the C heap.
    - [Concur]: programs of atomic sections, runs alone ([den]) and interleaved
      ([steps conf_step]), and a logic ([wt]) for resources that threads hold.
      [ServiceState], [Service]: service.h and service.c, a definition per
      function, a section per critical section or access another thread may see.
      [ServiceInv]: the invariant of a service and who holds what of it.
      [ServiceLogic]: the invariant of the pool and the rules.  [ServiceSafe]:
      every function keeps it.  [ServiceSystem]: a pool with the threads of its
      services and any clients.  [ServiceExec]: sending, draining and creating
      without interference.  [ServiceTheorems].
    - [Log], [LogCorrect], [LogTheorems]: log.c.
    - [LoadLuv], [LoadLuvCorrect], [LoadLuvTheorems]: loadluv.c.
    - [ServiceLua], [ServiceLuaCorrect], [ServiceLuaTheorems]: what service.c does
      on the Lua stack, in a monad of the Lua state and of C resources, with
      weakest preconditions; and that [Service] leaves no outcome of it out.
    - [LService], [LServiceTheorems]: lservice.c.

    ** What the theorems show

    - Mailbox: linearizable to the queue, first in first out between threads, no
      lost wake-up, mutual exclusion, indices and sizes in range, every branch of
      push and pop, payloads freed once.
    - Serializer: the round trip up to renaming of tables; the encoder equals the
      reference encoder for every heap; termination; safety of reading arbitrary
      bytes, and the two inputs on which the code fails.
    - Services: under any interleaving of any threads, no mailbox or handle is
      used after its end (but by [service_stop], shown to do so), a service only
      moves forward, is quiet once stopped, is joined once and only after its
      thread ended, nothing leaks, ids and names are unique; every branch of send
      and new, the replies of the drain.  The handler of a service is what its
      source made it, files and blocks are closed and freed on every path, every
      handle of luv is closed.
    - Logger: the record equals its rendering, complete writes, the settings'
      types, the journal's prefixes, names.  Loader: at most one search and one
      opening for all threads, the search equals its specification.  Binding:
      who owns a payload, the trip of a message through Lua, buffers freed once.

    Every property with hypotheses has a witness that applies it to a concrete
    input.  The hypotheses are the documented behaviour of libuv ([LibuvLaws]),
    that [luv_set_loop] leaves the Lua stack alone, and well-formed inputs.

    ** Bounds and fuel

    The push machine needs at most 8 steps between its lock operations; the
    overload loop doubles its threshold at most 64 times; [mailbox_delete] pops
    count + 1 times.  The serializer's fuel is a bound on recursion: the number
    of tables plus one for packing and the number of bytes for unpacking are
    enough, which [seri_pack_total] and [seri_unpack_safe] prove.  The loops of
    the logger and of the path search take the length of their input.  [exec]
    of a program takes fuel; [den] and [steps] need none.

    ** What is not modelled

    - Memory is sequentially consistent and the target LP64, little-endian.
    - LuaJIT: values, tables and stacks are data of the model; limits of its
      stack, failing allocations inside it, finalizers run by [lua_close], full
      userdata and metatables of the globals, [package], [luv] and [service]
      are left out.  Lua code run by a service thread is any sequence of calls of
      the runtime ([Service]) or a parameter ([ServiceLua]).
    - libuv, luv, the dynamic linker, the file system, [malloc], the formatting of
      [vsnprintf] and [strftime] are parameters.
    - The log calls of service.c and loadluv.c appear in [ServiceLua] only;
      [wb_free] and [blk_alloc] appear as the blocks they make.
    - That no wake-up is lost is proved of a mailbox for its callers; the way of
      a wake-up through the async handle and the loop to the handler is modelled
      but has no theorem of its own, and neither has the waiting on condition
      variables (only its safety).
    - [message_receipt] and the MESSAGE_SCHEDULE constants, which nothing uses.
    - The Lua layer (src/lua, src/service), the build, the tests, the documents. *)

From stdpp Require Export base list numbers strings gmap.
From Stdlib Require Export ZArith Lia.

#[global] Open Scope Z_scope.

(** ** Machine integers

    [size_t] is 64 bits wide (LP64).  Every arithmetic operation of the code
    on a [size_t] is written with its reduction modulo [2 ^ 64]; the
    components' invariants show where the reduction is the identity. *)

Definition SIZE_MAX : Z := 2 ^ 64 - 1.

Definition size_add (a b : Z) : Z := (a + b) mod 2 ^ 64.
Definition size_sub (a b : Z) : Z := (a - b) mod 2 ^ 64.
Definition size_mul (a b : Z) : Z := (a * b) mod 2 ^ 64.

(** Reduction of an integer to [w] bits, unsigned and two's complement. *)
Definition wrapu (w z : Z) : Z := z mod 2 ^ w.
Definition wraps (w z : Z) : Z :=
  let u := z mod 2 ^ w in if u <? 2 ^ (w - 1) then u else u - 2 ^ w.

Definition UINT32_MAX : Z := 2 ^ 32 - 1.

(** Bytes are integers in [0, 256); a C string literal as bytes. *)
Definition byte_ok (b : Z) : Prop := 0 <= b < 256.

Fixpoint bytes_of (s : string) : list Z :=
  match s with
  | EmptyString => []
  | String a s' => Z.of_nat (Ascii.nat_of_ascii a) :: bytes_of s'
  end.

(** ** Lemmas on machine integers *)

Lemma size_add_small a b : 0 <= a + b <= SIZE_MAX -> size_add a b = a + b.
Proof. unfold size_add, SIZE_MAX. intros H. apply Z.mod_small. lia. Qed.

Lemma size_sub_small a b : 0 <= a - b <= SIZE_MAX -> size_sub a b = a - b.
Proof. unfold size_sub, SIZE_MAX. intros H. apply Z.mod_small. lia. Qed.

Lemma size_mul_small a b : 0 <= a * b <= SIZE_MAX -> size_mul a b = a * b.
Proof. unfold size_mul, SIZE_MAX. intros H. apply Z.mod_small. lia. Qed.

Lemma wrapu_small w z : 0 <= z < 2 ^ w -> wrapu w z = z.
Proof. apply Z.mod_small. Qed.

(** ** Reduction modulo a variable bound

    The index arithmetic of a ring buffer only ever reduces sums below twice
    the bound, so [mod] is one conditional subtraction. *)

Lemma mod_once a n :
  0 <= a < 2 * n -> a mod n = if a <? n then a else a - n.
Proof.
  intros H. destruct (Z.ltb_spec a n).
  - apply Z.mod_small. lia.
  - symmetry. apply Z.mod_unique with (q := 1); lia.
Qed.

Lemma mod_range a n : 0 < n -> 0 <= a mod n < n.
Proof. apply Z.mod_pos_bound. Qed.

Lemma mod_add_l a b n : (a mod n + b) mod n = (a + b) mod n.
Proof. apply Zplus_mod_idemp_l. Qed.

(** ** Array accesses at an integer index *)

Definition arr_get {A} (l : list A) (i : Z) : option A :=
  if 0 <=? i then l !! Z.to_nat i else None.

Definition arr_set {A} (l : list A) (i : Z) (x : A) : list A :=
  if 0 <=? i then <[Z.to_nat i := x]> l else l.

Lemma arr_get_nat {A} (l : list A) (i : nat) : arr_get l (Z.of_nat i) = l !! i.
Proof. unfold arr_get. rewrite Nat2Z.id. by destruct (Z.leb_spec 0 (Z.of_nat i)); [|lia]. Qed.

Lemma arr_get_Some {A} (l : list A) i :
  0 <= i < Z.of_nat (length l) -> is_Some (arr_get l i).
Proof.
  intros H. unfold arr_get. destruct (Z.leb_spec 0 i); [|lia].
  apply lookup_lt_is_Some. lia.
Qed.

Lemma length_arr_set {A} (l : list A) i x : length (arr_set l i x) = length l.
Proof. unfold arr_set. case_match; [apply length_insert|done]. Qed.

Lemma arr_get_set_eq {A} (l : list A) i x :
  0 <= i < Z.of_nat (length l) -> arr_get (arr_set l i x) i = Some x.
Proof.
  intros H. unfold arr_get, arr_set. destruct (Z.leb_spec 0 i); [|lia].
  apply list_lookup_insert_eq. lia.
Qed.

Lemma arr_get_set_ne {A} (l : list A) i j x :
  i <> j -> arr_get (arr_set l i x) j = arr_get l j.
Proof.
  intros H. unfold arr_get, arr_set.
  destruct (Z.leb_spec 0 i), (Z.leb_spec 0 j); try done.
  apply list_lookup_insert_ne. lia.
Qed.

(** ** C arrays of bytes

    A byte of an array on the stack is [None] until it is stored; a copy that
    would leave the array has no result. *)

Definition buffer : Type := list (option Z).

Definition memcpy (buf : buffer) (pos : Z) (s : list Z) : option buffer :=
  if (0 <=? pos) && (pos + Z.of_nat (length s) <=? Z.of_nat (length buf)) then
    Some (take (Z.to_nat pos) buf ++ (Some <$> s) ++ drop (Z.to_nat pos + length s) buf)
  else None.

(** The buffer of [n] bytes starts with [pre]. *)
Definition holds (n : nat) (buf : buffer) (pre : list Z) : Prop :=
  length buf = n /\ take (length pre) buf = Some <$> pre.

Lemma holds_length n buf pre : holds n buf pre -> (length pre <= n)%nat.
Proof.
  intros [H1 H2]. apply (f_equal length) in H2. rewrite length_take, length_fmap in H2. lia.
Qed.

Lemma holds_nil n : holds n (replicate n None) [].
Proof. split; [by rewrite length_replicate|done]. Qed.

Lemma holds_take n k buf pre : holds n buf pre -> holds n buf (take k pre).
Proof.
  intros [H1 H2]. split; [done|]. rewrite length_take, fmap_take, <- H2.
  by rewrite take_take.
Qed.

Lemma memcpy_holds n buf pre s :
  holds n buf pre -> (length pre + length s <= n)%nat ->
  exists buf', memcpy buf (Z.of_nat (length pre)) s = Some buf' /\ holds n buf' (pre ++ s).
Proof.
  intros [H1 H2] Hs. unfold memcpy. rewrite (proj2 (Z.leb_le _ _)) by lia. cbn [andb].
  rewrite (proj2 (Z.leb_le _ _)) by lia. rewrite Nat2Z.id.
  eexists. split; [reflexivity|]. rewrite H2. split.
  - rewrite !length_app, !length_fmap, length_drop. lia.
  - rewrite app_assoc, <- fmap_app. apply take_app_length'. by rewrite length_fmap.
Qed.

(** [memchr], [strchr]: the index of the first byte [c]. *)
Fixpoint index_of (c : Z) (s : list Z) : option nat :=
  match s with
  | [] => None
  | b :: s' => if b =? c then Some 0%nat else S <$> index_of c s'
  end.

Lemma index_of_Some c s i :
  index_of c s = Some i -> s = take i s ++ c :: drop (S i) s /\ (i < length s)%nat /\ c ∉ take i s.
Proof.
  revert i. induction s as [|b s IH]; intros i H; [done|]. cbn in H. destruct (Z.eqb_spec b c) as [->|Hb].
  - injection H as <-. cbn. split_and!; [by rewrite drop_0|lia|apply not_elem_of_nil].
  - destruct (index_of c s) as [j|]; [|done]. injection H as <-. destruct (IH j eq_refl) as (E & Hj & Hc).
    cbn. split_and!; [by f_equal|lia|]. rewrite not_elem_of_cons. by split.
Qed.

Lemma index_of_None c s : index_of c s = None -> c ∉ s.
Proof.
  induction s as [|b s IH]; intros H; [apply not_elem_of_nil|]. cbn in H.
  destruct (Z.eqb_spec b c) as [->|Hb]; [done|]. destruct (index_of c s); [done|].
  rewrite not_elem_of_cons. split; [done|by apply IH].
Qed.

(** ** Labelled transition systems, traces and forward simulation

    [step s es s'] performs one transition and emits the visible events [es]
    (none for an internal step).  [steps] chains transitions and concatenates
    their events. *)

Inductive steps {S E : Type} (step : S -> list E -> S -> Prop) : S -> list E -> S -> Prop :=
| steps_refl s : steps step s [] s
| steps_cons s1 es s2 es' s3 :
    step s1 es s2 -> steps step s2 es' s3 -> steps step s1 (es ++ es') s3.

Lemma steps_one {S E} (step : S -> list E -> S -> Prop) s es s' :
  step s es s' -> steps step s es s'.
Proof. intros H. rewrite <- (app_nil_r es). econstructor; [done|constructor]. Qed.

Lemma steps_app {S E} (step : S -> list E -> S -> Prop) s1 es s2 es' s3 :
  steps step s1 es s2 -> steps step s2 es' s3 -> steps step s1 (es ++ es') s3.
Proof.
  induction 1 as [|s1 e1 s2 e2 s3' H _ IH]; [done|].
  intros H2. rewrite <- app_assoc. econstructor; eauto.
Qed.

Lemma steps_snoc {S E} (step : S -> list E -> S -> Prop) s1 es s2 es' s3 :
  steps step s1 es s2 -> step s2 es' s3 -> steps step s1 (es ++ es') s3.
Proof. intros H1 H2. eapply steps_app; [exact H1|by apply steps_one]. Qed.

(** An invariant established initially and kept by every step holds in every
    state a sequence of steps reaches. *)
Lemma steps_invariant {S E} (step : S -> list E -> S -> Prop) (I : S -> Prop) :
  (forall s es s', I s -> step s es s' -> I s') ->
  forall s es s', I s -> steps step s es s' -> I s'.
Proof. intros Hstep s es s' HI Hs. induction Hs; eauto. Qed.

(** The same with the events emitted so far. *)
Lemma steps_trace_invariant {S E} (step : S -> list E -> S -> Prop) (I : list E -> S -> Prop) :
  (forall pre s es s', I pre s -> step s es s' -> I (pre ++ es) s') ->
  forall pre s es s', I pre s -> steps step s es s' -> I (pre ++ es) s'.
Proof.
  intros Hstep pre s es s' HI Hs. revert pre HI.
  induction Hs as [|s1 e1 s2 e2 s3 H _ IH]; intros pre HI; [by rewrite app_nil_r|].
  rewrite app_assoc. eauto.
Qed.

(** Forward simulation: related states stay related, and the abstract system
    answers each concrete step with steps that emit the same events. *)
Section Simulation.
Context {C A E : Type}.
Variable cstep : C -> list E -> C -> Prop.
Variable astep : A -> list E -> A -> Prop.
Variable R : C -> A -> Prop.
Hypothesis sim : forall c es c' a,
  R c a -> cstep c es c' -> exists a', steps astep a es a' /\ R c' a'.

Lemma simulation_steps c es c' a :
  R c a -> steps cstep c es c' -> exists a', steps astep a es a' /\ R c' a'.
Proof.
  intros HR Hs. revert a HR.
  induction Hs as [|c1 e1 c2 e2 c3 H _ IH]; intros a HR.
  - eexists. split; [constructor|done].
  - destruct (sim _ _ _ _ HR H) as (a2 & Ha2 & HR2).
    destruct (IH _ HR2) as (a3 & Ha3 & HR3).
    exists a3. split; [by eapply steps_app|done].
Qed.
End Simulation.

(** ** Automation shared by the components *)

Create HintDb svc discriminated.
#[export] Hint Resolve steps_refl steps_one mod_range : svc.

(** Case analysis on the integer and boolean tests of the code. *)
Ltac ztest :=
  match goal with
  | |- context [?a <? ?b] => destruct (Z.ltb_spec a b)
  | |- context [?a <=? ?b] => destruct (Z.leb_spec a b)
  | |- context [?a =? ?b] => destruct (Z.eqb_spec a b)
  | H : context [?a <? ?b] |- _ => destruct (Z.ltb_spec a b)
  | H : context [?a <=? ?b] |- _ => destruct (Z.leb_spec a b)
  | H : context [?a =? ?b] |- _ => destruct (Z.eqb_spec a b)
  end.

(** Split an equation on a result, one test or match at a time. *)
Ltac split_result H :=
  repeat (case_match; simplify_eq/=; try done);
  try (injection H as <-); simplify_eq/=.
