(* ===== verification/Message.v ===== *)
(** * Message: the messages services exchange (src/message.h, src/message.c)

    The message structure, its enumerations and [message_dispose].  A payload
    pointer is an address of the C heap; the heap itself is the set of live
    [malloc] blocks, and [free] is an error on an address that is not live. *)

From S2P Require Import Prelude.

(** ** Data *)

Inductive message_type :=
| MESSAGE_SYSTEM | MESSAGE_REQUEST | MESSAGE_RESPONSE | MESSAGE_ERROR | MESSAGE_SIGNAL.

(** The enumeration's values; the [type] field of a message is an [int]. *)
Definition message_type_code (t : message_type) : Z :=
  match t with
  | MESSAGE_SYSTEM => 0
  | MESSAGE_REQUEST => 1
  | MESSAGE_RESPONSE => 2
  | MESSAGE_ERROR => 3
  | MESSAGE_SIGNAL => 4
  end.

(** The payload pointer is an address of the C heap, [None] for [NULL]. *)
Record message := Message {
  m_from : Z;
  m_to : Z;
  m_session : Z;
  m_type : Z;
  m_msg : option Z;
  m_sz : Z
}.

#[export] Instance message_eq_dec : EqDecision message.
Proof. solve_decision. Defined.

(** A message with every field zero, as [calloc] leaves it. *)
Definition message_zero : message := Message 0 0 0 0 None 0.

(** ** The C heap seen by payloads: the set of live blocks *)

(** [free(p)]: nothing on [NULL]; freeing a block that is not live is
    undefined behaviour, the result [None]. *)
Definition c_free (p : option Z) (h : gset Z) : option (gset Z) :=
  match p with
  | None => Some h
  | Some a => if decide (a ∈ h) then Some (h ∖ {[a]}) else None
  end.

(** [message_dispose]: [None] as an argument is the [NULL] pointer. *)
Definition message_dispose (m : option message) (h : gset Z) :
    option (option message * gset Z) :=
  match m with
  | None => Some (None, h)
  | Some m =>
    match c_free (m_msg m) h with
    | Some h' =>
      Some (Some (Message (m_from m) (m_to m) (m_session m) (m_type m) None 0), h')
    | None => None
    end
  end.

(** ** Lemmas *)

Lemma c_free_live a h : a ∈ h -> c_free (Some a) h = Some (h ∖ {[a]}).
Proof. intros H. unfold c_free. by rewrite decide_True. Qed.

(** Disposing of a message twice is harmless: the first call clears the
    pointer, so the second frees nothing. *)
Lemma message_dispose_idempotent m h m' h' :
  message_dispose (Some m) h = Some (m', h') ->
  message_dispose m' h' = Some (m', h').
Proof. unfold message_dispose. intros H. by repeat case_match; simplify_eq/=. Qed.
