(* ===== verification/Mailbox.v ===== *)
(** * Mailbox: the growable ring buffer behind every service (src/mailbox.c)

    The structure [struct mailbox] as a record, the spinlock's atomic
    operations, one function per critical section, and the operations built
    from them.  [mailbox_try_push] releases the lock around [malloc], so it is
    a machine of atomic steps; the uncontended operation runs that machine, and
    [MailboxConc] interleaves it with other threads. *)

From S2P Require Import Prelude Message.

(** ** Data *)

(** A slot of [items]: [None] is memory [malloc] left uninitialised. *)
Definition cell : Type := option message.

Definition sizeof_message : Z := 32.

Record mailbox := Mailbox {
  mb_locked : bool;
  mb_items : list cell;
  mb_capacity : Z;
  mb_head : Z;
  mb_tail : Z;
  mb_count : Z;
  mb_initial_capacity : Z;
  mb_overload : Z;
  mb_overload_threshold : Z;
  mb_closed : bool;
  mb_scheduled : bool
}.

Inductive mailbox_result := MAILBOX_OK | MAILBOX_FULL | MAILBOX_CLOSED.

#[export] Instance mailbox_result_eq_dec : EqDecision mailbox_result.
Proof. solve_decision. Defined.

(** ** The spinlock: the atomic accesses of [spin_lock] and [spin_unlock] *)

Definition set_locked (b : bool) (box : mailbox) : mailbox :=
  Mailbox b (mb_items box) (mb_capacity box) (mb_head box) (mb_tail box)
    (mb_count box) (mb_initial_capacity box) (mb_overload box)
    (mb_overload_threshold box) (mb_closed box) (mb_scheduled box).

(** [spin_lock] alternates an exchange with relaxed loads: [Exchange] is the
    attempt, [Spin] the inner loop that waits for the lock to look free. *)
Inductive lock_phase := Exchange | Spin.

(** One access of [spin_lock]: [None] when the lock is taken. *)
Definition spin_lock_step (ph : lock_phase) (box : mailbox) : option lock_phase * mailbox :=
  match ph with
  | Exchange =>
    if mb_locked box then (Some Spin, set_locked true box)
    else (None, set_locked true box)
  | Spin => if mb_locked box then (Some Spin, box) else (Some Exchange, box)
  end.

Definition spin_unlock (box : mailbox) : mailbox := set_locked false box.

(** ** [mailbox_new] *)

(** [calloc(n, size)] fails when the product overflows, whatever the
    allocator has ([calloc_ok]). *)
Definition mailbox_new (calloc_ok : bool) (capacity : Z) : option mailbox :=
  if capacity =? 0 then None
  else if calloc_ok && (capacity * sizeof_message <=? SIZE_MAX) then
    Some (Mailbox false (replicate (Z.to_nat capacity) (Some message_zero))
            capacity 0 0 0 capacity 0 capacity false false)
  else None.

(** ** Critical sections *)

(** The copy loop of [grow_locked], from index [i], [n] iterations left. *)
Fixpoint grow_copy (n : nat) (i : Z) (old grown : list cell) (head capacity : Z) : list cell :=
  match n with
  | O => grown
  | S n' =>
    let src := size_add head i mod capacity in
    grow_copy n' (size_add i 1) old
      (arr_set grown i (default None (arr_get old src))) head capacity
  end.

(** [grow_locked]: the mailbox over the new buffer, and the old buffer. *)
Definition grow_locked (box : mailbox) (grown : list cell) : mailbox * list cell :=
  let old := mb_items box in
  let grown' := grow_copy (Z.to_nat (mb_count box)) 0 old grown (mb_head box) (mb_capacity box) in
  (Mailbox (mb_locked box) grown' (size_mul (mb_capacity box) 2) 0 (mb_count box)
     (mb_count box) (mb_initial_capacity box) (mb_overload box)
     (mb_overload_threshold box) (mb_closed box) (mb_scheduled box),
   old).

(** The end of [mailbox_try_push], after the loop: result and [*notify]. *)
Definition push_store (m : message) (box : mailbox) : (mailbox_result * bool) * mailbox :=
  if mb_closed box then ((MAILBOX_CLOSED, false), box)
  else
    ((MAILBOX_OK, negb (mb_scheduled box)),
     Mailbox (mb_locked box) (arr_set (mb_items box) (mb_tail box) (Some m))
       (mb_capacity box) (mb_head box)
       (size_add (mb_tail box) 1 mod mb_capacity box)
       (size_add (mb_count box) 1) (mb_initial_capacity box) (mb_overload box)
       (mb_overload_threshold box) (mb_closed box) true).

(** The overload loop of [mailbox_try_pop]; the threshold doubles, so the
    width of [size_t] bounds the iterations. *)
Fixpoint overload_loop (fuel : nat) (count overload threshold : Z) : Z * Z :=
  match fuel with
  | O => (overload, threshold)
  | S fuel' =>
    if threshold <? count then overload_loop fuel' count count (size_mul threshold 2)
    else (overload, threshold)
  end.

(** The critical section of [mailbox_try_pop]: [None] is [found = false],
    [Some c] the slot copied to [*out]. *)
Definition pop_locked (box : mailbox) : option cell * mailbox :=
  if 0 <? mb_count box then
    let out := default None (arr_get (mb_items box) (mb_head box)) in
    let count := size_sub (mb_count box) 1 in
    let '(overload, threshold) :=
      overload_loop 64 count (mb_overload box) (mb_overload_threshold box) in
    (Some out,
     Mailbox (mb_locked box) (mb_items box) (mb_capacity box)
       (size_add (mb_head box) 1 mod mb_capacity box) (mb_tail box) count
       (mb_initial_capacity box) overload threshold (mb_closed box) (mb_scheduled box))
  else
    (None,
     Mailbox (mb_locked box) (mb_items box) (mb_capacity box) (mb_head box)
       (mb_tail box) (mb_count box) (mb_initial_capacity box) (mb_overload box)
       (mb_initial_capacity box) (mb_closed box) false).

Definition set_scheduled (b : bool) (box : mailbox) : mailbox :=
  Mailbox (mb_locked box) (mb_items box) (mb_capacity box) (mb_head box)
    (mb_tail box) (mb_count box) (mb_initial_capacity box) (mb_overload box)
    (mb_overload_threshold box) (mb_closed box) b.

Definition finish_batch_locked (box : mailbox) : bool * mailbox :=
  let more := negb (mb_closed box) && (0 <? mb_count box) in
  (more, if more then box else set_scheduled false box).

Definition overload_locked (box : mailbox) : Z * mailbox :=
  (mb_overload box,
   Mailbox (mb_locked box) (mb_items box) (mb_capacity box) (mb_head box)
     (mb_tail box) (mb_count box) (mb_initial_capacity box) 0
     (mb_overload_threshold box) (mb_closed box) (mb_scheduled box)).

Definition capacity_locked (box : mailbox) : Z * mailbox := (mb_capacity box, box).

Definition close_locked (box : mailbox) : unit * mailbox :=
  (tt,
   Mailbox (mb_locked box) (mb_items box) (mb_capacity box) (mb_head box)
     (mb_tail box) (mb_count box) (mb_initial_capacity box) (mb_overload box)
     (mb_overload_threshold box) true (mb_scheduled box)).

(** ** [mailbox_try_push] as a machine

    A program counter names the next atomic step.  [spare] and [garbage] are
    the local buffers; the steps from [PushTest] to [PushRelease] run with the
    lock held.  [ok] is the allocator's answer. *)
Inductive push_pc :=
| PushAcquire (ph : lock_phase)
| PushTest (spare : option (list cell))
| PushAlloc (capacity : Z)
| PushReacquire (ph : lock_phase) (capacity : Z) (spare : list cell)
| PushRecheck (capacity : Z) (spare : list cell)
| PushStore (spare garbage : option (list cell))
| PushRelease (result : mailbox_result) (notify : bool) (spare garbage : option (list cell))
| PushDone (result : mailbox_result) (notify : bool).

Definition push_step (m : message) (ok : bool) (pc : push_pc) (box : mailbox) :
    push_pc * mailbox :=
  match pc with
  | PushAcquire ph =>
    let '(next, box') := spin_lock_step ph box in
    (from_option PushAcquire (PushTest None) next, box')
  | PushTest spare =>
    if negb (mb_closed box) && (mb_count box =? mb_capacity box) then
      match spare with
      | Some grown =>
        let '(box', old) := grow_locked box grown in
        (PushStore None (Some old), box')
      | None => (PushAlloc (mb_capacity box), spin_unlock box)
      end
    else (PushStore spare None, box)
  | PushAlloc capacity =>
    if (capacity <=? SIZE_MAX / 2 / sizeof_message) && ok then
      (PushReacquire Exchange capacity (replicate (Z.to_nat (size_mul capacity 2)) None), box)
    else (PushDone MAILBOX_FULL false, box)
  | PushReacquire ph capacity spare =>
    let '(next, box') := spin_lock_step ph box in
    (from_option (fun ph' => PushReacquire ph' capacity spare)
       (PushRecheck capacity spare) next, box')
  | PushRecheck capacity spare =>
    (PushTest (if mb_capacity box =? capacity then Some spare else None), box)
  | PushStore spare garbage =>
    let '((result, notify), box') := push_store m box in
    (PushRelease result notify spare garbage, box')
  | PushRelease result notify _ _ => (PushDone result notify, spin_unlock box)
  | PushDone result notify => (PushDone result notify, box)
  end.

(** Run the machine alone until it is done. *)
Fixpoint push_run (fuel : nat) (m : message) (ok : bool) (pc : push_pc) (box : mailbox) :
    option ((mailbox_result * bool) * mailbox) :=
  match pc, fuel with
  | PushDone result notify, _ => Some ((result, notify), box)
  | _, O => None
  | _, S fuel' => let '(pc', box') := push_step m ok pc box in push_run fuel' m ok pc' box'
  end.

(** ** The operations without contention

    On a mailbox whose lock is held and never released the call spins for
    ever: the result [None]. *)

Definition mailbox_try_push (ok : bool) (m : message) (box : mailbox) :
    option ((mailbox_result * bool) * mailbox) :=
  push_run 8 m ok (PushAcquire Exchange) box.

Definition with_lock {R} (body : mailbox -> R * mailbox) (box : mailbox) :
    option (R * mailbox) :=
  match spin_lock_step Exchange box with
  | (Some _, _) => None
  | (None, box1) => let '(r, box2) := body box1 in Some (r, spin_unlock box2)
  end.

Definition mailbox_try_pop := with_lock pop_locked.
Definition mailbox_finish_batch := with_lock finish_batch_locked.
Definition mailbox_overload := with_lock overload_locked.
Definition mailbox_capacity := with_lock capacity_locked.
Definition mailbox_close := with_lock close_locked.

(** The drain loop of [mailbox_delete]; [fuel] bounds the pops.  The result is
    the heap after disposing of every payload. *)
Fixpoint delete_loop (fuel : nat) (box : mailbox) (h : gset Z) : option (gset Z) :=
  match fuel with
  | O => None
  | S fuel' =>
    match mailbox_try_pop box with
    | None => None
    | Some (None, _) => Some h
    | Some (Some c, box') =>
      match c with
      | None => None
      | Some m =>
        match message_dispose (Some m) h with
        | Some (_, h') => delete_loop fuel' box' h'
        | None => None
        end
      end
    end
  end.

Definition mailbox_delete (box : option mailbox) (h : gset Z) : option (gset Z) :=
  match box with
  | None => Some h
  | Some box =>
    match mailbox_close box with
    | None => None
    | Some (_, box') => delete_loop (S (Z.to_nat (mb_count box'))) box' h
    end
  end.
