(* ===== verification/Queue.v ===== *)
(** * Queue: what a mailbox promises

    The abstract specification of [src/mailbox.h]: a FIFO queue that grows
    when it fills, a wake-up flag raised by the first push after a rearm and
    lowered by a pop that finds nothing (or by a batch that leaves nothing),
    and the overload report.  [Inbox] is the interface other components use:
    operations on some representation, and the laws that tie each of them to
    the queue it stands for. *)

From S2P Require Import Prelude Message Mailbox.

Record queue := Queue {
  q_items : list message;
  q_capacity : Z;
  q_initial : Z;
  q_overload : Z;
  q_threshold : Z;
  q_closed : bool;
  q_scheduled : bool
}.

Definition queue_new (capacity : Z) : queue :=
  Queue [] capacity capacity 0 capacity false false.

Definition q_length (q : queue) : Z := Z.of_nat (length (q_items q)).

(** A push appends; the capacity doubles when the queue is full, and the
    producer is told to notify when nobody has been told before. *)
Definition q_push (m : message) (q : queue) : (mailbox_result * bool) * queue :=
  if q_closed q then ((MAILBOX_CLOSED, false), q)
  else
    ((MAILBOX_OK, negb (q_scheduled q)),
     Queue (q_items q ++ [m])
       (if q_length q =? q_capacity q then q_capacity q * 2 else q_capacity q)
       (q_initial q) (q_overload q) (q_threshold q) false true).

(** The threshold after a report of length [n]: the first [t * 2 ^ k] that is
    not below [n]. *)
Definition next_threshold (n t : Z) : Z :=
  if t <? n then t * 2 ^ Z.log2_up ((n + t - 1) / t) else t.

Definition q_pop (q : queue) : option message * queue :=
  match q_items q with
  | [] =>
    (None, Queue [] (q_capacity q) (q_initial q) (q_overload q) (q_initial q)
             (q_closed q) false)
  | m :: rest =>
    let n := Z.of_nat (length rest) in
    (Some m, Queue rest (q_capacity q) (q_initial q)
               (if q_threshold q <? n then n else q_overload q)
               (next_threshold n (q_threshold q)) (q_closed q) (q_scheduled q))
  end.

(** A batch continues when the open queue still holds messages. *)
Definition q_finish_batch (q : queue) : bool * queue :=
  let more := negb (q_closed q) && negb (bool_decide (q_items q = [])) in
  (more, Queue (q_items q) (q_capacity q) (q_initial q) (q_overload q)
           (q_threshold q) (q_closed q) (more && q_scheduled q)).

Definition q_take_overload (q : queue) : Z * queue :=
  (q_overload q, Queue (q_items q) (q_capacity q) (q_initial q) 0
                   (q_threshold q) (q_closed q) (q_scheduled q)).

Definition q_close (q : queue) : unit * queue :=
  (tt, Queue (q_items q) (q_capacity q) (q_initial q) (q_overload q)
         (q_threshold q) true (q_scheduled q)).

(** ** The interface *)

Class Inbox (B : Type) := {
  inbox_push : bool -> message -> B -> option ((mailbox_result * bool) * B);
  inbox_pop : B -> option (option message * B);
  inbox_finish_batch : B -> option (bool * B);
  inbox_overload : B -> option (Z * B);
  inbox_close : B -> option (unit * B);
  inbox_delete : B -> gset Z -> option (gset Z);
  inbox_repr : B -> queue -> Prop
}.

(** [lifts op b r q]: the operation returns [r] on [b], in a state that stands
    for [q]. *)
Definition lifts {B R} `{Inbox B} (out : option (R * B)) (spec : R * queue) : Prop :=
  exists b', out = Some (fst spec, b') /\ inbox_repr b' (snd spec).

(** The payloads the queued messages own. *)
Definition q_payloads (q : queue) : list Z := omap m_msg (q_items q).

(** A push can only be refused for lack of memory when the queue is full. *)
Definition q_can_push (max : Z) (ok : bool) (q : queue) : bool :=
  q_closed q || negb (q_length q =? q_capacity q) || (ok && (q_capacity q <=? max)).

(** The laws: each operation returns what the queue's operation returns and
    leaves a representation of the queue's new state. *)
Class InboxLaws (B : Type) `{Inbox B} (max : Z) := {
  inbox_push_law ok m b q :
    inbox_repr b q -> q_can_push max ok q = true ->
    lifts (inbox_push ok m b) (q_push m q);
  inbox_push_full ok m b q :
    inbox_repr b q -> q_can_push max ok q = false ->
    lifts (inbox_push ok m b) ((MAILBOX_FULL, false), q);
  inbox_pop_law b q : inbox_repr b q -> lifts (inbox_pop b) (q_pop q);
  inbox_finish_batch_law b q :
    inbox_repr b q -> lifts (inbox_finish_batch b) (q_finish_batch q);
  inbox_overload_law b q :
    inbox_repr b q -> lifts (inbox_overload b) (q_take_overload q);
  inbox_close_law b q : inbox_repr b q -> lifts (inbox_close b) (q_close q);
  inbox_delete_law b q h :
    inbox_repr b q -> NoDup (q_payloads q) -> Forall (fun a => a ∈ h) (q_payloads q) ->
    inbox_delete b h = Some (h ∖ list_to_set (q_payloads q))
}.

(** ** Lemmas *)

(** The closed form is the least doubling that reaches the length. *)
Lemma next_threshold_ge n t : 0 < t -> n <= next_threshold n t.
Proof.
  intros Ht. unfold next_threshold. ztest; [|lia].
  set (c := (n + t - 1) / t).
  assert (Hc : n <= t * c /\ 0 < c).
  { unfold c. split.
    - pose proof (Z.div_mod (n + t - 1) t ltac:(lia)).
      pose proof (Z.mod_pos_bound (n + t - 1) t Ht). lia.
    - apply Z.div_str_pos. lia. }
  assert (c <= 2 ^ Z.log2_up c) by (apply Z.log2_up_le_pow2; lia). nia.
Qed.

Lemma next_threshold_pos n t : 0 < t -> t <= next_threshold n t.
Proof.
  intros Ht. unfold next_threshold. ztest; [|lia].
  assert (0 < 2 ^ Z.log2_up ((n + t - 1) / t)) by (apply Z.pow_pos_nonneg; [lia|apply Z.log2_up_nonneg]).
  nia.
Qed.

(** One doubling step of the report loop. *)
Lemma next_threshold_step n t :
  0 < t -> t < n -> next_threshold n t = next_threshold n (t * 2).
Proof.
  intros Ht Hn.
  assert (Hd : forall s, 0 < s -> forall k, 0 <= k ->
    (n <= s * 2 ^ k <-> Z.log2_up ((n + s - 1) / s) <= k \/ n <= s)).
  { intros s Hs k Hk. assert (0 < 2 ^ k) by (apply Z.pow_pos_nonneg; lia).
    destruct (Z.le_gt_cases n s) as [?|Hns]; [split; [tauto|intros; nia]|].
    assert (0 < (n + s - 1) / s) by (apply Z.div_str_pos; lia).
    rewrite <- Z.log2_up_le_pow2 by done.
    pose proof (Z.div_mod (n + s - 1) s ltac:(lia)).
    pose proof (Z.mod_pos_bound (n + s - 1) s Hs).
    split; [intros; left; nia|intros [?|?]; nia]. }
  set (k := Z.log2_up ((n + t - 1) / t)).
  assert (Hk : 0 <= k) by apply Z.log2_up_nonneg.
  assert (H1 : n <= t * 2 ^ k) by (apply Hd; [lia|lia|left; reflexivity]).
  assert (Hk1 : 1 <= k).
  { destruct (Z.eq_dec k 0) as [E|]; [|lia]. rewrite E in H1. simpl in H1. lia. }
  unfold next_threshold. fold k. destruct (Z.ltb_spec t n); [|lia].
  destruct (Z.ltb_spec (t * 2) n) as [H2|H2].
  - set (j := Z.log2_up ((n + t * 2 - 1) / (t * 2))).
    assert (Hj : 0 <= j) by apply Z.log2_up_nonneg.
    assert (E : j = k - 1); [|rewrite E, <- Z.mul_assoc, <- Z.pow_succ_r by lia; do 2 f_equal; lia].
    assert (Hpow : forall i, 0 <= i -> t * 2 * 2 ^ i = t * 2 ^ (i + 1)).
    { intros i Hi. rewrite Z.pow_add_r by lia. lia. }
    apply Z.le_antisymm.
    + assert (Hx : n <= t * 2 * 2 ^ (k - 1)) by (rewrite Hpow, Z.sub_add by lia; lia).
      apply Hd in Hx; lia.
    + assert (Hx : n <= t * 2 * 2 ^ j) by (apply Hd; [lia|lia|left; reflexivity]).
      rewrite Hpow in Hx by lia. apply Hd in Hx; [fold k in Hx; lia|lia|lia].
  - assert (Hx : n <= t * 2 ^ 1) by lia.
    apply Hd in Hx; [|lia|lia]. fold k in Hx.
    assert (E : k = 1) by lia. rewrite E. lia.
Qed.

(** The closed form is a number of doublings, and no smaller number reaches. *)
Lemma next_threshold_least n t :
  0 < t ->
  exists k, 0 <= k /\ next_threshold n t = t * 2 ^ k /\ forall j, 0 <= j < k -> t * 2 ^ j < n.
Proof.
  intros Ht. unfold next_threshold. destruct (Z.ltb_spec t n) as [Hn|Hn].
  - set (c := (n + t - 1) / t). exists (Z.log2_up c).
    split; [apply Z.log2_up_nonneg|]. split; [done|]. intros j Hj.
    assert (Hc : 0 < c) by (apply Z.div_str_pos; lia).
    assert (Hx : 2 ^ j < c) by (apply Z.log2_up_lt_pow2; lia).
    assert (t * c <= n + t - 1) by (apply Z.mul_div_le; lia). nia.
  - exists 0. split; [lia|]. split; [lia|]. lia.
Qed.
