(* ===== verification/MailboxCorrect.v ===== *)
(** * MailboxCorrect: the ring buffer implements the queue

    The representation invariant of [struct mailbox], that every critical
    section keeps it and has the effect of the queue's operation, that no index
    or size computation wraps, and the [Inbox] instance of the mailbox. *)

From S2P Require Import Prelude Message Mailbox Queue.

(** ** The representation invariant *)

Definition CAPACITY_MAX : Z := SIZE_MAX / sizeof_message.

Record mb_wf (box : mailbox) : Prop := {
  wf_capacity : 0 < mb_capacity box <= CAPACITY_MAX;
  wf_items : Z.of_nat (length (mb_items box)) = mb_capacity box;
  wf_head : 0 <= mb_head box < mb_capacity box;
  wf_count : 0 <= mb_count box <= mb_capacity box;
  wf_tail : mb_tail box = (mb_head box + mb_count box) mod mb_capacity box;
  wf_initial : 0 < mb_initial_capacity box <= mb_capacity box;
  wf_threshold :
    mb_initial_capacity box <= mb_overload_threshold box <= 2 * mb_capacity box;
  wf_overload : 0 <= mb_overload box <= mb_capacity box
}.

(** Position [i] of the queue lives in slot [(head + i) % capacity]. *)
Definition ring_holds (box : mailbox) (ms : list message) : Prop :=
  forall i m, ms !! i = Some m ->
    arr_get (mb_items box) ((mb_head box + Z.of_nat i) mod mb_capacity box) = Some (Some m).

Record mb_rep (box : mailbox) (q : queue) : Prop := {
  rep_wf : mb_wf box;
  rep_count : mb_count box = q_length q;
  rep_items : ring_holds box (q_items q);
  rep_capacity : mb_capacity box = q_capacity q;
  rep_initial : mb_initial_capacity box = q_initial q;
  rep_overload : mb_overload box = q_overload q;
  rep_threshold : mb_overload_threshold box = q_threshold q;
  rep_closed : mb_closed box = q_closed q;
  rep_scheduled : mb_scheduled box = q_scheduled q
}.

(** A mailbox whose lock is free and that stands for a queue. *)
Definition mb_idle (box : mailbox) (q : queue) : Prop :=
  mb_locked box = false /\ mb_rep box q.

(** ** Bounds *)

Lemma CAPACITY_MAX_eq : CAPACITY_MAX = 2 ^ 59 - 1.
Proof. reflexivity. Qed.

Lemma SIZE_MAX_eq : SIZE_MAX = 2 ^ 64 - 1.
Proof. reflexivity. Qed.

Ltac size_lia :=
  rewrite ?CAPACITY_MAX_eq, ?SIZE_MAX_eq in *; unfold q_length in *; lia.

(** The well-formedness facts of a mailbox as arithmetic hypotheses. *)
Ltac wf_facts H :=
  pose proof (wf_capacity _ H); pose proof (wf_items _ H);
  pose proof (wf_head _ H); pose proof (wf_count _ H);
  pose proof (wf_initial _ H); pose proof (wf_threshold _ H);
  pose proof (wf_overload _ H).

Ltac rep_facts H :=
  let Hwf := fresh "Hwf" in
  pose proof (rep_wf _ _ H) as Hwf; wf_facts Hwf;
  pose proof (rep_count _ _ H); pose proof (rep_capacity _ _ H);
  pose proof (rep_initial _ _ H); pose proof (rep_overload _ _ H);
  pose proof (rep_threshold _ _ H); pose proof (rep_closed _ _ H);
  pose proof (rep_scheduled _ _ H).

(** The lock bit is not part of what a mailbox stands for. *)
Lemma rep_set_locked b box q : mb_rep (set_locked b box) q <-> mb_rep box q.
Proof.
  split; intros [[] ? ? ? ? ? ? ? ?]; repeat split; simpl in *; try done; lia.
Qed.

Lemma rep_unlock box q : mb_rep box q -> mb_idle (spin_unlock box) q.
Proof. intros H. split; [done|]. by apply rep_set_locked. Qed.

#[export] Hint Resolve rep_unlock rep_wf : svc.

(** Two positions of the queue never share a slot. *)
Lemma ring_slot_inj cap head i j :
  0 <= head < cap -> 0 <= i < cap -> 0 <= j < cap ->
  (head + i) mod cap = (head + j) mod cap -> i = j.
Proof.
  intros Hh Hi Hj. rewrite !mod_once by lia.
  repeat ztest; lia.
Qed.

(** ** [mailbox_new] *)

Lemma mailbox_new_rep ok cap box :
  0 <= cap -> mailbox_new ok cap = Some box -> mb_idle box (queue_new cap).
Proof.
  unfold mailbox_new, mb_idle. intros Hc H.
  destruct (Z.eqb_spec cap 0); [done|].
  destruct (ok && _) eqn:E; [|done]. injection H as <-.
  apply andb_prop in E as [_ E]. apply Z.leb_le in E.
  assert (cap <= CAPACITY_MAX) by (apply Z.div_le_lower_bound; unfold sizeof_message in *; lia).
  split; [done|]. repeat split; simpl; try lia.
  - rewrite length_replicate. lia.
  - intros i m. by rewrite lookup_nil.
Qed.

(** ** Growing *)

Lemma grow_copy_length n i old grown head cap :
  length (grow_copy n i old grown head cap) = length grown.
Proof.
  revert i grown. induction n as [|n IH]; intros i grown; simpl; [done|].
  by rewrite IH, length_arr_set.
Qed.

Lemma grow_copy_below n i old grown head cap j :
  0 <= i -> i + Z.of_nat n <= SIZE_MAX -> j < i ->
  arr_get (grow_copy n i old grown head cap) j = arr_get grown j.
Proof.
  revert i grown. induction n as [|n IH]; intros i grown Hi Hn Hj; simpl; [done|].
  rewrite size_add_small by lia.
  rewrite IH by lia. apply arr_get_set_ne. lia.
Qed.

(** The copy loop puts position [j] of the old ring in slot [j]. *)
Lemma grow_copy_at n i old grown head cap j :
  0 <= i -> i + Z.of_nat n <= Z.of_nat (length grown) ->
  Z.of_nat (length grown) <= SIZE_MAX -> 0 <= head -> head + i + Z.of_nat n <= SIZE_MAX ->
  i <= j < i + Z.of_nat n ->
  arr_get (grow_copy n i old grown head cap) j =
    Some (default None (arr_get old ((head + j) mod cap))).
Proof.
  revert i grown. induction n as [|n IH]; intros i grown Hi Hn Hlen Hh Hs Hj; [lia|].
  simpl. rewrite !size_add_small by lia.
  destruct (Z.eq_dec j i) as [->|Hne].
  - rewrite grow_copy_below by lia. apply arr_get_set_eq. lia.
  - apply IH; rewrite ?length_arr_set; lia.
Qed.

(** The queue behind a mailbox that has grown. *)
Definition q_grow (q : queue) : queue :=
  Queue (q_items q) (q_capacity q * 2) (q_initial q) (q_overload q) (q_threshold q)
    (q_closed q) (q_scheduled q).

Lemma grow_locked_rep box q grown :
  mb_rep box q -> mb_capacity box * 2 <= CAPACITY_MAX ->
  Z.of_nat (length grown) = mb_capacity box * 2 ->
  mb_rep (fst (grow_locked box grown)) (q_grow q).
Proof.
  intros H Hmax Hlen. rep_facts H. unfold grow_locked; simpl.
  rewrite size_mul_small by size_lia.
  split; simpl; try done; try size_lia.
  - split; simpl; try size_lia.
    + rewrite grow_copy_length. lia.
    + symmetry. apply Z.mod_small. size_lia.
  - intros i m Hi. simpl. pose proof (lookup_lt_Some _ _ _ Hi).
    rewrite Z.mod_small by size_lia.
    rewrite Z.add_0_l, grow_copy_at by size_lia.
    by rewrite (rep_items _ _ H i m Hi).
Qed.

(** ** Pushing *)

Lemma push_store_rep m box q :
  mb_rep box q -> q_closed q = true \/ mb_count box < mb_capacity box ->
  fst (push_store m box) = fst (q_push m q) /\
  mb_rep (snd (push_store m box)) (snd (q_push m q)).
Proof.
  intros H Hroom. rep_facts H. unfold push_store, q_push.
  replace (mb_closed box) with (q_closed q) by done.
  destruct (q_closed q) eqn:Ec; [done|]. destruct Hroom as [?|Hroom]; [done|].
  simpl. split; [congruence|].
  pose proof (wf_tail _ Hwf) as Ht.
  pose proof (mod_range (mb_head box + mb_count box) (mb_capacity box) ltac:(lia)).
  rewrite !size_add_small by size_lia.
  destruct (Z.eqb_spec (q_length q) (q_capacity q)); [size_lia|].
  split; simpl; try done; try size_lia.
  - split; simpl; rewrite ?length_arr_set; try size_lia.
    rewrite Ht, mod_add_l. f_equal. lia.
  - unfold q_length in *. simpl. rewrite length_app. simpl. lia.
  - intros i m' Hi. simpl. apply lookup_app_Some in Hi as [Hi|[Hlen Hi]].
    + pose proof (lookup_lt_Some _ _ _ Hi).
      rewrite arr_get_set_ne; [by apply (rep_items _ _ H)|].
      rewrite Ht. intros E. apply ring_slot_inj in E; size_lia.
    + apply list_lookup_singleton_Some in Hi as [Hi <-].
      replace (Z.of_nat i) with (mb_count box) by size_lia.
      rewrite <- Ht. apply arr_get_set_eq. lia.
Qed.

(** ** Popping *)

(** The report loop stops by its test, not by its bound, and agrees with the
    closed form. *)
Lemma overload_loop_spec fuel n ov t :
  0 < t -> n <= t * 2 ^ Z.of_nat fuel -> 2 * n <= SIZE_MAX ->
  overload_loop fuel n ov t = (if t <? n then n else ov, next_threshold n t).
Proof.
  revert ov t. induction fuel as [|fuel IH]; intros ov t Ht Hn Hmax.
  - simpl in *. unfold next_threshold. ztest; [lia|done].
  - cbn [overload_loop]. ztest; [|unfold next_threshold; by destruct (Z.ltb_spec t n); [lia|]].
    rewrite size_mul_small by lia.
    rewrite IH; [|lia| |done].
    + rewrite <- next_threshold_step by done. by case_match.
    + rewrite Nat2Z.inj_succ, Z.pow_succ_r in Hn by lia. lia.
Qed.

#[global] Arguments overload_loop : simpl never.

Lemma overload_loop_upper n t : 0 < t -> next_threshold n t <= Z.max t (2 * n).
Proof.
  intros Ht. unfold next_threshold. ztest; [|lia].
  set (c := (n + t - 1) / t).
  assert (Hc : 1 < c).
  { unfold c. apply Z.lt_le_trans with 2; [lia|].
    apply Z.div_le_lower_bound; lia. }
  pose proof (Z.log2_up_spec c Hc) as [Hlo _].
  assert (Hl : 0 < Z.log2_up c) by (apply Z.log2_up_pos; lia).
  assert (E : 2 ^ Z.log2_up c = 2 * 2 ^ Z.pred (Z.log2_up c)).
  { rewrite <- Z.pow_succ_r by lia. f_equal. lia. }
  assert (t * c <= n + t - 1) by (apply Z.mul_div_le; lia).
  nia.
Qed.

Lemma pop_locked_empty box q :
  mb_rep box q -> q_items q = [] ->
  fst (pop_locked box) = None /\ mb_rep (snd (pop_locked box)) (snd (q_pop q)).
Proof.
  intros H E. rep_facts H. unfold pop_locked, q_pop, q_length in *. rewrite E in *.
  simpl in *. destruct (Z.ltb_spec 0 (mb_count box)); [lia|]. split; [done|].
  repeat split; simpl; try done; try size_lia; apply Hwf.
Qed.

Lemma pop_locked_some box q m rest :
  mb_rep box q -> q_items q = m :: rest ->
  fst (pop_locked box) = Some (Some m) /\ mb_rep (snd (pop_locked box)) (snd (q_pop q)).
Proof.
  intros H E. rep_facts H. pose proof (rep_items _ _ H) as Hr.
  unfold pop_locked, q_pop, q_length in *. rewrite E in *. simpl in *.
  destruct (Z.ltb_spec 0 (mb_count box)); [|lia].
  assert (Hn : size_sub (mb_count box) 1 = Z.of_nat (length rest)).
  { rewrite size_sub_small; size_lia. }
  rewrite Hn, overload_loop_spec; [|lia| |size_lia].
  2: { assert (2 ^ 59 <= 2 ^ Z.of_nat 64) by (apply Z.pow_le_mono_r; lia).
       rewrite CAPACITY_MAX_eq in *. nia. }
  pose proof (overload_loop_upper (Z.of_nat (length rest)) (mb_overload_threshold box) ltac:(lia)).
  pose proof (next_threshold_pos (Z.of_nat (length rest)) (mb_overload_threshold box) ltac:(lia)).
  specialize (Hr 0%nat m eq_refl) as Hr0.
  rewrite Z.add_0_r, Z.mod_small in Hr0 by lia. rewrite Hr0.
  rewrite size_add_small by size_lia. simpl. split; [done|].
  split; simpl; try done; try congruence.
  - split; simpl; try size_lia.
    + apply mod_range. lia.
    + rewrite (wf_tail _ Hwf), mod_add_l. f_equal. lia.
    + case_match; lia.
  - intros i m' Hi. simpl. rewrite mod_add_l.
    rewrite <- (Hr (S i) m' Hi). f_equal. f_equal. lia.
  - replace (mb_overload_threshold box) with (q_threshold q) by done.
    case_match; congruence.
Qed.

(** ** The other sections *)

Lemma finish_batch_rep box q :
  mb_rep box q ->
  fst (finish_batch_locked box) = fst (q_finish_batch q) /\
  mb_rep (snd (finish_batch_locked box)) (snd (q_finish_batch q)).
Proof.
  intros H. rep_facts H. unfold finish_batch_locked, q_finish_batch.
  assert (E : (0 <? mb_count box) = negb (bool_decide (q_items q = []))).
  { unfold q_length in *. destruct (q_items q) eqn:E; simpl in *; ztest; try lia; done. }
  rewrite E. replace (mb_closed box) with (q_closed q) by done. simpl. split; [done|].
  destruct (negb (q_closed q) && negb (bool_decide (q_items q = []))); simpl.
  - destruct H; split; done.
  - destruct H as [[]]; repeat split; simpl; try done; lia.
Qed.

Lemma overload_rep box q :
  mb_rep box q ->
  fst (overload_locked box) = fst (q_take_overload q) /\
  mb_rep (snd (overload_locked box)) (snd (q_take_overload q)).
Proof.
  intros H. split; [apply H|]. destruct H as [[]]; repeat split; simpl; try done; lia.
Qed.

Lemma close_rep box q :
  mb_rep box q -> mb_rep (snd (close_locked box)) (snd (q_close q)).
Proof. intros H. destruct H as [[]]; repeat split; simpl; try done; lia. Qed.

(** ** The operations *)

(** An uncontended call locks, runs its section and unlocks. *)
Lemma with_lock_idle {R} (body : mailbox -> R * mailbox) box :
  mb_locked box = false ->
  with_lock body box =
    Some (fst (body (set_locked true box)), spin_unlock (snd (body (set_locked true box)))).
Proof.
  intros H. unfold with_lock, spin_lock_step. rewrite H. by destruct (body _).
Qed.

Lemma with_lock_lifts {R} (body : mailbox -> R * mailbox) (spec : queue -> R * queue) box q :
  (forall b q, mb_rep b q -> fst (body b) = fst (spec q) /\ mb_rep (snd (body b)) (snd (spec q))) ->
  mb_idle box q ->
  exists box', with_lock body box = Some (fst (spec q), box') /\ mb_idle box' (snd (spec q)).
Proof.
  intros Hbody [Hl Hrep]. rewrite with_lock_idle by done.
  destruct (Hbody (set_locked true box) q) as [Hr Hb]; [by apply rep_set_locked|].
  rewrite Hr. eexists. split; [done|auto with svc].
Qed.

(** [pop] hands out messages, never uninitialised slots. *)
Lemma pop_locked_rep box q :
  mb_rep box q ->
  fst (pop_locked box) = Some <$> fst (q_pop q) /\ mb_rep (snd (pop_locked box)) (snd (q_pop q)).
Proof.
  intros H. destruct (q_items q) as [|m rest] eqn:E.
  - destruct (pop_locked_empty _ _ H E) as [-> ?]. unfold q_pop in *. by rewrite E in *.
  - destruct (pop_locked_some _ _ _ _ H E) as [-> ?]. unfold q_pop in *. by rewrite E in *.
Qed.

(** The test of the push loop, seen from the queue. *)
Lemma push_full_test box q :
  mb_rep box q ->
  negb (mb_closed box) && (mb_count box =? mb_capacity box) =
  negb (q_closed q) && (q_length q =? q_capacity q).
Proof. intros H. rep_facts H. congruence. Qed.

(** What the queue does on a push once a full one has grown. *)
Lemma q_push_grow m q :
  q_closed q = false -> q_length q = q_capacity q -> 0 < q_capacity q ->
  q_push m (q_grow q) = q_push m q.
Proof.
  intros Ec E Hc. unfold q_push, q_grow, q_length in *. simpl. rewrite Ec.
  repeat ztest; try lia. done.
Qed.

(** The last part of an uncontended push, from the store on. *)
Lemma push_run_store fuel m ok spare garbage box q :
  (2 <= fuel)%nat -> mb_rep box q -> q_closed q = true \/ mb_count box < mb_capacity box ->
  exists box', push_run fuel m ok (PushStore spare garbage) box = Some (fst (q_push m q), box') /\
    mb_idle box' (snd (q_push m q)).
Proof.
  intros Hf H Hroom. destruct fuel as [|[|fuel]]; [lia|lia|].
  destruct (push_store_rep m box q H Hroom) as [Hr Hb].
  simpl. destruct (push_store m box) as [[r n] box1] eqn:E. simpl in *.
  rewrite <- Hr. destruct fuel; (eexists; split; [done|auto with svc]).
Qed.

Definition PUSH_CAPACITY_MAX : Z := SIZE_MAX / 2 / sizeof_message.

Lemma grow_capacity_ok cap :
  0 < cap <= PUSH_CAPACITY_MAX ->
  cap * 2 <= CAPACITY_MAX /\
  Z.of_nat (length (replicate (A := cell) (Z.to_nat (size_mul cap 2)) None)) = cap * 2.
Proof.
  change PUSH_CAPACITY_MAX with (2 ^ 58 - 1). intros H.
  rewrite length_replicate, size_mul_small by size_lia. size_lia.
Qed.

(** Whether the loop test of a push sends it to the allocator. *)
Definition mb_full (box : mailbox) : bool :=
  negb (mb_closed box) && (mb_count box =? mb_capacity box).

Lemma mb_full_rep box q :
  mb_rep box q -> mb_full box = negb (q_closed q) && (q_length q =? q_capacity q).
Proof. intros H. rep_facts H. unfold mb_full. congruence. Qed.

Lemma mb_full_false box q :
  mb_rep box q -> mb_full box = false -> q_closed q = true \/ mb_count box < mb_capacity box.
Proof.
  intros H. rep_facts H. rewrite (mb_full_rep _ _ H).
  destruct (q_closed q); [tauto|]. simpl. ztest; [done|]. right. lia.
Qed.

(** ** The steps of the push machine *)

Lemma push_run_S fuel m ok pc box :
  (forall r n, pc <> PushDone r n) ->
  push_run (S fuel) m ok pc box =
    let '(pc', box') := push_step m ok pc box in push_run fuel m ok pc' box'.
Proof. intros H. destruct pc; try done. by destruct (H result notify). Qed.

Lemma push_step_acquire m ok box :
  mb_locked box = false ->
  push_step m ok (PushAcquire Exchange) box = (PushTest None, set_locked true box).
Proof. intros H. unfold push_step, spin_lock_step. by rewrite H. Qed.

Lemma push_step_reacquire m ok cap spare box :
  mb_locked box = false ->
  push_step m ok (PushReacquire Exchange cap spare) box =
    (PushRecheck cap spare, set_locked true box).
Proof. intros H. unfold push_step, spin_lock_step. by rewrite H. Qed.

Lemma push_step_test_room m ok spare box :
  mb_full box = false -> push_step m ok (PushTest spare) box = (PushStore spare None, box).
Proof. unfold mb_full, push_step. by intros ->. Qed.

Lemma push_step_test_alloc m ok box :
  mb_full box = true ->
  push_step m ok (PushTest None) box = (PushAlloc (mb_capacity box), spin_unlock box).
Proof. unfold mb_full, push_step. by intros ->. Qed.

Lemma push_step_test_grow m ok grown box :
  mb_full box = true ->
  push_step m ok (PushTest (Some grown)) box =
    (PushStore None (Some (mb_items box)), fst (grow_locked box grown)).
Proof. unfold mb_full, push_step. by intros ->. Qed.

(** What [malloc] hands out for the doubled capacity. *)
Definition fresh_cells (cap : Z) : list cell := replicate (Z.to_nat (size_mul cap 2)) None.

Lemma push_step_alloc m ok cap box :
  push_step m ok (PushAlloc cap) box =
    if (cap <=? PUSH_CAPACITY_MAX) && ok then (PushReacquire Exchange cap (fresh_cells cap), box)
    else (PushDone MAILBOX_FULL false, box).
Proof. reflexivity. Qed.

Lemma length_fresh_cells cap :
  0 < cap <= PUSH_CAPACITY_MAX ->
  Z.of_nat (length (fresh_cells cap)) = cap * 2 /\ cap * 2 <= CAPACITY_MAX.
Proof. intros H. destruct (grow_capacity_ok cap H). by unfold fresh_cells. Qed.

Ltac push_next lem := rewrite push_run_S by done; rewrite lem by (done || by auto with svc).

(** ** An uncontended push *)

Lemma push_run_room m ok box q :
  mb_idle box q -> mb_full box = false ->
  exists box', mailbox_try_push ok m box = Some (fst (q_push m q), box') /\
    mb_idle box' (snd (q_push m q)).
Proof.
  intros [Hl H] Hroom. unfold mailbox_try_push.
  push_next push_step_acquire. push_next push_step_test_room.
  apply push_run_store; [lia|by apply rep_set_locked|].
  apply (mb_full_false (set_locked true box)); [by apply rep_set_locked|done].
Qed.

(** A full open mailbox with memory to spare: through the allocation, the
    second lock and the growth. *)
Lemma push_run_grow m box q :
  mb_idle box q -> mb_full box = true -> q_capacity q <= PUSH_CAPACITY_MAX ->
  exists box', mailbox_try_push true m box = Some (fst (q_push m q), box') /\
    mb_idle box' (snd (q_push m q)).
Proof.
  intros [Hl H] Hfull Hcap. rep_facts H.
  pose proof Hfull as Hq. rewrite (mb_full_rep _ _ H) in Hq.
  apply andb_prop in Hq as [Hc Hlen]. apply negb_true_iff in Hc. apply Z.eqb_eq in Hlen.
  destruct (length_fresh_cells (mb_capacity box)) as [Hfresh Hmax]; [lia|].
  assert (Hg : mb_rep (fst (grow_locked (set_locked true box) (fresh_cells (mb_capacity box))))
                 (q_grow q)).
  { apply grow_locked_rep; [by apply rep_set_locked|done|done]. }
  rewrite <- q_push_grow by (try done; lia).
  unfold mailbox_try_push. push_next push_step_acquire.
  push_next push_step_test_alloc.
  rewrite push_run_S by done. rewrite push_step_alloc.
  replace (mb_capacity (set_locked true box) <=? PUSH_CAPACITY_MAX) with true
    by (symmetry; apply Z.leb_le; simpl; lia).
  cbn [andb]. push_next push_step_reacquire. rewrite push_run_S by done.
  cbn [push_step]. simpl mb_capacity. rewrite Z.eqb_refl.
  push_next push_step_test_grow.
  apply push_run_store; [lia|done|]. right. rep_facts Hg.
  unfold q_grow, q_length in *. simpl in *. lia.
Qed.

(** Without memory the call gives up and leaves the mailbox as it was. *)
Lemma push_run_full m ok box q :
  mb_idle box q -> mb_full box = true -> ok && (q_capacity q <=? PUSH_CAPACITY_MAX) = false ->
  exists box', mailbox_try_push ok m box = Some ((MAILBOX_FULL, false), box') /\ mb_idle box' q.
Proof.
  intros [Hl H] Hfull Hok. unfold mailbox_try_push.
  push_next push_step_acquire. push_next push_step_test_alloc.
  rewrite push_run_S by done. rewrite push_step_alloc.
  rewrite andb_comm. simpl mb_capacity. rewrite (rep_capacity _ _ H), Hok.
  eexists. split; [done|]. split; [done|]. by repeat apply rep_set_locked.
Qed.

(** Every branch at once: the queue's push, or a refusal. *)
Lemma mailbox_try_push_idle ok m box q :
  mb_idle box q ->
  exists box', mailbox_try_push ok m box =
      Some (if q_can_push PUSH_CAPACITY_MAX ok q then fst (q_push m q)
            else (MAILBOX_FULL, false), box') /\
    mb_idle box' (if q_can_push PUSH_CAPACITY_MAX ok q then snd (q_push m q) else q).
Proof.
  intros Hb. unfold q_can_push. destruct (mb_full box) eqn:E.
  - pose proof E as Hq. rewrite (mb_full_rep _ _ (proj2 Hb)) in Hq.
    apply andb_prop in Hq as [Hc Hl]. apply negb_true_iff in Hc. rewrite Hc, Hl.
    destruct (ok && (q_capacity q <=? PUSH_CAPACITY_MAX)) eqn:Hok.
    + apply andb_prop in Hok as [-> Hok]. apply Z.leb_le in Hok. by apply push_run_grow.
    + by apply push_run_full.
  - destruct (push_run_room m ok _ _ Hb E) as (box' & ? & ?). exists box'.
    rewrite (mb_full_rep _ _ (proj2 Hb)) in E.
    by destruct (q_closed q), (q_length q =? q_capacity q).
Qed.

(** ** Deleting *)

Lemma mailbox_close_idle box q :
  mb_idle box q -> exists box', mailbox_close box = Some (tt, box') /\ mb_idle box' (snd (q_close q)).
Proof.
  apply (with_lock_lifts close_locked q_close). intros b q' H. split; [done|by apply close_rep].
Qed.

Lemma mailbox_try_pop_idle box q :
  mb_idle box q ->
  exists box', mailbox_try_pop box = Some (Some <$> fst (q_pop q), box') /\
    mb_idle box' (snd (q_pop q)).
Proof.
  intros Hb. destruct (with_lock_lifts pop_locked (fun q => (Some <$> fst (q_pop q), snd (q_pop q))) box q)
    as (box' & ? & ?); [apply pop_locked_rep|done|eauto].
Qed.

(** Popping until the queue is empty disposes of each payload once. *)
Lemma delete_loop_spec fuel box q h :
  mb_idle box q -> (length (q_items q) < fuel)%nat ->
  NoDup (q_payloads q) -> Forall (fun a => a ∈ h) (q_payloads q) ->
  delete_loop fuel box h = Some (h ∖ list_to_set (q_payloads q)).
Proof.
  revert box q h. induction fuel as [|fuel IH]; intros box q h Hb Hf Hnd Hin; [lia|].
  cbn [delete_loop]. destruct (mailbox_try_pop_idle _ _ Hb) as (box' & -> & Hb').
  unfold q_pop, q_payloads in *. destruct (q_items q) as [|m rest] eqn:E; simpl in *.
  - f_equal. set_solver.
  - destruct (m_msg m) as [a|] eqn:Em; simpl in *.
    + apply NoDup_cons in Hnd as [Ha Hnd]. apply Forall_cons in Hin as [Hl Hin].
      rewrite decide_True by done. rewrite (IH _ _ _ Hb'); simpl; [|lia|done|].
      * f_equal. set_solver.
      * apply Forall_forall. intros x Hx. rewrite Forall_forall in Hin.
        specialize (Hin x Hx). set_solver.
    + by rewrite (IH _ _ _ Hb') by (simpl; done || lia).
Qed.

Lemma mailbox_delete_idle box q h :
  mb_idle box q -> NoDup (q_payloads q) -> Forall (fun a => a ∈ h) (q_payloads q) ->
  mailbox_delete (Some box) h = Some (h ∖ list_to_set (q_payloads q)).
Proof.
  intros Hb Hnd Hin. unfold mailbox_delete.
  destruct (mailbox_close_idle _ _ Hb) as (box' & -> & Hb').
  apply (delete_loop_spec _ _ (snd (q_close q))); try done.
  destruct Hb' as [_ Hr]. rep_facts Hr. unfold q_length in *. simpl in *. lia.
Qed.

(** ** The mailbox as an [Inbox] *)

(** A popped slot is never uninitialised in a mailbox that stands for a queue;
    the interface drops the outer layer. *)
Definition pop_message (box : mailbox) : option (option message * mailbox) :=
  match mailbox_try_pop box with
  | Some (Some c, box') => Some (c, box')
  | Some (None, box') => Some (None, box')
  | None => None
  end.

#[export] Instance mailbox_inbox : Inbox mailbox := {
  inbox_push := mailbox_try_push;
  inbox_pop := pop_message;
  inbox_finish_batch := mailbox_finish_batch;
  inbox_overload := mailbox_overload;
  inbox_close := mailbox_close;
  inbox_delete b := mailbox_delete (Some b);
  inbox_repr := mb_idle
}.

#[export] Instance mailbox_inbox_laws : InboxLaws mailbox PUSH_CAPACITY_MAX.
Proof.
  split; unfold lifts; cbn [inbox_push inbox_pop inbox_finish_batch inbox_overload inbox_close
    inbox_delete inbox_repr mailbox_inbox].
  - intros ok m b q Hb Hok. pose proof (mailbox_try_push_idle ok m b q Hb) as H.
    by rewrite Hok in H.
  - intros ok m b q Hb Hok. pose proof (mailbox_try_push_idle ok m b q Hb) as H.
    by rewrite Hok in H.
  - intros b q Hb. unfold pop_message.
    destruct (mailbox_try_pop_idle _ _ Hb) as (b' & -> & Hb'). eexists. split; [|done]. by destruct (fst (q_pop q)).
  - intros b q. apply (with_lock_lifts _ q_finish_batch). apply finish_batch_rep.
  - intros b q. apply (with_lock_lifts _ q_take_overload). apply overload_rep.
  - intros b q. apply mailbox_close_idle.
  - intros b q h. apply mailbox_delete_idle.
Qed.
