(* ===== verification/MailboxConc.v ===== *)
(** * MailboxConc: threads sharing one mailbox

    Any number of producer and consumer threads call the operations of
    [src/mailbox.c] on one mailbox.  A step is one atomic access of the
    spinlock, one critical section run by the lock's holder, or one allocation;
    steps of different threads interleave freely (memory is sequentially
    consistent).  The specification is the atomic queue: a call takes effect in
    one step between its invocation and its return. *)

From stdpp Require Import functions.
From S2P Require Import Prelude Message Mailbox Queue MailboxCorrect.

(** ** Operations, results and events *)

Inductive mailbox_op :=
| OpPush (m : message)
| OpPop
| OpFinishBatch
| OpOverload
| OpCapacity
| OpClose.

Inductive mailbox_ret :=
| RetPush (result : mailbox_result) (notify : bool)
| RetPop (out : option cell)
| RetFinishBatch (more : bool)
| RetOverload (length : Z)
| RetCapacity (capacity : Z)
| RetClose.

Inductive event :=
| Call (t : nat) (op : mailbox_op)
| Ret (t : nat) (r : mailbox_ret)
| Oom (t : nat).

(** The critical section of each operation but [mailbox_try_push]. *)
Definition run_section (op : mailbox_op) (box : mailbox) : mailbox_ret * mailbox :=
  match op with
  | OpPush _ => (RetClose, box)
  | OpPop => let '(r, box') := pop_locked box in (RetPop r, box')
  | OpFinishBatch => let '(r, box') := finish_batch_locked box in (RetFinishBatch r, box')
  | OpOverload => let '(r, box') := overload_locked box in (RetOverload r, box')
  | OpCapacity => let '(r, box') := capacity_locked box in (RetCapacity r, box')
  | OpClose => (RetClose, snd (close_locked box))
  end.

(** ** The concurrent machine *)

Inductive thread :=
| Idle
| Locking (ph : lock_phase) (op : mailbox_op)
| Section_ (op : mailbox_op)
| Unlocking (r : mailbox_ret)
| Pushing (m : message) (pc : push_pc)
| Returning (r : mailbox_ret).

Record conc := Conc { c_box : mailbox; c_threads : nat -> thread }.

Definition conc_init (box : mailbox) : conc := Conc box (fun _ => Idle).

Definition call_thread (op : mailbox_op) : thread :=
  match op with
  | OpPush m => Pushing m (PushAcquire Exchange)
  | _ => Locking Exchange op
  end.

(** One step of a thread inside a call; [ok] is the allocator's answer. *)
Definition thread_step (t : nat) (ok : bool) (th : thread) (box : mailbox) :
    (thread * mailbox) * list event :=
  match th with
  | Idle => ((Idle, box), [])
  | Locking ph op =>
    let '(next, box') := spin_lock_step ph box in
    ((from_option (fun ph' => Locking ph' op) (Section_ op) next, box'), [])
  | Section_ op => let '(r, box') := run_section op box in ((Unlocking r, box'), [])
  | Unlocking r => ((Returning r, spin_unlock box), [])
  | Pushing m (PushDone result notify) => ((Idle, box), [Ret t (RetPush result notify)])
  | Pushing m pc =>
    let '(pc', box') := push_step m ok pc box in
    ((Pushing m pc', box'),
     match pc, pc' with PushAlloc _, PushDone _ _ => [Oom t] | _, _ => [] end)
  | Returning r => ((Idle, box), [Ret t r])
  end.

Inductive conc_step : conc -> list event -> conc -> Prop :=
| conc_call t op c :
    c_threads c t = Idle ->
    conc_step c [Call t op] (Conc (c_box c) (<[t := call_thread op]> (c_threads c)))
| conc_thread t ok c th' box' es :
    c_threads c t <> Idle ->
    thread_step t ok (c_threads c t) (c_box c) = ((th', box'), es) ->
    conc_step c es (Conc box' (<[t := th']> (c_threads c))).

(** ** The atomic queue *)

(** The effect of a whole operation on the queue. *)
Definition queue_op (op : mailbox_op) (q : queue) : mailbox_ret * queue :=
  match op with
  | OpPush m => let '((r, n), q') := q_push m q in (RetPush r n, q')
  | OpPop => let '(m, q') := q_pop q in (RetPop (Some <$> m), q')
  | OpFinishBatch => let '(b, q') := q_finish_batch q in (RetFinishBatch b, q')
  | OpOverload => let '(n, q') := q_take_overload q in (RetOverload n, q')
  | OpCapacity => (RetCapacity (q_capacity q), q)
  | OpClose => (RetClose, snd (q_close q))
  end.

Inductive astate := AIdle | ACalled (op : mailbox_op) | ADone (r : mailbox_ret).

(** The history records every operation in the order it takes effect. *)
Record atomic := Atomic {
  a_queue : queue;
  a_threads : nat -> astate;
  a_history : list (nat * (mailbox_op * mailbox_ret))
}.

Definition atomic_init (capacity : Z) : atomic := Atomic (queue_new capacity) (fun _ => AIdle) [].

Definition oom_ret : mailbox_ret := RetPush MAILBOX_FULL false.

Inductive atomic_step : atomic -> list event -> atomic -> Prop :=
| atomic_call t op a :
    a_threads a t = AIdle ->
    atomic_step a [Call t op]
      (Atomic (a_queue a) (<[t := ACalled op]> (a_threads a)) (a_history a))
| atomic_effect t op r q' a :
    a_threads a t = ACalled op ->
    queue_op op (a_queue a) = (r, q') ->
    atomic_step a []
      (Atomic q' (<[t := ADone r]> (a_threads a)) (a_history a ++ [(t, (op, r))]))
| atomic_oom t m a :
    a_threads a t = ACalled (OpPush m) ->
    atomic_step a [Oom t]
      (Atomic (a_queue a) (<[t := ADone oom_ret]> (a_threads a))
         (a_history a ++ [(t, (OpPush m, oom_ret))]))
| atomic_ret t r a :
    a_threads a t = ADone r ->
    atomic_step a [Ret t r]
      (Atomic (a_queue a) (<[t := AIdle]> (a_threads a)) (a_history a)).

(** ** Mutual exclusion *)

Definition push_holds (pc : push_pc) : bool :=
  match pc with
  | PushTest _ | PushRecheck _ _ | PushStore _ _ | PushRelease _ _ _ _ => true
  | _ => false
  end.

(** A thread in its critical section, from the winning exchange to the release. *)
Definition holds (th : thread) : bool :=
  match th with
  | Section_ _ | Unlocking _ => true
  | Pushing _ pc => push_holds pc
  | _ => false
  end.

Definition mutex (c : conc) : Prop :=
  (forall t, holds (c_threads c t) = true -> mb_locked (c_box c) = true) /\
  (forall t1 t2, holds (c_threads c t1) = true -> holds (c_threads c t2) = true -> t1 = t2).

(** How a step may move the lock: it leaves it alone, takes it free, or
    releases it as the holder. *)
Inductive lock_move (h h' : bool) (l l' : bool) : Prop :=
| lock_keep : h' = h -> l' = l -> lock_move h h' l l'
| lock_take : h = false -> h' = true -> l = false -> l' = true -> lock_move h h' l l'
| lock_drop : h = true -> h' = false -> l' = false -> lock_move h h' l l'.

Lemma spin_lock_step_cases ph box :
  (exists ph', spin_lock_step ph box = (Some ph', box)) \/
  (mb_locked box = false /\ spin_lock_step ph box = (None, set_locked true box)).
Proof.
  destruct box as [l]; unfold spin_lock_step, set_locked; simpl.
  destruct ph, l; simpl; eauto.
Qed.

Ltac lock_cases :=
  match goal with
  | |- context [spin_lock_step ?ph ?box] =>
    destruct (spin_lock_step_cases ph box) as [[? ->]|[? ->]]
  | H : context [spin_lock_step ?ph ?box] |- _ =>
    destruct (spin_lock_step_cases ph box) as [(? & E)|(? & E)]; rewrite E in H; clear E
  end.

Lemma run_section_locked op box : mb_locked (snd (run_section op box)) = mb_locked box.
Proof.
  destruct op; simpl; try done.
  - unfold pop_locked. destruct (overload_loop _ _ _ _). by destruct (0 <? _).
  - unfold finish_batch_locked. by destruct (_ && _).
Qed.

Lemma push_store_locked m box : mb_locked (snd (push_store m box)) = mb_locked box.
Proof. unfold push_store. by case_match. Qed.

(** A step outside the critical section leaves every field but the lock. *)
Lemma thread_step_frame t ok th box th' box' es :
  thread_step t ok th box = ((th', box'), es) -> holds th = false ->
  box' = box \/ box' = set_locked true box.
Proof.
  intros H Hh. destruct th; simpl in *; simplify_eq; eauto.
  - lock_cases; simpl in *; simplify_eq; eauto.
  - destruct pc; simpl in *; simplify_eq; eauto; try (lock_cases; simpl in *; simplify_eq; eauto).
    all: repeat case_match; simplify_eq; eauto.
Qed.

Lemma thread_step_lock t ok th box th' box' es :
  thread_step t ok th box = ((th', box'), es) ->
  lock_move (holds th) (holds th') (mb_locked box) (mb_locked box').
Proof.
  intros H. destruct th; simpl in H; simplify_eq; try by constructor.
  - lock_cases; simpl in *; simplify_eq; [by apply lock_keep|by apply lock_take].
  - destruct (run_section op box) as [r b] eqn:E. simplify_eq. apply lock_keep; [done|].
    by rewrite <- (run_section_locked op box), E.
  - destruct pc; simpl in H; simplify_eq; try by constructor.
    + lock_cases; simpl in *; simplify_eq; [by apply lock_keep|by apply lock_take].
    + repeat case_match; simplify_eq; try by constructor.
    + repeat case_match; simplify_eq; by constructor.
    + lock_cases; simpl in *; simplify_eq; [by apply lock_keep|by apply lock_take].
    + destruct (push_store m box) as [[r n] b] eqn:E. simplify_eq. apply lock_keep; [done|].
      by rewrite <- (push_store_locked m box), E.
Qed.

Lemma holds_call_thread op : holds (call_thread op) = false.
Proof. by destruct op. Qed.

Lemma mutex_step c es c' : mutex c -> conc_step c es c' -> mutex c'.
Proof.
  intros [Hl Hu] Hs. destruct Hs as [t op c Hidle|t ok c th' box' es Hne Hs].
  - unfold mutex; simpl. split; intros t1.
    + destruct (decide (t = t1)) as [<-|]; rewrite ?fn_lookup_insert, ?fn_lookup_insert_ne by done;
        [by rewrite holds_call_thread|apply Hl].
    + intros t2. destruct (decide (t = t1)) as [<-|]; destruct (decide (t = t2)) as [<-|];
        rewrite ?fn_lookup_insert, ?fn_lookup_insert_ne, ?holds_call_thread by done; try done.
      apply Hu.
  - apply thread_step_lock in Hs. unfold mutex; simpl.
    assert (Hoth : forall t', t <> t' -> holds (c_threads c t') = true -> holds (c_threads c t) = false).
    { intros t' Ht Ht'. destruct (holds (c_threads c t)) eqn:E; [|done]. by destruct (Ht (Hu _ _ E Ht')). }
    split; intros t1.
    + destruct (decide (t = t1)) as [<-|Hn]; rewrite ?fn_lookup_insert, ?fn_lookup_insert_ne by done.
      * intros Hh. destruct Hs as [Hk Hk'| |]; try congruence.
        rewrite Hk'. apply (Hl t). congruence.
      * intros Hh. specialize (Hoth _ Hn Hh). specialize (Hl _ Hh). destruct Hs; congruence.
    + intros t2. destruct (decide (t = t1)) as [<-|]; destruct (decide (t = t2)) as [<-|];
        rewrite ?fn_lookup_insert, ?fn_lookup_insert_ne by done; try done.
      * intros Hh Hh2. specialize (Hoth _ ltac:(eassumption) Hh2). specialize (Hl _ Hh2).
        destruct Hs; congruence.
      * intros Hh2 Hh. specialize (Hoth _ ltac:(eassumption) Hh2). specialize (Hl _ Hh2).
        destruct Hs; congruence.
      * apply Hu.
Qed.

Lemma mutex_init box : mutex (conc_init box).
Proof. split; done. Qed.

(** ** Simulation by the atomic queue *)

(** What a thread knows about its local buffers and about the mailbox it has
    locked. *)
Definition thread_ok (box : mailbox) (th : thread) : Prop :=
  match th with
  | Locking _ (OpPush _) | Section_ (OpPush _) => False
  | Pushing _ (PushTest (Some spare)) =>
    Z.of_nat (length spare) = mb_capacity box * 2 /\ mb_capacity box <= PUSH_CAPACITY_MAX
  | Pushing _ (PushAlloc cap) => 0 < cap
  | Pushing _ (PushReacquire _ cap spare) | Pushing _ (PushRecheck cap spare) =>
    Z.of_nat (length spare) = cap * 2 /\ cap <= PUSH_CAPACITY_MAX
  | Pushing _ (PushStore _ _) => mb_full box = false
  | _ => True
  end.

(** A call is done, for the atomic queue, from the step that takes effect. *)
Definition abs_thread (th : thread) : astate :=
  match th with
  | Idle => AIdle
  | Locking _ op | Section_ op => ACalled op
  | Unlocking r | Returning r => ADone r
  | Pushing _ (PushRelease r n _ _) | Pushing _ (PushDone r n) => ADone (RetPush r n)
  | Pushing m _ => ACalled (OpPush m)
  end.

(** Between the growth and the store of one push the mailbox already has its
    new capacity. *)
Definition grown_by (th : thread) : bool :=
  match th with Pushing _ (PushStore _ (Some _)) => true | _ => false end.

Definition q_full (q : queue) : Prop := q_closed q = false /\ q_length q = q_capacity q.

(** The mailbox stands for [q], or for [q] already grown. *)
Definition stands_for (g : bool) (box : mailbox) (q : queue) : Prop :=
  mb_rep box (if g then q_grow q else q) /\ (g = true -> q_full q).

Lemma stands_for_locked g b box q : stands_for g box q -> stands_for g (set_locked b box) q.
Proof. intros [H ?]. split; [by apply rep_set_locked|done]. Qed.

Lemma grown_by_holds th : grown_by th = true -> holds th = true.
Proof. by destruct th as [| | | |? []|]. Qed.

Lemma thread_ok_other box box' th : holds th = false -> thread_ok box th -> thread_ok box' th.
Proof. by destruct th as [| | | |? [ | [] | | | | | | ]|]. Qed.

Lemma thread_ok_locked b box th : thread_ok (set_locked b box) th <-> thread_ok box th.
Proof. by destruct th as [| | | |? [ | [] | | | | | | ]|]. Qed.

Lemma thread_ok_call box op : thread_ok box (call_thread op).
Proof. by destruct op. Qed.

Lemma abs_thread_call op : abs_thread (call_thread op) = ACalled op.
Proof. by destruct op. Qed.

Lemma grown_by_call op : grown_by (call_thread op) = false.
Proof. by destruct op. Qed.

(** The step of the atomic queue for thread [t] alone. *)
Inductive local_step (t : nat) : list event -> astate * queue -> astate * queue -> Prop :=
| local_none s : local_step t [] s s
| local_effect op r q q' :
    queue_op op q = (r, q') -> local_step t [] (ACalled op, q) (ADone r, q')
| local_oom m q : local_step t [Oom t] (ACalled (OpPush m), q) (ADone oom_ret, q)
| local_ret r q : local_step t [Ret t r] (ADone r, q) (AIdle, q).
#[export] Hint Constructors local_step : svc.

Lemma run_section_rep op box q :
  mb_rep box q -> (forall m, op <> OpPush m) ->
  fst (run_section op box) = fst (queue_op op q) /\
  mb_rep (snd (run_section op box)) (snd (queue_op op q)).
Proof.
  intros H Hop. destruct op; unfold run_section, queue_op.
  - by destruct (Hop m).
  - destruct (pop_locked_rep _ _ H) as [E ?].
    destruct (pop_locked box), (q_pop q); simpl in *. by subst.
  - destruct (finish_batch_rep _ _ H) as [E ?].
    destruct (finish_batch_locked box), (q_finish_batch q); simpl in *. by subst.
  - destruct (overload_rep _ _ H) as [E ?].
    destruct (overload_locked box), (q_take_overload q); simpl in *. by subst.
  - simpl. split; [|done]. by rewrite (rep_capacity _ _ H).
  - split; [done|]. by apply close_rep.
Qed.

(** What one step of a thread keeps and does. *)
Definition step_result (t : nat) (es : list event) (th th' : thread) (box' : mailbox)
    (q : queue) (g' : bool) : Prop :=
  exists q', local_step t es (abs_thread th, q) (abs_thread th', q') /\
    thread_ok box' th' /\ stands_for g' box' q'.

(** Outside the critical section nothing moves but the lock. *)
Lemma thread_step_outside t ok th box th' box' es g q :
  thread_step t ok th box = ((th', box'), es) ->
  th <> Idle -> holds th = false -> thread_ok box th -> stands_for g box q ->
  grown_by th' = false /\ step_result t es th th' box' q g.
Proof.
  intros H Hne Hh Hok Hs. unfold step_result.
  pose proof (stands_for_locked g true _ _ Hs) as Hs'.
  destruct th as [|ph op| | |m pc|]; simpl in *; simplify_eq; try done.
  - lock_cases; simpl in *; simplify_eq; (split; [done|]); exists q; simpl; eauto with svc.
  - destruct pc; simpl in *; simplify_eq; try done.
    + lock_cases; simpl in *; simplify_eq; (split; [done|]); exists q; simpl; eauto with svc.
    + fold PUSH_CAPACITY_MAX in H. destruct (_ && ok) eqn:E; simplify_eq;
        (split; [done|]); exists q; simpl; [|eauto with svc].
      apply andb_prop in E as [E%Z.leb_le _].
      pose proof (length_fresh_cells capacity ltac:(lia)) as [Hl _].
      unfold fresh_cells in Hl. rewrite Hl. eauto with svc.
    + lock_cases; simpl in *; simplify_eq; (split; [done|]); exists q; simpl; eauto with svc.
    + split; [done|]. exists q. simpl. eauto with svc.
  - split; [done|]. exists q. simpl. eauto with svc.
Qed.

Lemma stands_for_same box q : stands_for false box q -> mb_rep box q.
Proof. by intros [H _]. Qed.

Lemma mb_rep_stands_for box q : mb_rep box q -> stands_for false box q.
Proof. by split. Qed.
#[export] Hint Resolve stands_for_same mb_rep_stands_for stands_for_locked : svc.

(** The growth inside a push: the mailbox runs ahead of the queue. *)
Lemma stands_for_grow box q spare :
  stands_for false box q -> mb_full box = true ->
  Z.of_nat (length spare) = mb_capacity box * 2 -> mb_capacity box <= PUSH_CAPACITY_MAX ->
  stands_for true (fst (grow_locked box spare)) q /\
  mb_full (fst (grow_locked box spare)) = false.
Proof.
  intros [H _] Hfull Hlen Hcap. rep_facts H.
  pose proof Hfull as Hq. rewrite (mb_full_rep _ _ H) in Hq.
  apply andb_prop in Hq as [Hc Hl]. apply negb_true_iff in Hc. apply Z.eqb_eq in Hl.
  destruct (length_fresh_cells (mb_capacity box)) as [_ Hmax]; [lia|].
  assert (Hg : mb_rep (fst (grow_locked box spare)) (q_grow q)) by (by apply grow_locked_rep).
  split; [by split|]. rewrite (mb_full_rep _ _ Hg). simpl. rewrite Hc. simpl.
  unfold q_length in *. simpl. apply Z.eqb_neq. lia.
Qed.

(** The store takes effect on the queue, grown or not. *)
Lemma stands_for_store m box q g :
  stands_for g box q -> mb_full box = false ->
  fst (push_store m box) = fst (q_push m q) /\
  stands_for false (snd (push_store m box)) (snd (q_push m q)).
Proof.
  intros [H Hg] Hfull.
  destruct (push_store_rep m _ _ H (mb_full_false _ _ H Hfull)) as [Hr Hb].
  destruct g; [|by auto with svc].
  destruct (Hg eq_refl) as [Hc Hl]. rep_facts H. simpl in *.
  rewrite q_push_grow in Hr, Hb by (done || lia). auto with svc.
Qed.

(** A step of the lock's holder; the mailbox is grown exactly when this thread
    has grown it. *)
Lemma thread_step_inside t ok th box th' box' es q :
  thread_step t ok th box = ((th', box'), es) ->
  holds th = true -> thread_ok box th -> stands_for (grown_by th) box q ->
  step_result t es th th' box' q (grown_by th').
Proof.
  intros H Hh Hok Hs. unfold step_result.
  destruct th as [| |op|r|m pc|]; simpl in *; simplify_eq; try done.
  - assert (Hop : forall m, op <> OpPush m) by (intros m ->; done).
    destruct (run_section_rep op box q (stands_for_same _ _ Hs) Hop) as [Hr Hb].
    destruct (run_section op box) as [r b], (queue_op op q) as [r' q'] eqn:E.
    simpl in *. simplify_eq. exists q'. simpl. eauto with svc.
  - exists q. simpl. eauto with svc.
  - destruct pc; simpl in *; simplify_eq; try done.
    + destruct (_ && _) eqn:E; [|simplify_eq; exists q; simpl; eauto with svc].
      destruct spare as [grown|]; simplify_eq; exists q; simpl.
      * destruct Hok as [Hl Hc], (stands_for_grow box q grown Hs E Hl Hc). eauto with svc.
      * pose proof (wf_capacity _ (rep_wf _ _ (stands_for_same _ _ Hs))).
        split; [constructor|]. split; [lia|by apply stands_for_locked].
    + exists q. simpl. destruct (Z.eqb_spec (mb_capacity box') capacity); subst; simpl; eauto with svc.
    + destruct (stands_for_store m box q _ Hs Hok) as [Hr Hb].
      destruct (push_store m box) as [[r n] b], (q_push m q) as [[r' n'] q'] eqn:E.
      simpl in *. simplify_eq. exists q'. simpl. repeat split; try apply Hb; try done.
      econstructor. simpl. by rewrite E.
    + exists q. simpl. eauto with svc.
Qed.

(** ** The simulation *)

Record conc_rel (c : conc) (a : atomic) : Prop := {
  rel_mutex : mutex c;
  rel_ok : forall t, thread_ok (c_box c) (c_threads c t);
  rel_threads : forall t, a_threads a t = abs_thread (c_threads c t);
  rel_box : exists g, stands_for g (c_box c) (a_queue a) /\
    (forall t, holds (c_threads c t) = true -> g = grown_by (c_threads c t)) /\
    (g = true -> exists t, grown_by (c_threads c t) = true)
}.

Lemma local_step_atomic t es a st q :
  local_step t es (a_threads a t, a_queue a) (st, q) ->
  exists a', steps atomic_step a es a' /\ a_queue a' = q /\
    forall t', a_threads a' t' = <[t := st]> (a_threads a) t'.
Proof.
  intros H. inversion H; subst.
  - exists a. split; [constructor|]. split; [done|]. intros t'.
    destruct (decide (t = t')) as [<-|]; [by rewrite fn_lookup_insert|by rewrite fn_lookup_insert_ne].
  - eexists. split; [by eapply steps_one, atomic_effect|done].
  - eexists. split; [by eapply steps_one, atomic_oom|done].
  - eexists. split; [by eapply steps_one, atomic_ret|done].
Qed.

Ltac upd_case t t' :=
  destruct (decide (t = t')) as [<-|]; rewrite ?fn_lookup_insert, ?fn_lookup_insert_ne by done.

Lemma conc_rel_init cap box : mb_idle box (queue_new cap) -> conc_rel (conc_init box) (atomic_init cap).
Proof.
  intros [_ H]. split; [apply mutex_init|done|done|].
  exists false. split; [by auto with svc|]. done.
Qed.

(** Threads other than the one that stepped keep what they know. *)
Lemma other_ok c t th' box' es ok t' :
  mutex c -> thread_step t ok (c_threads c t) (c_box c) = ((th', box'), es) -> t <> t' ->
  thread_ok (c_box c) (c_threads c t') -> thread_ok box' (c_threads c t').
Proof.
  intros [_ Hu] Hs Hne Hok. destruct (holds (c_threads c t')) eqn:Eh; [|by eapply thread_ok_other].
  destruct (holds (c_threads c t)) eqn:Et; [by destruct (Hne (Hu _ _ Et Eh))|].
  destruct (thread_step_frame _ _ _ _ _ _ _ Hs Et) as [->| ->]; [done|by apply thread_ok_locked].
Qed.

Lemma conc_rel_call c a t op :
  conc_rel c a -> c_threads c t = Idle ->
  exists a', steps atomic_step a [Call t op] a' /\
    conc_rel (Conc (c_box c) (<[t := call_thread op]> (c_threads c))) a'.
Proof.
  intros [Hm Hok Hth (g & Hg & Hgh & Hge)] Hidle.
  eexists. split; [eapply steps_one, (atomic_call t op); by rewrite Hth, Hidle|].
  split; simpl.
  - eapply mutex_step; [exact Hm|by constructor].
  - intros t'. upd_case t t'; [apply thread_ok_call|done].
  - intros t'. upd_case t t'; [by rewrite abs_thread_call|done].
  - exists g. split; [done|]. split.
    + intros t'. upd_case t t'; [by rewrite holds_call_thread|apply Hgh].
    + intros Eg. destruct (Hge Eg) as [t' Ht']. exists t'.
      upd_case t t'; [by rewrite Hidle in Ht'|done].
Qed.

Lemma conc_rel_thread c a t ok th' box' es :
  conc_rel c a -> c_threads c t <> Idle ->
  thread_step t ok (c_threads c t) (c_box c) = ((th', box'), es) ->
  exists a', steps atomic_step a es a' /\ conc_rel (Conc box' (<[t := th']> (c_threads c))) a'.
Proof.
  intros [Hm Hok Hth (g & Hg & Hgh & Hge)] Hne Hs.
  assert (Hm' : mutex (Conc box' (<[t := th']> (c_threads c))))
    by (eapply mutex_step; [exact Hm|by econstructor]).
  assert (Hres : exists g', step_result t es (c_threads c t) th' box' (a_queue a) g' /\
    (holds (c_threads c t) = true -> g' = grown_by th') /\
    (holds (c_threads c t) = false -> g' = g /\ grown_by th' = false)).
  { destruct (holds (c_threads c t)) eqn:Eh.
    - exists (grown_by th'). rewrite (Hgh t Eh) in Hg.
      split; [eapply thread_step_inside; eauto|done].
    - exists g. destruct (thread_step_outside _ _ _ _ _ _ _ _ _ Hs Hne Eh (Hok t) Hg). done. }
  destruct Hres as (g' & (q' & Hl & Hok' & Hst) & Hin & Hout).
  rewrite <- (Hth t) in Hl. destruct (local_step_atomic _ _ _ _ _ Hl) as (a' & Ha & Hq & Ht').
  exists a'. split; [done|]. split; simpl; [done| | |].
  - intros t'. upd_case t t'; [done|by eapply other_ok].
  - intros t'. rewrite Ht'. upd_case t t'; [done|apply Hth].
  - exists g'. rewrite Hq. split; [done|].
    destruct (holds (c_threads c t)) eqn:Eh.
    + specialize (Hin eq_refl). split.
      * intros t' Hh'. assert (t = t') as <-; [|by rewrite fn_lookup_insert].
        destruct (decide (t = t')) as [|Hn]; [done|]. exfalso.
        rewrite fn_lookup_insert_ne in Hh' by done. by apply Hn, (proj2 Hm).
      * intros E. exists t. rewrite fn_lookup_insert. congruence.
    + destruct (Hout eq_refl) as [-> Hgf]. split.
      * intros t'. upd_case t t'; [|apply Hgh]. intros Hh'. rewrite Hgf.
        destruct g; [|done]. destruct (Hge eq_refl) as [t' Eg]. apply grown_by_holds in Eg.
        assert (t = t') as <-; [|congruence]. pose proof (proj1 Hm _ Eg).
        pose proof (thread_step_lock _ _ _ _ _ _ _ Hs) as Hlk. destruct Hlk; congruence.
      * intros E. destruct (Hge E) as [t' Eg]. exists t'.
        upd_case t t'; [by apply grown_by_holds in Eg; congruence|done].
Qed.

Lemma conc_rel_step c es c' a :
  conc_rel c a -> conc_step c es c' -> exists a', steps atomic_step a es a' /\ conc_rel c' a'.
Proof.
  intros H Hs. destruct Hs; [by apply conc_rel_call|by eapply conc_rel_thread].
Qed.

(** ** Histories *)

(** A sequential execution of the queue. *)
Inductive legal (q : queue) : list (nat * (mailbox_op * mailbox_ret)) -> queue -> Prop :=
| legal_nil : legal q [] q
| legal_op h q1 t op r q2 :
    legal q h q1 -> queue_op op q1 = (r, q2) -> legal q (h ++ [(t, (op, r))]) q2
| legal_oom h q1 t m :
    legal q h q1 -> legal q (h ++ [(t, (OpPush m, oom_ret))]) q1.

(** The calls of thread [t] in a history. *)
Definition calls_of (t : nat) (h : list (nat * (mailbox_op * mailbox_ret))) :
    list (mailbox_op * mailbox_ret) :=
  snd <$> filter (fun e => fst e = t) h.

(** The calls of thread [t] a trace shows: the open one, and the completed
    ones in order. *)
Definition observe (t : nat) (s : option mailbox_op * list (mailbox_op * mailbox_ret)) (e : event) :
    option mailbox_op * list (mailbox_op * mailbox_ret) :=
  match e with
  | Call t' op => if decide (t' = t) then (Some op, snd s) else s
  | Ret t' r =>
    if decide (t' = t) then
      match fst s with Some op => (None, snd s ++ [(op, r)]) | None => s end
    else s
  | Oom _ => s
  end.

Definition observed (t : nat) (tr : list event) : option mailbox_op * list (mailbox_op * mailbox_ret) :=
  fold_left (observe t) tr (None, []).

Definition completed (t : nat) (tr : list event) : list (mailbox_op * mailbox_ret) :=
  snd (observed t tr).

(** What the atomic queue's state says of the trace so far. *)
Definition thread_history (st : astate) (obs : option mailbox_op * list (mailbox_op * mailbox_ret))
    (calls : list (mailbox_op * mailbox_ret)) : Prop :=
  match st with
  | AIdle => fst obs = None /\ calls = snd obs
  | ACalled op => fst obs = Some op /\ calls = snd obs
  | ADone r => exists op, fst obs = Some op /\ calls = snd obs ++ [(op, r)]
  end.

Definition atomic_inv (q0 : queue) (tr : list event) (a : atomic) : Prop :=
  legal q0 (a_history a) (a_queue a) /\
  forall t, thread_history (a_threads a t) (observed t tr) (calls_of t (a_history a)).

Lemma calls_of_snoc t h t' e :
  calls_of t (h ++ [(t', e)]) = calls_of t h ++ (if decide (t' = t) then [e] else []).
Proof.
  unfold calls_of. rewrite filter_app, fmap_app, filter_cons, filter_nil. simpl.
  by case_decide.
Qed.

Lemma observed_snoc t tr e : observed t (tr ++ [e]) = observe t (observed t tr) e.
Proof. unfold observed. by rewrite fold_left_app. Qed.

Lemma atomic_inv_step q0 tr a es a' :
  atomic_inv q0 tr a -> atomic_step a es a' -> atomic_inv q0 (tr ++ es) a'.
Proof.
  intros [Hl Ht] Hs. destruct Hs as [t op a Ha|t op r q' a Ha Hq|t m a Ha|t r a Ha];
    (split; simpl; [try done; by econstructor|]); intros t'; specialize (Ht t') as Ht';
    rewrite ?calls_of_snoc, ?app_nil_r, ?observed_snoc; unfold observe;
    (upd_case t t'; [rewrite ?decide_True by done|by rewrite ?decide_False, ?app_nil_r by done]);
    rewrite Ha in Ht'; simpl in *.
  - by destruct Ht'.
  - destruct Ht' as [? ->]. eauto.
  - destruct Ht' as [? ->]. eauto.
  - destruct Ht' as (op & -> & ->). done.
Qed.

Lemma atomic_inv_init cap : atomic_inv (queue_new cap) [] (atomic_init cap).
Proof. split; [constructor|done]. Qed.

Lemma conc_abs_idle c a t : conc_rel c a -> c_threads c t = Idle -> a_threads a t = AIdle.
Proof. intros H Ht. by rewrite (rel_threads _ _ H), Ht. Qed.

(** A mailbox nobody holds is the queue's representation. *)
Lemma conc_rel_free c a :
  conc_rel c a -> (forall t, holds (c_threads c t) = false) -> mb_rep (c_box c) (a_queue a).
Proof.
  intros H Hf. destruct (rel_box _ _ H) as (g & Hg & _ & Hge).
  destruct g; [|by auto with svc]. destruct (Hge eq_refl) as [t Ht].
  apply grown_by_holds in Ht. by rewrite Hf in Ht.
Qed.

(** ** What legal histories say *)

Definition entry : Type := nat * (mailbox_op * mailbox_ret).

Definition accepted (e : mailbox_op * mailbox_ret) : option message :=
  match e with (OpPush m, RetPush MAILBOX_OK _) => Some m | _ => None end.

Definition received (e : mailbox_op * mailbox_ret) : option message :=
  match e with (OpPop, RetPop (Some (Some m))) => Some m | _ => None end.

(** The wake-up flag after a call: raised by a push that says so, lowered by a
    pop that finds nothing and by a batch that leaves nothing. *)
Definition wake_after (e : mailbox_op * mailbox_ret) (w : bool) : bool :=
  match e with
  | (OpPush _, RetPush MAILBOX_OK true) => true
  | (OpPop, RetPop None) => false
  | (OpFinishBatch, RetFinishBatch false) => false
  | _ => w
  end.

Definition wake (h : list entry) : bool := fold_left (fun w e => wake_after (snd e) w) h false.

(** First in, first out: nothing is lost, duplicated or reordered. *)
Lemma legal_fifo q h q' :
  legal q h q' ->
  q_items q ++ omap (accepted ∘ snd) h = omap (received ∘ snd) h ++ q_items q'.
Proof.
  induction 1 as [|h q1 t op r q2 _ IH Hop|h q1 t m _ IH]; simpl; [by rewrite app_nil_r| |].
  - rewrite !omap_app, app_assoc, IH, <- !app_assoc. f_equal.
    destruct op; simpl in Hop; simplify_eq; simpl; rewrite ?app_nil_r; try done.
    + unfold q_push in Hop. destruct (q_closed q1); simplify_eq; simpl; [by rewrite app_nil_r|done].
    + unfold q_pop in Hop. destruct (q_items q1); simplify_eq; simpl; by rewrite ?app_nil_r.
  - rewrite !omap_app. simpl. by rewrite !app_nil_r.
Qed.

Lemma wake_snoc h t e : wake (h ++ [(t, e)]) = wake_after e (wake h).
Proof. unfold wake. by rewrite fold_left_app. Qed.

Definition wake_ok (w : bool) (q : queue) : Prop :=
  q_scheduled q = w /\ (q_closed q = false -> q_items q <> [] -> q_scheduled q = true).

(** The flag of the queue is the one the history shows, and an open queue with
    messages has its wake-up outstanding. *)
Lemma legal_wake cap h q : legal (queue_new cap) h q -> wake_ok (wake h) q.
Proof.
  remember (queue_new cap) as q0 eqn:E.
  induction 1 as [|h q1 t op r q2 _ IH Hop|h q1 t m _ IH]; subst; [done| |].
  - rewrite wake_snoc. destruct IH as [Hw Hn].
    destruct op; simpl in Hop; simplify_eq; simpl; try done.
    + unfold q_push in Hop. destruct (q_closed q1) eqn:Ec; simplify_eq; [split; [done|congruence]|].
      split; simpl; [|done]. rewrite <- Hw. by destruct (q_scheduled q1).
    + unfold q_pop in Hop. destruct (q_items q1) eqn:Ei; simplify_eq; simpl; [done|].
      split; simpl; [done|]. intros Hc _. by apply Hn.
    + unfold wake_ok, q_finish_batch. simpl.
      destruct (q_closed q1) eqn:Ec; simpl; [by split|].
      case_bool_decide as Ei; simpl; [by split|]. split; [done|]. intros _ _. by apply Hn.
  - by rewrite wake_snoc.
Qed.

(** ** Running schedules *)

(** A schedule names the thread that moves and the answer of its allocator. *)
Inductive action := DoCall (t : nat) (op : mailbox_op) | DoStep (t : nat) (ok : bool).

Definition is_idle (th : thread) : bool := match th with Idle => true | _ => false end.

Definition conc_exec (x : action) (c : conc) : option (list event * conc) :=
  match x with
  | DoCall t op =>
    if is_idle (c_threads c t) then
      Some ([Call t op], Conc (c_box c) (<[t := call_thread op]> (c_threads c)))
    else None
  | DoStep t ok =>
    if is_idle (c_threads c t) then None
    else
      let '((th', box'), es) := thread_step t ok (c_threads c t) (c_box c) in
      Some (es, Conc box' (<[t := th']> (c_threads c)))
  end.

Fixpoint conc_run (xs : list action) (c : conc) : option (list event * conc) :=
  match xs with
  | [] => Some ([], c)
  | x :: xs' =>
    match conc_exec x c with
    | Some (es, c1) =>
      match conc_run xs' c1 with
      | Some (es', c2) => Some (es ++ es', c2)
      | None => None
      end
    | None => None
    end
  end.

(** A whole call of thread [t], run with nobody else moving. *)
Definition alone (t : nat) (op : mailbox_op) (n : nat) : list action :=
  DoCall t op :: replicate n (DoStep t true).

Lemma is_idle_true th : is_idle th = true <-> th = Idle.
Proof. by destruct th. Qed.

Lemma conc_exec_step x c es c' : conc_exec x c = Some (es, c') -> conc_step c es c'.
Proof.
  destruct x as [t op|t ok]; unfold conc_exec; intros H.
  - destruct (is_idle _) eqn:E; simplify_eq. constructor. by apply is_idle_true.
  - destruct (is_idle _) eqn:E; [done|].
    destruct (thread_step t ok (c_threads c t) (c_box c)) as [[th' box'] es'] eqn:Es.
    simplify_eq. econstructor; [|done]. intros Hi. by rewrite Hi in E.
Qed.

Lemma conc_run_steps xs c es c' : conc_run xs c = Some (es, c') -> steps conc_step c es c'.
Proof.
  revert c es. induction xs as [|x xs IH]; intros c es H; simpl in H; simplify_eq; [constructor|].
  destruct (conc_exec x c) as [[e1 c1]|] eqn:E; [|done].
  destruct (conc_run xs c1) as [[e2 c2]|] eqn:E2; [|done]. simplify_eq.
  econstructor; [by eapply conc_exec_step|by apply IH].
Qed.

(** Every trace of the mailbox is explained by one history of the queue. *)
Lemma conc_history cap box tr c :
  mb_idle box (queue_new cap) -> steps conc_step (conc_init box) tr c ->
  exists a, steps atomic_step (atomic_init cap) tr a /\ conc_rel c a /\
    legal (queue_new cap) (a_history a) (a_queue a) /\
    forall t, c_threads c t = Idle -> completed t tr = calls_of t (a_history a).
Proof.
  intros Hb Hs.
  destruct (simulation_steps conc_step atomic_step conc_rel
    (fun c es c' a H => conc_rel_step c es c' a H) _ _ _ _ (conc_rel_init _ _ Hb) Hs)
    as (a & Ha & Hr).
  pose proof (steps_trace_invariant atomic_step (atomic_inv (queue_new cap))
    (fun pre s es s' => atomic_inv_step _ pre s es s') [] _ _ _ (atomic_inv_init cap) Ha) as [Hl Ht].
  exists a. split; [done|]. split; [done|]. split; [done|].
  intros t Hi. specialize (Ht t). rewrite (conc_abs_idle _ _ _ Hr Hi) in Ht. by destruct Ht.
Qed.

Lemma legal_snoc_inv q h e q' :
  legal q (h ++ [e]) q' ->
  exists q1, legal q h q1 /\
    ((exists t op r, e = (t, (op, r)) /\ queue_op op q1 = (r, q')) \/
     (exists t m, e = (t, (OpPush m, oom_ret)) /\ q1 = q')).
Proof.
  inversion 1 as [E|h' q1 t op r q2 Hl Hop E|h' q1 t m Hl E].
  - by destruct h.
  - apply app_inj_tail in E as [-> <-]. eauto 10.
  - apply app_inj_tail in E as [-> <-]. subst. eauto 10.
Qed.

Lemma legal_prefix q h1 h2 q' : legal q (h1 ++ h2) q' -> exists q1, legal q h1 q1.
Proof.
  revert q'. induction h2 as [|e h2 IH] using rev_ind; intros q' H.
  - rewrite app_nil_r in H. eauto.
  - rewrite app_assoc in H. destruct (legal_snoc_inv _ _ _ _ H) as (q1 & Hl & _). eauto.
Qed.

(** A push raises the flag exactly when it is down. *)
Lemma legal_notify cap h1 t m n h2 q :
  legal (queue_new cap) (h1 ++ (t, (OpPush m, RetPush MAILBOX_OK n)) :: h2) q ->
  n = negb (wake h1).
Proof.
  rewrite cons_middle, app_assoc. intros [q1 H]%legal_prefix.
  destruct (legal_snoc_inv _ _ _ _ H) as (q0 & Hl & [(? & ? & ? & [= <- <- <-] & Hop)|(? & ? & [=] & _)]).
  destruct (legal_wake _ _ _ Hl) as [<- _]. simpl in Hop. unfold q_push in Hop.
  by destruct (q_closed q0); simplify_eq.
Qed.

(** ** From histories to what each thread sees *)

(** The accepted messages with their producers, in the order they took effect. *)
Definition accept_order (h : list entry) : list (nat * message) :=
  omap (fun e => pair (fst e) <$> accepted (snd e)) h.

Lemma accept_order_all h : snd <$> accept_order h = omap (accepted ∘ snd) h.
Proof.
  induction h as [|[t e] h IH]; [done|]. unfold accept_order in *. simpl.
  destruct (accepted e); simpl; [f_equal|]; apply IH.
Qed.

Lemma accept_order_of t h :
  snd <$> filter (fun e => fst e = t) (accept_order h) = omap accepted (calls_of t h).
Proof.
  induction h as [|[t' e] h IH]; [done|]. unfold accept_order, calls_of in *. simpl.
  rewrite filter_cons. simpl.
  destruct (accepted e) eqn:E; simpl; rewrite ?filter_cons; simpl;
    case_decide; simpl; rewrite ?E; [f_equal| | |]; apply IH.
Qed.

(** When one thread does all the popping, its view is the whole order. *)
Lemma single_consumer p h :
  (forall t, t <> p -> omap received (calls_of t h) = []) ->
  omap (received ∘ snd) h = omap received (calls_of p h).
Proof.
  induction h as [|[t e] h IH]; intros Hp; [done|]. unfold calls_of in *.
  assert (Hp' : forall t', t' <> p -> omap received (snd <$> filter (fun e => fst e = t') h) = []).
  { intros t' Hne. specialize (Hp t' Hne). rewrite filter_cons in Hp. simpl in Hp.
    case_decide; [|done]. simpl in Hp. by destruct (received e). }
  change (omap (received ∘ snd) ((t, e) :: h)) with
    (match received e with
     | Some m => m :: omap (received ∘ snd) h
     | None => omap (received ∘ snd) h
     end).
  rewrite (IH Hp'), filter_cons. simpl. case_decide as Ht; [done|].
  destruct (received e) eqn:E; [|done]. specialize (Hp t Ht).
  rewrite filter_cons in Hp. simpl in Hp. rewrite decide_True in Hp by done.
  simpl in Hp. by rewrite E in Hp.
Qed.

Lemma legal_initial cap h q : legal (queue_new cap) h q -> q_initial q = cap.
Proof.
  remember (queue_new cap) as q0 eqn:E.
  induction 1 as [|h q1 t op r q2 _ IH Hop|]; subst; [done| |done].
  destruct op; simpl in Hop; simplify_eq; simpl; try done.
  - unfold q_push in Hop. by destruct (q_closed q1); simplify_eq.
  - unfold q_pop in Hop. by destruct (q_items q1); simplify_eq.
Qed.
