(* ===== verification/MailboxTheorems.v ===== *)
(** * MailboxTheorems: the properties of the mailbox

    What the ring buffer of [src/mailbox.c] guarantees to its callers: first
    without contention, against the queue of [Queue], then for any number of
    threads and any interleaving of their atomic steps. *)

From stdpp Require Import functions.
From S2P Require Import Prelude Message Mailbox Queue MailboxCorrect MailboxConc.

(** ** Any number of threads *)

(** C1: every run of the concurrent mailbox, whatever the interleaving of the
    spinlock accesses, critical sections and allocations, is matched event for
    event by the atomic growable queue: each call takes effect at one instant
    between its invocation and its return, and a push is only refused after
    its allocation failed. *)
Theorem mailbox_linearizable ok cap box tr c :
  0 <= cap -> mailbox_new ok cap = Some box ->
  steps conc_step (conc_init box) tr c ->
  exists a, steps atomic_step (atomic_init cap) tr a /\
    (forall t, c_threads c t = Idle -> a_threads a t = AIdle) /\
    ((forall t, holds (c_threads c t) = false) -> mb_rep (c_box c) (a_queue a)).
Proof.
  intros Hc Hn Hs. apply mailbox_new_rep in Hn; [|done].
  destruct (conc_history _ _ _ _ Hn Hs) as (a & Ha & Hr & _).
  exists a. split; [done|]. split; [by intros; eapply conc_abs_idle|by apply conc_rel_free].
Qed.

(** C2: first in, first out between threads.  When every call has returned and
    one thread does all the popping, the accepted messages have one order that
    agrees with the order each producer pushed its own in, the consumer
    received a prefix of it, and the rest is in the ring: nothing is lost,
    duplicated or reordered. *)
Theorem mailbox_fifo ok cap box tr c p :
  0 <= cap -> mailbox_new ok cap = Some box ->
  steps conc_step (conc_init box) tr c ->
  (forall t, c_threads c t = Idle) ->
  (forall t, t <> p -> omap received (completed t tr) = []) ->
  exists order queued,
    (forall t, omap accepted (completed t tr) = snd <$> filter (fun e => fst e = t) order) /\
    snd <$> order = omap received (completed p tr) ++ queued /\
    Z.of_nat (length queued) = mb_count (c_box c) /\ ring_holds (c_box c) queued.
Proof.
  intros Hc Hn Hs Hi Hp. apply mailbox_new_rep in Hn; [|done].
  destruct (conc_history _ _ _ _ Hn Hs) as (a & _ & Hr & Hl & Hh).
  assert (Hrep : mb_rep (c_box c) (a_queue a)).
  { apply conc_rel_free; [done|]. intros t. by rewrite Hi. }
  exists (accept_order (a_history a)), (q_items (a_queue a)).
  split; [|split; [|split]].
  - intros t. by rewrite (Hh t (Hi t)), accept_order_of.
  - rewrite accept_order_all, (Hh p (Hi p)), <- single_consumer.
    + by rewrite <- (legal_fifo _ _ _ Hl).
    + intros t Ht. by rewrite <- (Hh t (Hi t)), Hp.
  - by rewrite (rep_count _ _ Hrep).
  - apply Hrep.
Qed.

(** C3: no wake-up is lost and none is sent twice.  In every state a run reaches
    with the lock free, an open mailbox that holds messages is scheduled; the
    history behind the run shows a push that told its producer to notify and
    no rearm since, and a push tells its producer to notify exactly when no
    wake-up is outstanding. *)
Theorem mailbox_no_lost_wakeup ok cap box tr c :
  0 <= cap -> mailbox_new ok cap = Some box ->
  steps conc_step (conc_init box) tr c ->
  (forall t, holds (c_threads c t) = false) ->
  exists h,
    (forall t, c_threads c t = Idle -> completed t tr = calls_of t h) /\
    mb_scheduled (c_box c) = wake h /\
    (mb_closed (c_box c) = false -> 0 < mb_count (c_box c) -> wake h = true) /\
    (forall h1 t m n h2, h = h1 ++ (t, (OpPush m, RetPush MAILBOX_OK n)) :: h2 ->
      n = negb (wake h1)).
Proof.
  intros Hc Hn Hs Hf. apply mailbox_new_rep in Hn; [|done].
  destruct (conc_history _ _ _ _ Hn Hs) as (a & _ & Hr & Hl & Hh).
  pose proof (conc_rel_free _ _ Hr Hf) as Hrep. destruct (legal_wake _ _ _ Hl) as [Hw Hq].
  exists (a_history a). split; [done|]. rep_facts Hrep. split; [congruence|]. split.
  - intros Hcl Hcnt. rewrite <- Hw. apply Hq; [congruence|].
    intros E. unfold q_length in *. rewrite E in *. simpl in *. lia.
  - intros h1 t m n h2 E. rewrite E in Hl. by eapply legal_notify.
Qed.

(** C4: the spinlock excludes.  In every reachable state at most one thread is
    between its winning exchange and its release, the lock bit is set while
    one is, and a step taken while no thread is there changes nothing of the
    mailbox but the lock bit. *)
Theorem mailbox_mutual_exclusion box tr c :
  steps conc_step (conc_init box) tr c ->
  (forall t1 t2, holds (c_threads c t1) = true -> holds (c_threads c t2) = true -> t1 = t2) /\
  (forall t, holds (c_threads c t) = true -> mb_locked (c_box c) = true) /\
  (forall es c', (forall t, holds (c_threads c t) = false) -> conc_step c es c' ->
    set_locked true (c_box c') = set_locked true (c_box c)).
Proof.
  intros Hs. destruct (steps_invariant conc_step mutex (fun s es s' H => mutex_step s es s' H)
    _ _ _ (mutex_init box) Hs) as [Hl Hu].
  split; [done|]. split; [done|]. intros es c' Hf Hst.
  inversion Hst as [|t ok c1 th' box' es' Hne Ht]; subst; [done|].
  by destruct (thread_step_frame _ _ _ _ _ _ _ Ht (Hf t)) as [->| ->].
Qed.

(** *** Witnesses *)

Definition msg (n : Z) : message := Message 7 1 n 1 None 0.

Definition box1 : mailbox := default (snd (close_locked (Mailbox false [] 0 0 0 0 0 0 0 true true)))
  (mailbox_new true 1).

(** Two producers fill a mailbox of capacity one and make it grow while they
    contend for the lock; the consumer takes one message. *)
Definition contention : list action :=
  [DoCall 1 (OpPush (msg 1)); DoCall 2 (OpPush (msg 2));
   DoStep 1 true; DoStep 2 true; DoStep 2 true; DoStep 1 true; DoStep 1 true; DoStep 1 true;
   DoStep 1 true] ++ replicate 10 (DoStep 2 true) ++ alone 0 OpPop 4.

Definition contention_run : list event * conc :=
  default ([], conc_init box1) (conc_run contention (conc_init box1)).

Lemma contention_steps : steps conc_step (conc_init box1) (fst contention_run) (snd contention_run).
Proof. apply (conc_run_steps contention). vm_compute. reflexivity. Qed.

Lemma contention_idle t : c_threads (snd contention_run) t = Idle.
Proof.
  destruct t as [|[|[|t]]]; vm_compute; reflexivity.
Qed.

Lemma mailbox_linearizable_witness :
  exists a, steps atomic_step (atomic_init 1) (fst contention_run) a /\
    (forall t, c_threads (snd contention_run) t = Idle -> a_threads a t = AIdle) /\
    ((forall t, holds (c_threads (snd contention_run) t) = false) ->
      mb_rep (c_box (snd contention_run)) (a_queue a)).
Proof.
  apply (mailbox_linearizable true 1 box1); [lia|reflexivity|apply contention_steps].
Defined.

Lemma mailbox_fifo_witness :
  exists order queued,
    (forall t, omap accepted (completed t (fst contention_run)) =
      snd <$> filter (fun e => fst e = t) order) /\
    snd <$> order = omap received (completed 0 (fst contention_run)) ++ queued /\
    Z.of_nat (length queued) = mb_count (c_box (snd contention_run)) /\
    ring_holds (c_box (snd contention_run)) queued.
Proof.
  apply (mailbox_fifo true 1 box1 _ _ 0%nat);
    [lia|reflexivity|apply contention_steps|apply contention_idle|].
  intros [|[|[|t]]] Ht; [done|vm_compute; reflexivity..].
Defined.

Lemma mailbox_no_lost_wakeup_witness :
  exists h,
    (forall t, c_threads (snd contention_run) t = Idle ->
      completed t (fst contention_run) = calls_of t h) /\
    mb_scheduled (c_box (snd contention_run)) = wake h /\
    (mb_closed (c_box (snd contention_run)) = false ->
      0 < mb_count (c_box (snd contention_run)) -> wake h = true) /\
    (forall h1 t m n h2, h = h1 ++ (t, (OpPush m, RetPush MAILBOX_OK n)) :: h2 ->
      n = negb (wake h1)).
Proof.
  apply (mailbox_no_lost_wakeup true 1 box1); [lia|reflexivity|apply contention_steps|].
  intros t. by rewrite contention_idle.
Defined.

(** Thread 1 is in its critical section while thread 2 spins. *)
Lemma mailbox_mutual_exclusion_witness :
  let c := snd (default ([], conc_init box1) (conc_run (take 6 contention) (conc_init box1))) in
  (forall t1 t2, holds (c_threads c t1) = true -> holds (c_threads c t2) = true -> t1 = t2) /\
  (forall t, holds (c_threads c t) = true -> mb_locked (c_box c) = true) /\
  (forall es c', (forall t, holds (c_threads c t) = false) -> conc_step c es c' ->
    set_locked true (c_box c') = set_locked true (c_box c)).
Proof.
  intros c. apply (mailbox_mutual_exclusion box1 [Call 1 (OpPush (msg 1)); Call 2 (OpPush (msg 2))]).
  apply (conc_run_steps (take 6 contention)). vm_compute. reflexivity.
Defined.

(** The interleaving does what it is meant to: the ring has grown, message 1
    was received and message 2 is queued. *)
Example contention_result :
  (mb_capacity (c_box (snd contention_run)), mb_count (c_box (snd contention_run)),
   omap received (completed 0 (fst contention_run))) = (2, 1, [msg 1]).
Proof. vm_compute. reflexivity. Qed.

(** C5: no index or size computation of the mailbox ever leaves its range.  In
    every reachable state, also while a thread is inside its critical section,
    the capacity fits an allocation, [items] has that many slots, [head],
    [tail] and [count] are within it and agree, and the overload threshold is
    at most twice it, so no [size_t] operation wraps. *)
Theorem mailbox_bounds ok cap box tr c :
  0 <= cap -> mailbox_new ok cap = Some box ->
  steps conc_step (conc_init box) tr c ->
  mb_wf (c_box c) /\ cap <= mb_capacity (c_box c) /\ mb_initial_capacity (c_box c) = cap.
Proof.
  intros Hc Hn Hs. apply mailbox_new_rep in Hn; [|done].
  destruct (conc_history _ _ _ _ Hn Hs) as (a & _ & Hr & Hl & _).
  destruct (rel_box _ _ Hr) as (g & [Hg _] & _).
  assert (Hi : q_initial (if g then q_grow (a_queue a) else a_queue a) = cap).
  { destruct g; simpl; by rewrite (legal_initial _ _ _ Hl). }
  rep_facts Hg. split; [done|]. lia.
Qed.

(** ** Without contention *)

(** C6: every branch of an uncontended [mailbox_try_push].  A closed mailbox
    refuses; a full one without memory to double refuses and is unchanged;
    otherwise the message is appended, a full mailbox doubles, and [*notify]
    is set exactly when no wake-up was outstanding. *)
Theorem mailbox_try_push_spec ok m box q :
  mb_idle box q ->
  exists box', mailbox_try_push ok m box =
      Some ((if q_closed q then (MAILBOX_CLOSED, false)
             else if (q_length q =? q_capacity q) &&
                     negb (ok && (q_capacity q <=? PUSH_CAPACITY_MAX)) then (MAILBOX_FULL, false)
             else (MAILBOX_OK, negb (q_scheduled q))), box') /\
    mb_idle box'
      (if q_closed q || (q_length q =? q_capacity q) &&
                        negb (ok && (q_capacity q <=? PUSH_CAPACITY_MAX)) then q
       else Queue (q_items q ++ [m])
              (if q_length q =? q_capacity q then 2 * q_capacity q else q_capacity q)
              (q_initial q) (q_overload q) (q_threshold q) false true).
Proof.
  intros Hb. destruct (mailbox_try_push_idle ok m _ _ Hb) as (box' & E & Hb').
  exists box'. rewrite E. unfold q_can_push, q_push in *.
  destruct (q_closed q); [done|]. cbn [orb andb negb] in *.
  destruct (q_length q =? q_capacity q); cbn [orb andb negb] in *; [|done].
  rewrite (Z.mul_comm 2). by destruct (ok && _).
Qed.

(** C7: an uncontended [mailbox_try_pop] hands out the oldest message, never an
    uninitialised slot, and reports an overload past the threshold, which
    then doubles up to the new length; on an empty mailbox it rearms the
    notification and resets the threshold. *)
Theorem mailbox_try_pop_spec box q :
  mb_idle box q ->
  match q_items q with
  | [] =>
    exists box', mailbox_try_pop box = Some (None, box') /\
      mb_idle box' (Queue [] (q_capacity q) (q_initial q) (q_overload q) (q_initial q)
                      (q_closed q) false)
  | m :: rest =>
    let n := Z.of_nat (length rest) in
    exists box' t, mailbox_try_pop box = Some (Some (Some m), box') /\
      mb_idle box' (Queue rest (q_capacity q) (q_initial q)
                      (if q_threshold q <? n then n else q_overload q) t
                      (q_closed q) (q_scheduled q)) /\
      n <= t /\ (exists k, 0 <= k /\ t = q_threshold q * 2 ^ k /\
        forall j, 0 <= j < k -> q_threshold q * 2 ^ j < n)
  end.
Proof.
  intros Hb. destruct (mailbox_try_pop_idle _ _ Hb) as (box' & E & Hb').
  destruct Hb as [_ Hrep]. rep_facts Hrep. unfold q_pop in *.
  destruct (q_items q) as [|m rest]; [eauto|].
  exists box', (next_threshold (Z.of_nat (length rest)) (q_threshold q)). split; [done|]. split; [done|].
  split; [apply next_threshold_ge; lia|apply next_threshold_least; lia].
Qed.

(** C8: [mailbox_delete] disposes of the payload of every queued message, each
    exactly once: given distinct live payloads it never frees a dead block and
    leaves exactly the other blocks live. *)
Theorem mailbox_delete_spec box q h :
  mb_idle box q -> NoDup (q_payloads q) -> Forall (fun a => a ∈ h) (q_payloads q) ->
  exists h', mailbox_delete (Some box) h = Some h' /\
    forall a, a ∈ h' <-> a ∈ h /\ a ∉ q_payloads q.
Proof.
  intros Hb Hnd Hin. eexists. split; [by apply mailbox_delete_idle|].
  intros a. rewrite elem_of_difference, elem_of_list_to_set. done.
Qed.

(** [mailbox_finish_batch] lets the consumer go on exactly when the open
    mailbox still holds messages; otherwise it rearms the notification, so
    that in either case an open mailbox with messages stays scheduled. *)
Theorem mailbox_finish_batch_spec box q :
  mb_idle box q -> q_scheduled q = true ->
  exists more box', mailbox_finish_batch box = Some (more, box') /\
    (more = true <-> q_closed q = false /\ q_items q <> []) /\
    mb_scheduled box' = more /\ mb_count box' = mb_count box.
Proof.
  intros Hb Hs. destruct (@inbox_finish_batch_law mailbox mailbox_inbox _ mailbox_inbox_laws box q Hb) as (box' & E & Hl' & Hr').
  eexists _, box'. split; [exact E|]. destruct Hb as [_ Hr]. rep_facts Hr. rep_facts Hr'.
  simpl in *. unfold q_length in *. simpl in *.
  case_bool_decide; destruct (q_closed q); simpl in *; (split; [naive_solver|split; congruence]).
Qed.

(** *** Witnesses *)

Definition full_queue : queue := Queue [msg 1] 1 1 0 1 false true.
Definition full_box : mailbox :=
  Mailbox false [Some (msg 1)] 1 0 0 1 1 0 1 false true.

Lemma full_box_idle : mb_idle full_box full_queue.
Proof.
  split; [done|]. repeat split; simpl; try done; try lia.
  intros [|i] m Hi; simpl in *; simplify_eq; done.
Qed.

Lemma mailbox_bounds_witness :
  mb_wf (c_box (snd contention_run)) /\ 1 <= mb_capacity (c_box (snd contention_run)) /\
  mb_initial_capacity (c_box (snd contention_run)) = 1.
Proof.
  apply (mailbox_bounds true 1 box1 (fst contention_run));
    [lia|reflexivity|apply contention_steps].
Defined.

Lemma mailbox_try_push_spec_witness :
  exists box', mailbox_try_push true (msg 2) full_box = Some ((MAILBOX_OK, false), box') /\
    mb_idle box' (Queue [msg 1; msg 2] 2 1 0 1 false true).
Proof. apply (mailbox_try_push_spec true (msg 2) full_box full_queue full_box_idle). Defined.

Lemma mailbox_try_pop_spec_witness :
  exists box' t, mailbox_try_pop full_box = Some (Some (Some (msg 1)), box') /\
    mb_idle box' (Queue [] 1 1 0 t false true) /\ 0 <= t /\
    (exists k, 0 <= k /\ t = 1 * 2 ^ k /\ forall j, 0 <= j < k -> 1 * 2 ^ j < 0).
Proof. apply (mailbox_try_pop_spec full_box full_queue full_box_idle). Defined.

Definition owner : message := Message 7 1 9 1 (Some 4096) 8.
Definition owner_queue : queue := Queue [owner] 1 1 0 1 false true.
Definition owner_box : mailbox := Mailbox false [Some owner] 1 0 0 1 1 0 1 false true.

Lemma owner_box_idle : mb_idle owner_box owner_queue.
Proof.
  split; [done|]. repeat split; simpl; try done; try lia.
  intros [|i] m Hi; simpl in *; simplify_eq; done.
Qed.

Lemma mailbox_delete_spec_witness :
  exists h', mailbox_delete (Some owner_box) {[4096; 5000]} = Some h' /\
    forall a, a ∈ h' <-> a ∈ ({[4096; 5000]} : gset Z) /\ a ∉ [4096].
Proof.
  apply (mailbox_delete_spec owner_box owner_queue _ owner_box_idle);
    [apply NoDup_singleton|apply Forall_singleton; set_solver].
Defined.

Lemma mailbox_finish_batch_spec_witness :
  exists more box', mailbox_finish_batch full_box = Some (more, box') /\
    (more = true <-> false = false /\ [msg 1] <> []) /\
    mb_scheduled box' = more /\ mb_count box' = 1.
Proof. apply (mailbox_finish_batch_spec full_box full_queue full_box_idle eq_refl). Defined.
