(* ===== verification/SeriValue.v ===== *)
(** * SeriValue: Lua values and the byte encodings of the serializer

    What [src/lua-seri.c] sees of the Lua state: values, numbers as their
    64-bit patterns, tables with the order [lua_next] visits them in; and the
    bytes it writes: little-endian integers and type/cookie tags. *)

From S2P Require Import Prelude.

(** ** Outcomes of code that may raise a Lua error

    [Undef] is undefined behaviour of the C code and what it violates, [NoFuel]
    an evaluation cut short by the bound of the model. *)
Inductive lua_error :=
| ErrFunction
| ErrType
| ErrStream (len : Z)
| ErrBoolean (cookie : Z)
| ErrUserdata
| ErrRef (ref depth : Z)
| ErrRefObject (id : Z)
| ErrIndex.

Inductive undefined :=
| UBOutOfBounds    (* a read outside the buffer *)
| UBStackIndex     (* a stack index above the top *)
| UBUninitialised  (* an ancestor never stored *)
| UBNoTable        (* an assignment to something else than a table *)
| UBAssert.        (* a failing [assert] *)

Inductive outcome (A : Type) :=
| Done (a : A)
| Raise (e : lua_error)
| Undef (u : undefined)
| NoFuel.
Arguments Done {A}. Arguments Raise {A}. Arguments Undef {A}. Arguments NoFuel {A}.

Definition obind {A B} (x : outcome A) (k : A -> outcome B) : outcome B :=
  match x with
  | Done a => k a
  | Raise e => Raise e
  | Undef u => Undef u
  | NoFuel => NoFuel
  end.

Declare Scope outcome_scope.
Delimit Scope outcome_scope with outcome.
Notation "'let*' x ':=' c 'in' k" := (obind c (fun x => k))
  (at level 10, x pattern, c at level 200, k at level 200) : outcome_scope.

(** ** Little-endian integers: [memcpy] of an integer on the target *)

Fixpoint le_bytes (n : nat) (z : Z) : list Z :=
  match n with
  | O => []
  | S n' => z mod 256 :: le_bytes n' (z / 256)
  end.

Fixpoint le_value (bs : list Z) : Z :=
  match bs with
  | [] => 0
  | b :: bs' => b + 256 * le_value bs'
  end.

Lemma length_le_bytes n z : length (le_bytes n z) = n.
Proof. revert z. induction n; simpl; auto. Qed.

Lemma le_value_bytes n z : le_value (le_bytes n z) = z mod 2 ^ (8 * Z.of_nat n).
Proof.
  revert z. induction n as [|n IH]; intros z; [by rewrite Z.mod_1_r|].
  cbn [le_bytes le_value]. rewrite IH.
  replace (8 * Z.of_nat (S n)) with (8 + 8 * Z.of_nat n) by lia.
  rewrite Z.pow_add_r by lia. change (2 ^ 8) with 256.
  rewrite Z.rem_mul_r by (try apply Z.pow_pos_nonneg; lia). lia.
Qed.

Lemma le_bytes_ok n z : Forall byte_ok (le_bytes n z).
Proof.
  revert z. induction n as [|n IH]; intros z; simpl; constructor; [|done].
  unfold byte_ok. apply Z.mod_pos_bound. lia.
Qed.

Lemma wraps_mod w z : 0 < w -> wraps w (z mod 2 ^ w) = wraps w z.
Proof.
  intros Hw. unfold wraps. rewrite Z.mod_mod by (pose proof (Z.pow_pos_nonneg 2 w); lia). done.
Qed.

Lemma wraps_small w z : 0 < w -> - 2 ^ (w - 1) <= z < 2 ^ (w - 1) -> wraps w z = z.
Proof.
  intros Hw Hz. unfold wraps.
  assert (E : 2 ^ w = 2 * 2 ^ (w - 1)) by (rewrite <- Z.pow_succ_r by lia; f_equal; lia).
  destruct (Z.le_gt_cases 0 z).
  - rewrite Z.mod_small by lia. ztest; lia.
  - replace (z mod 2 ^ w) with (z + 2 ^ w).
    2: { apply Z.mod_unique with (q := -1); lia. }
    ztest; lia.
Qed.

(** ** Tags: [COMBINE_TYPE] stored in a [uint8_t], and its two halves *)

Definition COMBINE_TYPE (t v : Z) : Z := wrapu 8 (Z.lor t (Z.shiftl v 3)).
Definition tag_type (tag : Z) : Z := Z.land tag 7.
Definition tag_cookie (tag : Z) : Z := Z.shiftr tag 3.

Lemma COMBINE_TYPE_add t v : 0 <= t < 8 -> 0 <= v < 32 -> COMBINE_TYPE t v = t + 8 * v.
Proof.
  intros Ht Hv. unfold COMBINE_TYPE, wrapu.
  rewrite Z.shiftl_mul_pow2 by lia. pose proof (Z.add_lor_land t (v * 2 ^ 3)) as Hadd.
  assert (E : Z.land t (v * 2 ^ 3) = 0).
  { apply Z.bits_inj'. intros n Hn. rewrite Z.land_spec, Z.bits_0, Z.mul_pow2_bits by lia.
    destruct (Z.lt_ge_cases n 3).
    - rewrite (Z.testbit_neg_r v) by lia. apply andb_false_r.
    - rewrite (Z.bits_above_log2 t); [done|lia|].
      destruct (Z.eq_dec t 0) as [->|]; [simpl; lia|].
      apply Z.log2_lt_pow2; [lia|]. apply Z.lt_le_trans with (2 ^ 3); [lia|].
      apply Z.pow_le_mono_r; lia. }
  rewrite E in Hadd. rewrite Z.mod_small; lia.
Qed.

Lemma tag_type_combine t v : 0 <= t < 8 -> 0 <= v < 32 -> tag_type (COMBINE_TYPE t v) = t.
Proof.
  intros Ht Hv. rewrite COMBINE_TYPE_add by done. unfold tag_type.
  change 7 with (Z.ones 3). rewrite Z.land_ones by lia. change (2 ^ 3) with 8.
  rewrite (Z.mul_comm 8), Z.mod_add, Z.mod_small by lia. done.
Qed.

Lemma tag_cookie_combine t v : 0 <= t < 8 -> 0 <= v < 32 -> tag_cookie (COMBINE_TYPE t v) = v.
Proof.
  intros Ht Hv. rewrite COMBINE_TYPE_add by done. unfold tag_cookie.
  rewrite Z.shiftr_div_pow2 by lia. change (2 ^ 3) with 8.
  rewrite (Z.mul_comm 8), Z.div_add, Z.div_small by lia. done.
Qed.

(** ** Numbers: the 64-bit pattern of a double *)

Inductive dval := DNan | DInf (neg : bool) | DFin (m e : Z).

(** [DFin m e] is the number [m * 2 ^ e]. *)
Definition dbl_decode (bits : Z) : dval :=
  let neg := Z.testbit bits 63 in
  let ex := Z.land (Z.shiftr bits 52) 2047 in
  let mant := Z.land bits (2 ^ 52 - 1) in
  if ex =? 2047 then (if mant =? 0 then DInf neg else DNan)
  else
    let m := if ex =? 0 then mant else mant + 2 ^ 52 in
    DFin (if neg then - m else m) (Z.max ex 1 - 1075).

(** [(double)x] for an integer: round to nearest, ties to even. *)
Definition dbl_of_int (x : Z) : Z :=
  if x =? 0 then 0
  else
    let a := Z.abs x in
    let l := Z.log2 a in
    let q :=
      if l <=? 52 then a * 2 ^ (52 - l)
      else
        let s := 2 ^ (l - 52) in
        let q := a / s in
        let r := a mod s in
        if (2 * r <? s) || ((2 * r =? s) && Z.even q) then q else q + 1 in
    (if x <? 0 then 2 ^ 63 else 0) + (l + 1022) * 2 ^ 52 + q.

Definition dbl_is_nan (bits : Z) : bool :=
  match dbl_decode bits with DNan => true | _ => false end.

(** The comparisons and conversions [wb_table_hash] makes: [n > 0],
    [n <= k], [(lua_Integer)n] and [(lua_Number)x == n]. *)
Definition dbl_pos (bits : Z) : bool :=
  match dbl_decode bits with DNan => false | DInf neg => negb neg | DFin m _ => 0 <? m end.

Definition dbl_le_int (bits k : Z) : bool :=
  match dbl_decode bits with
  | DNan => false
  | DInf neg => neg
  | DFin m e => if 0 <=? e then m * 2 ^ e <=? k else m <=? k * 2 ^ (- e)
  end.

Definition dbl_trunc (bits : Z) : Z :=
  match dbl_decode bits with
  | DFin m e => if 0 <=? e then m * 2 ^ e else Z.quot m (2 ^ (- e))
  | _ => 0
  end.

(** Equality of doubles: no NaN, and the two zeros are one. *)
Definition dbl_eq (a b : Z) : bool :=
  negb (dbl_is_nan a) && negb (dbl_is_nan b) &&
  ((a =? b) || ((a mod 2 ^ 63 =? 0) && (b mod 2 ^ 63 =? 0))).

(** ** Values *)

Inductive value :=
| VNil
| VBoolean (b : bool)
| VNumber (bits : Z)
| VString (s : list Z)
| VLightUserdata (p : Z)
| VCFunction (p : Z)
| VClosure (p : Z)
| VTable (p : Z)
| VOther (p : Z).

#[export] Instance value_eq_dec : EqDecision value.
Proof. solve_decision. Defined.

(** Raw equality of table keys. *)
Definition raw_eq (a b : value) : bool :=
  match a, b with
  | VNumber x, VNumber y => dbl_eq x y
  | _, _ => bool_decide (a = b)
  end.

(** A table as [lua_next] walks it, with the length [lua_objlen] gives and,
    when its metatable has [__pairs], the pairs that iterator yields. *)
Record table := Table {
  t_len : Z;
  t_entries : list (value * value);
  t_pairs : option (list (value * value))
}.

Definition empty_table : table := Table 0 [] None.

Definition heap : Type := gmap Z table.

Definition heap_get (h : heap) (p : Z) : table := default empty_table (h !! p).

Fixpoint raw_get (entries : list (value * value)) (k : value) : value :=
  match entries with
  | [] => VNil
  | (k', v) :: rest => if raw_eq k' k then v else raw_get rest k
  end.

(** An assignment updates the entry of an equal key in place or adds one;
    assigning nil removes the entry. *)
Fixpoint raw_set (entries : list (value * value)) (k v : value) : list (value * value) :=
  match entries with
  | [] => if bool_decide (v = VNil) then [] else [(k, v)]
  | (k', v') :: rest =>
    if raw_eq k' k then (if bool_decide (v = VNil) then rest else (k', v) :: rest)
    else (k', v') :: raw_set rest k v
  end.

Definition raw_geti (t : table) (i : Z) : value := raw_get (t_entries t) (VNumber (dbl_of_int i)).
