(* ===== verification/SeriPack.v ===== *)
(** * SeriPack: the writing half of the serializer (src/lua-seri.c)

    The chain of blocks bytes are appended to, the writers of each kind of
    value, the two reference tables behind shared objects, and [pack_one] with
    the functions it is mutually recursive with.

    A block holds the bytes written so far; an address is the index of a block
    and an offset in it. *)

From S2P Require Import Prelude SeriValue.
#[local] Open Scope outcome_scope.

(** ** Constants *)

Definition TYPE_BOOLEAN : Z := 0.
Definition TYPE_BOOLEAN_NIL : Z := 0.
Definition TYPE_BOOLEAN_FALSE : Z := 1.
Definition TYPE_BOOLEAN_TRUE : Z := 2.
Definition TYPE_NUMBER : Z := 1.
Definition TYPE_NUMBER_ZERO : Z := 0.
Definition TYPE_NUMBER_BYTE : Z := 1.
Definition TYPE_NUMBER_WORD : Z := 2.
Definition TYPE_NUMBER_DWORD : Z := 4.
Definition TYPE_NUMBER_QWORD : Z := 6.
Definition TYPE_NUMBER_REAL : Z := 8.
Definition TYPE_USERDATA : Z := 2.
Definition TYPE_USERDATA_POINTER : Z := 0.
Definition TYPE_USERDATA_CFUNCTION : Z := 1.
Definition TYPE_SHORT_STRING : Z := 3.
Definition TYPE_LONG_STRING : Z := 4.
Definition TYPE_TABLE : Z := 5.
Definition TYPE_TABLE_MARK : Z := 6.
Definition TYPE_REF : Z := 7.
Definition MAX_COOKIE : Z := 32.
Definition EXTEND_NUMBER : Z := MAX_COOKIE - 1.
Definition BLOCK_SIZE : Z := 128.
Definition MAX_DEPTH : Z := 31.
Definition MAX_REFERENCE : Z := 32.

(** ** The block chain *)

(** The [head], [current], [len] and [ptr] fields of [struct write_block]: the
    blocks before [current], and [current]. *)
Record wbuf := WBuf {
  wb_full : list (list Z);
  wb_current : list Z;
  wb_len : Z;
  wb_ptr : Z
}.

Definition wbuf_init : wbuf := WBuf [] [] 0 0.

(** [b->current = b->current->next = blk_alloc(); b->ptr = 0]. *)
Definition wb_next_block (b : wbuf) : wbuf :=
  WBuf (wb_full b ++ [wb_current b]) [] (wb_len b) 0.

(** [memcpy] of [bytes] into the current block at [ptr]. *)
Definition blk_write (blk : list Z) (ptr : Z) (bytes : list Z) : list Z :=
  take (Z.to_nat ptr) blk ++ bytes ++ drop (Z.to_nat ptr + length bytes) blk.

(** The part of [wb_push] after its first test; each turn of the [goto] fills
    the rest of a block.  Every turn but the last writes a byte, so the number
    of bytes bounds the turns. *)
Fixpoint wb_push_fit (fuel : nat) (b : wbuf) (buf : list Z) : wbuf :=
  let sz := Z.of_nat (length buf) in
  if wb_ptr b <=? BLOCK_SIZE - sz then
    WBuf (wb_full b) (blk_write (wb_current b) (wb_ptr b) buf) (wb_len b + sz) (wb_ptr b + sz)
  else
    let copy := BLOCK_SIZE - wb_ptr b in
    let b' := WBuf (wb_full b)
                (blk_write (wb_current b) (wb_ptr b) (take (Z.to_nat copy) buf))
                (wb_len b + copy) (wb_ptr b) in
    match fuel with
    | O => b'
    | S fuel' => wb_push_fit fuel' (wb_next_block b') (drop (Z.to_nat copy) buf)
    end.

Definition wb_push (b : wbuf) (buf : list Z) : wbuf :=
  wb_push_fit (length buf) (if wb_ptr b =? BLOCK_SIZE then wb_next_block b else b) buf.

Definition address : Type := nat * Z.

Definition wb_address (b : wbuf) : address * wbuf :=
  let b' := if wb_ptr b =? BLOCK_SIZE then wb_next_block b else b in
  ((length (wb_full b'), wb_ptr b'), b').

(** The byte at an address, and storing one there. *)
Definition wb_peek (b : wbuf) (a : address) : option Z :=
  blk ← (wb_full b ++ [wb_current b]) !! fst a; arr_get blk (snd a).

Definition wb_poke (b : wbuf) (a : address) (x : Z) : wbuf :=
  if decide (fst a = length (wb_full b)) then
    WBuf (wb_full b) (arr_set (wb_current b) (snd a) x) (wb_len b) (wb_ptr b)
  else
    WBuf (alter (fun blk => arr_set blk (snd a) x) (fst a) (wb_full b)) (wb_current b)
      (wb_len b) (wb_ptr b).

(** [change_mark]; the [assert] that the tag is a table's may fail. *)
Definition change_mark (b : wbuf) (a : address) : outcome wbuf :=
  match wb_peek b a with
  | Some tag =>
    if tag_type tag =? TYPE_TABLE then
      Done (wb_poke b a (COMBINE_TYPE TYPE_TABLE_MARK (tag_cookie tag)))
    else Undef UBAssert
  | None => Undef UBOutOfBounds
  end.

(** [seri]: the length, then the bytes of the blocks. *)
Fixpoint seri_copy (blocks : list (list Z)) (len : Z) : list Z :=
  if 0 <? len then
    match blocks with
    | [] => []
    | blk :: next =>
      if BLOCK_SIZE <=? len then
        take (Z.to_nat BLOCK_SIZE) blk ++ seri_copy next (len - BLOCK_SIZE)
      else take (Z.to_nat len) blk
    end
  else [].

Definition seri (b : wbuf) : list Z :=
  le_bytes 4 (wb_len b) ++ seri_copy (wb_full b ++ [wb_current b]) (wb_len b).

(** ** Writers of single values *)

Definition wb_nil (b : wbuf) : wbuf := wb_push b [COMBINE_TYPE TYPE_BOOLEAN TYPE_BOOLEAN_NIL].

Definition wb_boolean (b : wbuf) (boolean : bool) : wbuf :=
  wb_push b [COMBINE_TYPE TYPE_BOOLEAN (if boolean then TYPE_BOOLEAN_TRUE else TYPE_BOOLEAN_FALSE)].

Definition wb_integer (b : wbuf) (v : Z) : wbuf :=
  if v =? 0 then wb_push b [COMBINE_TYPE TYPE_NUMBER TYPE_NUMBER_ZERO]
  else if negb (v =? wraps 32 v) then
    wb_push (wb_push b [COMBINE_TYPE TYPE_NUMBER TYPE_NUMBER_QWORD]) (le_bytes 8 v)
  else if v <? 0 then
    wb_push (wb_push b [COMBINE_TYPE TYPE_NUMBER TYPE_NUMBER_DWORD]) (le_bytes 4 v)
  else if v <? 256 then
    wb_push (wb_push b [COMBINE_TYPE TYPE_NUMBER TYPE_NUMBER_BYTE]) [wrapu 8 v]
  else if v <? 65536 then
    wb_push (wb_push b [COMBINE_TYPE TYPE_NUMBER TYPE_NUMBER_WORD]) (le_bytes 2 v)
  else
    wb_push (wb_push b [COMBINE_TYPE TYPE_NUMBER TYPE_NUMBER_DWORD]) (le_bytes 4 v).

Definition wb_real (b : wbuf) (bits : Z) : wbuf :=
  wb_push (wb_push b [COMBINE_TYPE TYPE_NUMBER TYPE_NUMBER_REAL]) (le_bytes 8 bits).

Definition wb_pointer (b : wbuf) (v subtype : Z) : wbuf :=
  wb_push (wb_push b [COMBINE_TYPE TYPE_USERDATA subtype]) (le_bytes 8 v).

(** [len] is the [int] the length of the string is cast to. *)
Definition wb_string (b : wbuf) (str : list Z) (len : Z) : wbuf :=
  if len <? MAX_COOKIE then
    let b1 := wb_push b [COMBINE_TYPE TYPE_SHORT_STRING len] in
    if 0 <? len then wb_push b1 (take (Z.to_nat len) str) else b1
  else
    let b1 :=
      if len <? 65536 then
        wb_push (wb_push b [COMBINE_TYPE TYPE_LONG_STRING 2]) (le_bytes 2 len)
      else
        wb_push (wb_push b [COMBINE_TYPE TYPE_LONG_STRING 4]) (le_bytes 4 len) in
    wb_push b1 (take (Z.to_nat len) str).

(** ** The state of a pack *)

(** [struct write_block]: the buffer, [struct stack] and the reference array.
    The C code keeps the ancestors as stack slots; a slot below [depth] holds the
    table being written at that depth until the walk leaves it, so the model
    keeps the table.  [wb_tables] are the two Lua tables that replace the array once it is full:
    [pointer -> id] and [id -> address]. *)
Record write_block := WriteBlock {
  wb_buf : wbuf;
  wb_depth : Z;
  wb_objectid : Z;
  wb_ancestor : gmap Z Z;
  wb_r : list (Z * option address);
  wb_tables : option (gmap Z Z * gmap Z address)
}.

Definition wb_init : write_block := WriteBlock wbuf_init 0 0 ∅ [] None.

Definition on_buf (f : wbuf -> wbuf) (b : write_block) : write_block :=
  WriteBlock (f (wb_buf b)) (wb_depth b) (wb_objectid b) (wb_ancestor b) (wb_r b) (wb_tables b).

Definition set_depth (d : Z) (b : write_block) : write_block :=
  WriteBlock (wb_buf b) d (wb_objectid b) (wb_ancestor b) (wb_r b) (wb_tables b).

(** The loop of [mark_table] that moves the array into the Lua tables. *)
Fixpoint move_references (i : Z) (r : list (Z * option address))
    (ids : gmap Z Z) (addrs : gmap Z address) : gmap Z Z * gmap Z address :=
  match r with
  | [] => (ids, addrs)
  | (obj, addr) :: r' =>
    move_references (i + 1) r' (<[obj := i + 1]> ids)
      (match addr with Some a => <[i + 1 := a]> addrs | None => addrs end)
  end.

Definition mark_table (obj : Z) (b : write_block) : write_block :=
  let id := wb_objectid b in
  let '(addr, buf) := wb_address (wb_buf b) in
  let tables := if id =? MAX_REFERENCE then Some (move_references 0 (wb_r b) ∅ ∅) else wb_tables b in
  if id <? MAX_REFERENCE then
    WriteBlock buf (wb_depth b) (id + 1) (wb_ancestor b) (wb_r b ++ [(obj, Some addr)]) tables
  else
    let '(ids, addrs) := default (∅, ∅) tables in
    WriteBlock buf (wb_depth b) (id + 1) (wb_ancestor b) (wb_r b)
      (Some (<[obj := id + 1]> ids, <[id + 1 := addr]> addrs)).

(** The search [for (i = n-1; i >= 0; i--)] of [ref_ancestor]. *)
Fixpoint find_ancestor (i : nat) (ancestor : gmap Z Z) (obj : Z) : option Z :=
  match i with
  | O => None
  | S i' =>
    if bool_decide (ancestor !! Z.of_nat i' = Some obj) then Some (Z.of_nat i')
    else find_ancestor i' ancestor obj
  end.

Definition ref_ancestor (obj : Z) (b : write_block) : option write_block :=
  let n := wb_depth b in
  if (n =? 0) || (MAX_DEPTH <=? n) then None
  else
    match find_ancestor (Z.to_nat n) (wb_ancestor b) obj with
    | Some i => Some (on_buf (fun w => wb_push w [COMBINE_TYPE TYPE_REF i]) b)
    | None => None
    end.

(** The array half of [lookup_ref]: the index of the object, from [i] on. *)
Fixpoint find_reference (i : nat) (r : list (Z * option address)) (obj : Z) :
    option (nat * option address) :=
  match r with
  | [] => None
  | (obj', addr) :: r' =>
    if obj' =? obj then Some (i, addr) else find_reference (S i) r' obj
  end.

(** [lookup_ref]: the id, 0 when the object is new, and the first reference to
    an object marks its table. *)
Definition lookup_ref (obj : Z) (b : write_block) : outcome (Z * write_block) :=
  if wb_objectid b <=? MAX_REFERENCE then
    match find_reference 0 (wb_r b) obj with
    | Some (i, Some a) =>
      let* buf := change_mark (wb_buf b) a in
      Done (Z.of_nat i + 1,
            WriteBlock buf (wb_depth b) (wb_objectid b) (wb_ancestor b)
              (<[i := (obj, None)]> (wb_r b)) (wb_tables b))
    | Some (i, None) => Done (Z.of_nat i + 1, b)
    | None => Done (0, b)
    end
  else
    let '(ids, addrs) := default (∅, ∅) (wb_tables b) in
    match ids !! obj with
    | None => Done (0, b)
    | Some id =>
      match addrs !! id with
      | Some a =>
        let* buf := change_mark (wb_buf b) a in
        Done (id, WriteBlock buf (wb_depth b) (wb_objectid b) (wb_ancestor b) (wb_r b)
                    (Some (ids, delete id addrs)))
      | None => Done (id, b)
      end
    end.

Definition ref_object (obj : Z) (b : write_block) : outcome (option write_block) :=
  let* (id, b1) := lookup_ref obj b in
  if 0 <? id then
    Done (Some (on_buf (fun w => wb_integer (wb_push w [COMBINE_TYPE TYPE_REF EXTEND_NUMBER]) id) b1))
  else Done None.

(** ** Tables *)

(** The key of an entry the array part already wrote. *)
Definition array_key (k : value) (array_size : Z) : bool :=
  match k with
  | VNumber n =>
    if dbl_pos n && dbl_le_int n array_size then
      let x := dbl_trunc n in
      match dbl_decode n with
      | DFin m e => if 0 <=? e then x =? m * 2 ^ e else x * 2 ^ (- e) =? m
      | _ => false
      end
    else false
  | _ => false
  end.

Section Pack.
Variable pack_one : value -> write_block -> outcome write_block.

(** [for (i = 1; i <= array_size; i++)], [n] turns left. *)
Fixpoint wb_array_loop (n : nat) (i : Z) (t : table) (b : write_block) : outcome write_block :=
  match n with
  | O => Done b
  | S n' =>
    let* b1 := pack_one (raw_geti t i) b in
    wb_array_loop n' (i + 1) t b1
  end.

Definition wb_table_array (t : table) (b : write_block) : outcome (Z * write_block) :=
  let array_size := wraps 32 (t_len t) in
  let b1 :=
    if EXTEND_NUMBER <=? array_size then
      on_buf (fun w => wb_integer (wb_push w [COMBINE_TYPE TYPE_TABLE EXTEND_NUMBER]) array_size) b
    else on_buf (fun w => wb_push w [COMBINE_TYPE TYPE_TABLE array_size]) b in
  let* b2 := wb_array_loop (Z.to_nat array_size) 1 t b1 in
  Done (array_size, b2).

(** The [lua_next] loop of [wb_table_hash]. *)
Fixpoint wb_hash_loop (entries : list (value * value)) (array_size : Z) (b : write_block) :
    outcome write_block :=
  match entries with
  | [] => Done b
  | (k, v) :: rest =>
    if array_key k array_size then wb_hash_loop rest array_size b
    else
      let* b1 := pack_one k b in
      let* b2 := pack_one v b1 in
      wb_hash_loop rest array_size b2
  end.

Definition wb_table_hash (t : table) (array_size : Z) (b : write_block) : outcome write_block :=
  let* b1 := wb_hash_loop (t_entries t) array_size b in
  Done (on_buf wb_nil b1).

(** The iterator's loop of [wb_table_metapairs]; it ends at a nil key. *)
Fixpoint wb_pairs_loop (pairs : list (value * value)) (b : write_block) : outcome write_block :=
  match pairs with
  | [] => Done b
  | (k, v) :: rest =>
    if bool_decide (k = VNil) then Done b
    else
      let* b1 := pack_one k b in
      let* b2 := pack_one v b1 in
      wb_pairs_loop rest b2
  end.

Definition wb_table_metapairs (pairs : list (value * value)) (b : write_block) :
    outcome write_block :=
  let* b1 := wb_pairs_loop pairs (on_buf (fun w => wb_push w [COMBINE_TYPE TYPE_TABLE 0]) b) in
  Done (on_buf wb_nil b1).

Definition wb_table (obj : Z) (t : table) (b : write_block) : outcome write_block :=
  let b1 := mark_table obj b in
  match t_pairs t with
  | Some pairs => wb_table_metapairs pairs b1
  | None =>
    let* (array_size, b2) := wb_table_array t b1 in
    wb_table_hash t array_size b2
  end.
End Pack.

(** [s->ancestor[s->depth] = index]. *)
Definition push_ancestor (obj : Z) (b : write_block) : write_block :=
  WriteBlock (wb_buf b) (wb_depth b + 1) (wb_objectid b)
    (if wb_depth b <? MAX_DEPTH then <[wb_depth b := obj]> (wb_ancestor b) else wb_ancestor b)
    (wb_r b) (wb_tables b).

(** ** [pack_one] *)

Fixpoint pack_one (fuel : nat) (h : heap) (v : value) (b : write_block) : outcome write_block :=
  match fuel with
  | O => NoFuel
  | S fuel' =>
    match v with
    | VNil => Done (on_buf wb_nil b)
    | VNumber n => Done (on_buf (fun w => wb_real w n) b)
    | VBoolean x => Done (on_buf (fun w => wb_boolean w x) b)
    | VString s => Done (on_buf (fun w => wb_string w s (wraps 32 (Z.of_nat (length s)))) b)
    | VLightUserdata p => Done (on_buf (fun w => wb_pointer w p TYPE_USERDATA_POINTER) b)
    | VClosure _ => Raise ErrFunction
    | VCFunction p => Done (on_buf (fun w => wb_pointer w p TYPE_USERDATA_CFUNCTION) b)
    | VTable obj =>
      match ref_ancestor obj b with
      | Some b1 => Done b1
      | None =>
        let* r := ref_object obj b in
        match r with
        | Some b1 => Done b1
        | None =>
          let* b1 := wb_table (pack_one fuel' h) obj (heap_get h obj) (push_ancestor obj b) in
          Done (set_depth (wb_depth b1 - 1) b1)
        end
      end
    | VOther _ => Raise ErrType
    end
  end.

(** The loop of [pack_from] over the arguments. *)
Fixpoint pack_from (fuel : nat) (h : heap) (vs : list value) (b : write_block) : outcome write_block :=
  match vs with
  | [] => Done b
  | v :: vs' => let* b1 := pack_one fuel h v b in pack_from fuel h vs' b1
  end.

(** [seri_pack]: the malloc'ed buffer, length word first. *)
Definition seri_pack (fuel : nat) (h : heap) (vs : list value) : outcome (list Z) :=
  let* b := pack_from fuel h vs wb_init in
  Done (seri (wb_buf b)).

(** [seri_packstring]. *)
Definition seri_packstring (str : list Z) (sz : Z) : list Z := seri (wb_string wbuf_init str sz).
