(* ===== verification/SeriUnpack.v ===== *)
(** * SeriUnpack: the reading half of the serializer (src/lua-seri.c)

    The read block over a buffer of bytes, the Lua stack the values are pushed
    on, and [push_value] with the functions it is mutually recursive with.

    The ancestors are indices of the Lua stack, as in the C code: what an
    ancestor reference pushes is whatever that slot holds at that time. *)

From S2P Require Import Prelude SeriValue SeriPack.
#[local] Open Scope outcome_scope.

(** ** The Lua state *)

(** Tables read back: their entries.  The stack is listed from its top;
    [lua_fresh] is the address of the next table. *)
Record lua := Lua {
  lua_heap : gmap Z (list (value * value));
  lua_fresh : Z;
  lua_stack : list value
}.

Definition lua_gettop (L : lua) : Z := Z.of_nat (length (lua_stack L)).

Definition lua_push (v : value) (L : lua) : lua :=
  Lua (lua_heap L) (lua_fresh L) (v :: lua_stack L).

Definition lua_pop (L : lua) : lua := Lua (lua_heap L) (lua_fresh L) (tail (lua_stack L)).

(** The value at a positive (absolute) or negative (from the top) index. *)
Definition lua_at (L : lua) (index : Z) : option value :=
  if index <? 0 then lua_stack L !! Z.to_nat (- index - 1)
  else if (1 <=? index) && (index <=? lua_gettop L) then
    lua_stack L !! Z.to_nat (lua_gettop L - index)
  else None.

Definition lua_pushvalue (index : Z) (L : lua) : outcome lua :=
  match lua_at L index with Some v => Done (lua_push v L) | None => Undef UBStackIndex end.

Definition lua_createtable (L : lua) : lua :=
  Lua (<[lua_fresh L := []]> (lua_heap L)) (lua_fresh L + 1) (VTable (lua_fresh L) :: lua_stack L).

(** A raw assignment to a table of the heap; a NaN key raises. *)
Definition heap_rawset (h : gmap Z (list (value * value))) (p : Z) (k v : value) :
    outcome (gmap Z (list (value * value))) :=
  match k with
  | VNil => Raise ErrIndex
  | VNumber n => if dbl_is_nan n then Raise ErrIndex else Done (<[p := raw_set (default [] (h !! p)) k v]> h)
  | _ => Done (<[p := raw_set (default [] (h !! p)) k v]> h)
  end.

(** [lua_rawseti(L, -2, i)]. *)
Definition lua_rawseti (i : Z) (L : lua) : outcome lua :=
  match lua_stack L with
  | v :: VTable p :: rest =>
    let* h := heap_rawset (lua_heap L) p (VNumber (dbl_of_int i)) v in
    Done (Lua h (lua_fresh L) (VTable p :: rest))
  | _ => Undef UBNoTable
  end.

(** [lua_rawset(L, -3)]. *)
Definition lua_rawset (L : lua) : outcome lua :=
  match lua_stack L with
  | v :: k :: VTable p :: rest =>
    let* h := heap_rawset (lua_heap L) p k v in
    Done (Lua h (lua_fresh L) (VTable p :: rest))
  | _ => Undef UBNoTable
  end.

(** ** The read block *)

(** [struct read_block]; [rb_refs] is the table in the stack slot
    [ref_index], from ids to tables, absent while that slot holds nil. *)
Record read_block := ReadBlock {
  rb_buffer : list Z;
  rb_len : Z;
  rb_ptr : Z;
  rb_depth : Z;
  rb_objectid : Z;
  rb_ancestor : gmap Z Z;
  rb_refs : option (gmap Z Z)
}.

Definition rball_init (buffer : list Z) (size : Z) : read_block :=
  ReadBlock buffer size 0 0 0 ∅ None.

(** [rb_read]: the offset of the bytes, [None] for NULL. *)
Definition rb_read (rb : read_block) (sz : Z) : option Z * read_block :=
  if rb_len rb <? sz then (None, rb)
  else
    (Some (rb_ptr rb),
     ReadBlock (rb_buffer rb) (rb_len rb - sz) (rb_ptr rb + sz) (rb_depth rb) (rb_objectid rb)
       (rb_ancestor rb) (rb_refs rb)).

(** The [sz] bytes at an offset of the buffer, when they are in it. *)
Definition rb_bytes (rb : read_block) (ptr sz : Z) : outcome (list Z) :=
  if (0 <=? ptr) && (0 <=? sz) && (ptr + sz <=? Z.of_nat (length (rb_buffer rb))) then
    Done (take (Z.to_nat sz) (drop (Z.to_nat ptr) (rb_buffer rb)))
  else Undef UBOutOfBounds.

Definition invalid_stream {A} (rb : read_block) : outcome A := Raise (ErrStream (rb_len rb)).

(** [rb_read] and its NULL test, then the [memcpy] of the bytes. *)
Definition rb_take (rb : read_block) (sz : Z) : outcome (list Z * read_block) :=
  match rb_read rb sz with
  | (None, rb1) => invalid_stream rb1
  | (Some p, rb1) => let* bs := rb_bytes rb1 p sz in Done (bs, rb1)
  end.

Definition get_integer (rb : read_block) (cookie : Z) : outcome (Z * read_block) :=
  if cookie =? TYPE_NUMBER_ZERO then Done (0, rb)
  else if cookie =? TYPE_NUMBER_BYTE then
    let* (bs, rb1) := rb_take rb 1 in Done (le_value bs, rb1)
  else if cookie =? TYPE_NUMBER_WORD then
    let* (bs, rb1) := rb_take rb 2 in Done (le_value bs, rb1)
  else if cookie =? TYPE_NUMBER_DWORD then
    let* (bs, rb1) := rb_take rb 4 in Done (wraps 32 (le_value bs), rb1)
  else if cookie =? TYPE_NUMBER_QWORD then
    let* (bs, rb1) := rb_take rb 8 in Done (wraps 64 (le_value bs), rb1)
  else invalid_stream rb.

Definition get_real (rb : read_block) : outcome (Z * read_block) :=
  let* (bs, rb1) := rb_take rb 8 in Done (le_value bs, rb1).

Definition get_pointer (rb : read_block) : outcome (Z * read_block) :=
  let* (bs, rb1) := rb_take rb 8 in Done (le_value bs, rb1).

(** [get_buffer]; [len] is the [int] its argument is converted to. *)
Definition get_buffer (rb : read_block) (len : Z) (L : lua) : outcome (read_block * lua) :=
  let* (bs, rb1) := rb_take rb len in Done (rb1, lua_push (VString bs) L).

Definition get_extend_integer (rb : read_block) : outcome (Z * read_block) :=
  let* (bs, rb1) := rb_take rb 1 in
  let type := le_value bs in
  let cookie := tag_cookie type in
  if negb (tag_type type =? TYPE_NUMBER) || (cookie =? TYPE_NUMBER_REAL) then invalid_stream rb1
  else let* (v, rb2) := get_integer rb1 cookie in Done (wraps 32 v, rb2).

(** ** Tables and references *)

(** [++s->objectid], and the registration of a marked table. *)
Definition rb_new_object (rb : read_block) (mark : bool) (p : Z) : read_block :=
  let id := rb_objectid rb + 1 in
  ReadBlock (rb_buffer rb) (rb_len rb) (rb_ptr rb) (rb_depth rb) id (rb_ancestor rb)
    (if mark then Some (<[id := p]> (default ∅ (rb_refs rb))) else rb_refs rb).

Definition rb_set_depth (d : Z) (rb : read_block) : read_block :=
  ReadBlock (rb_buffer rb) (rb_len rb) (rb_ptr rb) d (rb_objectid rb) (rb_ancestor rb) (rb_refs rb).

Definition rb_inc_depth (rb : read_block) : read_block := rb_set_depth (rb_depth rb + 1) rb.
Definition rb_dec_depth (rb : read_block) : read_block := rb_set_depth (rb_depth rb - 1) rb.

(** [if (s->depth < MAX_DEPTH) s->ancestor[s->depth] = top; ++s->depth]. *)
Definition rb_push_ancestor (top : Z) (rb : read_block) : read_block :=
  ReadBlock (rb_buffer rb) (rb_len rb) (rb_ptr rb) (rb_depth rb + 1) (rb_objectid rb)
    (if rb_depth rb <? MAX_DEPTH then <[rb_depth rb := top]> (rb_ancestor rb) else rb_ancestor rb)
    (rb_refs rb).

Definition unpack_ref (rb : read_block) (ref : Z) (L : lua) : outcome (read_block * lua) :=
  if ref =? EXTEND_NUMBER then
    let* (id, rb1) := get_extend_integer rb in
    match rb_refs rb1 with
    | None => Raise (ErrRefObject id)
    | Some refs =>
      match refs !! id with
      | Some p => Done (rb1, lua_push (VTable p) L)
      | None => Raise (ErrRefObject id)
      end
    end
  else if rb_depth rb <=? ref then Raise (ErrRef ref (rb_depth rb))
  else
    match rb_ancestor rb !! ref with
    | Some slot => let* L1 := lua_pushvalue slot L in Done (rb, L1)
    | None => Undef UBUninitialised
    end.

Section Unpack.
Variable unpack_one : read_block -> lua -> outcome (read_block * lua).

(** [for (i = 1; i <= array_size; i++)], from [i]. *)
Fixpoint unpack_array (fuel : nat) (i array_size : Z) (rb : read_block) (L : lua) :
    outcome (read_block * lua) :=
  match fuel with
  | O => NoFuel
  | S fuel' =>
    if i <=? array_size then
      let* (rb1, L1) := unpack_one rb L in
      let* L2 := lua_rawseti i L1 in
      unpack_array fuel' (i + 1) array_size rb1 L2
    else Done (rb, L)
  end.

(** The [for (;;)] loop over the hash part. *)
Fixpoint unpack_hash (fuel : nat) (rb : read_block) (L : lua) : outcome (read_block * lua) :=
  match fuel with
  | O => NoFuel
  | S fuel' =>
    let* (rb1, L1) := unpack_one rb L in
    match lua_at L1 (-1) with
    | Some VNil => Done (rb1, lua_pop L1)
    | _ =>
      let* (rb2, L2) := unpack_one (rb_inc_depth rb1) L1 in
      let* L3 := lua_rawset L2 in
      unpack_hash fuel' (rb_dec_depth rb2) L3
    end
  end.

Definition unpack_table (fuel : nat) (rb : read_block) (array_size type : Z) (L : lua) :
    outcome (read_block * lua) :=
  let* (array_size, rb0) :=
    if array_size =? EXTEND_NUMBER then get_extend_integer rb else Done (array_size, rb) in
  let L1 := lua_createtable L in
  let rb1 := rb_new_object rb0 (type =? TYPE_TABLE_MARK) (lua_fresh L) in
  let rb2 := rb_push_ancestor (lua_gettop L1) rb1 in
  let* (rb3, L3) := unpack_array fuel 1 array_size rb2 L1 in
  unpack_hash fuel (rb_dec_depth rb3) L3.

Definition push_value (fuel : nat) (rb : read_block) (type cookie : Z) (L : lua) :
    outcome (read_block * lua) :=
  if type =? TYPE_BOOLEAN then
    if cookie =? TYPE_BOOLEAN_NIL then Done (rb, lua_push VNil L)
    else if cookie =? TYPE_BOOLEAN_FALSE then Done (rb, lua_push (VBoolean false) L)
    else if cookie =? TYPE_BOOLEAN_TRUE then Done (rb, lua_push (VBoolean true) L)
    else Raise (ErrBoolean cookie)
  else if type =? TYPE_NUMBER then
    if cookie =? TYPE_NUMBER_REAL then
      let* (n, rb1) := get_real rb in Done (rb1, lua_push (VNumber n) L)
    else
      let* (n, rb1) := get_integer rb cookie in Done (rb1, lua_push (VNumber (dbl_of_int n)) L)
  else if type =? TYPE_USERDATA then
    if cookie =? TYPE_USERDATA_POINTER then
      let* (p, rb1) := get_pointer rb in Done (rb1, lua_push (VLightUserdata p) L)
    else if negb (cookie =? TYPE_USERDATA_CFUNCTION) then Raise ErrUserdata
    else let* (p, rb1) := get_pointer rb in Done (rb1, lua_push (VCFunction p) L)
  else if type =? TYPE_SHORT_STRING then get_buffer rb cookie L
  else if type =? TYPE_LONG_STRING then
    if cookie =? 2 then
      let* (bs, rb1) := rb_take rb 2 in get_buffer rb1 (le_value bs) L
    else if negb (cookie =? 4) then invalid_stream rb
    else
      let* (bs, rb1) := rb_take rb 4 in get_buffer rb1 (wraps 32 (le_value bs)) L
  else if (type =? TYPE_TABLE) || (type =? TYPE_TABLE_MARK) then unpack_table fuel rb cookie type L
  else if type =? TYPE_REF then unpack_ref rb cookie L
  else invalid_stream rb.
End Unpack.

(** ** [unpack_one] *)

(** The fuel bounds the depth of the recursion and the turns of each loop; a
    turn of either reads a byte. *)
Fixpoint unpack_one (fuel : nat) (rb : read_block) (L : lua) : outcome (read_block * lua) :=
  match fuel with
  | O => NoFuel
  | S fuel' =>
    let* (bs, rb1) := rb_take rb 1 in
    let type := le_value bs in
    push_value (unpack_one fuel') fuel' rb1 (tag_type type) (tag_cookie type) L
  end.

(** The loop of [seri_unpack]. *)
Fixpoint unpack_all (fuel : nat) (rb : read_block) (L : lua) : outcome (read_block * lua) :=
  match fuel with
  | O => NoFuel
  | S fuel' =>
    match rb_read rb 1 with
    | (None, rb1) => Done (rb1, L)
    | (Some p, rb1) =>
      let* bs := rb_bytes rb1 p 1 in
      let type := le_value bs in
      let* (rb2, L2) := push_value (unpack_one fuel') fuel' rb1 (tag_type type) (tag_cookie type) L in
      unpack_all fuel' rb2 L2
    end
  end.

(** [seri_unpack]: the values it leaves on the stack above the slot of the
    reference table, in order, and the state. *)
Definition seri_unpack (fuel : nat) (buffer : list Z) (L : lua) : outcome (list value * lua) :=
  let top := lua_gettop L in
  if Z.of_nat (length buffer) <? 4 then Undef UBOutOfBounds
  else
    let len := wraps 32 (le_value (take 4 buffer)) in
    let rb := rball_init (drop 4 buffer) len in
    let* (rb', L') := unpack_all fuel rb (lua_push VNil L) in
    Done (rev (take (Z.to_nat (lua_gettop L' - 1 - top)) (lua_stack L')), L').
