(* ===== verification/SeriBuffer.v ===== *)
(** * SeriBuffer: the block chain is a byte string

    The blocks of [SeriPack] seen as the bytes written so far: [wb_push]
    appends, [wb_address] is the position of the next byte, [wb_poke] replaces
    one byte and [seri] lays the bytes out behind their length.  The encodings
    of single values follow, as the bytes the writers append. *)

From S2P Require Import Prelude SeriValue SeriPack.

(** ** Blocks *)

Definition wb_content (b : wbuf) : list Z := concat (wb_full b) ++ wb_current b.

Record wbuf_wf (b : wbuf) : Prop := WBufWf {
  wf_full : Forall (fun blk => length blk = 128%nat) (wb_full b);
  wf_ptr : wb_ptr b = Z.of_nat (length (wb_current b));
  wf_ptr_max : wb_ptr b <= BLOCK_SIZE;
  wf_len : wb_len b = Z.of_nat (length (wb_content b))
}.

Lemma length_concat_uniform {A} n (bs : list (list A)) :
  Forall (fun blk => length blk = n) bs -> length (concat bs) = (n * length bs)%nat.
Proof.
  induction 1 as [|blk bs Hb _ IH]; cbn [concat length]; [lia|]. rewrite length_app, Hb, IH. lia.
Qed.

Lemma lookup_concat_uniform {A} n (bs : list (list A)) i off :
  Forall (fun blk => length blk = n) bs -> (off < n)%nat ->
  concat bs !! (n * i + off)%nat = (bs !! i) ≫= (fun blk => blk !! off).
Proof.
  intros Hb Hoff. revert i. induction Hb as [|blk bs Hn _ IH]; intros i; [done|].
  destruct i as [|i].
  - rewrite Nat.mul_0_r. cbn. rewrite lookup_app_l by lia. done.
  - cbn [concat]. rewrite lookup_app_r by lia.
    replace (n * S i + off - length blk)%nat with (n * i + off)%nat by lia. apply IH.
Qed.

Lemma alter_concat_uniform {A} n (bs : list (list A)) i off x :
  Forall (fun blk => length blk = n) bs -> (off < n)%nat ->
  concat (alter (fun blk => <[off := x]> blk) i bs) = <[(n * i + off)%nat := x]> (concat bs).
Proof.
  intros Hb Hoff. revert i. induction Hb as [|blk bs Hn _ IH]; intros i; [done|].
  destruct i as [|i].
  - rewrite Nat.mul_0_r. cbn. rewrite insert_app_l by lia. done.
  - cbn [concat alter list_alter]. rewrite IH. rewrite insert_app_r_alt by lia. do 2 f_equal. lia.
Qed.

Lemma wbuf_init_wf : wbuf_wf wbuf_init.
Proof. split; cbn; [constructor|done|unfold BLOCK_SIZE; lia|done]. Qed.

Lemma length_wb_content b :
  wbuf_wf b -> length (wb_content b) = (128 * length (wb_full b) + length (wb_current b))%nat.
Proof.
  intros [Hf _ _ _]. unfold wb_content. rewrite length_app.
  by rewrite (length_concat_uniform 128).
Qed.

(** [b'] is [b] with [bs] appended. *)
Definition appends (b : wbuf) (bs : list Z) (b' : wbuf) : Prop :=
  wbuf_wf b' /\ wb_content b' = wb_content b ++ bs.

Lemma appends_trans b bs b' bs' b'' :
  appends b bs b' -> appends b' bs' b'' -> appends b (bs ++ bs') b''.
Proof. intros [_ H1] [H2 H3]. split; [done|]. by rewrite H3, H1, app_assoc. Qed.

Lemma wb_next_block_wf b : wbuf_wf b -> wb_ptr b = BLOCK_SIZE -> appends b [] (wb_next_block b).
Proof.
  intros [Hf Hp Hm Hl] E. unfold BLOCK_SIZE in *.
  assert (Hc : wb_content (wb_next_block b) = wb_content b ++ []).
  { unfold wb_content, wb_next_block. cbn. rewrite concat_app. cbn. by rewrite !app_nil_r. }
  split; [|exact Hc]. rewrite app_nil_r in Hc. split.
  - cbn. apply Forall_app. split; [done|]. constructor; [lia|constructor].
  - done.
  - cbn. unfold BLOCK_SIZE. lia.
  - rewrite Hc. cbn. exact Hl.
Qed.

Lemma blk_write_end blk ptr bytes :
  ptr = Z.of_nat (length blk) -> blk_write blk ptr bytes = blk ++ bytes.
Proof.
  intros ->. unfold blk_write. rewrite Nat2Z.id, firstn_all, drop_ge by lia. by rewrite app_nil_r.
Qed.

(** Writing into the room left in the current block. *)
Lemma wb_write_appends b bs :
  wbuf_wf b -> wb_ptr b + Z.of_nat (length bs) <= BLOCK_SIZE ->
  appends b bs (WBuf (wb_full b) (blk_write (wb_current b) (wb_ptr b) bs)
                  (wb_len b + Z.of_nat (length bs)) (wb_ptr b + Z.of_nat (length bs))).
Proof.
  intros [Hf Hp Hm Hl] Hroom.
  assert (Hc : wb_content (WBuf (wb_full b) (blk_write (wb_current b) (wb_ptr b) bs)
                 (wb_len b + Z.of_nat (length bs)) (wb_ptr b + Z.of_nat (length bs)))
               = wb_content b ++ bs).
  { unfold wb_content. cbn. rewrite blk_write_end by done. apply app_assoc. }
  split; [|exact Hc]. split; rewrite ?Hc; cbn.
  - done.
  - rewrite blk_write_end, length_app by done. lia.
  - lia.
  - rewrite length_app. lia.
Qed.

Lemma wb_push_fit_appends fuel b buf :
  wbuf_wf b -> (wb_ptr b < BLOCK_SIZE \/ buf = []) -> (length buf <= fuel)%nat ->
  appends b buf (wb_push_fit fuel b buf).
Proof.
  revert b buf. induction fuel as [|fuel IH]; intros b buf Hwf Hroom Hfuel.
  - destruct buf; [|simpl in Hfuel; lia]. pose proof (wb_write_appends b [] Hwf) as H.
    pose proof (wf_ptr_max b Hwf). cbn -[BLOCK_SIZE] in H |- *. ztest; [|lia]. apply H; lia.
  - cbn [wb_push_fit]. ztest; [apply wb_write_appends; [done|lia]|].
    destruct Hroom as [Hroom| ->]; [|pose proof (wf_ptr_max b Hwf); cbn [length] in *; lia].
    pose proof (wf_ptr b Hwf). unfold BLOCK_SIZE in *.
    set (copy := 128 - wb_ptr b) in *.
    assert (Hl : Z.of_nat (length (take (Z.to_nat copy) buf)) = copy) by (rewrite length_take; lia).
    pose proof (wb_write_appends b (take (Z.to_nat copy) buf) Hwf) as Ha.
    rewrite Hl in Ha. unfold BLOCK_SIZE in Ha. specialize (Ha ltac:(lia)).
    set (full := WBuf _ _ _ (wb_ptr b + copy)) in Ha.
    replace (wb_next_block _) with (wb_next_block full) by done.
    pose proof (wb_next_block_wf full (proj1 Ha)) as Hn. unfold BLOCK_SIZE in Hn.
    specialize (Hn ltac:(cbn; lia)).
    assert (Hr : appends (wb_next_block full) (drop (Z.to_nat copy) buf)
                   (wb_push_fit fuel (wb_next_block full) (drop (Z.to_nat copy) buf))).
    { apply IH; [apply Hn|left; cbn; unfold BLOCK_SIZE; lia|rewrite length_drop; lia]. }
    pose proof (appends_trans _ _ _ _ _ (appends_trans _ _ _ _ _ Ha Hn) Hr) as Hall.
    rewrite app_nil_r, take_drop in Hall. exact Hall.
Qed.

Lemma wb_push_appends b buf : wbuf_wf b -> appends b buf (wb_push b buf).
Proof.
  intros Hwf. unfold wb_push. ztest.
  - pose proof (wb_next_block_wf b Hwf ltac:(done)) as Hn.
    rewrite <- (app_nil_l buf) at 1. eapply appends_trans; [exact Hn|].
    apply wb_push_fit_appends; [apply Hn|left; cbn; unfold BLOCK_SIZE; lia|done].
  - pose proof (wf_ptr_max b Hwf). apply wb_push_fit_appends; [done|left; lia|done].
Qed.
#[export] Hint Resolve wb_push_appends : svc.

(** ** Addresses *)

Definition position (a : address) : nat := (128 * fst a + Z.to_nat (snd a))%nat.

Definition in_block (a : address) : Prop := 0 <= snd a < BLOCK_SIZE.

Lemma wb_address_spec b a b' :
  wbuf_wf b -> wb_address b = (a, b') ->
  appends b [] b' /\ in_block a /\ position a = length (wb_content b) /\ wb_ptr b' < BLOCK_SIZE.
Proof.
  intros Hwf Ha. unfold wb_address in Ha.
  assert (appends b [] b' /\ wb_ptr b' < BLOCK_SIZE /\ a = (length (wb_full b'), wb_ptr b'))
    as (Happ & Hptr & ->).
  { destruct (Z.eqb_spec (wb_ptr b) BLOCK_SIZE) as [E|E]; simplify_eq.
    - split_and!; [by apply wb_next_block_wf|cbn; unfold BLOCK_SIZE; lia|done].
    - pose proof (wf_ptr_max _ Hwf).
      split_and!; [split; [done|by rewrite app_nil_r]|lia|done]. }
  destruct Happ as [Hwf' Hc]. split_and!; [done| | |done].
  - split; cbn; [rewrite (wf_ptr _ Hwf')|]; lia.
  - unfold position. cbn. rewrite app_nil_r in Hc. rewrite <- Hc, length_wb_content by done.
    rewrite (wf_ptr _ Hwf'). lia.
Qed.

Lemma position_block b a :
  wbuf_wf b -> in_block a -> (position a < length (wb_content b))%nat ->
  (fst a < length (wb_full b))%nat \/
  (fst a = length (wb_full b) /\ (Z.to_nat (snd a) < length (wb_current b))%nat).
Proof.
  intros Hwf Hin Hlt. rewrite length_wb_content in Hlt by done.
  pose proof (wf_ptr _ Hwf). pose proof (wf_ptr_max _ Hwf).
  unfold position, in_block, BLOCK_SIZE in *. lia.
Qed.

Lemma wb_peek_lookup b a :
  wbuf_wf b -> in_block a -> (position a < length (wb_content b))%nat ->
  wb_peek b a = wb_content b !! position a.
Proof.
  intros Hwf Hin Hlt. pose proof (wf_full _ Hwf) as Hf. unfold wb_peek, wb_content.
  destruct a as [i off]. destruct (position_block _ _ Hwf Hin Hlt) as [Hi|[Hi Hoff]];
    unfold position, in_block, BLOCK_SIZE in *; cbn [fst snd] in *; unfold arr_get.
  - rewrite lookup_app_l by done. rewrite lookup_app_l.
    2: { rewrite (length_concat_uniform 128) by done. nia. }
    rewrite lookup_concat_uniform by (done || lia).
    destruct (wb_full b !! i); [cbn|done]. ztest; [done|lia].
  - rewrite lookup_app_r by lia. subst i. rewrite Nat.sub_diag. cbn. ztest; [|lia].
    rewrite lookup_app_r; rewrite (length_concat_uniform 128) by done; [|lia].
    f_equal. lia.
Qed.

Lemma wb_poke_spec b a x :
  wbuf_wf b -> in_block a -> (position a < length (wb_content b))%nat ->
  wbuf_wf (wb_poke b a x) /\ wb_content (wb_poke b a x) = <[position a := x]> (wb_content b).
Proof.
  intros Hwf Hin Hlt. pose proof (wf_full _ Hwf) as Hf. destruct a as [i off].
  assert (Hc : wb_content (wb_poke b (i, off) x) = <[position (i, off) := x]> (wb_content b)).
  { unfold wb_poke, wb_content.
    destruct (position_block _ _ Hwf Hin Hlt) as [Hi|[Hi Hoff]];
      unfold position, in_block, BLOCK_SIZE in *; cbn [fst snd] in *; unfold arr_set.
    - rewrite decide_False by lia. cbn. ztest; [|lia].
      rewrite (alter_concat_uniform 128) by (done || lia). rewrite insert_app_l; [done|].
      rewrite (length_concat_uniform 128) by done. nia.
    - rewrite decide_True by done. cbn. ztest; [|lia].
      rewrite insert_app_r_alt by (rewrite (length_concat_uniform 128) by done; lia).
      do 2 f_equal. rewrite (length_concat_uniform 128) by done. lia. }
  split; [|exact Hc]. destruct Hwf as [_ Hp Hm Hl].
  unfold wb_poke in Hc |- *. cbn [fst snd] in *.
  destruct (decide _); split; rewrite ?Hc, ?length_insert; cbn; rewrite ?length_arr_set; try done.
  apply Forall_lookup. intros j blk Hj. destruct (decide (i = j)) as [<-|Hne].
  - rewrite list_lookup_alter_eq in Hj. destruct (wb_full b !! i) as [blk'|] eqn:E; [|done].
    cbn in Hj. simplify_eq. rewrite length_arr_set. by apply (Forall_lookup_1 _ _ _ _ Hf E).
  - rewrite list_lookup_alter_ne in Hj by done. by apply (Forall_lookup_1 _ _ _ _ Hf Hj).
Qed.

(** ** The serialized buffer *)

Lemma seri_copy_spec full current :
  Forall (fun blk => length blk = 128%nat) full -> (length current <= 128)%nat ->
  seri_copy (full ++ [current]) (Z.of_nat (128 * length full + length current)) =
  concat full ++ current.
Proof.
  intros Hf Hc. induction Hf as [|blk full Hb _ IH].
  - cbn [app seri_copy length concat]. unfold BLOCK_SIZE. replace (128 * 0 + length current)%nat with (length current) by lia.
    destruct (Z.ltb_spec 0 (Z.of_nat (length current))) as [Hpos|Hpos];
      [|destruct current; [done|simpl in *; lia]].
    destruct (Z.leb_spec 128 (Z.of_nat (length current)));
      [|rewrite Nat2Z.id, firstn_all; done].
    rewrite take_ge by lia. cbn [seri_copy]. ztest; [lia|]. by rewrite app_nil_r.
  - cbn [app seri_copy length concat]. unfold BLOCK_SIZE. ztest; [|lia]. ztest; [|lia].
    rewrite take_ge by lia.
    replace (Z.of_nat (128 * S (length full) + length current) - 128)
      with (Z.of_nat (128 * length full + length current)) by lia.
    rewrite IH. by rewrite app_assoc.
Qed.

Lemma seri_spec b :
  wbuf_wf b -> seri b = le_bytes 4 (Z.of_nat (length (wb_content b))) ++ wb_content b.
Proof.
  intros Hwf. unfold seri. rewrite (wf_len _ Hwf). f_equal.
  pose proof (length_wb_content _ Hwf) as Hl. rewrite Hl. unfold wb_content.
  apply seri_copy_spec; [apply Hwf|]. pose proof (wf_ptr _ Hwf). pose proof (wf_ptr_max _ Hwf).
  unfold BLOCK_SIZE in *. lia.
Qed.
