(* ===== verification/SeriToken.v ===== *)
(** * SeriToken: a reference encoder, and [pack_one] refines it

    The reference encoder is a function from values to tokens.  It knows
    nothing of blocks, of the two representations of the reference table, nor
    of the tags patched after they were written: a table token carries the id
    of the table, a reference token the id it refers to, and rendering tokens
    to bytes marks the tables of a given set of ids.  The refinement shows that
    the C code writes the rendering of these tokens, marked for the references
    written so far. *)

From S2P Require Import Prelude SeriValue SeriPack SeriBuffer.
#[local] Open Scope outcome_scope.

(** ** Encodings of single values *)

Definition enc_nil : list Z := [COMBINE_TYPE TYPE_BOOLEAN TYPE_BOOLEAN_NIL].

Definition enc_boolean (x : bool) : list Z :=
  [COMBINE_TYPE TYPE_BOOLEAN (if x then TYPE_BOOLEAN_TRUE else TYPE_BOOLEAN_FALSE)].

Definition enc_integer (v : Z) : list Z :=
  if v =? 0 then [COMBINE_TYPE TYPE_NUMBER TYPE_NUMBER_ZERO]
  else if negb (v =? wraps 32 v) then COMBINE_TYPE TYPE_NUMBER TYPE_NUMBER_QWORD :: le_bytes 8 v
  else if v <? 0 then COMBINE_TYPE TYPE_NUMBER TYPE_NUMBER_DWORD :: le_bytes 4 v
  else if v <? 256 then [COMBINE_TYPE TYPE_NUMBER TYPE_NUMBER_BYTE; wrapu 8 v]
  else if v <? 65536 then COMBINE_TYPE TYPE_NUMBER TYPE_NUMBER_WORD :: le_bytes 2 v
  else COMBINE_TYPE TYPE_NUMBER TYPE_NUMBER_DWORD :: le_bytes 4 v.

Definition enc_real (bits : Z) : list Z :=
  COMBINE_TYPE TYPE_NUMBER TYPE_NUMBER_REAL :: le_bytes 8 bits.

Definition enc_pointer (p subtype : Z) : list Z := COMBINE_TYPE TYPE_USERDATA subtype :: le_bytes 8 p.

Definition enc_string (str : list Z) (len : Z) : list Z :=
  (if len <? MAX_COOKIE then [COMBINE_TYPE TYPE_SHORT_STRING len]
   else if len <? 65536 then COMBINE_TYPE TYPE_LONG_STRING 2 :: le_bytes 2 len
   else COMBINE_TYPE TYPE_LONG_STRING 4 :: le_bytes 4 len)
  ++ take (Z.to_nat len) str.

Ltac appends_pushes :=
  repeat first
    [ by apply wb_push_appends
    | match goal with
      | |- appends ?b (?x :: ?l) (wb_push (wb_push ?b [?x]) ?l) =>
        change (x :: l) with ([x] ++ l);
        eapply appends_trans; [by apply wb_push_appends|apply wb_push_appends; by apply wb_push_appends]
      end ].

Lemma wb_nil_appends b : wbuf_wf b -> appends b enc_nil (wb_nil b).
Proof. apply wb_push_appends. Qed.

Lemma wb_boolean_appends b x : wbuf_wf b -> appends b (enc_boolean x) (wb_boolean b x).
Proof. apply wb_push_appends. Qed.

Lemma wb_integer_appends b v : wbuf_wf b -> appends b (enc_integer v) (wb_integer b v).
Proof. intros Hwf. unfold wb_integer, enc_integer. repeat case_match; appends_pushes. Qed.

Lemma wb_real_appends b n : wbuf_wf b -> appends b (enc_real n) (wb_real b n).
Proof. intros Hwf. unfold wb_real, enc_real. appends_pushes. Qed.

Lemma wb_pointer_appends b p k : wbuf_wf b -> appends b (enc_pointer p k) (wb_pointer b p k).
Proof. intros Hwf. unfold wb_pointer, enc_pointer. appends_pushes. Qed.

Lemma wb_string_appends b str len : wbuf_wf b -> appends b (enc_string str len) (wb_string b str len).
Proof.
  intros Hwf. unfold wb_string, enc_string. destruct (len <? MAX_COOKIE).
  - ztest.
    + eapply appends_trans; apply wb_push_appends; [done|by apply wb_push_appends].
    + replace (Z.to_nat len) with 0%nat by lia. rewrite take_0, app_nil_r. by apply wb_push_appends.
  - eapply appends_trans; [|apply wb_push_appends]; destruct (len <? 65536); appends_pushes;
      apply wb_push_appends; by apply wb_push_appends.
Qed.
#[export] Hint Resolve wb_nil_appends wb_boolean_appends wb_integer_appends wb_real_appends
  wb_pointer_appends wb_string_appends : svc.

(** ** Tokens *)

Inductive token :=
| TBytes (bs : list Z)
| TTable (id : nat) (cookie : Z)
| TRef (id : nat).

Definition render_token (M : gset nat) (t : token) : list Z :=
  match t with
  | TBytes bs => bs
  | TTable id cookie =>
    [COMBINE_TYPE (if decide (id ∈ M) then TYPE_TABLE_MARK else TYPE_TABLE) cookie]
  | TRef id => COMBINE_TYPE TYPE_REF EXTEND_NUMBER :: enc_integer (Z.of_nat id)
  end.

Fixpoint render (M : gset nat) (toks : list token) : list Z :=
  match toks with
  | [] => []
  | t :: toks' => render_token M t ++ render M toks'
  end.

(** The tables a list of tokens writes, in order, and those it refers to. *)
Fixpoint table_ids (toks : list token) : list nat :=
  match toks with
  | [] => []
  | TTable id _ :: toks' => id :: table_ids toks'
  | _ :: toks' => table_ids toks'
  end.

Fixpoint ref_ids (toks : list token) : gset nat :=
  match toks with
  | [] => ∅
  | TRef id :: toks' => {[id]} ∪ ref_ids toks'
  | _ :: toks' => ref_ids toks'
  end.

Definition token_ok (t : token) : Prop :=
  match t with TTable _ cookie => 0 <= cookie < 32 | _ => True end.

Lemma render_app M ts1 ts2 : render M (ts1 ++ ts2) = render M ts1 ++ render M ts2.
Proof. induction ts1 as [|t ts1 IH]; cbn; [done|]. by rewrite IH, app_assoc. Qed.

Lemma table_ids_app ts1 ts2 : table_ids (ts1 ++ ts2) = table_ids ts1 ++ table_ids ts2.
Proof. induction ts1 as [|[] ts1 IH]; cbn; congruence. Qed.

Lemma ref_ids_app ts1 ts2 : ref_ids (ts1 ++ ts2) = ref_ids ts1 ∪ ref_ids ts2.
Proof. induction ts1 as [|[] ts1 IH]; cbn; set_solver. Qed.

Lemma length_render M M' toks : length (render M toks) = length (render M' toks).
Proof.
  induction toks as [|t toks IH]; cbn; [done|]. rewrite !length_app, IH. by destruct t.
Qed.

Lemma render_irrelevant M id toks :
  id ∉ table_ids toks -> render ({[id]} ∪ M) toks = render M toks.
Proof.
  induction toks as [|[] toks IH]; cbn; intros H; rewrite ?IH by set_solver; try done.
  repeat destruct (decide _); set_solver.
Qed.

(** The bytes of the table [id], which the tokens write once. *)
Lemma table_token_split id toks :
  id ∈ table_ids toks ->
  exists pre cookie post, toks = pre ++ TTable id cookie :: post /\ id ∉ table_ids pre.
Proof.
  induction toks as [|[bs|id' c|id'] toks IH]; cbn; intros H; [set_solver| | |].
  - destruct (IH H) as (pre & c & post & -> & Hn). by exists (TBytes bs :: pre), c, post.
  - destruct (decide (id = id')) as [->|Hne].
    + exists [], c, toks. set_solver.
    + destruct (IH ltac:(set_solver)) as (pre & c' & post & -> & Hn).
      exists (TTable id' c :: pre), c', post. set_solver.
  - destruct (IH H) as (pre & c & post & -> & Hn). by exists (TRef id' :: pre), c, post.
Qed.

(** ** The reference encoder *)

(** The last ancestor equal to [obj], among the depths a reference can name. *)
Fixpoint last_index (anc : list Z) (obj : Z) : option nat :=
  match anc with
  | [] => None
  | a :: anc' =>
    match last_index anc' obj with
    | Some i => Some (S i)
    | None => if a =? obj then Some O else None
    end
  end.

Lemma last_index_lookup anc obj i : last_index anc obj = Some i -> anc !! i = Some obj.
Proof.
  revert i. induction anc as [|a anc IH]; intros i H; [done|]. cbn in H.
  destruct (last_index anc obj) as [i'|]; simplify_eq; [by apply IH|].
  ztest; by simplify_eq.
Qed.

Definition enc_ancestor (anc : list Z) (obj : Z) : option nat :=
  if MAX_DEPTH <=? Z.of_nat (length anc) then None else last_index anc obj.

(** What a table contributes: the array part by index, then the other pairs. *)
Definition array_size (t : table) : Z :=
  match t_pairs t with Some _ => 0 | None => wraps 32 (t_len t) end.

Definition table_array (t : table) : list value :=
  map (fun i => raw_geti t (Z.of_nat i)) (seq 1 (Z.to_nat (array_size t))).

Fixpoint until_nil (pairs : list (value * value)) : list (value * value) :=
  match pairs with
  | [] => []
  | (k, v) :: rest => if bool_decide (k = VNil) then [] else (k, v) :: until_nil rest
  end.

Definition table_hash (t : table) : list (value * value) :=
  match t_pairs t with
  | Some pairs => until_nil pairs
  | None => List.filter (fun e => negb (array_key (fst e) (array_size t))) (t_entries t)
  end.

Definition flatten (pairs : list (value * value)) : list value :=
  flat_map (fun e => [fst e; snd e]) pairs.

Definition table_values (t : table) : list value := table_array t ++ flatten (table_hash t).

Definition table_header (id : nat) (n : Z) : list token :=
  if EXTEND_NUMBER <=? n then [TTable id EXTEND_NUMBER; TBytes (enc_integer n)] else [TTable id n].

Section Encode.
Variable enc_one : value -> list Z -> outcome (list token * list Z).

Fixpoint enc_values (vs : list value) (objs : list Z) : outcome (list token * list Z) :=
  match vs with
  | [] => Done ([], objs)
  | v :: vs' =>
    let* (ts, objs1) := enc_one v objs in
    let* (ts', objs2) := enc_values vs' objs1 in
    Done (ts ++ ts', objs2)
  end.
End Encode.

Fixpoint enc_one (fuel : nat) (h : heap) (anc : list Z) (v : value) (objs : list Z) :
    outcome (list token * list Z) :=
  match fuel with
  | O => NoFuel
  | S fuel' =>
    match v with
    | VNil => Done ([TBytes enc_nil], objs)
    | VNumber n => Done ([TBytes (enc_real n)], objs)
    | VBoolean x => Done ([TBytes (enc_boolean x)], objs)
    | VString s => Done ([TBytes (enc_string s (wraps 32 (Z.of_nat (length s))))], objs)
    | VLightUserdata p => Done ([TBytes (enc_pointer p TYPE_USERDATA_POINTER)], objs)
    | VClosure _ => Raise ErrFunction
    | VCFunction p => Done ([TBytes (enc_pointer p TYPE_USERDATA_CFUNCTION)], objs)
    | VTable obj =>
      match enc_ancestor anc obj with
      | Some i => Done ([TBytes [COMBINE_TYPE TYPE_REF (Z.of_nat i)]], objs)
      | None =>
        match list_find (eq obj) objs with
        | Some (i, _) => Done ([TRef (S i)], objs)
        | None =>
          let t := heap_get h obj in
          let* (ts, objs') := enc_values (enc_one fuel' h (anc ++ [obj])) (table_values t) (objs ++ [obj]) in
          Done (table_header (S (length objs)) (array_size t) ++ ts ++ [TBytes enc_nil], objs')
        end
      end
    | VOther _ => Raise ErrType
    end
  end.

Lemma enc_values_app f vs1 vs2 objs :
  enc_values f (vs1 ++ vs2) objs =
  (let* (ts1, objs1) := enc_values f vs1 objs in
   let* (ts2, objs2) := enc_values f vs2 objs1 in Done (ts1 ++ ts2, objs2)).
Proof.
  revert objs. induction vs1 as [|v vs1 IH]; intros objs; cbn.
  - by destruct (enc_values f vs2 objs) as [[ts objs']| | |].
  - destruct (f v objs) as [[ts objs1]| | |]; cbn; try done. rewrite IH.
    destruct (enc_values f vs1 objs1) as [[ts1 objs2]| | |]; cbn; try done.
    destruct (enc_values f vs2 objs2) as [[ts2 objs3]| | |]; cbn; try done.
    by rewrite app_assoc.
Qed.

(** The objects marked only grow, and every value takes a byte. *)
Lemma enc_values_prefix f vs objs ts objs' :
  (forall v objs ts objs', f v objs = Done (ts, objs') -> objs `prefix_of` objs') ->
  enc_values f vs objs = Done (ts, objs') -> objs `prefix_of` objs'.
Proof.
  intros Hf. revert objs ts objs'. induction vs as [|v vs IH]; intros objs ts objs' H; cbn in H.
  - by simplify_eq.
  - destruct (f v objs) as [[ts1 objs1]| | |] eqn:E1; cbn in H; try done.
    destruct (enc_values f vs objs1) as [[ts2 objs2]| | |] eqn:E2; cbn in H; try done.
    simplify_eq. transitivity objs1; [by eapply Hf|by eapply IH].
Qed.

Lemma enc_one_prefix fuel h anc v objs ts objs' :
  enc_one fuel h anc v objs = Done (ts, objs') -> objs `prefix_of` objs'.
Proof.
  revert anc v objs ts objs'. induction fuel as [|fuel IH]; intros anc v objs ts objs' H; [done|].
  destruct v; cbn in H; simplify_eq; try done.
  destruct (enc_ancestor anc p); simplify_eq; [done|].
  destruct (list_find (eq p) objs) as [[i x]|]; simplify_eq; [done|].
  destruct (enc_values _ _ _) as [[ts1 objs1]| | |] eqn:E; cbn in H; simplify_eq.
  transitivity (objs ++ [p]); [by eexists|]. eapply enc_values_prefix; [|exact E].
  intros v objs1 ts2 objs2. apply IH.
Qed.

Lemma enc_one_nonempty fuel h anc v objs ts objs' M :
  enc_one fuel h anc v objs = Done (ts, objs') -> (1 <= length (render M ts))%nat.
Proof.
  destruct fuel as [|fuel]; [done|]. intros H.
  destruct v; cbn in H; simplify_eq; cbn [render render_token]; rewrite ?length_app; try (cbn; lia).
  - unfold enc_string. rewrite length_app. repeat case_match; cbn; lia.
  - destruct (enc_ancestor anc p); simplify_eq; [cbn; lia|].
    destruct (list_find (eq p) objs) as [[i x]|]; simplify_eq; [cbn; lia|].
    destruct (enc_values _ _ _) as [[ts1 objs1]| | |]; cbn in H; simplify_eq.
    rewrite render_app, length_app. unfold table_header. destruct (_ <=? _); cbn; lia.
Qed.
