(* ===== verification/SeriRefine.v ===== *)
(** * SeriRefine: the C encoder implements the reference encoder

    [pack_rep] relates a [write_block] to the ancestors, the objects marked so
    far in order, the tokens written and the set of ids whose tables are
    marked.  The reference array and, past its 32 entries, the two Lua tables
    are both described by [refs_rep], so the lemmas on [mark_table] and
    [lookup_ref] say the change of representation cannot be observed. *)

From S2P Require Import Prelude SeriValue SeriPack SeriBuffer SeriToken.
#[local] Open Scope outcome_scope.

(** The entry of id [S i] in the reference table. *)
Definition addr_rep (toks : list token) (M : gset nat) (i : nat) (a : option address) : Prop :=
  match a with
  | None => S i ∈ M
  | Some a =>
    (S i ∉ M) /\ in_block a /\
    exists pre cookie post, toks = pre ++ TTable (S i) cookie :: post /\
      position a = length (render ∅ pre)
  end.

Definition array_rep (r : list (Z * option address)) (objs : list Z) (P : nat -> option address -> Prop) : Prop :=
  length r = length objs /\
  forall i obj a, r !! i = Some (obj, a) -> objs !! i = Some obj /\ P i a.

Definition tables_rep (t : option (gmap Z Z * gmap Z address)) (objs : list Z)
    (P : nat -> option address -> Prop) : Prop :=
  exists ids addrs, t = Some (ids, addrs) /\
    (forall obj id, ids !! obj = Some id <->
       exists i, id = Z.of_nat (S i) /\ objs !! i = Some obj) /\
    forall i, (i < length objs)%nat -> P i (addrs !! Z.of_nat (S i)).

Definition refs_rep (b : write_block) (objs : list Z) (P : nat -> option address -> Prop) : Prop :=
  if wb_objectid b <=? MAX_REFERENCE then array_rep (wb_r b) objs P
  else tables_rep (wb_tables b) objs P.

Record pack_rep (b : write_block) (anc objs : list Z) (toks : list token) (M : gset nat) : Prop := {
  pr_wf : wbuf_wf (wb_buf b);
  pr_content : wb_content (wb_buf b) = render M toks;
  pr_depth : wb_depth b = Z.of_nat (length anc);
  pr_anc : forall i, (i < length anc)%nat -> Z.of_nat i < MAX_DEPTH ->
    wb_ancestor b !! Z.of_nat i = anc !! i;
  pr_objectid : wb_objectid b = Z.of_nat (length objs);
  pr_nodup : NoDup objs;
  pr_tables : table_ids toks = seq 1 (length objs);
  pr_tokens : Forall token_ok toks;
  pr_marks : forall id, id ∈ M -> (1 <= id <= length objs)%nat;
  pr_refs : refs_rep b objs (addr_rep toks M)
}.

(** ** The initial state, and writers that append bytes *)

Lemma pack_rep_init : pack_rep wb_init [] [] [] ∅.
Proof.
  split; cbn; try done; try set_solver; try constructor; try done.
Qed.

Lemma addr_rep_more toks ts M i a : addr_rep toks M i a -> addr_rep (toks ++ ts) M i a.
Proof.
  destruct a as [a|]; cbn; [|done]. intros (HM & Hb & pre & c & post & -> & Hp).
  split_and!; [done|done|]. exists pre, c, (post ++ ts). split; [|done]. by rewrite <- app_assoc.
Qed.

Lemma array_rep_mono r objs (P Q : nat -> option address -> Prop) :
  (forall i a, P i a -> Q i a) -> array_rep r objs P -> array_rep r objs Q.
Proof. intros H [Hl Hr]. split; [done|]. intros i obj a E. destruct (Hr _ _ _ E). eauto. Qed.

Lemma tables_rep_mono t objs (P Q : nat -> option address -> Prop) :
  (forall i a, P i a -> Q i a) -> tables_rep t objs P -> tables_rep t objs Q.
Proof. intros H (ids & addrs & -> & Hi & Ha). exists ids, addrs. split_and!; eauto. Qed.

Lemma refs_rep_mono b b' objs (P Q : nat -> option address -> Prop) :
  wb_objectid b' = wb_objectid b -> wb_r b' = wb_r b -> wb_tables b' = wb_tables b ->
  (forall i a, P i a -> Q i a) -> refs_rep b objs P -> refs_rep b' objs Q.
Proof.
  unfold refs_rep. intros -> -> -> H. case_match; eauto using array_rep_mono, tables_rep_mono.
Qed.

Lemma table_ids_bytes ts : (forall t, t ∈ ts -> match t with TTable _ _ => False | _ => True end) ->
  table_ids ts = [] /\ Forall token_ok ts.
Proof.
  induction ts as [|t ts IH]; intros H; [done|].
  destruct IH as [IH1 IH2]; [intros t' Ht'; apply H; set_solver|].
  specialize (H t ltac:(set_solver)). destruct t; cbn; done || (split; [done|by constructor]).
Qed.

(** Appending tokens that are not tables. *)
Lemma pack_rep_append f b anc objs toks ts M :
  pack_rep b anc objs toks M ->
  appends (wb_buf b) (render M ts) (f (wb_buf b)) ->
  table_ids ts = [] -> Forall token_ok ts ->
  pack_rep (on_buf f b) anc objs (toks ++ ts) M.
Proof.
  intros [] [Hwf Hc] Ht Hok. split; cbn; try done.
  - rewrite Hc, render_app. congruence.
  - by rewrite table_ids_app, Ht, app_nil_r.
  - by apply Forall_app.
  - eapply refs_rep_mono; [| | | |eassumption]; [done..|]. intros; by apply addr_rep_more.
Qed.

Lemma pack_rep_bytes f b anc objs toks bs M :
  pack_rep b anc objs toks M -> appends (wb_buf b) bs (f (wb_buf b)) ->
  pack_rep (on_buf f b) anc objs (toks ++ [TBytes bs]) M.
Proof.
  intros Hr Ha. apply pack_rep_append; [done| |done|by repeat constructor].
  cbn. by rewrite app_nil_r.
Qed.

(** ** Ancestors *)

Lemma last_index_snoc anc a obj :
  last_index (anc ++ [a]) obj = if a =? obj then Some (length anc) else last_index anc obj.
Proof.
  induction anc as [|b anc IH]; cbn; [by destruct (a =? obj)|]. rewrite IH.
  by destruct (a =? obj).
Qed.

Lemma find_ancestor_spec g anc obj :
  (forall i, (i < length anc)%nat -> g !! Z.of_nat i = anc !! i) ->
  find_ancestor (length anc) g obj = Z.of_nat <$> last_index anc obj.
Proof.
  induction anc as [|a anc IH] using rev_ind; intros Hg; [done|].
  rewrite length_app, Nat.add_comm, last_index_snoc. cbn [length Nat.add find_ancestor].
  rewrite Hg by (rewrite length_app; simpl; lia).
  rewrite lookup_app_r, Nat.sub_diag by lia. cbn [lookup list_lookup].
  destruct (Z.eqb_spec a obj) as [->|Hne].
  - by rewrite bool_decide_eq_true_2.
  - rewrite bool_decide_eq_false_2 by congruence. apply IH.
    intros i Hi. rewrite Hg by (rewrite length_app; simpl; lia). by rewrite lookup_app_l.
Qed.

Lemma ref_ancestor_spec b anc objs toks M obj :
  pack_rep b anc objs toks M ->
  ref_ancestor obj b =
    (fun i => on_buf (fun w => wb_push w [COMBINE_TYPE TYPE_REF (Z.of_nat i)]) b) <$> enc_ancestor anc obj.
Proof.
  intros Hr. unfold ref_ancestor, enc_ancestor. rewrite (pr_depth _ _ _ _ _ Hr).
  destruct (Z.eqb_spec (Z.of_nat (length anc)) 0) as [E|E].
  - destruct anc; [done|simpl in E; lia].
  - cbn [orb]. destruct (Z.leb_spec MAX_DEPTH (Z.of_nat (length anc))) as [Hd|Hd]; [done|].
    rewrite Nat2Z.id, find_ancestor_spec.
    + by destruct (last_index anc obj).
    + intros i Hi. apply (pr_anc _ _ _ _ _ Hr); [done|lia].
Qed.

Lemma push_ancestor_rep b anc objs toks M obj :
  pack_rep b anc objs toks M -> pack_rep (push_ancestor obj b) (anc ++ [obj]) objs toks M.
Proof.
  intros []. split; cbn; try done.
  - rewrite length_app. simpl. lia.
  - intros i Hi Hd. rewrite length_app in Hi. simpl in Hi. rewrite pr_depth0.
    destruct (Nat.eq_dec i (length anc)) as [->|Hne].
    + ztest; [|lia]. by rewrite lookup_insert_eq, lookup_app_r, Nat.sub_diag by lia.
    + rewrite lookup_app_l by lia. ztest; [rewrite lookup_insert_ne by lia|]; apply pr_anc0; lia.
Qed.

Lemma pop_ancestor_rep b anc objs toks M obj :
  pack_rep b (anc ++ [obj]) objs toks M -> pack_rep (set_depth (wb_depth b - 1) b) anc objs toks M.
Proof.
  intros []. rewrite length_app in *. simpl in *. split; cbn; try done; try lia.
  intros i Hi Hd. rewrite pr_anc0 by lia. by rewrite lookup_app_l.
Qed.

(** ** Marking a table that is referred to *)

Lemma table_token_unique b anc objs toks M i pre c post :
  pack_rep b anc objs toks M -> toks = pre ++ TTable i c :: post ->
  0 <= c < 32 /\ (i ∉ table_ids pre) /\ (i ∉ table_ids post) /\ (i < S (length objs))%nat.
Proof.
  intros [] ->. apply Forall_app in pr_tokens0 as [_ Hok]. inversion Hok as [|? ? Hc _]; subst.
  assert (Hn : NoDup (table_ids (pre ++ TTable i c :: post)))
    by (rewrite pr_tables0; apply NoDup_seq).
  assert (Hi : i ∈ table_ids (pre ++ TTable i c :: post)) by (rewrite table_ids_app; set_solver).
  rewrite pr_tables0, elem_of_seq in Hi.
  rewrite table_ids_app in Hn. cbn in Hn. apply NoDup_app in Hn as (_ & Hd & Hn).
  apply NoDup_cons in Hn as [Hp _]. split; [exact Hc|]. split; [|split; [exact Hp|lia]].
  intros Hin. apply (Hd _ Hin). set_solver.
Qed.

Lemma change_mark_spec b anc objs toks M i a :
  pack_rep b anc objs toks M -> addr_rep toks M i (Some a) ->
  exists buf, change_mark (wb_buf b) a = Done buf /\ wbuf_wf buf /\
    wb_content buf = render ({[S i]} ∪ M) toks.
Proof.
  intros Hr (HM & Hb & pre & c & post & Ht & Hp).
  destruct (table_token_unique _ _ _ _ _ _ _ _ _ Hr Ht) as (Hc & Hpre & Hpost & _).
  pose proof (pr_wf _ _ _ _ _ Hr) as Hwf. pose proof (pr_content _ _ _ _ _ Hr) as Hcon.
  rewrite (length_render ∅ M) in Hp.
  assert (Hcon' : wb_content (wb_buf b) = render M pre ++ COMBINE_TYPE TYPE_TABLE c :: render M post).
  { rewrite Hcon, Ht, render_app. cbn. by rewrite decide_False. }
  assert (Hlt : (position a < length (wb_content (wb_buf b)))%nat)
    by (rewrite Hcon', Hp, length_app; simpl; lia).
  destruct (wb_poke_spec _ _ (COMBINE_TYPE TYPE_TABLE_MARK c) Hwf Hb Hlt) as [Hwf' Hc'].
  unfold change_mark. rewrite wb_peek_lookup by done.
  rewrite Hcon', Hp, lookup_app_r, Nat.sub_diag by lia. cbn [lookup list_lookup].
  rewrite tag_type_combine, tag_cookie_combine by (unfold TYPE_TABLE; lia). rewrite Z.eqb_refl.
  eexists. split_and!; [done|done|]. rewrite Hc', Hcon', Hp.
  rewrite insert_app_r_alt, Nat.sub_diag by lia. cbn [insert list_insert].
  rewrite Ht, render_app. cbn [render render_token]. rewrite decide_True by set_solver.
  by rewrite !render_irrelevant.
Qed.

(** Marking changes the entry of one id only. *)
Lemma addr_rep_mark toks M i j a :
  i <> j -> addr_rep toks M j a -> addr_rep toks ({[S i]} ∪ M) j a.
Proof.
  intros Hne. destruct a as [a|]; cbn; [|set_solver]. intros (H & Hrest).
  split; [set_solver|exact Hrest].
Qed.

Lemma pack_rep_marked b anc objs toks M i buf b' :
  pack_rep b anc objs toks M -> (i < length objs)%nat ->
  wbuf_wf buf -> wb_content buf = render ({[S i]} ∪ M) toks ->
  wb_buf b' = buf -> wb_depth b' = wb_depth b -> wb_objectid b' = wb_objectid b ->
  wb_ancestor b' = wb_ancestor b -> refs_rep b' objs (addr_rep toks ({[S i]} ∪ M)) ->
  pack_rep b' anc objs toks ({[S i]} ∪ M).
Proof.
  intros [] Hi Hwf Hc E1 E2 E3 E4 Hrefs. split; rewrite ?E1, ?E2, ?E3, ?E4; try done.
  intros id [->%elem_of_singleton|Hid]%elem_of_union; [lia|auto].
Qed.

Lemma find_reference_spec k r obj :
  match find_reference k r obj with
  | Some (i, a) => exists j, i = (k + j)%nat /\ r !! j = Some (obj, a)
  | None => forall j a, r !! j <> Some (obj, a)
  end.
Proof.
  revert k. induction r as [|[obj' a'] r IH]; intros k; cbn [find_reference]; [done|].
  destruct (Z.eqb_spec obj' obj) as [->|Hne].
  - exists 0%nat. split; [lia|done].
  - specialize (IH (S k)). destruct (find_reference (S k) r obj) as [[i a]|].
    + destruct IH as (j & -> & Hj). exists (S j). split; [lia|done].
    + intros [|j] a E; cbn in E; [congruence|]. by apply (IH j a).
Qed.

(** An object seen before: [lookup_ref] gives its id and marks its table. *)
Lemma lookup_ref_hit b anc objs toks M obj i :
  pack_rep b anc objs toks M -> objs !! i = Some obj ->
  exists b', lookup_ref obj b = Done (Z.of_nat (S i), b') /\
    pack_rep b' anc objs toks ({[S i]} ∪ M).
Proof.
  intros Hr Hi. pose proof (lookup_lt_Some _ _ _ Hi) as Hlt.
  pose proof (pr_refs _ _ _ _ _ Hr) as Hrefs. pose proof (pr_nodup _ _ _ _ _ Hr) as Hnd.
  unfold lookup_ref, refs_rep in *. destruct (wb_objectid b <=? MAX_REFERENCE) eqn:Ele.
  - destruct Hrefs as [Hl Hrefs]. pose proof (find_reference_spec 0 (wb_r b) obj) as Hf.
    destruct (find_reference 0 (wb_r b) obj) as [[i' a]|].
    + destruct Hf as (j & -> & Hj). cbn [Nat.add].
      destruct (Hrefs _ _ _ Hj) as [Hj' Ha].
      assert (j = i) as -> by (eapply NoDup_lookup; done).
      destruct a as [a|].
      * destruct (change_mark_spec _ _ _ _ _ _ _ Hr Ha) as (buf & -> & Hwf & Hc).
        cbn [obind]. eexists. split; [f_equal; f_equal; lia|].
        eapply pack_rep_marked; try done. unfold refs_rep. cbn. rewrite Ele.
        split; [by rewrite length_insert|]. intros k o a' E.
        destruct (decide (k = i)) as [->|Hne].
        -- rewrite list_lookup_insert_eq in E by (eapply lookup_lt_Some; done). simplify_eq.
           split; [done|]. cbn. set_solver.
        -- rewrite list_lookup_insert_ne in E by done. destruct (Hrefs _ _ _ E).
           split; [done|]. by apply addr_rep_mark.
      * exists b. split; [f_equal; f_equal; lia|]. cbn in Ha.
        replace ({[S i]} ∪ M) with M by set_solver. done.
    + destruct (lookup_lt_is_Some_2 (wb_r b) i ltac:(lia)) as [[o a] E].
      destruct (Hrefs _ _ _ E) as [E' _]. simplify_eq. by destruct (Hf i a).
  - destruct Hrefs as (ids & addrs & Et & Hids & Ha). rewrite Et. cbn [from_option id].
    rewrite (proj2 (Hids obj (Z.of_nat (S i)))) by eauto.
    specialize (Ha i Hlt) as Hai. destruct (addrs !! Z.of_nat (S i)) as [a|] eqn:Ea.
    + destruct (change_mark_spec _ _ _ _ _ _ _ Hr Hai) as (buf & -> & Hwf & Hc).
      cbn [obind]. eexists. split; [done|].
      eapply pack_rep_marked; try done. unfold refs_rep. cbn. rewrite Ele.
      exists ids, (delete (Z.of_nat (S i)) addrs). split_and!; [done|done|].
      intros k Hk. destruct (decide (k = i)) as [->|Hne].
      * rewrite lookup_delete_eq. cbn. set_solver.
      * rewrite lookup_delete_ne by lia. apply addr_rep_mark; [done|]. auto.
    + exists b. split; [done|]. cbn in Hai. replace ({[S i]} ∪ M) with M by set_solver. done.
Qed.

(** A new object: [lookup_ref] gives 0 and changes nothing. *)
Lemma lookup_ref_miss b anc objs toks M obj :
  pack_rep b anc objs toks M -> obj ∉ objs -> lookup_ref obj b = Done (0, b).
Proof.
  intros Hr Hni. pose proof (pr_refs _ _ _ _ _ Hr) as Hrefs. unfold lookup_ref, refs_rep in *.
  destruct (wb_objectid b <=? MAX_REFERENCE).
  - destruct Hrefs as [Hl Hrefs]. pose proof (find_reference_spec 0 (wb_r b) obj) as Hf.
    destruct (find_reference 0 (wb_r b) obj) as [[i' a]|]; [|done].
    destruct Hf as (j & -> & Hj). destruct (Hrefs _ _ _ Hj) as [Hj' _].
    by apply list_elem_of_lookup_2 in Hj'.
  - destruct Hrefs as (ids & addrs & Et & Hids & Ha). rewrite Et. cbn [from_option id].
    destruct (ids !! obj) as [id|] eqn:E; [|done].
    apply Hids in E as (i & _ & E). by apply list_elem_of_lookup_2 in E.
Qed.

(** ** A new table *)

Lemma move_references_ids k r ids addrs o :
  o ∉ r.*1 -> fst (move_references k r ids addrs) !! o = ids !! o.
Proof.
  revert k ids addrs. induction r as [|[o' a] r IH]; intros k ids addrs Hn; [done|].
  cbn [move_references]. cbn in Hn. rewrite IH by set_solver. apply lookup_insert_ne. set_solver.
Qed.

Lemma move_references_id k r ids addrs j o a :
  NoDup r.*1 -> r !! j = Some (o, a) ->
  fst (move_references k r ids addrs) !! o = Some (k + Z.of_nat j + 1).
Proof.
  revert k ids addrs j. induction r as [|[o' a'] r IH]; intros k ids addrs j Hnd Hj; [done|].
  cbn [move_references fmap list_fmap fst] in *. apply NoDup_cons in Hnd as [Hn Hnd].
  destruct j as [|j]; cbn in Hj; simplify_eq.
  - rewrite move_references_ids by done. rewrite lookup_insert_eq. f_equal. lia.
  - rewrite (IH _ _ _ _ Hnd Hj). f_equal. lia.
Qed.

Lemma move_references_addrs k r ids addrs id :
  id <= k -> snd (move_references k r ids addrs) !! id = addrs !! id.
Proof.
  revert k ids addrs. induction r as [|[o' a] r IH]; intros k ids addrs Hid; [done|].
  cbn [move_references]. rewrite IH by lia. destruct a; [apply lookup_insert_ne; lia|done].
Qed.

Lemma move_references_addr k r ids addrs j o a :
  (forall id, k < id -> addrs !! id = None) -> r !! j = Some (o, a) ->
  snd (move_references k r ids addrs) !! (k + Z.of_nat j + 1) = a.
Proof.
  revert k ids addrs j. induction r as [|[o' a'] r IH]; intros k ids addrs j Hn Hj; [done|].
  cbn [move_references]. destruct j as [|j]; cbn in Hj; simplify_eq.
  - rewrite move_references_addrs by lia. replace (k + Z.of_nat 0 + 1) with (k + 1) by lia.
    destruct a; [apply lookup_insert_eq|apply Hn; lia].
  - replace (k + Z.of_nat (S j) + 1) with (k + 1 + Z.of_nat j + 1) by lia. apply IH; [|done].
    intros id Hid. destruct a'; [rewrite lookup_insert_ne by lia|]; apply Hn; lia.
Qed.

(** The move from the array to the tables loses nothing. *)
Lemma move_references_rep r objs P :
  NoDup objs -> array_rep r objs P ->
  tables_rep (Some (move_references 0 r ∅ ∅)) objs P.
Proof.
  intros Hnd [Hl Hr].
  assert (E : r.*1 = objs).
  { apply list_eq. intros i. rewrite list_lookup_fmap. destruct (r !! i) as [[o a]|] eqn:Ei; cbn.
    - by destruct (Hr _ _ _ Ei).
    - apply lookup_ge_None in Ei. symmetry. apply lookup_ge_None. lia. }
  eexists _, _. split; [rewrite <- surjective_pairing; done|]. split.
  - intros o id. split.
    + intros Hid. destruct (decide (o ∈ r.*1)) as [Hin|Hni].
      * apply list_elem_of_fmap in Hin as ([o' a] & -> & [j Hj]%list_elem_of_lookup_1). cbn in *.
        rewrite (move_references_id _ _ _ _ j o' a) in Hid by (congruence || done). simplify_eq.
        exists j. split; [lia|]. by destruct (Hr _ _ _ Hj).
      * by rewrite move_references_ids in Hid.
    + intros (i & -> & Hi). pose proof (lookup_lt_Some _ _ _ Hi).
      destruct (lookup_lt_is_Some_2 r i ltac:(lia)) as [[o' a] Ei].
      destruct (Hr _ _ _ Ei) as [Hi' _]. simplify_eq.
      rewrite (move_references_id _ _ _ _ i _ a) by done. f_equal. lia.
  - intros i Hi. destruct (lookup_lt_is_Some_2 r i ltac:(lia)) as [[o a] Ei].
    destruct (Hr _ _ _ Ei) as [_ HP].
    replace (Z.of_nat (S i)) with (0 + Z.of_nat i + 1) by lia.
    by rewrite (move_references_addr _ _ _ _ i o a).
Qed.

Lemma array_rep_snoc r objs P obj a :
  array_rep r objs P -> P (length objs) a -> array_rep (r ++ [(obj, a)]) (objs ++ [obj]) P.
Proof.
  intros [Hl Hr] HP. split; [rewrite !length_app; simpl; lia|]. intros i o a' E.
  apply lookup_snoc_Some in E as [[Hi E]|[-> E]].
  - destruct (Hr _ _ _ E). split; [|done]. by rewrite lookup_app_l by (rewrite <- Hl; done).
  - simplify_eq. rewrite Hl. split; [|done]. by rewrite lookup_app_r, Nat.sub_diag.
Qed.

Lemma tables_rep_snoc ids addrs objs P obj a :
  obj ∉ objs -> tables_rep (Some (ids, addrs)) objs P -> P (length objs) (Some a) ->
  tables_rep (Some (<[obj := Z.of_nat (length objs) + 1]> ids,
                    <[Z.of_nat (length objs) + 1 := a]> addrs)) (objs ++ [obj]) P.
Proof.
  intros Hni (ids' & addrs' & [= <- <-] & Hids & Ha) HP. eexists _, _. split; [done|]. split.
  - intros o id. destruct (decide (o = obj)) as [->|Hne].
    + rewrite lookup_insert_eq. split.
      * intros [= <-]. exists (length objs). split; [lia|]. by rewrite lookup_app_r, Nat.sub_diag.
      * intros (i & -> & [[_ E]|[-> _]]%lookup_snoc_Some); [|f_equal; lia].
        by apply list_elem_of_lookup_2 in E.
    + rewrite lookup_insert_ne by done. rewrite Hids. split; intros (i & -> & E); exists i.
      * split; [done|]. rewrite lookup_app_l; [done|]. by eapply lookup_lt_Some.
      * apply lookup_snoc_Some in E as [[_ E]|[_ E]]; [done|congruence].
  - intros i. rewrite length_app. simpl. intros Hi. destruct (decide (i = length objs)) as [->|Hne].
    + replace (Z.of_nat (S (length objs))) with (Z.of_nat (length objs) + 1) by lia.
      by rewrite lookup_insert_eq.
    + rewrite lookup_insert_ne by lia. apply Ha. lia.
Qed.

Lemma addr_rep_new b anc objs toks M c addr buf :
  pack_rep b anc objs toks M -> wb_address (wb_buf b) = (addr, buf) ->
  addr_rep (toks ++ [TTable (S (length objs)) c]) M (length objs) (Some addr).
Proof.
  intros Hr Ea. destruct (wb_address_spec _ _ _ (pr_wf _ _ _ _ _ Hr) Ea) as (_ & Hb & Hp & _).
  split; [|split; [done|]].
  - intros H%(pr_marks _ _ _ _ _ Hr). lia.
  - exists toks, c, []. split; [done|]. rewrite Hp, (pr_content _ _ _ _ _ Hr). apply length_render.
Qed.

Lemma mark_table_refs b anc objs toks M obj c :
  pack_rep b anc objs toks M -> obj ∉ objs ->
  refs_rep (mark_table obj b) (objs ++ [obj]) (addr_rep (toks ++ [TTable (S (length objs)) c]) M).
Proof.
  intros Hr Hni. pose proof (pr_refs _ _ _ _ _ Hr) as Hrefs. pose proof (pr_objectid _ _ _ _ _ Hr) as Hid.
  unfold mark_table. destruct (wb_address (wb_buf b)) as [addr buf] eqn:Ea.
  pose proof (addr_rep_new _ _ _ _ _ c _ _ Hr Ea) as Hnew. unfold refs_rep in *.
  set (P := addr_rep (toks ++ _) M) in *.
  assert (HPmono : forall i a, addr_rep toks M i a -> P i a) by (intros; by apply addr_rep_more).
  destruct (Z.ltb_spec (wb_objectid b) MAX_REFERENCE) as [Hlt|Hge]; cbn.
  - destruct (Z.leb_spec (wb_objectid b) MAX_REFERENCE); [|lia].
    destruct (Z.leb_spec (wb_objectid b + 1) MAX_REFERENCE); [|lia].
    apply array_rep_snoc; [by eapply array_rep_mono|done].
  - destruct (Z.eqb_spec (wb_objectid b) MAX_REFERENCE) as [E|E]; cbn [from_option id].
    + destruct (Z.leb_spec (wb_objectid b) MAX_REFERENCE); [|lia].
      pose proof (move_references_rep _ _ _ (pr_nodup _ _ _ _ _ Hr) Hrefs) as Ht.
      destruct (move_references 0 (wb_r b) ∅ ∅) as [ids addrs]. cbn.
      destruct (Z.leb_spec (wb_objectid b + 1) MAX_REFERENCE); [lia|].
      rewrite Hid. apply tables_rep_snoc; [done|by eapply tables_rep_mono|done].
    + destruct (Z.leb_spec (wb_objectid b) MAX_REFERENCE); [lia|].
      destruct (wb_tables b) as [[ids addrs]|] eqn:Et; [|by destruct Hrefs as (? & ? & ? & _)].
      cbn. destruct (Z.leb_spec (wb_objectid b + 1) MAX_REFERENCE); [lia|].
      rewrite Hid. apply tables_rep_snoc; [done|by eapply tables_rep_mono|done].
Qed.

Lemma mark_table_fields obj b :
  wb_buf (mark_table obj b) = snd (wb_address (wb_buf b)) /\
  wb_depth (mark_table obj b) = wb_depth b /\ wb_ancestor (mark_table obj b) = wb_ancestor b /\
  wb_objectid (mark_table obj b) = wb_objectid b + 1.
Proof.
  unfold mark_table. destruct (wb_address (wb_buf b)) as [addr buf].
  destruct (wb_objectid b <? MAX_REFERENCE); [done|]. by destruct (default _ _).
Qed.

(** [mark_table] and the push of the tag it took the address of. *)
Lemma mark_table_rep b anc objs toks M obj c :
  pack_rep b anc objs toks M -> obj ∉ objs -> 0 <= c < 32 ->
  pack_rep (on_buf (fun w => wb_push w [COMBINE_TYPE TYPE_TABLE c]) (mark_table obj b))
    anc (objs ++ [obj]) (toks ++ [TTable (S (length objs)) c]) M.
Proof.
  intros Hr Hni Hc. pose proof (mark_table_refs _ _ _ _ _ _ c Hr Hni) as Hrefs.
  destruct (mark_table_fields obj b) as (Eb & Ed & Ea & Eo).
  assert (Happ : appends (wb_buf b) [COMBINE_TYPE TYPE_TABLE c]
                   (wb_push (wb_buf (mark_table obj b)) [COMBINE_TYPE TYPE_TABLE c])).
  { rewrite Eb. destruct (wb_address (wb_buf b)) as [addr buf] eqn:E.
    destruct (wb_address_spec _ _ _ (pr_wf _ _ _ _ _ Hr) E) as (H & _).
    rewrite <- (app_nil_l [_]) at 1. eapply appends_trans; [exact H|]. apply wb_push_appends, H. }
  destruct Hr. destruct Happ as [Hwf Hcon].
  split; cbn [on_buf wb_buf wb_depth wb_objectid wb_ancestor wb_r wb_tables]; rewrite ?Ed, ?Ea, ?Eo; try done.
  - rewrite Hcon, render_app, pr_content0. cbn. rewrite decide_False; [done|].
    intros H%pr_marks0. lia.
  - rewrite length_app. simpl. lia.
  - apply NoDup_app. split_and!; [done| |apply NoDup_singleton].
    intros x Hx ->%list_elem_of_singleton. done.
  - rewrite table_ids_app, length_app, pr_tables0. cbn. rewrite seq_app. done.
  - apply Forall_app. split; [done|]. constructor; [exact Hc|constructor].
  - intros id H%pr_marks0. rewrite length_app. lia.
Qed.

(** ** [pack_one] *)

(** What a call of the C code did, for what the reference encoder returned. *)
Definition pack_result (anc : list Z) (toks : list token) (M : gset nat)
    (spec : outcome (list token * list Z)) (run : outcome write_block) : Prop :=
  match spec with
  | Done (ts, objs') =>
    exists b' , run = Done b' /\ pack_rep b' anc objs' (toks ++ ts) (ref_ids ts ∪ M)
  | Raise e => run = Raise e
  | Undef _ => False
  | NoFuel => run = NoFuel
  end.

(** Sizes [lua_objlen] can give. *)
Definition heap_sizes (h : heap) : Prop :=
  forall p t, h !! p = Some t -> 0 <= t_len t < 2 ^ 31.

Lemma heap_get_size h p : heap_sizes h -> 0 <= t_len (heap_get h p) < 2 ^ 31.
Proof. intros Hh. unfold heap_get. destruct (h !! p) eqn:E; cbn; [eauto|lia]. Qed.

Lemma array_size_range h p : heap_sizes h -> 0 <= array_size (heap_get h p) < 2 ^ 31.
Proof.
  intros Hh. unfold array_size. destruct (t_pairs (heap_get h p)); [lia|].
  pose proof (heap_get_size h p Hh). rewrite wraps_small; lia.
Qed.

(** Sequencing: a part of a table, then the rest. *)
Lemma pack_result_bind anc toks M (spec1 : outcome (list token * list Z)) run1 spec2 run2 :
  pack_result anc toks M spec1 run1 ->
  (forall ts objs b, spec1 = Done (ts, objs) -> pack_rep b anc objs (toks ++ ts) (ref_ids ts ∪ M) ->
     pack_result anc (toks ++ ts) (ref_ids ts ∪ M) (spec2 objs) (run2 b)) ->
  pack_result anc toks M
    (let* (ts, objs1) := spec1 in let* (ts', objs2) := spec2 objs1 in Done (ts ++ ts', objs2))
    (let* b := run1 in run2 b).
Proof.
  intros H1 H2. destruct spec1 as [[ts objs]|e| |]; cbn in *; try (by rewrite H1); [|done].
  destruct H1 as (b & -> & Hr). cbn. specialize (H2 _ _ _ eq_refl Hr).
  destruct (spec2 objs) as [[ts' objs']|e| |]; cbn in *; try done.
  destruct H2 as (b' & -> & Hr'). exists b'. split; [done|]. rewrite ref_ids_app.
  by rewrite (app_assoc _ ts), (union_comm_L (ref_ids ts)), <- (union_assoc_L).
Qed.

Lemma pack_result_done anc objs toks M b : 
  pack_rep b anc objs toks M -> pack_result anc toks M (Done ([], objs)) (Done b).
Proof. intros Hr. exists b. split; [done|]. cbn. by rewrite app_nil_r, union_empty_l_L. Qed.

Section Tables.
Variable h : heap.
Variable one_c : value -> write_block -> outcome write_block.
Variable one_s : value -> list Z -> outcome (list token * list Z).
Variable anc : list Z.
Hypothesis one_refines : forall v b objs toks M,
  pack_rep b anc objs toks M -> pack_result anc toks M (one_s v objs) (one_c v b).

Lemma wb_array_loop_refines n i t b objs toks M :
  pack_rep b anc objs toks M ->
  pack_result anc toks M
    (enc_values one_s (map (fun i => raw_geti t (Z.of_nat i)) (seq i n)) objs)
    (wb_array_loop one_c n (Z.of_nat i) t b).
Proof.
  revert i b objs toks M. induction n as [|n IH]; intros i b objs toks M Hr.
  - by apply pack_result_done.
  - cbn [seq map enc_values wb_array_loop].
    apply (pack_result_bind _ _ _ _ _ (enc_values one_s _)); [by apply one_refines|].
    intros ts objs1 b1 _ Hr1. replace (Z.of_nat i + 1) with (Z.of_nat (S i)) by lia. by apply IH.
Qed.

Lemma wb_pair_refines k v rest run b objs toks M :
  pack_rep b anc objs toks M ->
  (forall b objs toks M, pack_rep b anc objs toks M ->
     pack_result anc toks M (enc_values one_s rest objs) (run b)) ->
  pack_result anc toks M (enc_values one_s (k :: v :: rest) objs)
    (let* b1 := one_c k b in let* b2 := one_c v b1 in run b2).
Proof.
  intros Hr Hrun. change (k :: v :: rest) with ([k] ++ ([v] ++ rest)). cbn [enc_values app].
  apply (pack_result_bind _ _ _ _ _ (enc_values one_s (v :: rest)) (fun b1 => let* b2 := one_c v b1 in run b2));
    [by apply one_refines|].
  intros ts objs1 b1 _ Hr1. cbn [enc_values].
  apply (pack_result_bind _ _ _ _ _ (enc_values one_s rest) run); [by apply one_refines|].
  intros ts' objs2 b2 _ Hr2. by apply Hrun.
Qed.

Lemma wb_hash_loop_refines entries n b objs toks M :
  pack_rep b anc objs toks M ->
  pack_result anc toks M
    (enc_values one_s (flatten (List.filter (fun e => negb (array_key (fst e) n)) entries)) objs)
    (wb_hash_loop one_c entries n b).
Proof.
  revert b objs toks M. induction entries as [|[k v] entries IH]; intros b objs toks M Hr.
  - by apply pack_result_done.
  - cbn [List.filter wb_hash_loop fst]. destruct (array_key k n); cbn [negb]; [by apply IH|].
    apply wb_pair_refines; [done|apply IH].
Qed.

Lemma wb_pairs_loop_refines pairs b objs toks M :
  pack_rep b anc objs toks M ->
  pack_result anc toks M (enc_values one_s (flatten (until_nil pairs)) objs)
    (wb_pairs_loop one_c pairs b).
Proof.
  revert b objs toks M. induction pairs as [|[k v] pairs IH]; intros b objs toks M Hr.
  - by apply pack_result_done.
  - cbn [until_nil wb_pairs_loop]. case_bool_decide; [by apply pack_result_done|].
    apply wb_pair_refines; [done|apply IH].
Qed.
End Tables.

Lemma pack_result_wrap anc toks hdr M spec run :
  ref_ids hdr = ∅ -> pack_result anc (toks ++ hdr) M spec run ->
  pack_result anc toks M
    (let* (ts, objs) := spec in Done (hdr ++ ts ++ [TBytes enc_nil], objs))
    (let* b := run in Done (on_buf wb_nil b)).
Proof.
  intros Hh H. destruct spec as [[ts objs]|e| |]; cbn in *; try (by rewrite H); [|done].
  destruct H as (b & -> & Hr). eexists. split; [done|].
  rewrite !ref_ids_app, Hh. cbn [ref_ids]. rewrite union_empty_l_L, union_empty_r_L.
  rewrite !(app_assoc toks), (app_assoc (toks ++ hdr)).
  apply pack_rep_bytes; [done|]. apply wb_nil_appends, (pr_wf _ _ _ _ _ Hr).
Qed.

Lemma table_header_rep b anc objs toks M obj n :
  pack_rep b anc objs toks M -> obj ∉ objs -> 0 <= n < 2 ^ 31 ->
  pack_rep
    (if EXTEND_NUMBER <=? n then
       on_buf (fun w => wb_integer (wb_push w [COMBINE_TYPE TYPE_TABLE EXTEND_NUMBER]) n) (mark_table obj b)
     else on_buf (fun w => wb_push w [COMBINE_TYPE TYPE_TABLE n]) (mark_table obj b))
    anc (objs ++ [obj]) (toks ++ table_header (S (length objs)) n) M.
Proof.
  intros Hr Hni Hn. unfold table_header, EXTEND_NUMBER, MAX_COOKIE in *.
  destruct (Z.leb_spec (32 - 1) n) as [Hle|Hlt].
  - pose proof (mark_table_rep _ _ _ _ _ _ (32 - 1) Hr Hni ltac:(lia)) as H1.
    pose proof (pack_rep_bytes (fun w => wb_integer w n) _ _ _ _ (enc_integer n) _ H1) as H2.
    rewrite <- app_assoc in H2. apply H2. apply wb_integer_appends, (pr_wf _ _ _ _ _ H1).
  - by apply mark_table_rep; [done..|lia].
Qed.

Lemma wb_table_refines h one_c one_s anc b objs toks M obj :
  heap_sizes h ->
  (forall v b objs toks M, pack_rep b anc objs toks M -> pack_result anc toks M (one_s v objs) (one_c v b)) ->
  pack_rep b anc objs toks M -> obj ∉ objs ->
  pack_result anc toks M
    (let* (ts, objs') := enc_values one_s (table_values (heap_get h obj)) (objs ++ [obj]) in
     Done (table_header (S (length objs)) (array_size (heap_get h obj)) ++ ts ++ [TBytes enc_nil], objs'))
    (wb_table one_c obj (heap_get h obj) b).
Proof.
  intros Hh Hone Hr Hni.
  pose proof (table_header_rep _ _ _ _ _ _ _ Hr Hni (array_size_range h obj Hh)) as Hhdr.
  set (t := heap_get h obj) in *. unfold wb_table, table_values, table_array, table_hash.
  assert (Hids : forall n, ref_ids (table_header (S (length objs)) n) = ∅).
  { intros n. unfold table_header. by destruct (EXTEND_NUMBER <=? n). }
  unfold array_size in *. destruct (t_pairs t) as [pairs|] eqn:Et.
  - unfold wb_table_metapairs. apply pack_result_wrap; [apply Hids|].
    by apply wb_pairs_loop_refines.
  - unfold wb_table_array, wb_table_hash. set (n := wraps 32 (t_len t)) in *.
    assert (E : forall (X : outcome write_block) (k : Z * write_block -> outcome write_block),
      (let* r := (let* b2 := X in Done (n, b2)) in k r) = (let* b2 := X in k (n, b2)))
      by (by intros [] k).
    rewrite E. clear E.
    assert (E : forall (X : outcome write_block) (k : write_block -> outcome write_block),
      (let* b2 := X in let* b3 := k b2 in Done (on_buf wb_nil b3)) =
      (let* b3 := (let* b2 := X in k b2) in Done (on_buf wb_nil b3))) by (by intros [] k).
    rewrite E. clear E. apply pack_result_wrap; [apply Hids|].
    rewrite enc_values_app. apply pack_result_bind.
    + change 1 with (Z.of_nat 1). by apply wb_array_loop_refines.
    + intros ts objs1 b1 _ Hr1. by apply wb_hash_loop_refines.
Qed.

Lemma list_find_eq_Some (objs : list Z) obj i x :
  list_find (eq obj) objs = Some (i, x) -> objs !! i = Some obj.
Proof. intros (H & <- & _)%list_find_Some. done. Qed.

Lemma list_find_eq_None (objs : list Z) obj : list_find (eq obj) objs = None -> obj ∉ objs.
Proof. intros H%list_find_None Hin. rewrite Forall_forall in H. by apply (H obj). Qed.

Lemma ref_object_refines b anc objs toks M obj :
  pack_rep b anc objs toks M ->
  match list_find (eq obj) objs with
  | Some (i, _) => exists b', ref_object obj b = Done (Some b') /\
      pack_rep b' anc objs (toks ++ [TRef (S i)]) ({[S i]} ∪ M)
  | None => ref_object obj b = Done None
  end.
Proof.
  intros Hr. unfold ref_object. destruct (list_find (eq obj) objs) as [[i x]|] eqn:E.
  - destruct (lookup_ref_hit _ _ _ _ _ _ _ Hr (list_find_eq_Some _ _ _ _ E)) as (b' & -> & Hr').
    cbn [obind]. ztest; [|lia]. eexists. split; [done|].
    apply pack_rep_append; [done| |done|by repeat constructor].
    cbn [render render_token]. rewrite app_nil_r.
    change (?x :: ?l) with ([x] ++ l). eapply appends_trans.
    + apply wb_push_appends, (pr_wf _ _ _ _ _ Hr').
    + apply wb_integer_appends, wb_push_appends, (pr_wf _ _ _ _ _ Hr').
  - by rewrite (lookup_ref_miss _ _ _ _ _ _ Hr (list_find_eq_None _ _ E)).
Qed.

Lemma pack_one_refines fuel h v b anc objs toks M :
  heap_sizes h -> pack_rep b anc objs toks M ->
  pack_result anc toks M (enc_one fuel h anc v objs) (pack_one fuel h v b).
Proof.
  intros Hh. revert v b anc objs toks M. induction fuel as [|fuel IH]; intros v b anc objs toks M Hr; [done|].
  assert (Hbytes : forall f bs, appends (wb_buf b) bs (f (wb_buf b)) ->
    pack_result anc toks M (Done ([TBytes bs], objs)) (Done (on_buf f b))).
  { intros f bs Ha. eexists. split; [done|]. cbn. rewrite union_empty_l_L. by apply pack_rep_bytes. }
  pose proof (pr_wf _ _ _ _ _ Hr) as Hwf.
  destruct v; cbn [enc_one pack_one]; try done; try (apply Hbytes; by auto with svc).
  rewrite (ref_ancestor_spec _ _ _ _ _ _ Hr).
  destruct (enc_ancestor anc p) as [i|]; cbn [fmap option_fmap option_map]; [by apply Hbytes; auto with svc|].
  pose proof (ref_object_refines _ _ _ _ _ p Hr) as Href.
  destruct (list_find (eq p) objs) as [[i x]|] eqn:E.
  - destruct Href as (b' & -> & Hr'). cbn [obind]. exists b'. split; [done|].
    cbn. by rewrite union_empty_r_L.
  - rewrite Href. cbn [obind].
    pose proof (wb_table_refines h _ _ _ _ _ _ _ p Hh (fun v b => IH v b (anc ++ [p]))
      (push_ancestor_rep _ _ _ _ _ p Hr) (list_find_eq_None _ _ E)) as Ht.
    destruct (enc_values _ _ _) as [[ts objs']|e| |]; cbn [obind] in *; cbn in Ht |- *; try done;
      try (by rewrite Ht).
    destruct Ht as (b' & -> & Hr'). cbn. eexists. split; [done|]. by eapply pop_ancestor_rep.
Qed.

Lemma pack_from_refines fuel h vs b objs toks M :
  heap_sizes h -> pack_rep b [] objs toks M ->
  pack_result [] toks M (enc_values (enc_one fuel h []) vs objs) (pack_from fuel h vs b).
Proof.
  intros Hh. revert b objs toks M. induction vs as [|v vs IH]; intros b objs toks M Hr.
  - by apply pack_result_done.
  - cbn [enc_values pack_from]. apply pack_result_bind; [by apply pack_one_refines|].
    intros ts objs1 b1 _ Hr1. by apply IH.
Qed.

(** The buffer of a whole pack, from the tokens. *)
Definition seri_spec_bytes (fuel : nat) (h : heap) (vs : list value) : outcome (list Z) :=
  let* (toks, objs) := enc_values (enc_one fuel h []) vs [] in
  let bytes := render (ref_ids toks) toks in
  Done (le_bytes 4 (Z.of_nat (length bytes)) ++ bytes).

Lemma seri_pack_refines fuel h vs :
  heap_sizes h -> seri_pack fuel h vs = seri_spec_bytes fuel h vs.
Proof.
  intros Hh. pose proof (pack_from_refines fuel h vs _ _ _ _ Hh pack_rep_init) as H.
  unfold seri_pack, seri_spec_bytes. destruct (enc_values _ _ _) as [[ts objs]|e| |];
    cbn [pack_result obind] in *; try (by rewrite H); [|done].
  destruct H as (b & -> & Hr). cbn [obind]. rewrite union_empty_r_L in Hr. cbn [app] in Hr.
  rewrite (seri_spec _ (pr_wf _ _ _ _ _ Hr)), (pr_content _ _ _ _ _ Hr). done.
Qed.
