(* ===== verification/SeriDecode.v ===== *)
(** * SeriDecode: what the decoder reads from well-formed bytes

    [rb_at] says which bytes a read block still has; the lemmas give the
    result of each reader on the encoding it expects. *)

From S2P Require Import Prelude SeriValue SeriPack SeriUnpack SeriBuffer SeriToken.
#[local] Open Scope outcome_scope.

(** ** The bytes left *)

Definition rb_rest (rb : read_block) : list Z :=
  take (Z.to_nat (rb_len rb)) (drop (Z.to_nat (rb_ptr rb)) (rb_buffer rb)).

Definition rb_ok (rb : read_block) : Prop :=
  0 <= rb_ptr rb /\ 0 <= rb_len rb /\ rb_ptr rb + rb_len rb <= Z.of_nat (length (rb_buffer rb)).

Definition rb_at (rb : read_block) (bs : list Z) : Prop := rb_ok rb /\ rb_rest rb = bs.

Definition rb_advance (n : nat) (rb : read_block) : read_block :=
  ReadBlock (rb_buffer rb) (rb_len rb - Z.of_nat n) (rb_ptr rb + Z.of_nat n) (rb_depth rb)
    (rb_objectid rb) (rb_ancestor rb) (rb_refs rb).

Lemma rb_at_length rb bs : rb_at rb bs -> rb_len rb = Z.of_nat (length bs).
Proof.
  intros [(H1 & H2 & H3) <-]. unfold rb_rest. rewrite length_take, length_drop. lia.
Qed.

Lemma rb_at_advance rb bs rest : rb_at rb (bs ++ rest) -> rb_at (rb_advance (length bs) rb) rest.
Proof.
  intros H. pose proof (rb_at_length _ _ H) as Hl. rewrite length_app in Hl.
  destruct H as [(H1 & H2 & H3) H]. split; [unfold rb_ok; cbn; lia|].
  unfold rb_rest in *. cbn. apply (f_equal (drop (length bs))) in H.
  rewrite drop_app_length, skipn_firstn_comm, skipn_skipn in H. rewrite <- H. f_equal; [lia|].
  f_equal. lia.
Qed.

Lemma rb_at_advance_n rb n bs rest :
  rb_at rb (bs ++ rest) -> length bs = n -> rb_at (rb_advance n rb) rest.
Proof. intros H <-. by apply (rb_at_advance _ bs). Qed.

Lemma rb_advance_0 rb : rb_advance 0 rb = rb.
Proof. destruct rb. unfold rb_advance. cbn. f_equal; lia. Qed.

Lemma rb_advance_add n m rb : rb_advance n (rb_advance m rb) = rb_advance (m + n) rb.
Proof. destruct rb. unfold rb_advance. cbn. f_equal; lia. Qed.

(** Changes of the other fields keep the bytes left. *)
Lemma rb_at_same rb rb' bs :
  rb_buffer rb' = rb_buffer rb -> rb_len rb' = rb_len rb -> rb_ptr rb' = rb_ptr rb ->
  rb_at rb bs -> rb_at rb' bs.
Proof. unfold rb_at, rb_ok, rb_rest. intros -> -> ->. done. Qed.

Lemma rb_take_at rb bs rest n :
  rb_at rb (bs ++ rest) -> n = Z.of_nat (length bs) ->
  rb_take rb n = Done (bs, rb_advance (length bs) rb).
Proof.
  intros H ->. pose proof (rb_at_length _ _ H) as Hl. rewrite length_app in Hl.
  destruct H as [(H1 & H2 & H3) H]. unfold rb_take, rb_read. ztest; [lia|].
  unfold rb_bytes. cbn [rb_buffer].
  rewrite (proj2 (Z.leb_le 0 _)), (proj2 (Z.leb_le 0 _)), (proj2 (Z.leb_le _ _)) by lia.
  cbn [andb obind]. f_equal. f_equal. rewrite Nat2Z.id.
  unfold rb_rest in H. apply (f_equal (take (length bs))) in H.
  rewrite take_app_length, take_take in H. rewrite <- H at 2. f_equal. lia.
Qed.

(** Too few bytes left is an error, and nothing else is. *)
Lemma rb_take_short rb n : rb_len rb < n -> rb_take rb n = Raise (ErrStream (rb_len rb)).
Proof. intros H. unfold rb_take, rb_read. ztest; [done|lia]. Qed.

(** The bytes left, as a list whose first [n] elements are read. *)
Lemma rb_at_rest rb : rb_ok rb -> rb_at rb (rb_rest rb).
Proof. done. Qed.

Lemma rb_inc_dec rb : rb_inc_depth (rb_dec_depth rb) = rb.
Proof. destruct rb. unfold rb_inc_depth, rb_dec_depth, rb_set_depth. cbn. f_equal. lia. Qed.

(** ** Integers *)

Lemma le_value_le_bytes n v : 0 <= v < 2 ^ (8 * Z.of_nat n) -> le_value (le_bytes n v) = v.
Proof. intros H. rewrite le_value_bytes. by apply Z.mod_small. Qed.

Lemma le_value_wraps n v :
  (0 < n)%nat -> - 2 ^ (8 * Z.of_nat n - 1) <= v < 2 ^ (8 * Z.of_nat n - 1) ->
  wraps (8 * Z.of_nat n) (le_value (le_bytes n v)) = v.
Proof. intros Hn H. rewrite le_value_bytes, wraps_mod by lia. apply wraps_small; lia. Qed.

Definition tag_of (t v : Z) : Z := le_value [COMBINE_TYPE t v].

Lemma tag_of_eq t v : tag_of t v = COMBINE_TYPE t v.
Proof. unfold tag_of. cbn [le_value]. lia. Qed.

(** An integer from its tag's cookie and the bytes after the tag. *)
Lemma get_integer_enc rb v rest :
  - 2 ^ 63 <= v < 2 ^ 63 -> rb_at rb (enc_integer v ++ rest) ->
  exists cookie bs, enc_integer v = COMBINE_TYPE TYPE_NUMBER cookie :: bs /\
    0 <= cookie < 8 /\
    get_integer (rb_advance 1 rb) cookie = Done (v, rb_advance (length (enc_integer v)) rb).
Proof.
  intros Hv Hat.
  assert (Hgo : forall cookie bs k, enc_integer v = COMBINE_TYPE TYPE_NUMBER cookie :: bs ->
    (forall rb1, get_integer rb1 cookie =
       let* (bs', rb2) := rb_take rb1 (Z.of_nat (length bs)) in Done (k bs', rb2)) ->
    k bs = v ->
    get_integer (rb_advance 1 rb) cookie = Done (v, rb_advance (length (enc_integer v)) rb)).
  { intros cookie bs k E Hget Hk. rewrite E in Hat |- *.
    change (?t :: bs) with ([t] ++ bs) in Hat. rewrite <- app_assoc in Hat.
    apply rb_at_advance in Hat. cbn [length] in Hat.
    rewrite Hget, (rb_take_at _ bs rest) by done. cbn [obind]. rewrite Hk, rb_advance_add. done. }
  unfold enc_integer in *. destruct (Z.eqb_spec v 0) as [->|Hnz].
  { exists TYPE_NUMBER_ZERO, []. split_and!; [done|done|done|]. done. }
  destruct (Z.eqb_spec v (wraps 32 v)) as [H32|H32]; cbn [negb] in *.
  2: { exists TYPE_NUMBER_QWORD, (le_bytes 8 v). split_and!; [done|done|done|].
       eapply (Hgo _ _ (fun bs => wraps 64 (le_value bs))); [done|done|].
       apply (le_value_wraps 8); [lia|exact Hv]. }
  assert (Hr : - 2 ^ 31 <= v < 2 ^ 31).
  { rewrite H32. unfold wraps. pose proof (Z.mod_pos_bound v (2 ^ 32) ltac:(lia)). ztest; lia. }
  destruct (Z.ltb_spec v 0).
  { exists TYPE_NUMBER_DWORD, (le_bytes 4 v). split_and!; [done|done|done|].
    eapply (Hgo _ _ (fun bs => wraps 32 (le_value bs))); [done|done|].
    apply (le_value_wraps 4); [lia|exact Hr]. }
  destruct (Z.ltb_spec v 256).
  { exists TYPE_NUMBER_BYTE, [wrapu 8 v]. split_and!; [done|done|done|].
    eapply (Hgo _ _ le_value); [done|done|]. cbn [le_value]. rewrite wrapu_small; lia. }
  destruct (Z.ltb_spec v 65536).
  { exists TYPE_NUMBER_WORD, (le_bytes 2 v). split_and!; [done|done|done|].
    eapply (Hgo _ _ le_value); [done|done|]. apply le_value_le_bytes. lia. }
  exists TYPE_NUMBER_DWORD, (le_bytes 4 v). split_and!; [done|done|done|].
  eapply (Hgo _ _ (fun bs => wraps 32 (le_value bs))); [done|done|].
  apply (le_value_wraps 4); [lia|exact Hr].
Qed.

Lemma length_enc_integer v : (1 <= length (enc_integer v))%nat.
Proof. unfold enc_integer. repeat case_match; cbn; lia. Qed.

Lemma get_extend_integer_enc rb v rest :
  - 2 ^ 31 <= v < 2 ^ 31 -> rb_at rb (enc_integer v ++ rest) ->
  get_extend_integer rb = Done (v, rb_advance (length (enc_integer v)) rb).
Proof.
  intros Hv Hat. destruct (get_integer_enc rb v rest ltac:(lia) Hat) as (c & bs & E & Hc & Hg).
  unfold get_extend_integer.
  rewrite E in Hat. change (?t :: bs) with ([t] ++ bs) in Hat. rewrite <- app_assoc in Hat.
  rewrite (rb_take_at _ _ _ 1 Hat) by done. cbn [obind length].
  change (le_value [COMBINE_TYPE TYPE_NUMBER c]) with (tag_of TYPE_NUMBER c). rewrite tag_of_eq.
  rewrite tag_type_combine, tag_cookie_combine by (unfold TYPE_NUMBER; lia).
  rewrite Z.eqb_refl. cbn [negb orb]. unfold TYPE_NUMBER_REAL. ztest; [lia|].
  rewrite Hg. cbn [obind]. by rewrite wraps_small by lia.
Qed.

(** ** Values without tables *)

(** What C code can hold: 64-bit patterns, and strings an [int] can count. *)
Definition value_ok (v : value) : Prop :=
  match v with
  | VNumber n => 0 <= n < 2 ^ 64
  | VLightUserdata p | VCFunction p => 0 <= p < 2 ^ 64
  | VString s => Z.of_nat (length s) < 2 ^ 31
  | _ => True
  end.

(** The bytes of a value that is not a table. *)
Definition enc_scalar (v : value) : option (list Z) :=
  match v with
  | VNil => Some enc_nil
  | VNumber n => Some (enc_real n)
  | VBoolean x => Some (enc_boolean x)
  | VString s => Some (enc_string s (wraps 32 (Z.of_nat (length s))))
  | VLightUserdata p => Some (enc_pointer p TYPE_USERDATA_POINTER)
  | VCFunction p => Some (enc_pointer p TYPE_USERDATA_CFUNCTION)
  | _ => None
  end.

(** A tag of the format: its type and cookie come back from the byte. *)
Lemma unpack_one_tag fuel rb L t c bs :
  rb_at rb (COMBINE_TYPE t c :: bs) -> 0 <= t < 8 -> 0 <= c < 32 ->
  unpack_one (S fuel) rb L = push_value (unpack_one fuel) fuel (rb_advance 1 rb) t c L.
Proof.
  intros Hat Ht Hc. cbn [unpack_one]. change (?x :: bs) with ([x] ++ bs) in Hat.
  rewrite (rb_take_at _ _ _ 1 Hat) by done. cbn [obind length].
  change (le_value [COMBINE_TYPE t c]) with (tag_of t c). rewrite tag_of_eq.
  by rewrite tag_type_combine, tag_cookie_combine.
Qed.

Lemma rb_at_tag rb t c bs rest :
  rb_at rb ((COMBINE_TYPE t c :: bs) ++ rest) ->
  rb_at rb (COMBINE_TYPE t c :: bs ++ rest) /\ rb_at (rb_advance 1 rb) (bs ++ rest).
Proof. intros H. split; [done|]. by apply (rb_at_advance_n _ 1 [COMBINE_TYPE t c]). Qed.

Lemma get_buffer_at rb s rest L :
  rb_at rb (s ++ rest) ->
  get_buffer rb (Z.of_nat (length s)) L = Done (rb_advance (length s) rb, lua_push (VString s) L).
Proof. intros Hat. unfold get_buffer. by rewrite (rb_take_at _ _ _ _ Hat). Qed.

Lemma unpack_string fuel rb L s rest :
  Z.of_nat (length s) < 2 ^ 31 ->
  rb_at rb (enc_string s (Z.of_nat (length s)) ++ rest) ->
  unpack_one (S fuel) rb L =
    Done (rb_advance (length (enc_string s (Z.of_nat (length s)))) rb, lua_push (VString s) L).
Proof.
  intros Hs Hat. unfold enc_string, MAX_COOKIE in *. rewrite Nat2Z.id, firstn_all in *.
  rewrite <- app_assoc in Hat. rewrite length_app.
  destruct (Z.ltb_spec (Z.of_nat (length s)) 32); [|destruct (Z.ltb_spec (Z.of_nat (length s)) 65536)];
    apply rb_at_tag in Hat as [Hat Hat1]; unfold TYPE_SHORT_STRING, TYPE_LONG_STRING in *;
    rewrite (unpack_one_tag _ _ L _ _ _ Hat) by (done || lia); unfold push_value; cbn [Z.eqb Pos.eqb].
  - cbn [TYPE_BOOLEAN TYPE_NUMBER TYPE_USERDATA]. erewrite get_buffer_at by done.
    by rewrite rb_advance_add.
  - rewrite (rb_take_at _ _ _ 2 Hat1) by done. cbn [obind].
    apply rb_at_advance in Hat1. rewrite le_value_le_bytes by (cbn; lia).
    erewrite get_buffer_at by done. by rewrite !rb_advance_add.
  - rewrite (rb_take_at _ _ _ 4 Hat1) by done. cbn [obind negb].
    apply rb_at_advance in Hat1. rewrite (le_value_wraps 4) by (cbn; lia).
    erewrite get_buffer_at by done. by rewrite !rb_advance_add.
Qed.

Lemma unpack_scalar fuel rb L v bs rest :
  value_ok v -> enc_scalar v = Some bs -> rb_at rb (bs ++ rest) ->
  unpack_one (S fuel) rb L = Done (rb_advance (length bs) rb, lua_push v L).
Proof.
  intros Hok Henc Hat. destruct v; cbn in Hok, Henc; simplify_eq.
  - apply rb_at_tag in Hat as [Hat _]. by rewrite (unpack_one_tag _ _ L _ _ _ Hat).
  - destruct b; apply rb_at_tag in Hat as [Hat _]; by rewrite (unpack_one_tag _ _ L _ _ _ Hat).
  - apply rb_at_tag in Hat as [Hat Hat1]. rewrite (unpack_one_tag _ _ L _ _ _ Hat) by done.
    cbn [push_value]. unfold push_value, get_real. cbn -[rb_take le_bytes].
    rewrite (rb_take_at _ _ _ 8 Hat1) by done. cbn [obind].
    rewrite le_value_le_bytes by (cbn; lia). by rewrite rb_advance_add.
  - rewrite wraps_small in * by lia. by apply (unpack_string _ _ _ _ rest).
  - apply rb_at_tag in Hat as [Hat Hat1]. rewrite (unpack_one_tag _ _ L _ _ _ Hat) by done.
    unfold push_value, get_pointer. cbn -[rb_take le_bytes].
    rewrite (rb_take_at _ _ _ 8 Hat1) by done. cbn [obind].
    rewrite le_value_le_bytes by (cbn; lia). by rewrite rb_advance_add.
  - apply rb_at_tag in Hat as [Hat Hat1]. rewrite (unpack_one_tag _ _ L _ _ _ Hat) by done.
    unfold push_value, get_pointer. cbn -[rb_take le_bytes].
    rewrite (rb_take_at _ _ _ 8 Hat1) by done. cbn [obind].
    rewrite le_value_le_bytes by (cbn; lia). by rewrite rb_advance_add.
Qed.

(** ** Doubles that are integers are numbers *)

Lemma testbit_63 x : 0 <= x < 2 ^ 63 -> Z.testbit x 63 = false.
Proof.
  intros Hx. destruct (Z.eq_dec x 0) as [->|]; [done|]. apply Z.bits_above_log2; [lia|].
  apply Z.log2_lt_pow2; lia.
Qed.

Lemma dbl_decode_pos ex mant :
  0 <= ex < 2047 -> 0 <= mant < 2 ^ 52 ->
  dbl_decode (ex * 2 ^ 52 + mant) =
    DFin (if ex =? 0 then mant else mant + 2 ^ 52) (Z.max ex 1 - 1075).
Proof.
  intros He Hm. unfold dbl_decode. set (b := ex * 2 ^ 52 + mant).
  assert (Hb : 0 <= b < 2 ^ 63) by (unfold b; nia).
  rewrite testbit_63 by done.
  assert (E1 : Z.shiftr b 52 = ex).
  { rewrite Z.shiftr_div_pow2 by lia. unfold b. rewrite Z.div_add_l by lia.
    rewrite Z.div_small by done. lia. }
  assert (E2 : Z.land b (2 ^ 52 - 1) = mant).
  { replace (2 ^ 52 - 1) with (Z.ones 52) by done. rewrite Z.land_ones by lia. unfold b.
    rewrite Z.add_comm, Z.mod_add by lia. by apply Z.mod_small. }
  rewrite E1, E2. replace (Z.land ex 2047) with ex.
  2: { change 2047 with (Z.ones 11). rewrite Z.land_ones by lia. symmetry. apply Z.mod_small. lia. }
  ztest; [lia|done].
Qed.

(** A positive integer of at most 53 bits is represented exactly. *)
Lemma dbl_of_int_decode i :
  0 < i < 2 ^ 53 ->
  dbl_of_int i = (Z.log2 i + 1023) * 2 ^ 52 + (i * 2 ^ (52 - Z.log2 i) - 2 ^ 52) /\
  dbl_decode (dbl_of_int i) = DFin (i * 2 ^ (52 - Z.log2 i)) (Z.log2 i - 52).
Proof.
  intros Hi. pose proof (Z.log2_spec i ltac:(lia)) as [Hl1 Hl2].
  assert (Hl : 0 <= Z.log2 i <= 52).
  { split; [apply Z.log2_nonneg|]. apply Z.lt_succ_r, Z.log2_lt_pow2; lia. }
  assert (Hq : 2 ^ 52 <= i * 2 ^ (52 - Z.log2 i) < 2 ^ 53).
  { assert (Hp : 0 < 2 ^ (52 - Z.log2 i)) by (apply Z.pow_pos_nonneg; lia).
    replace (2 ^ 52) with (2 ^ Z.log2 i * 2 ^ (52 - Z.log2 i)) by (rewrite <- Z.pow_add_r by lia; f_equal; lia).
    replace (2 ^ 53) with (2 ^ Z.succ (Z.log2 i) * 2 ^ (52 - Z.log2 i)) by (rewrite <- Z.pow_add_r by lia; f_equal; lia).
    nia. }
  assert (E : dbl_of_int i = (Z.log2 i + 1023) * 2 ^ 52 + (i * 2 ^ (52 - Z.log2 i) - 2 ^ 52)).
  { unfold dbl_of_int. rewrite Z.abs_eq by lia. destruct (Z.eqb_spec i 0); [lia|].
    destruct (Z.leb_spec (Z.log2 i) 52); [|lia]. destruct (Z.ltb_spec i 0); lia. }
  split; [exact E|]. rewrite E, dbl_decode_pos by lia.
  destruct (Z.eqb_spec (Z.log2 i + 1023) 0); [lia|]. f_equal; lia.
Qed.

Lemma dbl_of_int_number i : 0 < i < 2 ^ 53 -> dbl_is_nan (dbl_of_int i) = false.
Proof. intros Hi. unfold dbl_is_nan. by rewrite (proj2 (dbl_of_int_decode i Hi)). Qed.
