(* ===== verification/SeriRoundTrip.v ===== *)
(** * SeriRoundTrip: decoding the rendering of a reference encoding

    The decoder creates the tables in the order their ids were given, so the
    object of id [S i] becomes the table at [base + i].  [image] maps the
    values packed to the values read; the main lemma says that reading the
    rendering of a value's tokens pushes its image, leaves every older table
    alone, and fills each new table with the images of the fields packed. *)

From S2P Require Import Prelude SeriValue SeriPack SeriUnpack SeriBuffer SeriToken SeriDecode.
#[local] Open Scope outcome_scope.

(** The slots of a stack, by absolute index. *)
Definition stack_at (st : list value) (slot : Z) : option value :=
  if (1 <=? slot) && (slot <=? Z.of_nat (length st)) then
    st !! Z.to_nat (Z.of_nat (length st) - slot)
  else None.

Lemma lua_at_stack L slot v : stack_at (lua_stack L) slot = Some v -> lua_at L slot = Some v.
Proof.
  unfold stack_at, lua_at, lua_gettop. intros H. destruct (Z.leb_spec 1 slot); [|done].
  ztest; [lia|done].
Qed.

Lemma stack_at_app top st slot v : stack_at st slot = Some v -> stack_at (top ++ st) slot = Some v.
Proof.
  unfold stack_at. intros H. rewrite length_app.
  destruct (Z.leb_spec 1 slot), (Z.leb_spec slot (Z.of_nat (length st))); try done.
  destruct (Z.leb_spec slot (Z.of_nat (length top + length st))); [|lia]. cbn [andb] in *.
  rewrite lookup_app_r by lia. rewrite <- H. f_equal. lia.
Qed.

Lemma stack_at_top v st : stack_at (v :: st) (Z.of_nat (S (length st))) = Some v.
Proof.
  unfold stack_at. cbn [length]. destruct (Z.leb_spec 1 (Z.of_nat (S (length st)))); [|lia].
  rewrite Z.leb_refl, Z.sub_diag. done.
Qed.

(** The fields a table is packed as: the array part, then the other pairs. *)
Definition table_fields (t : table) : list (value * value) :=
  map (fun i => (VNumber (dbl_of_int (Z.of_nat i)), raw_geti t (Z.of_nat i)))
    (seq 1 (Z.to_nat (array_size t)))
  ++ table_hash t.

(** Keys that are read back as they are: not tables, not nil, not NaN. *)
Definition key_ok (k : value) : Prop :=
  match k with
  | VNil | VTable _ => False
  | VNumber n => 0 <= n < 2 ^ 64 /\ dbl_is_nan n = false
  | _ => value_ok k
  end.

Lemma heap_rawset_key hp p k v :
  key_ok k -> heap_rawset hp p k v = Done (<[p := raw_set (default [] (hp !! p)) k v]> hp).
Proof. unfold heap_rawset, key_ok. destruct k; try done. by intros [_ ->]. Qed.

Lemma key_value_ok k : key_ok k -> value_ok k.
Proof. destruct k; cbn; tauto. Qed.

Record table_ok (t : table) : Prop := {
  to_size : 0 <= t_len t < 2 ^ 31;
  to_values : Forall (fun e => value_ok (snd e)) (table_fields t);
  to_keys : Forall (fun e => key_ok (fst e)) (table_hash t)
}.

Definition heap_ok (h : heap) : Prop := forall p t, h !! p = Some t -> table_ok t.

Section RoundTrip.
Variable h : heap.
Hypothesis h_ok : heap_ok h.
(** All the objects of the pack in the order of their ids, the marked ids, and
    the address of the first table the decoder creates. *)
Variable all : list Z.
Hypothesis all_nodup : NoDup all.
Variable M : gset nat.
Variable base : Z.

Definition image (v : value) : value :=
  match v with
  | VTable obj =>
    match list_find (eq obj) all with Some (i, _) => VTable (base + Z.of_nat i) | None => VNil end
  | _ => v
  end.

Definition set_field (e : list (value * value)) (kv : value * value) : list (value * value) :=
  raw_set e (fst kv) (image (snd kv)).

Definition content (t : table) : list (value * value) := fold_left set_field (table_fields t) [].

Lemma image_table obj i : all !! i = Some obj -> image (VTable obj) = VTable (base + Z.of_nat i).
Proof.
  intros Hi. cbn. destruct (list_find (eq obj) all) as [[j x]|] eqn:E.
  - apply list_find_Some in E as (Hj & <- & _).
    by rewrite (NoDup_lookup all j i obj all_nodup Hj Hi).
  - apply list_find_None in E. rewrite Forall_forall in E.
    apply list_elem_of_lookup_2 in Hi. by destruct (E _ Hi).
Qed.

(** ** The state of the decoder after [objs] and before [rest] *)

Record dec_state (rb : read_block) (L : lua) (objs : list Z) (rest : list Z) : Prop := {
  ds_at : rb_at rb rest;
  ds_objectid : rb_objectid rb = Z.of_nat (length objs);
  ds_fresh : lua_fresh L = base + Z.of_nat (length objs);
  ds_prefix : objs `prefix_of` all;
  ds_refs : forall i, (i < length objs)%nat -> S i ∈ M ->
    exists refs, rb_refs rb = Some refs /\ refs !! Z.of_nat (S i) = Some (base + Z.of_nat i)
}.

Definition anc_ok (rb : read_block) (anc : list Z) (st : list value) : Prop :=
  rb_depth rb = Z.of_nat (length anc) /\
  forall i obj, anc !! i = Some obj -> Z.of_nat i < MAX_DEPTH ->
    exists slot, rb_ancestor rb !! Z.of_nat i = Some slot /\ stack_at st slot = Some (image (VTable obj)).

(** What a part of the decoder did: from [objs] to [objs'], touching no older
    table but [p]. *)
Record decoded (p : option Z) (rb : read_block) (L : lua) (objs : list Z)
    (rb' : read_block) (L' : lua) (objs' : list Z) : Prop := {
  de_depth : rb_depth rb' = rb_depth rb;
  de_anc : forall i, 0 <= i < rb_depth rb -> rb_ancestor rb' !! i = rb_ancestor rb !! i;
  de_prefix : objs `prefix_of` objs';
  de_heap : forall q, q < base + Z.of_nat (length objs) -> p <> Some q ->
    lua_heap L' !! q = lua_heap L !! q;
  de_new : forall i obj, (length objs <= i)%nat -> objs' !! i = Some obj ->
    lua_heap L' !! (base + Z.of_nat i) = Some (content (heap_get h obj))
}.

Lemma decoded_refl p rb L objs : decoded p rb L objs rb L objs.
Proof. split; try done. intros i obj Hi E. apply lookup_lt_Some in E. lia. Qed.

Lemma prefix_lookup (l1 l2 : list Z) i x : l1 `prefix_of` l2 -> l1 !! i = Some x -> l2 !! i = Some x.
Proof. intros [k ->] E. rewrite lookup_app_l; [done|]. by eapply lookup_lt_Some. Qed.

Lemma prefix_length_le (l1 l2 : list Z) : l1 `prefix_of` l2 -> (length l1 <= length l2)%nat.
Proof. apply prefix_length. Qed.

Lemma decoded_trans p rb L objs rb1 L1 objs1 rb2 L2 objs2 :
  (forall q, p = Some q -> q < base + Z.of_nat (length objs)) ->
  decoded p rb L objs rb1 L1 objs1 -> decoded p rb1 L1 objs1 rb2 L2 objs2 ->
  decoded p rb L objs rb2 L2 objs2.
Proof.
  intros Hp [Hd1 Ha1 Hp1 Hh1 Hn1] [Hd2 Ha2 Hp2 Hh2 Hn2].
  pose proof (prefix_length_le _ _ Hp1). split.
  - congruence.
  - intros i Hi. rewrite Ha2 by lia. by apply Ha1.
  - by etransitivity.
  - intros q Hq Hne. rewrite Hh2 by (done || lia). by apply Hh1.
  - intros i obj Hi E. destruct (Nat.lt_ge_cases i (length objs1)) as [Hlt|Hge].
    + rewrite Hh2; [|lia|intros ->; specialize (Hp _ eq_refl); lia]. apply Hn1; [done|].
      destruct (lookup_lt_is_Some_2 objs1 i Hlt) as [o Eo].
      by rewrite (prefix_lookup _ _ _ _ Hp2 Eo) in E; simplify_eq.
    + by apply Hn2.
Qed.

Lemma decoded_weaken p rb L objs rb' L' objs' :
  decoded None rb L objs rb' L' objs' -> decoded p rb L objs rb' L' objs'.
Proof. intros []. split; try done. intros q Hq _. by apply de_heap0. Qed.

(** A write to [p] alone. *)
Lemma decoded_write p rb L objs h' st' :
  (forall q, q <> p -> h' !! q = lua_heap L !! q) ->
  decoded (Some p) rb L objs rb (Lua h' (lua_fresh L) st') objs.
Proof.
  intros Hh. split; cbn; try done.
  - intros q _ Hne. apply Hh. congruence.
  - intros i obj Hi E. apply lookup_lt_Some in E. lia.
Qed.

Lemma anc_ok_decoded rb anc st p L objs rb' L' objs' :
  anc_ok rb anc st -> decoded p rb L objs rb' L' objs' -> anc_ok rb' anc st.
Proof.
  intros [Hd Ha] Hde. split; [by rewrite (de_depth _ _ _ _ _ _ _ Hde)|].
  intros i obj Hi Hm. rewrite (de_anc _ _ _ _ _ _ _ Hde); [by apply Ha|].
  apply lookup_lt_Some in Hi. lia.
Qed.

Lemma anc_ok_app rb anc st top : anc_ok rb anc st -> anc_ok rb anc (top ++ st).
Proof.
  intros [Hd Ha]. split; [done|]. intros i obj Hi Hm.
  destruct (Ha i obj Hi Hm) as (slot & H1 & H2). exists slot. split; [done|]. by apply stack_at_app.
Qed.

Lemma dec_state_advance rb L objs bs rest n st :
  dec_state rb L objs (bs ++ rest) -> length bs = n ->
  dec_state (rb_advance n rb) (Lua (lua_heap L) (lua_fresh L) st) objs rest.
Proof.
  intros [] Hn. split; cbn; try done. by eapply rb_at_advance_n.
Qed.

Lemma dec_state_heap rb L objs rest h' st :
  dec_state rb L objs rest -> dec_state rb (Lua h' (lua_fresh L) st) objs rest.
Proof. intros []. split; done. Qed.

Lemma dec_state_depth rb L objs rest d : dec_state rb L objs rest -> dec_state (rb_set_depth d rb) L objs rest.
Proof. intros []. split; done. Qed.

(** ** References *)

Lemma tag_ref_cookie i : Z.of_nat i < MAX_DEPTH -> 0 <= Z.of_nat i < 32.
Proof. unfold MAX_DEPTH. lia. Qed.

(** An ancestor reference reads the slot of that ancestor. *)
Lemma unpack_ancestor fuel rb L objs rest anc i obj :
  dec_state rb L objs (COMBINE_TYPE TYPE_REF (Z.of_nat i) :: rest) ->
  anc_ok rb anc (lua_stack L) -> anc !! i = Some obj -> Z.of_nat i < MAX_DEPTH ->
  unpack_one (S fuel) rb L = Done (rb_advance 1 rb, lua_push (image (VTable obj)) L).
Proof.
  intros Hs [Hd Ha] Hi Hm. pose proof (tag_ref_cookie i Hm). unfold MAX_DEPTH in Hm.
  rewrite (unpack_one_tag _ _ L _ _ _ (ds_at _ _ _ _ Hs)) by (unfold TYPE_REF; lia).
  unfold push_value, unpack_ref. cbn [TYPE_REF TYPE_BOOLEAN TYPE_NUMBER TYPE_USERDATA TYPE_SHORT_STRING
    TYPE_LONG_STRING TYPE_TABLE TYPE_TABLE_MARK Z.eqb Pos.eqb orb].
  unfold EXTEND_NUMBER, MAX_COOKIE. rewrite (proj2 (Z.eqb_neq _ _)) by lia.
  cbn [rb_advance rb_depth rb_ancestor].
  apply lookup_lt_Some in Hi as Hlt. rewrite (proj2 (Z.leb_gt _ _)) by lia.
  destruct (Ha i obj Hi Hm) as (slot & -> & Hslot). unfold lua_pushvalue.
  by rewrite (lua_at_stack _ _ _ Hslot).
Qed.

(** A numbered reference reads the table registered under that id. *)
Lemma unpack_object fuel rb L objs rest i obj :
  dec_state rb L objs (render_token M (TRef (S i)) ++ rest) ->
  objs !! i = Some obj -> S i ∈ M -> Z.of_nat (length objs) < 2 ^ 31 ->
  unpack_one (S fuel) rb L =
    Done (rb_advance (length (render_token M (TRef (S i)))) rb, lua_push (image (VTable obj)) L).
Proof.
  intros Hs Hi HM Hlen. apply lookup_lt_Some in Hi as Hlt. cbn [render_token] in *.
  pose proof (rb_at_tag _ _ _ _ _ (ds_at _ _ _ _ Hs)) as [Hat Hat1].
  rewrite (unpack_one_tag _ _ L _ _ _ Hat) by (unfold TYPE_REF, EXTEND_NUMBER, MAX_COOKIE; lia).
  unfold push_value, unpack_ref. cbn [TYPE_REF TYPE_BOOLEAN TYPE_NUMBER TYPE_USERDATA TYPE_SHORT_STRING
    TYPE_LONG_STRING TYPE_TABLE TYPE_TABLE_MARK Z.eqb Pos.eqb orb]. rewrite Z.eqb_refl.
  rewrite (get_extend_integer_enc _ (Z.of_nat (S i)) rest ltac:(lia) Hat1). cbn [obind].
  rewrite rb_advance_add. cbn [rb_advance rb_refs].
  destruct (ds_refs _ _ _ _ Hs i Hlt HM) as (refs & -> & ->).
  rewrite (image_table obj i); [done|]. eapply prefix_lookup; [apply (ds_prefix _ _ _ _ Hs)|done].
Qed.

(** ** The loops of [unpack_table] *)

Hypothesis all_small : Z.of_nat (length all) < 2 ^ 31.

(** [unpack_one f] reads what [one_s] writes below the ancestors [anc]. *)
Definition reads (f : nat) (one_s : value -> list Z -> outcome (list token * list Z)) (anc : list Z) : Prop :=
  forall v rb L objs ts objs' rest,
    value_ok v -> one_s v objs = Done (ts, objs') -> objs' `prefix_of` all -> ref_ids ts ⊆ M ->
    dec_state rb L objs (render M ts ++ rest) -> anc_ok rb anc (lua_stack L) ->
    (length (render M ts ++ rest) < f)%nat ->
    exists rb' L', unpack_one f rb L = Done (rb', L') /\
      lua_stack L' = image v :: lua_stack L /\ dec_state rb' L' objs' rest /\
      decoded None rb L objs rb' L' objs'.

Section Loops.
Variable f : nat.
Variable one_s : value -> list Z -> outcome (list token * list Z).
Variable anc : list Z.
Hypothesis one_reads : reads f one_s anc.
Hypothesis one_prefix : forall v objs ts objs', one_s v objs = Done (ts, objs') -> objs `prefix_of` objs'.
Hypothesis one_nonempty : forall v objs ts objs', one_s v objs = Done (ts, objs') -> (1 <= length (render M ts))%nat.

(** The state of a loop over the fields of the table [p], [e] read so far. *)
Record filling (p : Z) (st : list value) (e : list (value * value)) (rb : read_block) (L : lua)
    (objs rest : list Z) : Prop := {
  fi_state : dec_state rb L objs rest;
  fi_stack : lua_stack L = VTable p :: st;
  fi_anc : anc_ok rb anc (VTable p :: st);
  fi_heap : lua_heap L !! p = Some e;
  fi_old : p < base + Z.of_nat (length objs)
}.

(** After a value has been read and stored, the loop goes on. *)
Lemma filling_store p st e rb L objs rest rb1 L1 objs1 rest1 e' top :
  filling p st e rb L objs rest ->
  dec_state rb1 L1 objs1 rest1 -> decoded None rb L objs rb1 L1 objs1 ->
  lua_stack L1 = top ++ VTable p :: st ->
  let L2 := Lua (<[p := e']> (lua_heap L1)) (lua_fresh L1) (VTable p :: st) in
  filling p st e' rb1 L2 objs1 rest1 /\ decoded (Some p) rb L objs rb1 L2 objs1 /\
  lua_heap L1 !! p = Some e.
Proof.
  intros Hf Hs Hd Hst L2. pose proof (prefix_length_le _ _ (de_prefix _ _ _ _ _ _ _ Hd)).
  pose proof (fi_old _ _ _ _ _ _ _ Hf). split_and!.
  - split; cbn.
    + by apply dec_state_heap.
    + done.
    + eapply anc_ok_decoded; [apply (fi_anc _ _ _ _ _ _ _ Hf)|exact Hd].
    + apply lookup_insert_eq.
    + lia.
  - eapply decoded_trans; [intros q [= <-]; lia|by apply decoded_weaken|].
    apply decoded_write. intros q Hq. by apply lookup_insert_ne.
  - rewrite (de_heap _ _ _ _ _ _ _ Hd) by done. apply (fi_heap _ _ _ _ _ _ _ Hf).
Qed.

Lemma unpack_array_reads t n i fuel p st e rb L objs ts objs' rest :
  enc_values one_s (map (fun i => raw_geti t (Z.of_nat i)) (seq i n)) objs = Done (ts, objs') ->
  Forall value_ok (map (fun i => raw_geti t (Z.of_nat i)) (seq i n)) ->
  objs' `prefix_of` all -> ref_ids ts ⊆ M -> (1 <= i)%nat -> Z.of_nat (i + n) <= 2 ^ 31 ->
  filling p st e rb L objs (render M ts ++ rest) ->
  (length (render M ts ++ rest) < fuel <= f)%nat ->
  exists rb' L',
    unpack_array (unpack_one f) fuel (Z.of_nat i) (Z.of_nat (i + n) - 1) rb L = Done (rb', L') /\
    filling p st
      (fold_left set_field (map (fun i => (VNumber (dbl_of_int (Z.of_nat i)), raw_geti t (Z.of_nat i))) (seq i n)) e)
      rb' L' objs' rest /\
    decoded (Some p) rb L objs rb' L' objs'.
Proof.
  revert i fuel e rb L objs ts. induction n as [|n IH];
    intros i fuel e rb L objs ts Henc Hok Hpre Hrefs Hi Hsz Hf Hfuel; cbn [seq map fold_left] in *;
    (destruct fuel as [|fuel]; [lia|]); cbn [unpack_array].
  - cbn in Henc. simplify_eq. destruct (Z.leb_spec (Z.of_nat i) (Z.of_nat (i + 0) - 1)); [lia|].
    exists rb, L. split; [done|]. split; [done|apply decoded_refl].
  - destruct (Z.leb_spec (Z.of_nat i) (Z.of_nat (i + S n) - 1)); [|lia].
    cbn [enc_values] in Henc. set (v := raw_geti t (Z.of_nat i)) in *.
    destruct (one_s v objs) as [[ts1 objs1]| | |] eqn:E1; cbn [obind] in Henc; try done.
    destruct (enc_values _ _ objs1) as [[ts2 objs2]| | |] eqn:E2; cbn [obind] in Henc; simplify_eq.
    rewrite ref_ids_app in Hrefs. rewrite render_app, <- app_assoc in Hf, Hfuel.
    inversion Hok as [|? ? Hv Hok']; subst.
    pose proof (enc_values_prefix _ _ _ _ _ one_prefix E2) as Hpre2.
    destruct (one_reads v rb L objs ts1 objs1 (render M ts2 ++ rest)) as (rb1 & L1 & -> & Hst & Hs1 & Hd1);
      [done|done|by etransitivity|set_solver|apply Hf|rewrite (fi_stack _ _ _ _ _ _ _ Hf); apply Hf|lia|].
    cbn [obind]. rewrite (fi_stack _ _ _ _ _ _ _ Hf) in Hst. unfold lua_rawseti. rewrite Hst.
    unfold heap_rawset. rewrite dbl_of_int_number by lia. cbn [obind].
    destruct (filling_store _ _ _ _ _ _ _ _ _ _ _ (set_field e (VNumber (dbl_of_int (Z.of_nat i)), v)) [image v]
      Hf Hs1 Hd1 Hst) as (Hf1 & Hd2 & He).
    rewrite He. cbn [from_option id].
    pose proof (one_nonempty _ _ _ _ E1). rewrite !length_app in Hfuel.
    destruct (IH (S i) fuel _ _ _ _ _ E2 Hok' Hpre ltac:(set_solver) ltac:(lia) ltac:(lia) Hf1
      ltac:(rewrite length_app; lia)) as (rb' & L' & Hrun & Hf' & Hd').
    exists rb', L'. split_and!; [|exact Hf'|].
    + rewrite <- Hrun. f_equal; lia.
    + eapply decoded_trans; [intros q [= <-]; apply (fi_old _ _ _ _ _ _ _ Hf)|exact Hd2|exact Hd'].
Qed.

Hypothesis one_key : forall k objs ts objs', key_ok k -> one_s k objs = Done (ts, objs') ->
  objs' = objs /\ exists bs, enc_scalar k = Some bs /\ ts = [TBytes bs].

(** Reading a key leaves everything but the stack and the position. *)
Lemma unpack_key k bs rb L objs rest p st e :
  (0 < f)%nat -> value_ok k -> enc_scalar k = Some bs ->
  filling p st e (rb_inc_depth rb) L objs (bs ++ rest) ->
  unpack_one f rb L = Done (rb_advance (length bs) rb, lua_push k L) /\
  dec_state (rb_inc_depth (rb_advance (length bs) rb)) (lua_push k L) objs rest /\
  decoded None (rb_inc_depth rb) L objs (rb_inc_depth (rb_advance (length bs) rb)) (lua_push k L) objs.
Proof.
  intros Hpos Hk Hbs Hf. pose proof (fi_state _ _ _ _ _ _ _ Hf) as Hs.
  destruct f as [|f']; [lia|]. split; [|split].
  - eapply unpack_scalar; [done|done|]. eapply rb_at_same; [..|apply (ds_at _ _ _ _ Hs)]; done.
  - by eapply (dec_state_advance (rb_inc_depth rb)).
  - split; try done. intros i obj Hi E. apply lookup_lt_Some in E. lia.
Qed.

Lemma unpack_hash_reads pairs fuel p st e rb L objs ts objs' rest :
  enc_values one_s (flatten pairs) objs = Done (ts, objs') ->
  Forall (fun e => value_ok (snd e)) pairs -> Forall (fun e => key_ok (fst e)) pairs ->
  objs' `prefix_of` all -> ref_ids ts ⊆ M ->
  filling p st e (rb_inc_depth rb) L objs (render M ts ++ enc_nil ++ rest) ->
  (length (render M ts ++ enc_nil ++ rest) < fuel <= f)%nat ->
  exists rb' L',
    unpack_hash (unpack_one f) fuel rb L = Done (rb', L') /\
    filling p st (fold_left set_field pairs e) (rb_inc_depth rb') L' objs' rest /\
    decoded (Some p) (rb_inc_depth rb) L objs (rb_inc_depth rb') L' objs'.
Proof.
  revert fuel e rb L objs ts. induction pairs as [|[k v] pairs IH];
    intros fuel e rb L objs ts Henc Hv Hk Hpre Hrefs Hf Hfuel; (destruct fuel as [|fuel]; [lia|]);
    cbn [unpack_hash fold_left].
  - cbn in Henc. simplify_eq. cbn [render app] in Hf.
    destruct (unpack_key VNil enc_nil rb L objs' rest p st e) as (-> & Hs & Hd); [lia|done|done|done|].
    cbn [obind]. replace (lua_at _ _) with (Some VNil) by done.
    assert (EL : lua_pop (lua_push VNil L) = L) by (by destruct L).
    rewrite EL. eexists _, L. split; [done|]. split.
    + destruct Hf. split; try done. rewrite <- EL. by eapply (dec_state_heap _ (lua_push VNil L)).
    + apply decoded_weaken. destruct Hd. by split.
  - cbn [flatten flat_map app fst snd] in Henc.
    inversion Hv as [|? ? Hv1 Hv']; inversion Hk as [|? ? Hk1 Hk']; subst. cbn [fst snd] in *.
    change (enc_values one_s (k :: v :: flatten pairs) objs = Done (ts, objs')) in Henc.
    cbn [enc_values] in Henc.
    destruct (one_s k objs) as [[ts0 objs0]| | |] eqn:E0; cbn [obind] in Henc; try done.
    destruct (one_key _ _ _ _ Hk1 E0) as (-> & bs & Hbs & ->).
    destruct (one_s v objs) as [[ts1 objs1]| | |] eqn:E1; cbn [obind] in Henc; try done.
    destruct (enc_values _ _ objs1) as [[ts2 objs2]| | |] eqn:E2; cbn [obind] in Henc; simplify_eq.
    cbn [ref_ids app] in Hrefs. rewrite ref_ids_app in Hrefs.
    cbn [render render_token app] in Hf, Hfuel. rewrite render_app, <- !app_assoc in Hf, Hfuel.
    destruct (unpack_key k bs rb L objs _ p st e ltac:(lia) (key_value_ok _ Hk1) Hbs Hf) as (-> & Hs0 & Hd0).
    cbn [obind]. set (rb0 := rb_inc_depth (rb_advance (length bs) rb)) in *.
    replace (lua_at _ _) with (Some k) by done.
    pose proof (enc_values_prefix _ _ _ _ _ one_prefix E2) as Hpre2.
    rewrite !length_app in Hfuel.
    pose proof (fi_stack _ _ _ _ _ _ _ Hf) as Hst.
    assert (Hanc : anc_ok rb0 anc (lua_stack (lua_push k L))).
    { cbn. rewrite Hst. apply (anc_ok_app _ _ _ [k]). apply (fi_anc _ _ _ _ _ _ _ Hf). }
    destruct (one_reads v rb0 (lua_push k L) objs ts1 objs1 (render M ts2 ++ enc_nil ++ rest))
      as (rb2 & L2 & Hrun2 & Hst2 & Hs2 & Hd2);
      [done|done|by etransitivity|set_solver|done|done|rewrite !length_app; lia|].
    cbn [lua_push lua_stack] in Hst2. rewrite Hst in Hst2.
    assert (Hd02 : decoded None (rb_inc_depth rb) L objs rb2 L2 objs1)
      by (eapply decoded_trans; [|exact Hd0|exact Hd2]; done).
    destruct (filling_store _ _ _ _ _ _ _ _ _ _ _ (set_field e (k, v)) [image v; k] Hf Hs2 Hd02 Hst2)
      as (Hf1 & Hd1 & He).
    pose proof (one_nonempty _ _ _ _ E1). rewrite <- (rb_inc_dec rb2) in Hf1.
    destruct (IH fuel _ (rb_dec_depth rb2) _ _ _ E2 Hv' Hk' Hpre ltac:(set_solver) Hf1
      ltac:(rewrite !length_app; lia)) as (rb' & L' & Hrun & Hf' & Hd').
    rewrite rb_inc_dec in Hd'.
    exists rb', L'. split; [|split; [exact Hf'|]].
    + rewrite <- Hrun. destruct k; try (by destruct Hk1); rewrite Hrun2; cbn [obind];
        unfold lua_rawset; rewrite Hst2, heap_rawset_key, He by done; done.
    + eapply decoded_trans; [intros q [= <-]; apply (fi_old _ _ _ _ _ _ _ Hf)|exact Hd1|exact Hd'].
Qed.
End Loops.

(** ** Tables *)

Lemma heap_get_ok p : table_ok (heap_get h p).
Proof.
  unfold heap_get. destruct (h !! p) as [t|] eqn:E; [by apply (h_ok p)|].
  split; [cbn; lia|constructor|constructor].
Qed.

Lemma table_size p : 0 <= array_size (heap_get h p) < 2 ^ 31.
Proof.
  pose proof (to_size _ (heap_get_ok p)). unfold array_size. case_match; [lia|]. rewrite wraps_small; lia.
Qed.

Lemma enc_one_key fuel anc k objs ts objs' :
  key_ok k -> enc_one fuel h anc k objs = Done (ts, objs') ->
  objs' = objs /\ exists bs, enc_scalar k = Some bs /\ ts = [TBytes bs].
Proof.
  intros Hk H. destruct fuel as [|fuel]; [done|].
  destruct k; cbn in Hk, H; simplify_eq; try done; split; try done; eexists; split; done.
Qed.

(** The tag of a table and its size. *)
Lemma unpack_table_header fuel rb L id n rest :
  0 <= n < 2 ^ 31 -> rb_at rb (render M (table_header id n) ++ rest) ->
  let type := if decide (id ∈ M) then TYPE_TABLE_MARK else TYPE_TABLE in
  exists c, unpack_one (S fuel) rb L = unpack_table (unpack_one fuel) fuel (rb_advance 1 rb) c type L /\
    (let* (array_size, rb0) :=
       if c =? EXTEND_NUMBER then get_extend_integer (rb_advance 1 rb) else Done (c, rb_advance 1 rb) in
     Done (array_size, rb0)) = Done (n, rb_advance (length (render M (table_header id n))) rb).
Proof.
  intros Hn Hat type. unfold table_header in *.
  assert (Htag : forall c bs, 0 <= c < 32 -> rb_at rb ((COMBINE_TYPE type c :: bs) ++ rest) ->
    unpack_one (S fuel) rb L = unpack_table (unpack_one fuel) fuel (rb_advance 1 rb) c type L).
  { intros c bs Hc Hat'. apply rb_at_tag in Hat' as [Hat' _].
    rewrite (unpack_one_tag _ _ L _ _ _ Hat') by (unfold type; repeat case_match; done).
    unfold type, push_value. by destruct (decide (id ∈ M)). }
  destruct (Z.leb_spec EXTEND_NUMBER n) as [Hle|Hlt]; unfold EXTEND_NUMBER, MAX_COOKIE in *.
  - exists (32 - 1). cbn [render render_token app] in Hat |- *. rewrite app_nil_r in Hat |- *.
    split; [by apply (Htag _ (enc_integer n)); [lia|]|]. rewrite Z.eqb_refl.
    apply (rb_at_tag _ _ _ (enc_integer n)) in Hat as [_ Hat].
    rewrite (get_extend_integer_enc _ n rest ltac:(lia) Hat). cbn [obind length].
    by rewrite rb_advance_add.
  - exists n. cbn [render render_token app] in Hat |- *.
    split; [by apply (Htag _ []); [lia|]|]. by rewrite (proj2 (Z.eqb_neq _ _)) by lia.
Qed.

(** The new table, registered and made an ancestor. *)
Lemma filling_new anc rb L objs obj rest (mark : bool) :
  dec_state rb L objs rest -> anc_ok rb anc (lua_stack L) -> (objs ++ [obj]) `prefix_of` all ->
  (S (length objs) ∈ M -> mark = true) ->
  filling (anc ++ [obj]) (lua_fresh L) (lua_stack L) []
    (rb_push_ancestor (lua_gettop (lua_createtable L)) (rb_new_object rb mark (lua_fresh L)))
    (lua_createtable L) (objs ++ [obj]) rest.
Proof.
  intros [] [Hd Ha] Hpre Hmark.
  assert (Himg : image (VTable obj) = VTable (lua_fresh L)).
  { rewrite ds_fresh0. apply image_table. eapply prefix_lookup; [exact Hpre|].
    by rewrite lookup_app_r, Nat.sub_diag. }
  split.
  - split; cbn [rb_push_ancestor rb_new_object rb_buffer rb_objectid rb_refs lua_createtable lua_fresh].
    + eapply rb_at_same; [..|exact ds_at0]; done.
    + rewrite length_app. simpl. lia.
    + rewrite length_app. simpl. lia.
    + done.
    + intros i Hi HM. rewrite length_app in Hi. simpl in Hi.
      destruct (decide (i = length objs)) as [->|Hne].
      * rewrite (Hmark HM). eexists. split; [done|]. rewrite ds_objectid0, ds_fresh0.
        replace (Z.of_nat (length objs) + 1) with (Z.of_nat (S (length objs))) by lia.
        apply lookup_insert_eq.
      * destruct (ds_refs0 i ltac:(lia) HM) as (refs & -> & Hr). cbn [from_option id].
        destruct mark; [|eauto]. eexists. split; [done|]. rewrite lookup_insert_ne; [done|lia].
  - done.
  - split; cbn [rb_push_ancestor rb_new_object rb_depth rb_ancestor].
    + rewrite length_app. simpl. lia.
    + intros i o Hi Hm. rewrite Hd.
      apply lookup_snoc_Some in Hi as [[Hi E]|[-> ->]].
      * destruct (Ha i o E Hm) as (slot & Hs & Hst). exists slot.
        split; [|by apply (stack_at_app [_])].
        ztest; [rewrite lookup_insert_ne by lia|]; done.
      * exists (lua_gettop (lua_createtable L)). ztest; [|lia]. rewrite lookup_insert_eq.
        split; [done|]. rewrite Himg. apply stack_at_top.
  - apply lookup_insert_eq.
  - rewrite length_app. simpl. lia.
Qed.

Lemma table_values_ok t : table_ok t -> Forall value_ok (table_array t) /\
  Forall (fun e => value_ok (snd e)) (table_hash t).
Proof.
  intros [_ Hv _]. unfold table_fields in Hv. apply Forall_app in Hv as [Hv1 Hv2]. split; [|done].
  unfold table_array. rewrite Forall_map in Hv1 |- *. done.
Qed.

(** The new table leaves the older state as it was. *)
Lemma decoded_new_table rb L objs obj mark rb' L' objs' n :
  lua_fresh L = base + Z.of_nat (length objs) ->
  decoded (Some (lua_fresh L))
    (rb_push_ancestor (lua_gettop (lua_createtable L)) (rb_new_object (rb_advance n rb) mark (lua_fresh L)))
    (lua_createtable L) (objs ++ [obj]) (rb_inc_depth rb') L' objs' ->
  lua_heap L' !! lua_fresh L = Some (content (heap_get h obj)) ->
  decoded None rb L objs rb' L' objs'.
Proof.
  intros Hfr [Hd Ha Hp Hh Hn] Hnew. rewrite length_app in *. cbn in Hd, Ha. split.
  - lia.
  - intros i Hi. rewrite Ha by lia. ztest; [apply lookup_insert_ne; lia|done].
  - transitivity (objs ++ [obj]); [by eexists|done].
  - intros q Hq _. simpl in Hh. rewrite Hh; [|lia|injection; lia]. cbn. apply lookup_insert_ne. lia.
  - intros i o Hi E. destruct (decide (i = length objs)) as [->|Hne].
    + rewrite <- Hfr, Hnew. do 3 f_equal. destruct Hp as [k ->].
      rewrite <- app_assoc, lookup_app_r, Nat.sub_diag in E by lia. by injection E.
    + apply Hn; [simpl; lia|done].
Qed.

(** The body of a table, once the table is there. *)
Lemma unpack_body f fuelp anc obj p st rb L objs ts objs' rest :
  (forall f anc, reads f (enc_one fuelp h anc) anc) ->
  enc_values (enc_one fuelp h anc) (table_values (heap_get h obj)) objs = Done (ts, objs') ->
  objs' `prefix_of` all -> ref_ids ts ⊆ M ->
  filling anc p st [] rb L objs (render M ts ++ enc_nil ++ rest) ->
  (length (render M ts ++ enc_nil ++ rest) < f)%nat ->
  exists rb' L',
    (let* (rb3, L3) := unpack_array (unpack_one f) f 1 (array_size (heap_get h obj)) rb L in
     unpack_hash (unpack_one f) f (rb_dec_depth rb3) L3) = Done (rb', L') /\
    filling anc p st (content (heap_get h obj)) (rb_inc_depth rb') L' objs' rest /\
    decoded (Some p) rb L objs (rb_inc_depth rb') L' objs'.
Proof.
  intros Hone Henc Hpre Hrefs Hf Hfuel. pose proof (heap_get_ok obj) as Hok.
  pose proof (table_size obj) as Hsz. set (t := heap_get h obj) in *.
  destruct (table_values_ok t Hok) as [Hv1 Hv2].
  unfold table_values in Henc. rewrite enc_values_app in Henc.
  destruct (enc_values _ (table_array t) objs) as [[ts1 objs1]| | |] eqn:E1; cbn [obind] in Henc; try done.
  destruct (enc_values _ _ objs1) as [[ts2 objs2]| | |] eqn:E2; cbn [obind] in Henc; simplify_eq.
  rewrite ref_ids_app in Hrefs. rewrite render_app, <- !app_assoc in Hf, Hfuel.
  assert (Hp2 : objs1 `prefix_of` objs').
  { eapply enc_values_prefix; [|exact E2]. intros. by eapply enc_one_prefix. }
  destruct (unpack_array_reads f _ anc (Hone f anc) (fun v o ts o' => enc_one_prefix fuelp h anc v o ts o')
    (fun v o ts o' => enc_one_nonempty fuelp h anc v o ts o' M)
    t (Z.to_nat (array_size t)) 1%nat f p st [] rb L objs ts1 objs1 (render M ts2 ++ enc_nil ++ rest))
    as (rb3 & L3 & Hrun3 & Hf3 & Hd3);
    [exact E1|exact Hv1|by etransitivity|set_solver|lia|lia|exact Hf|lia|].
  replace (Z.of_nat (1 + Z.to_nat (array_size t)) - 1) with (array_size t) in Hrun3 by lia.
  change (Z.of_nat 1) with 1 in Hrun3. rewrite Hrun3. cbn [obind].
  rewrite <- (rb_inc_dec rb3) in Hf3, Hd3.
  set (e1 := fold_left set_field _ []) in Hf3.
  destruct (unpack_hash_reads f _ anc (Hone f anc) (fun v o ts o' => enc_one_prefix fuelp h anc v o ts o')
    (fun v o ts o' => enc_one_nonempty fuelp h anc v o ts o' M) (enc_one_key fuelp anc)
    (table_hash t) f p st e1 (rb_dec_depth rb3) L3 objs1 ts2 objs' rest)
    as (rb' & L' & Hrun' & Hf' & Hd');
    [exact E2|exact Hv2|apply (to_keys _ Hok)|done|set_solver|exact Hf3|rewrite length_app in Hfuel; lia|].
  exists rb', L'. split; [exact Hrun'|]. split.
  - unfold content, table_fields. by rewrite fold_left_app.
  - eapply decoded_trans; [intros q [= <-]; apply (fi_old _ _ _ _ _ _ _ _ Hf)|exact Hd3|exact Hd'].
Qed.

(** What reading one value does. *)
Definition read_done (f : nat) (v : value) (rb : read_block) (L : lua) (objs objs' rest : list Z) : Prop :=
  exists rb' L', unpack_one f rb L = Done (rb', L') /\
    lua_stack L' = image v :: lua_stack L /\ dec_state rb' L' objs' rest /\
    decoded None rb L objs rb' L' objs'.

(** Values that create no table. *)
Lemma read_done_push f v rb L objs bs rest :
  dec_state rb L objs (bs ++ rest) ->
  unpack_one f rb L = Done (rb_advance (length bs) rb, lua_push (image v) L) ->
  read_done f v rb L objs objs rest.
Proof.
  intros Hs Hrun. eexists _, _. split; [exact Hrun|]. split; [done|].
  split; [by eapply dec_state_advance|]. split; try done.
  intros i obj Hi E. apply lookup_lt_Some in E. lia.
Qed.

Lemma unpack_new_table f fuelp anc obj rb L objs ts objs' rest :
  (forall f anc, reads f (enc_one fuelp h anc) anc) ->
  enc_values (enc_one fuelp h (anc ++ [obj])) (table_values (heap_get h obj)) (objs ++ [obj]) = Done (ts, objs') ->
  objs' `prefix_of` all -> ref_ids ts ⊆ M ->
  let toks := table_header (S (length objs)) (array_size (heap_get h obj)) ++ ts ++ [TBytes enc_nil] in
  dec_state rb L objs (render M toks ++ rest) -> anc_ok rb anc (lua_stack L) ->
  (length (render M toks ++ rest) < S f)%nat ->
  read_done (S f) (VTable obj) rb L objs objs' rest.
Proof.
  intros Hone Henc Hpre Hrefs toks Hs Ha Hfuel. unfold toks in *. clear toks.
  rewrite !render_app, <- !app_assoc in Hs, Hfuel. cbn [render render_token] in Hs, Hfuel.
  rewrite app_nil_r in Hs, Hfuel.
  destruct (unpack_table_header f rb L _ _ _ (table_size obj) (ds_at _ _ _ _ Hs)) as (c & Hrun & Hhdr).
  set (n := length (render M (table_header _ _))) in *.
  set (mark := (if decide (S (length objs) ∈ M) then TYPE_TABLE_MARK else TYPE_TABLE) =? TYPE_TABLE_MARK).
  pose proof (dec_state_advance _ _ _ _ _ _ (lua_stack L) Hs eq_refl) as Hs1. fold n in Hs1.
  assert (Hp1 : (objs ++ [obj]) `prefix_of` all).
  { etransitivity; [|exact Hpre]. eapply enc_values_prefix; [|exact Henc]. intros. by eapply enc_one_prefix. }
  edestruct (unpack_body f fuelp (anc ++ [obj]) obj (lua_fresh L) (lua_stack L)
      (rb_push_ancestor (lua_gettop (lua_createtable L)) (rb_new_object (rb_advance n rb) mark (lua_fresh L)))
      (lua_createtable L) (objs ++ [obj]) ts objs' rest Hone Henc Hpre Hrefs)
    as (rb' & L' & Hbody & Hf & Hd).
  - apply filling_new; [by destruct L|exact Ha|done|]. intros HM. unfold mark. by rewrite decide_True.
  - assert (1 <= n)%nat by (unfold n, table_header; destruct (_ <=? _); cbn [render render_token app length]; lia).
    rewrite length_app in Hfuel. fold n in Hfuel. cbn [app length] in Hfuel. lia.
  - exists rb', L'. split; [|split; [|split]].
    + rewrite Hrun. unfold unpack_table.
      destruct (if c =? EXTEND_NUMBER then _ else _) as [[a rb0]| | |]; cbn [obind] in Hhdr |- *; simplify_eq.
      exact Hbody.
    + rewrite (fi_stack _ _ _ _ _ _ _ _ Hf). f_equal. rewrite (ds_fresh _ _ _ _ Hs).
      symmetry. apply image_table. eapply prefix_lookup; [exact Hp1|]. by rewrite lookup_app_r, Nat.sub_diag.
    + pose proof (dec_state_depth _ _ _ _ (rb_depth rb') (fi_state _ _ _ _ _ _ _ _ Hf)) as H.
      by destruct rb', L'.
    + eapply decoded_new_table; [apply (ds_fresh _ _ _ _ Hs)|exact Hd|apply (fi_heap _ _ _ _ _ _ _ _ Hf)].
Qed.

(** The refinement of one value: what the encoder writes, [unpack_one] reads. *)
Lemma unpack_one_reads fuelp f anc : reads f (enc_one fuelp h anc) anc.
Proof.
  revert f anc. induction fuelp as [|fuelp IH]; intros f anc v rb L objs ts objs' rest Hv Henc Hpre Hrefs Hs Ha Hfuel;
    [done|]. destruct f as [|f]; [lia|]. change (read_done (S f) v rb L objs objs' rest).
  assert (Hscalar : forall bs, enc_scalar v = Some bs -> ts = [TBytes bs] -> objs' = objs ->
    image v = v -> read_done (S f) v rb L objs objs' rest).
  { intros bs Hbs -> -> Himg. cbn [render render_token] in Hs. rewrite app_nil_r in Hs.
    apply (read_done_push _ _ _ _ _ _ _ Hs). rewrite Himg. eapply unpack_scalar; [done..|apply Hs]. }
  destruct v; cbn [enc_one] in Henc; simplify_eq; try (by eapply Hscalar). clear Hscalar.
  destruct (enc_ancestor anc p) as [i|] eqn:Ei.
  { simplify_eq. unfold enc_ancestor in Ei. destruct (Z.leb_spec MAX_DEPTH (Z.of_nat (length anc))); [done|].
    apply last_index_lookup in Ei. apply lookup_lt_Some in Ei as Hlt.
    cbn [render render_token app] in Hs. apply (read_done_push _ _ _ _ _ [_] _ Hs).
    by apply (unpack_ancestor f rb L objs' rest anc i p Hs Ha Ei); lia. }
  destruct (list_find (eq p) objs) as [[i x]|] eqn:Ef.
  { simplify_eq. apply list_find_Some in Ef as (Ef & <- & _).
    cbn [render] in Hs. rewrite app_nil_r in Hs. cbn [ref_ids] in Hrefs.
    pose proof (prefix_length_le _ _ Hpre). apply (read_done_push _ _ _ _ _ _ _ Hs).
    apply (unpack_object f rb L objs' rest i p Hs Ef); [set_solver|lia]. }
  destruct (enc_values _ _ _) as [[ts1 objs1]| | |] eqn:E; cbn [obind] in Henc; simplify_eq.
  rewrite !ref_ids_app in Hrefs. eapply unpack_new_table; [exact IH|exact E|done|set_solver|done..].
Qed.

(** ** A whole stream *)

Lemma unpack_all_step f rb L rb' L' :
  unpack_one (S f) rb L = Done (rb', L') -> unpack_all (S f) rb L = unpack_all f rb' L'.
Proof.
  cbn [unpack_one unpack_all]. unfold rb_take. destruct (rb_read rb 1) as [[p|] rb1]; cbn [obind]; [|done].
  destruct (rb_bytes rb1 p 1) as [bs| | |]; cbn [obind]; try done.
  by intros ->.
Qed.

Lemma unpack_all_end f rb L : rb_at rb [] -> unpack_all (S f) rb L = Done (rb, L).
Proof.
  intros Hat. pose proof (rb_at_length _ _ Hat) as Hl. cbn in Hl. cbn [unpack_all].
  unfold rb_read. rewrite Hl. done.
Qed.

Lemma unpack_all_reads fuelp vs f rb L objs ts objs' :
  enc_values (enc_one fuelp h []) vs objs = Done (ts, objs') -> Forall value_ok vs ->
  objs' `prefix_of` all -> ref_ids ts ⊆ M ->
  dec_state rb L objs (render M ts) -> rb_depth rb = 0 -> (length (render M ts) < f)%nat ->
  exists rb' L', unpack_all f rb L = Done (rb', L') /\
    lua_stack L' = rev (map image vs) ++ lua_stack L /\ decoded None rb L objs rb' L' objs'.
Proof.
  revert f rb L objs ts. induction vs as [|v vs IH]; intros f rb L objs ts Henc Hv Hpre Hrefs Hs Hd Hf;
    (destruct f as [|f]; [lia|]).
  - cbn in Henc. simplify_eq. rewrite unpack_all_end by apply Hs.
    eexists _, _. split; [done|]. split; [done|apply decoded_refl].
  - cbn [enc_values] in Henc.
    destruct (enc_one _ _ _ v objs) as [[ts1 objs1]| | |] eqn:E1; cbn [obind] in Henc; try done.
    destruct (enc_values _ vs objs1) as [[ts2 objs2]| | |] eqn:E2; cbn [obind] in Henc; simplify_eq.
    rewrite ref_ids_app in Hrefs. rewrite render_app in Hs, Hf. inversion Hv as [|? ? Hv1 Hv2]; subst.
    assert (Hp2 : objs1 `prefix_of` objs').
    { eapply enc_values_prefix; [|exact E2]. intros. by eapply enc_one_prefix. }
    destruct (unpack_one_reads fuelp (S f) [] v rb L objs ts1 objs1 (render M ts2))
      as (rb1 & L1 & Hrun1 & Hst1 & Hs1 & Hd1);
      [done|exact E1|by etransitivity|set_solver|done|by split|done|].
    rewrite (unpack_all_step _ _ _ _ _ Hrun1). pose proof (enc_one_nonempty _ _ _ _ _ _ _ M E1).
    rewrite length_app in Hf.
    destruct (IH f rb1 L1 objs1 ts2) as (rb' & L' & Hrun & Hst & Hd');
      [done|done|done|set_solver|done|by rewrite (de_depth _ _ _ _ _ _ _ Hd1)|lia|].
    exists rb', L'. split; [done|]. split.
    + rewrite Hst, Hst1. cbn [map rev]. by rewrite <- app_assoc.
    + by eapply decoded_trans.
Qed.
End RoundTrip.

(** ** The tables a pack visits *)

Lemma enc_values_covers h f anc vs objs ts objs' :
  (forall v objs ts objs', f v objs = Done (ts, objs') -> objs `prefix_of` objs') ->
  (forall v objs ts objs', anc ⊆ objs -> f v objs = Done (ts, objs') ->
     (forall p, v = VTable p -> p ∈ objs') /\
     forall o p, o ∈ objs' -> o ∉ objs -> VTable p ∈ table_values (heap_get h o) -> p ∈ objs') ->
  anc ⊆ objs -> enc_values f vs objs = Done (ts, objs') ->
  (forall p, VTable p ∈ vs -> p ∈ objs') /\
  forall o p, o ∈ objs' -> o ∉ objs -> VTable p ∈ table_values (heap_get h o) -> p ∈ objs'.
Proof.
  intros Hpre Hone. revert objs ts. induction vs as [|v vs IH]; intros objs ts Hanc H.
  - cbn in H. simplify_eq. split; [set_solver|done].
  - cbn in H. destruct (f v objs) as [[ts1 objs1]| | |] eqn:E1; cbn in H; try done.
    destruct (enc_values f vs objs1) as [[ts2 objs2]| | |] eqn:E2; cbn in H; simplify_eq.
    destruct (Hone _ _ _ _ Hanc E1) as [Hv Hn]. destruct (Hpre _ _ _ _ E1) as [k Hk].
    destruct (enc_values_prefix _ _ _ _ _ Hpre E2) as [k2 Hk2].
    destruct (IH objs1 ts2 ltac:(set_solver) E2) as [Hvs Hn2]. split.
    + intros p [Hp|Hp]%elem_of_cons; [|by apply Hvs]. specialize (Hv p (eq_sym Hp)). set_solver.
    + intros o p Ho Hno Hp. destruct (decide (o ∈ objs1)) as [Hin|Hni]; [|by eapply Hn2].
      specialize (Hn _ _ Hin Hno Hp). set_solver.
Qed.

Lemma enc_one_covers fuel h anc v objs ts objs' :
  anc ⊆ objs -> enc_one fuel h anc v objs = Done (ts, objs') ->
  (forall p, v = VTable p -> p ∈ objs') /\
  forall o p, o ∈ objs' -> o ∉ objs -> VTable p ∈ table_values (heap_get h o) -> p ∈ objs'.
Proof.
  revert anc v objs ts objs'. induction fuel as [|fuel IH]; intros anc v objs ts objs' Hanc H; [done|].
  destruct v; cbn [enc_one] in H; simplify_eq; try (split; [done|set_solver]).
  destruct (enc_ancestor anc p) as [i|] eqn:Ei.
  { simplify_eq. split; [|set_solver]. intros q [= <-]. apply Hanc.
    unfold enc_ancestor in Ei. destruct (MAX_DEPTH <=? _); [done|].
    eapply list_elem_of_lookup_2, last_index_lookup, Ei. }
  destruct (list_find (eq p) objs) as [[i x]|] eqn:Ef.
  { simplify_eq. split; [|set_solver]. intros q [= <-]. apply list_find_Some in Ef as (Ef & <- & _).
    by eapply list_elem_of_lookup_2. }
  destruct (enc_values _ _ _) as [[ts1 objs1]| | |] eqn:E; cbn [obind] in H; simplify_eq.
  pose proof E as E'. apply enc_values_prefix in E' as [k Hk]; [|intros; by eapply enc_one_prefix].
  apply (enc_values_covers h _ (anc ++ [p])) in E as [Hvs Hn];
    [|intros; by eapply enc_one_prefix|intros; by eapply IH|set_solver].
  split; [intros q [= <-]; set_solver|]. intros o q Ho Hno Hq.
  destruct (decide (o = p)) as [->|Hne]; [by apply Hvs|].
  apply (Hn o q); [done|set_solver|done].
Qed.
