(* ===== verification/SeriContent.v ===== *)
(** * SeriContent: what a decoded table holds under each key

    A table is packed as its array part by index and its other pairs; writing
    those fields back gives, under every key, the value the table had. *)

From S2P Require Import Prelude SeriValue SeriPack SeriUnpack SeriToken SeriDecode SeriRoundTrip.

(** ** Raw equality of keys *)

Lemma dbl_eq_refl n : dbl_is_nan n = false -> dbl_eq n n = true.
Proof. intros H. unfold dbl_eq. by rewrite H, Z.eqb_refl. Qed.

Lemma raw_eq_refl k : key_ok k -> raw_eq k k = true.
Proof.
  destruct k; cbn [raw_eq key_ok]; intros H; try (by apply bool_decide_eq_true_2).
  apply dbl_eq_refl, H.
Qed.

Lemma dbl_eq_sym a b : dbl_eq a b = dbl_eq b a.
Proof.
  unfold dbl_eq. rewrite (Z.eqb_sym a b). destruct (dbl_is_nan a), (dbl_is_nan b), (b =? a); cbn; try done.
  apply andb_comm.
Qed.

Lemma raw_eq_sym a b : raw_eq a b = raw_eq b a.
Proof.
  destruct a, b; cbn [raw_eq]; try apply dbl_eq_sym; apply bool_decide_ext; split; congruence.
Qed.

Lemma dbl_eq_trans a b c : dbl_eq a b = true -> dbl_eq b c = true -> dbl_eq a c = true.
Proof.
  unfold dbl_eq. intros H1 H2.
  destruct (dbl_is_nan a), (dbl_is_nan b), (dbl_is_nan c); cbn in *; try done.
  repeat match goal with H : context [?x =? ?y] |- _ => destruct (Z.eqb_spec x y); subst; cbn in * end;
    try done; repeat (ztest; subst; cbn); try done; try lia.
Qed.

Lemma raw_eq_trans a b c : raw_eq a b = true -> raw_eq b c = true -> raw_eq a c = true.
Proof.
  destruct a, b, c; cbn [raw_eq]; try apply dbl_eq_trans; rewrite ?bool_decide_eq_true; congruence.
Qed.

(** Equal keys are interchangeable on the left of [raw_eq]. *)
Lemma raw_eq_l a b c : raw_eq a b = true -> raw_eq a c = raw_eq b c.
Proof.
  intros H. destruct (raw_eq b c) eqn:E; [by eapply raw_eq_trans|].
  apply not_true_iff_false. intros Ha. rewrite raw_eq_sym in H.
  rewrite (raw_eq_trans _ _ _ H Ha) in E. done.
Qed.

(** ** Assignments and lookups *)

(** Entries with pairwise different keys, none of them nil. *)
Inductive distinct : list (value * value) -> Prop :=
| distinct_nil : distinct []
| distinct_cons k v e :
    Forall (fun kv => raw_eq k (fst kv) = false) e -> distinct e -> distinct ((k, v) :: e).

Lemma raw_get_none e k : Forall (fun kv => raw_eq k (fst kv) = false) e -> raw_get e k = VNil.
Proof.
  induction 1 as [|[k' v] e H _ IH]; [done|]. cbn [raw_get fst] in *. by rewrite raw_eq_sym, H.
Qed.

Lemma raw_set_keys e k v k0 :
  raw_eq k0 k = false -> Forall (fun kv => raw_eq k0 (fst kv) = false) e ->
  Forall (fun kv => raw_eq k0 (fst kv) = false) (raw_set e k v).
Proof.
  intros Hk. induction 1 as [|[k' v'] e H Hf IH]; cbn [raw_set].
  - case_bool_decide; [done|]. by repeat constructor.
  - destruct (raw_eq k' k); [|by constructor]. case_bool_decide; [done|by constructor].
Qed.

Lemma raw_set_distinct e k v : distinct e -> distinct (raw_set e k v).
Proof.
  induction 1 as [|k' v' e Hk Hd IH]; cbn [raw_set].
  - case_bool_decide; repeat constructor.
  - destruct (raw_eq k' k) eqn:E.
    + case_bool_decide; [done|by constructor].
    + constructor; [by apply raw_set_keys|done].
Qed.

Lemma raw_get_set e k v k' :
  distinct e -> raw_get (raw_set e k v) k' = if raw_eq k k' then v else raw_get e k'.
Proof.
  induction 1 as [|k0 v0 e Hk Hd IH]; cbn [raw_set raw_get].
  - case_bool_decide as Hv; cbn [raw_get]; [subst; by destruct (raw_eq k k')|done].
  - destruct (raw_eq k0 k) eqn:E.
    + rewrite <- (raw_eq_l _ _ k' E). case_bool_decide as Hv; cbn [raw_get].
      * subst. destruct (raw_eq k0 k') eqn:E'; [|done]. apply raw_get_none.
        rewrite Forall_forall in Hk |- *. intros kv Hin. rewrite <- (Hk kv Hin).
        symmetry. by apply raw_eq_l.
      * by destruct (raw_eq k0 k').
    + cbn [raw_get]. rewrite IH. destruct (raw_eq k0 k') eqn:E'; [|done].
      destruct (raw_eq k k') eqn:E''; [|done]. rewrite raw_eq_sym in E''.
      by rewrite (raw_eq_trans _ _ _ E' E'') in E.
Qed.

(** ** Array indices among the doubles *)

Lemma array_key_index n i :
  1 <= i <= n -> n < 2 ^ 31 -> array_key (VNumber (dbl_of_int i)) n = true.
Proof.
  intros Hi Hn. destruct (dbl_of_int_decode i ltac:(lia)) as [_ Hdec].
  assert (Hl : 0 <= Z.log2 i <= 30).
  { split; [apply Z.log2_nonneg|]. apply Z.lt_succ_r, Z.log2_lt_pow2; lia. }
  unfold array_key, dbl_pos, dbl_le_int, dbl_trunc. rewrite Hdec.
  assert (Hp : 0 < 2 ^ (52 - Z.log2 i)) by (apply Z.pow_pos_nonneg; lia).
  destruct (Z.leb_spec 0 (Z.log2 i - 52)); [lia|].
  replace (- (Z.log2 i - 52)) with (52 - Z.log2 i) by lia.
  rewrite (proj2 (Z.ltb_lt _ _)) by nia. cbn [andb].
  rewrite (proj2 (Z.leb_le _ _)) by nia. rewrite Z.quot_mul by lia. apply Z.eqb_refl.
Qed.

(** Sign, exponent and mantissa of a pattern that is a positive number. *)
Lemma dbl_pos_fields b :
  0 <= b < 2 ^ 64 -> dbl_pos b = true -> (forall neg, dbl_decode b <> DInf neg) ->
  exists ex mant, b = ex * 2 ^ 52 + mant /\ 0 <= ex < 2047 /\ 0 <= mant < 2 ^ 52.
Proof.
  intros Hb Hpos Hinf. exists (b / 2 ^ 52), (b mod 2 ^ 52).
  pose proof (Z.mod_pos_bound b (2 ^ 52) ltac:(lia)) as Hm.
  pose proof (Z.div_mod b (2 ^ 52) ltac:(lia)) as Hdm.
  split; [lia|]. split; [|done]. split; [apply Z.div_pos; lia|].
  unfold dbl_pos, dbl_decode in Hpos, Hinf.
  assert (Hland : Z.land (Z.shiftr b 52) 2047 = (b / 2 ^ 52) mod 2 ^ 11).
  { rewrite Z.shiftr_div_pow2 by lia. change 2047 with (Z.ones 11). apply Z.land_ones. lia. }
  assert (Hmant : Z.land b (2 ^ 52 - 1) = b mod 2 ^ 52).
  { replace (2 ^ 52 - 1) with (Z.ones 52) by done. apply Z.land_ones. lia. }
  rewrite Hland, Hmant in Hpos, Hinf.
  destruct (Z.testbit b 63) eqn:Hs.
  - exfalso. destruct (_ =? 2047); [destruct (_ =? 0); [by destruct (Hinf true)|done]|].
    apply Z.ltb_lt in Hpos. destruct (_ =? 0); lia.
  - assert (Hb63 : b < 2 ^ 63).
    { destruct (Z.lt_ge_cases b (2 ^ 63)) as [|Hge]; [done|]. apply Z.testbit_false in Hs; [|lia]. exfalso. revert Hs.
      replace (b / 2 ^ 63) with 1; [done|]. apply Z.div_unique with (b - 2 ^ 63); lia. }
    assert (b / 2 ^ 52 < 2 ^ 11) by (apply Z.div_lt_upper_bound; lia).
    rewrite Z.mod_small in Hpos, Hinf by (split; [apply Z.div_pos; lia|done]).
    destruct (Z.eqb_spec (b / 2 ^ 52) 2047); [|lia].
    destruct (_ =? 0); [by destruct (Hinf false)|done].
Qed.

(** A key the array part covers is one of its indices. *)
Lemma array_key_inv b n :
  0 <= b < 2 ^ 64 -> n < 2 ^ 31 -> array_key (VNumber b) n = true ->
  exists i, 1 <= i <= n /\ b = dbl_of_int i.
Proof.
  intros Hb Hn H. unfold array_key in H. destruct (dbl_pos b) eqn:Hpos; [|done]. cbn [andb] in H.
  destruct (dbl_le_int b n) eqn:Hle; [|done].
  destruct (dbl_pos_fields b Hb Hpos) as (ex & mant & E & Hex & Hmant).
  { intros neg Hd. by rewrite Hd in H. }
  unfold dbl_pos, dbl_le_int, dbl_trunc in *. rewrite E, dbl_decode_pos in Hpos, Hle, H by done.
  set (m := if ex =? 0 then mant else mant + 2 ^ 52) in *. set (e := Z.max ex 1 - 1075) in *.
  apply Z.ltb_lt in Hpos.
  destruct (Z.eqb_spec ex 0) as [Hx|Hx]; fold m in Hpos.
  - (* subnormal numbers are not integers *)
    exfalso. subst m e. rewrite Hx in *. change (0 <=? Z.max 0 1 - 1075) with false in H. cbv iota in H.
    apply Z.eqb_eq in H. change (- (Z.max 0 1 - 1075)) with 1074 in H.
    rewrite Z.quot_small in H; [lia|].
    assert (2 ^ 52 < 2 ^ 1074) by (apply Z.pow_lt_mono_r; lia). lia.
  - assert (Hm : m = mant + 2 ^ 52) by done. clearbody m.
    destruct (Z.leb_spec 0 e) as [He|He].
    + exfalso. apply Z.leb_le in Hle. assert (0 < 2 ^ e) by (apply Z.pow_pos_nonneg; lia). nia.
    + apply Z.eqb_eq in H. apply Z.leb_le in Hle.
      set (i := Z.quot m (2 ^ (- e))) in *. exists i.
      assert (Hp : 0 < 2 ^ (- e)) by (apply Z.pow_pos_nonneg; lia).
      assert (Hi : 1 <= i <= n) by nia. split; [done|].
      assert (Hl : Z.log2 i = 52 + e).
      { assert (Z.log2 m = 52) by (apply Z.log2_unique; [lia|]; cbn; lia).
        rewrite <- H, Z.log2_mul_pow2 in H0 by lia. lia. }
      destruct (dbl_of_int_decode i ltac:(lia)) as [-> _]. rewrite Hl, E.
      replace (52 - (52 + e)) with (- e) by lia. rewrite H, Hm. unfold e. lia.
Qed.

Lemma array_key_eq k k' n :
  key_ok k -> key_ok k' -> raw_eq k k' = true -> array_key k n = array_key k' n.
Proof.
  destruct k as [| |b| | | | | |], k' as [| |b'| | | | | |]; try done; cbn [raw_eq key_ok].
  intros [Hb _] [Hb' _] H. unfold dbl_eq in H. apply andb_true_iff in H as [_ H].
  destruct (Z.eqb_spec b b') as [->|Hne]; [done|]. cbn [orb] in H.
  apply andb_true_iff in H as [H1%Z.eqb_eq H2%Z.eqb_eq].
  assert (Hzero : forall x, 0 <= x < 2 ^ 64 -> x mod 2 ^ 63 = 0 -> x = 0 \/ x = 2 ^ 63).
  { intros x Hx Hm. pose proof (Z.div_mod x (2 ^ 63) ltac:(lia)) as Hd. rewrite Hm in Hd.
    assert (0 <= x / 2 ^ 63 < 2) by (split; [apply Z.div_pos|apply Z.div_lt_upper_bound]; lia). lia. }
  assert (Hpos : forall x, x = 0 \/ x = 2 ^ 63 -> dbl_pos x = false) by (by intros x [->| ->]).
  unfold array_key. by rewrite (Hpos b), (Hpos b') by auto.
Qed.

Lemma raw_get_eq e k k' : raw_eq k k' = true -> raw_get e k = raw_get e k'.
Proof.
  intros H. induction e as [|[k0 v] e IH]; [done|]. cbn [raw_get].
  rewrite (raw_eq_sym k0 k), (raw_eq_sym k0 k'), (raw_eq_l _ _ k0 H). by rewrite IH.
Qed.

Lemma raw_get_in e k0 v k :
  distinct e -> (k0, v) ∈ e -> raw_eq k0 k = true -> raw_get e k = v.
Proof.
  induction 1 as [|k1 v1 e Hk Hd IH]; intros Hin Heq; [set_solver|]. cbn [raw_get].
  apply elem_of_cons in Hin as [Hin|Hin]; simplify_eq; [by rewrite Heq|].
  rewrite Forall_forall in Hk. pose proof (Hk _ Hin) as Hne. cbn [fst] in Hne.
  destruct (raw_eq k1 k) eqn:E; [|by apply IH]. rewrite raw_eq_sym in Heq.
  by rewrite (raw_eq_trans _ _ _ E Heq) in Hne.
Qed.

Lemma raw_get_not_in e k :
  (forall kv, kv ∈ e -> raw_eq (fst kv) k = false) -> raw_get e k = VNil.
Proof.
  intros H. apply raw_get_none, Forall_forall. intros kv Hin. rewrite raw_eq_sym. by apply H.
Qed.

Section Fields.
Variable all : list Z.
Variable base : Z.
#[local] Abbreviation image := (image all base).
#[local] Abbreviation set_field := (set_field all base).

Lemma set_fields_distinct fs e : distinct e -> distinct (fold_left set_field fs e).
Proof. revert e. induction fs as [|f fs IH]; intros e He; [done|]. by apply IH, raw_set_distinct. Qed.

(** Fields with other keys do not matter. *)
Lemma set_fields_other fs e k :
  distinct e -> (forall kv, kv ∈ fs -> raw_eq (fst kv) k = false) ->
  raw_get (fold_left set_field fs e) k = raw_get e k.
Proof.
  revert e. induction fs as [|f fs IH]; intros e He H; [done|]. cbn [fold_left].
  rewrite IH; [|by apply raw_set_distinct|set_solver]. unfold set_field. rewrite raw_get_set by done.
  by rewrite H by set_solver.
Qed.

(** Fields that agree on a key give its value. *)
Lemma set_fields_same fs e k w :
  distinct e -> (forall kv, kv ∈ fs -> raw_eq (fst kv) k = true -> image (snd kv) = w) ->
  raw_get e k = w \/ (exists kv, kv ∈ fs /\ raw_eq (fst kv) k = true) ->
  raw_get (fold_left set_field fs e) k = w.
Proof.
  revert e. induction fs as [|f fs IH]; intros e He Hall Hex.
  - destruct Hex as [|(kv & Hin & _)]; [done|set_solver].
  - cbn [fold_left]. apply IH; [by apply raw_set_distinct|set_solver|].
    unfold set_field. rewrite raw_get_set by done. destruct (raw_eq (fst f) k) eqn:E.
    + left. apply Hall; [set_solver|done].
    + destruct Hex as [|(kv & Hin & Heq)]; [by left|]. right. exists kv.
      apply elem_of_cons in Hin as [->|Hin]; [congruence|done].
Qed.

(** A table without [__pairs], its keys all different and readable. *)
Record plain_table (t : table) : Prop := {
  pt_pairs : t_pairs t = None;
  pt_size : 0 <= t_len t < 2 ^ 31;
  pt_distinct : distinct (t_entries t);
  pt_keys : Forall (fun e => key_ok (fst e)) (t_entries t)
}.

Lemma index_key_ok i : 1 <= i < 2 ^ 31 -> key_ok (VNumber (dbl_of_int i)).
Proof.
  intros Hi. split; [|by apply dbl_of_int_number; lia].
  destruct (dbl_of_int_decode i ltac:(lia)) as [-> _].
  pose proof (Z.log2_spec i ltac:(lia)) as [Hl1 Hl2].
  assert (Hl : 0 <= Z.log2 i <= 30).
  { split; [apply Z.log2_nonneg|]. apply Z.lt_succ_r, Z.log2_lt_pow2; lia. }
  assert (Hp : 0 < 2 ^ (52 - Z.log2 i)) by (apply Z.pow_pos_nonneg; lia).
  assert (2 ^ 52 = 2 ^ Z.log2 i * 2 ^ (52 - Z.log2 i)) by (rewrite <- Z.pow_add_r by lia; f_equal; lia).
  assert (2 ^ 53 = 2 ^ Z.succ (Z.log2 i) * 2 ^ (52 - Z.log2 i)) by (rewrite <- Z.pow_add_r by lia; f_equal; lia).
  nia.
Qed.

(** Writing the packed fields of a table back gives what it held. *)
Lemma content_lookup t k :
  plain_table t -> key_ok k -> raw_get (content all base t) k = image (raw_get (t_entries t) k).
Proof.
  intros [Hp Hsz Hd Hk] Hok. unfold content, table_fields, table_hash, array_size. rewrite Hp.
  rewrite wraps_small by lia. set (n := t_len t) in *. rewrite fold_left_app.
  set (arr := map _ (seq 1 _)).
  assert (Harr : forall kv, kv ∈ arr -> exists i, 1 <= i <= n /\ fst kv = VNumber (dbl_of_int i) /\
    snd kv = raw_get (t_entries t) (fst kv)).
  { intros kv Hin. apply list_elem_of_In, in_map_iff in Hin as (i & <- & Hi%in_seq).
    exists (Z.of_nat i). split; [lia|done]. }
  rewrite Forall_forall in Hk.
  assert (Hdist : distinct (fold_left set_field arr [])) by (apply set_fields_distinct; constructor).
  destruct (array_key k n) eqn:Ek.
  - rewrite set_fields_other; [|done|].
    + apply set_fields_same; [constructor| |].
      * intros kv Hin Heq. destruct (Harr _ Hin) as (i & Hi & _ & ->). f_equal. by apply raw_get_eq.
      * right. destruct k as [| |b| | | | | |]; try done.
        destruct (array_key_inv b n (proj1 Hok) ltac:(lia) Ek) as (i & Hi & ->).
        exists (VNumber (dbl_of_int i), raw_geti t i). split; [|by apply (raw_eq_refl (VNumber _))].
        apply list_elem_of_In, in_map_iff. exists (Z.to_nat i). split; [|apply in_seq; lia].
        rewrite Z2Nat.id by lia. reflexivity.
    + intros [k' v] Hin. apply list_elem_of_In, filter_In in Hin as [Hin Hf%negb_true_iff].
      apply list_elem_of_In in Hin. cbn [fst] in *. apply not_true_iff_false. intros Heq.
      rewrite (array_key_eq k' k) in Hf; [congruence|by apply (Hk _ Hin)|done|done].
  - apply set_fields_same; [done| |].
    + intros [k' v] Hin Heq. apply list_elem_of_In, filter_In in Hin as [Hin _].
      apply list_elem_of_In in Hin. cbn [snd fst] in *. f_equal. symmetry. by eapply raw_get_in.
    + destruct (decide (Exists (fun kv => raw_eq (fst kv) k = true) (t_entries t))) as [Hex|Hnex].
      * right. apply Exists_exists in Hex as ([k' v] & Hin & Heq). exists (k', v). split; [|done].
        apply list_elem_of_In, filter_In. split; [by apply list_elem_of_In|].
        cbn [fst] in *. rewrite (array_key_eq k' k) by (done || apply (Hk _ Hin)). by rewrite Ek.
      * left. assert (Hnone : forall kv, kv ∈ t_entries t -> raw_eq (fst kv) k = false).
        { intros kv Hin. apply not_true_iff_false. intros Heq. apply Hnex, Exists_exists. eauto. }
        rewrite (raw_get_not_in _ _ Hnone). cbn. rewrite set_fields_other; [done|constructor|].
        intros kv Hin. destruct (Harr _ Hin) as (i & Hi & Ei & _).
        apply not_true_iff_false. intros Heq.
        assert (Hki : key_ok (fst kv)) by (rewrite Ei; apply index_key_ok; lia).
        rewrite <- (array_key_eq _ _ n Hki Hok Heq), Ei, array_key_index in Ek by lia. done.
Qed.
End Fields.
