(* ===== verification/SeriTotal.v ===== *)
(** * SeriTotal: the serializer ends, and reads no byte it does not have

    Packing visits a table once, so the number of tables of the heap bounds the
    recursion; unpacking reads a byte at every turn, so the length of the
    buffer does.  On arbitrary bytes the decoder returns values or raises,
    except where a long string's length has its sign bit set. *)

From S2P Require Import Prelude SeriValue SeriPack SeriUnpack SeriBuffer SeriToken SeriDecode SeriRoundTrip.
#[local] Open Scope outcome_scope.

(** ** Packing *)

Definition unsupported (v : value) : Prop :=
  match v with VClosure _ | VOther _ => True | _ => False end.

(** The outcome is a result, or the error of an unsupported value of [bad]. *)
Definition ends {A} (bad : Prop) (x : outcome A) : Prop :=
  match x with
  | Done _ => True
  | Raise e => (e = ErrFunction \/ e = ErrType) /\ bad
  | Undef _ | NoFuel => False
  end.

Definition unseen (h : heap) (objs : list Z) : nat := size (dom h ∖ list_to_set objs).

Lemma unseen_mono h objs objs' : objs `prefix_of` objs' -> (unseen h objs' <= unseen h objs)%nat.
Proof. intros [k ->]. apply subseteq_size. rewrite list_to_set_app_L. set_solver. Qed.

Lemma unseen_new h objs p t :
  h !! p = Some t -> p ∉ objs -> (unseen h (objs ++ [p]) < unseen h objs)%nat.
Proof.
  intros Hp Hni. apply subset_size. rewrite list_to_set_app_L. cbn.
  apply elem_of_dom_2 in Hp. split; [set_solver|]. intros H. specialize (H p). set_solver.
Qed.

Lemma enc_values_ends h f bad vs objs n :
  (forall v objs ts objs', f v objs = Done (ts, objs') -> objs `prefix_of` objs') ->
  (forall v objs, v ∈ vs -> (unseen h objs < n)%nat -> ends bad (f v objs)) ->
  (unseen h objs < n)%nat -> ends bad (enc_values f vs objs).
Proof.
  intros Hpre. revert objs. induction vs as [|v vs IH]; intros objs Hone Hn; cbn; [done|].
  pose proof (Hone v objs ltac:(set_solver) Hn) as Hv.
  destruct (f v objs) as [[ts1 objs1]| | |] eqn:E1; cbn in *; try done.
  pose proof (unseen_mono h _ _ (Hpre _ _ _ _ E1)).
  specialize (IH objs1 ltac:(intros; apply Hone; [set_solver|done]) ltac:(lia)).
  by destruct (enc_values f vs objs1) as [[ts2 objs2]| | |].
Qed.

Lemma enc_one_ends fuel h anc v objs :
  (S (unseen h objs) < fuel)%nat ->
  ends (unsupported v \/ exists p t v', h !! p = Some t /\ v' ∈ table_values t /\ unsupported v')
    (enc_one fuel h anc v objs).
Proof.
  revert anc v objs. induction fuel as [|fuel IH]; intros anc v objs Hf; [lia|].
  destruct v; cbn [enc_one]; try done; try (split; [by auto|by left]).
  destruct (enc_ancestor anc p); [done|]. destruct (list_find (eq p) objs) as [[i x]|] eqn:Ef; [done|].
  assert (Hni : p ∉ objs).
  { apply list_find_None in Ef. rewrite Forall_forall in Ef. intros Hin. by apply (Ef p). }
  destruct (h !! p) as [t|] eqn:Ep.
  - assert (Hg : heap_get h p = t) by (unfold heap_get; by rewrite Ep). rewrite Hg.
    pose proof (unseen_new _ _ _ _ Ep Hni).
    enough (ends (exists p t v', h !! p = Some t /\ v' ∈ table_values t /\ unsupported v')
      (enc_values (enc_one fuel h (anc ++ [p])) (table_values t) (objs ++ [p]))) as He.
    { destruct (enc_values _ _ _) as [[ts objs']| | |]; cbn in *; tauto. }
    apply (enc_values_ends h _ _ _ _ (S (unseen h (objs ++ [p])))); [|intros v o Hv Ho|lia].
    + intros. by eapply enc_one_prefix.
    + specialize (IH (anc ++ [p]) v o ltac:(lia)).
      destruct (enc_one _ _ _ _ _) as [[ts objs']| | |]; cbn in *; try done.
      destruct IH as [He [Hu|Hu]]; (split; [done|]); [|done]. by exists p, t, v.
  - assert (Hg : heap_get h p = empty_table) by (unfold heap_get; by rewrite Ep). by rewrite Hg.
Qed.

Lemma pack_values_end fuel h vs :
  (S (size h) < fuel)%nat ->
  ends (exists v, unsupported v /\ (v ∈ vs \/ exists p t, h !! p = Some t /\ v ∈ table_values t))
    (enc_values (enc_one fuel h []) vs []).
Proof.
  intros Hf. assert (Hs : unseen h [] = size h).
  { unfold unseen. rewrite <- (fin_map_dom.size_dom h). f_equal. set_solver. }
  apply (enc_values_ends h _ _ _ _ (S (size h))); [intros; by eapply enc_one_prefix| |lia].
  intros v objs Hv Ho. pose proof (enc_one_ends fuel h [] v objs ltac:(lia)) as He.
  destruct (enc_one _ _ _ _ _) as [[ts objs']| | |]; cbn in *; try done.
  destruct He as [He [Hu|(p & t & v' & Hp & Hv' & Hu)]]; (split; [done|]); eauto 10.
Qed.

(** ** Unpacking arbitrary bytes *)

(** A long string whose 32-bit length is negative as an [int]. *)
Definition negative_length (buffer : list Z) : Prop :=
  exists i, arr_get buffer i = Some (COMBINE_TYPE TYPE_LONG_STRING 4) /\
    wraps 32 (le_value (take 4 (drop (Z.to_nat (i + 1)) buffer))) < 0.

(** What holds between calls: the buffer is in bounds and the ancestors below
    the depth have been stored. *)
Record rb_safe (rb : read_block) : Prop := {
  sf_ok : rb_ok rb;
  sf_bytes : Forall byte_ok (rb_buffer rb);
  sf_depth : 0 <= rb_depth rb;
  sf_anc : forall i, 0 <= i < rb_depth rb -> i < MAX_DEPTH ->
    is_Some (rb_ancestor rb !! i)
}.

(** [rb'] follows [rb]: same buffer and depth, [n] bytes read at least. *)
Record follows (n : Z) (rb rb' : read_block) : Prop := {
  fo_buffer : rb_buffer rb' = rb_buffer rb;
  fo_ok : rb_ok rb';
  fo_len : rb_len rb' + n <= rb_len rb;
  fo_depth : rb_depth rb' = rb_depth rb;
  fo_anc : forall i, is_Some (rb_ancestor rb !! i) -> is_Some (rb_ancestor rb' !! i)
}.

Lemma follows_refl rb : rb_ok rb -> follows 0 rb rb.
Proof. intros H. split; try done. lia. Qed.

Lemma follows_trans n m rb rb1 rb2 : follows n rb rb1 -> follows m rb1 rb2 -> follows (n + m) rb rb2.
Proof.
  intros [] []. split; try congruence; try done; try lia. auto.
Qed.

Lemma follows_le n m rb rb' : follows n rb rb' -> m <= n -> follows m rb rb'.
Proof. intros [] H. split; try done. lia. Qed.

Lemma rb_safe_follows n rb rb' : rb_safe rb -> follows n rb rb' -> rb_safe rb'.
Proof.
  intros [Ho Hb Hd Ha] []. split; [done|congruence|lia|]. intros i Hi Hm.
  apply fo_anc0, Ha; [lia|done].
Qed.

(** The outcome of a reader that reads at least [n] bytes and satisfies [Q]:
    it may raise; it may find an ancestor's slot above the top of the stack; it
    leaves the buffer only for a negative length. *)
Definition safe_run {A} (n : Z) (rb : read_block) (Q : A -> Prop) (x : outcome (A * read_block)) : Prop :=
  match x with
  | Done (a, rb') => follows n rb rb' /\ Q a
  | Raise _ => True
  | Undef UBOutOfBounds => negative_length (rb_buffer rb)
  | Undef UBStackIndex => True
  | Undef _ | NoFuel => False
  end.

Lemma rb_take_safe rb n :
  rb_ok rb -> Forall byte_ok (rb_buffer rb) -> 0 <= n ->
  safe_run n rb (fun bs => Z.of_nat (length bs) = n /\ Forall byte_ok bs /\
    bs = take (Z.to_nat n) (drop (Z.to_nat (rb_ptr rb)) (rb_buffer rb))) (rb_take rb n) /\
  (forall bs rb', rb_take rb n = Done (bs, rb') -> rb_ptr rb' = rb_ptr rb + n).
Proof.
  intros (H1 & H2 & H3) Hb Hn. unfold rb_take, rb_read. ztest; [done|]. unfold rb_bytes. cbn [rb_buffer].
  rewrite (proj2 (Z.leb_le 0 _)), (proj2 (Z.leb_le 0 _)), (proj2 (Z.leb_le _ _)) by lia.
  cbn [andb obind safe_run]. split_and!; try done.
  - split; cbn; try done; [unfold rb_ok; cbn; lia|lia].
  - rewrite length_take, length_drop. lia.
  - by apply Forall_take, Forall_drop.
  - by intros bs rb' [= <- <-].
Qed.

Lemma le_value_nonneg bs : Forall byte_ok bs -> 0 <= le_value bs.
Proof. induction 1 as [|b bs Hb _ IH]; cbn; [lia|]. unfold byte_ok in Hb. lia. Qed.

Lemma le_value_byte bs : Forall byte_ok bs -> Z.of_nat (length bs) = 1 -> 0 <= le_value bs < 256.
Proof.
  intros Hb Hl. destruct bs as [|b [|? ?]]; cbn in Hl; try lia. inversion Hb as [|? ? H]; subst.
  unfold byte_ok in H. cbn. lia.
Qed.

Lemma tag_ranges tag : 0 <= tag < 256 ->
  0 <= tag_type tag < 8 /\ 0 <= tag_cookie tag < 32 /\ COMBINE_TYPE (tag_type tag) (tag_cookie tag) = tag.
Proof.
  intros H. assert (Ht : tag_type tag = tag mod 8).
  { unfold tag_type. change 7 with (Z.ones 3). rewrite Z.land_ones by lia. done. }
  assert (Hc : tag_cookie tag = tag / 8) by (unfold tag_cookie; by rewrite Z.shiftr_div_pow2 by lia).
  pose proof (Z.mod_pos_bound tag 8 ltac:(lia)). pose proof (Z.div_mod tag 8 ltac:(lia)).
  assert (0 <= tag / 8 < 32) by (split; [apply Z.div_pos|apply Z.div_lt_upper_bound]; lia).
  rewrite COMBINE_TYPE_add; lia.
Qed.

(** Sequencing of safe readers. *)
Lemma safe_bind {A B} n m rb (Q : A -> Prop) (R : B -> Prop) x (k : A -> read_block -> outcome (B * read_block)) :
  safe_run n rb Q x ->
  (forall a rb', Q a -> follows n rb rb' -> safe_run m rb' R (k a rb')) ->
  safe_run (n + m) rb R (let* (a, rb') := x in k a rb').
Proof.
  intros Hx Hk. destruct x as [[a rb1]| | |]; cbn in *; try done. destruct Hx as [Hf HQ].
  specialize (Hk a rb1 HQ Hf). destruct (k a rb1) as [[b rb2]| | |]; cbn in *; try done.
  - destruct Hk as [Hf2 HR]. split; [by eapply follows_trans|done].
  - destruct u; try done. by rewrite <- (fo_buffer _ _ _ Hf).
Qed.

Lemma safe_weaken {A} n m rb (Q : A -> Prop) x : m <= n -> safe_run n rb Q x -> safe_run m rb (fun _ => True) x.
Proof.
  intros Hle. destruct x as [[a rb']| | |]; cbn; try done. intros [Hf _]. split; [by eapply follows_le|done].
Qed.

Lemma safe_done {A} rb (a : A) : rb_ok rb -> safe_run 0 rb (fun _ => True) (Done (a, rb)).
Proof. intros H. split; [by apply follows_refl|done]. Qed.

Lemma safe_map {A B} n rb (Q : A -> Prop) (g : A -> B) x :
  safe_run n rb Q x -> safe_run n rb (fun _ => True) (let* (a, rb') := x in Done (g a, rb')).
Proof. destruct x as [[a rb1]| | |]; cbn; try done. by intros [Hf _]. Qed.

Lemma safe_le {A} n m rb (Q : A -> Prop) x : m <= n -> safe_run n rb Q x -> safe_run m rb Q x.
Proof.
  intros Hle. destruct x as [[a rb']| | |]; cbn; try done. intros [Hf ?]. split; [by eapply follows_le|done].
Qed.

Lemma get_integer_safe rb c :
  rb_ok rb -> Forall byte_ok (rb_buffer rb) -> safe_run 0 rb (fun _ => True) (get_integer rb c).
Proof.
  intros Ho Hb. unfold get_integer.
  assert (Ht : forall A n (g : list Z -> A), 0 <= n ->
    safe_run 0 rb (fun _ => True) (let* (bs, rb1) := rb_take rb n in Done (g bs, rb1))).
  { intros A n g Hn. apply (safe_map 0 rb (fun _ => True)). eapply safe_weaken; [exact Hn|].
    by apply rb_take_safe. }
  repeat match goal with |- context [if ?b then _ else _] => destruct b end;
    first [by apply safe_done|apply Ht; lia|done].
Qed.

Lemma get_extend_integer_safe rb :
  rb_ok rb -> Forall byte_ok (rb_buffer rb) -> safe_run 0 rb (fun _ => True) (get_extend_integer rb).
Proof.
  intros Ho Hb. unfold get_extend_integer. apply (safe_le (1 + 0)); [lia|].
  eapply safe_bind; [by apply rb_take_safe|]. intros bs rb1 _ Hf.
  destruct (_ || _); [done|]. eapply safe_map, get_integer_safe; [apply Hf|].
  by rewrite (fo_buffer _ _ _ Hf).
Qed.

(** ** Readers that push *)

Definition swap_run (x : outcome (read_block * lua)) : outcome (lua * read_block) :=
  let* (rb, L) := x in Done (L, rb).

Definition safe_lua (n : Z) (rb : read_block) (Q : lua -> Prop) (x : outcome (read_block * lua)) : Prop :=
  safe_run n rb Q (swap_run x).

Definition pushes (L L' : lua) : Prop := exists v, lua_stack L' = v :: lua_stack L.

(** A reader followed by a push of its value. *)
Lemma safe_push {A} n rb (Q : A -> Prop) (x : outcome (A * read_block)) (g : A -> value) L :
  safe_run n rb Q x ->
  safe_lua n rb (pushes L) (let* (a, rb') := x in Done (rb', lua_push (g a) L)).
Proof.
  destruct x as [[a rb1]| | |]; cbn; try done. intros [Hf _]. split; [done|]. by eexists.
Qed.

Lemma safe_lua_bind n m rb (Q R : lua -> Prop) x (k : read_block -> lua -> outcome (read_block * lua)) :
  safe_lua n rb Q x ->
  (forall rb' L', Q L' -> follows n rb rb' -> safe_lua m rb' R (k rb' L')) ->
  safe_lua (n + m) rb R (let* (rb', L') := x in k rb' L').
Proof.
  intros Hx Hk. unfold safe_lua in *.
  pose proof (safe_bind n m rb Q R _ (fun L' rb' => swap_run (k rb' L')) Hx) as H.
  assert (E : swap_run (let* (rb', L') := x in k rb' L') =
    (let* (L', rb') := swap_run x in swap_run (k rb' L'))) by (by destruct x as [[? ?]| | |]).
  rewrite E. apply H. intros L' rb' HQ Hf. by apply Hk.
Qed.

Lemma get_buffer_safe rb n L :
  rb_ok rb -> Forall byte_ok (rb_buffer rb) -> 0 <= n -> safe_lua 0 rb (pushes L) (get_buffer rb n L).
Proof.
  intros Ho Hb Hn. unfold get_buffer. eapply (safe_push 0 _ (fun _ => True)), safe_weaken; [exact Hn|].
  by apply rb_take_safe.
Qed.

Lemma unpack_ref_safe rb c L :
  rb_safe rb -> 0 <= c < 32 -> safe_lua 0 rb (pushes L) (unpack_ref rb c L).
Proof.
  intros Hs Hc. unfold unpack_ref. pose proof (sf_ok _ Hs) as Ho. pose proof (sf_bytes _ Hs) as Hb.
  destruct (Z.eqb_spec c EXTEND_NUMBER) as [->|Hne].
  - pose proof (get_extend_integer_safe rb Ho Hb) as Hg.
    destruct (get_extend_integer rb) as [[id rb1]| | |]; cbn in *; try done.
    destruct (rb_refs rb1) as [refs|]; [|done]. destruct (refs !! id); [|done].
    split; [apply Hg|by eexists].
  - destruct (Z.leb_spec (rb_depth rb) c) as [|Hlt]; [done|].
    destruct (sf_anc _ Hs c ltac:(lia)) as [slot ->].
    { unfold MAX_DEPTH, EXTEND_NUMBER, MAX_COOKIE in *. lia. }
    unfold lua_pushvalue. destruct (lua_at L slot); cbn; [|done].
    split; [by apply follows_refl|by eexists].
Qed.

Lemma heap_rawset_safe h p k v :
  (exists h', heap_rawset h p k v = Done h') \/ (exists e, heap_rawset h p k v = Raise e).
Proof. unfold heap_rawset. destruct k; eauto. destruct (dbl_is_nan bits); eauto. Qed.

(** The depth during the values of a table is one more than during its keys. *)
Lemma follows_depth n rb rb' d :
  follows n rb rb' -> follows n (rb_set_depth d rb) (rb_set_depth d rb').
Proof. intros []. by split. Qed.

Lemma rb_safe_depth rb d : rb_safe rb -> 0 <= d <= rb_depth rb -> rb_safe (rb_set_depth d rb).
Proof. intros [] Hd. split; cbn; try done; [lia|]. intros i Hi. apply sf_anc0. lia. Qed.

Section SafeLoops.
Variable f : nat.
Hypothesis one_safe : forall rb L, rb_safe rb -> rb_len rb < Z.of_nat f ->
  safe_lua 1 rb (pushes L) (unpack_one f rb L).

Lemma unpack_array_safe fuel i n rb L p st :
  rb_safe rb -> lua_stack L = VTable p :: st -> rb_len rb < Z.of_nat fuel -> (fuel <= f)%nat ->
  safe_lua 0 rb (fun L' => lua_stack L' = VTable p :: st) (unpack_array (unpack_one f) fuel i n rb L).
Proof.
  revert i rb L. induction fuel as [|fuel IH]; intros i rb L Hs Hst Hl Hf; cbn [unpack_array].
  { destruct (sf_ok _ Hs) as (_ & ? & _). lia. }
  destruct (i <=? n); [|split; [apply follows_refl, Hs|done]].
  apply (safe_le (1 + 0)); [lia|]. eapply safe_lua_bind; [apply one_safe; [done|lia]|].
  intros rb1 L1 [v Hv] Hf1. unfold lua_rawseti. rewrite Hv, Hst.
  destruct (heap_rawset_safe (lua_heap L1) p (VNumber (dbl_of_int i)) v) as [[h' ->]|[e ->]]; cbn [obind]; [|done].
  apply IH; [by eapply rb_safe_follows|done| |lia]. pose proof (fo_len _ _ _ Hf1). lia.
Qed.

Lemma unpack_hash_safe fuel rb L p st :
  rb_safe (rb_inc_depth rb) -> 0 <= rb_depth rb -> lua_stack L = VTable p :: st ->
  rb_len rb < Z.of_nat fuel -> (fuel <= f)%nat ->
  safe_lua 0 rb (fun L' => lua_stack L' = VTable p :: st) (unpack_hash (unpack_one f) fuel rb L).
Proof.
  revert rb L. induction fuel as [|fuel IH]; intros rb L Hs Hd Hst Hl Hf; cbn [unpack_hash].
  { destruct (sf_ok _ Hs) as (_ & ? & _). cbn in *. lia. }
  assert (Hs0 : rb_safe rb).
  { pose proof (rb_safe_depth _ (rb_depth rb) Hs) as H. cbn in H. specialize (H ltac:(lia)). by destruct rb. }
  apply (safe_le (1 + 0)); [lia|]. eapply safe_lua_bind; [apply one_safe; [done|lia]|].
  intros rb1 L1 [k Hk] Hf1. unfold lua_at. cbn [Z.ltb Z.compare]. rewrite Hk, Hst.
  change (Z.to_nat (- (-1) - 1)) with 0%nat. cbn [lookup list_lookup].
  pose proof (follows_depth _ _ _ (rb_depth rb + 1) Hf1) as Hf1'.
  assert (Hi1 : rb_inc_depth rb1 = rb_set_depth (rb_depth rb + 1) rb1).
  { unfold rb_inc_depth. by rewrite (fo_depth _ _ _ Hf1). }
  assert (Hs1 : rb_safe (rb_inc_depth rb1)).
  { rewrite Hi1. exact (rb_safe_follows _ _ _ Hs Hf1'). }
  assert (Hval : safe_lua 0 rb1 (fun L' => lua_stack L' = VTable p :: st)
    (let* (rb2, L2) := unpack_one f (rb_inc_depth rb1) L1 in
     let* L3 := lua_rawset L2 in unpack_hash (unpack_one f) fuel (rb_dec_depth rb2) L3)).
  { pose proof (one_safe (rb_inc_depth rb1) L1 Hs1) as Hv. pose proof (fo_len _ _ _ Hf1).
    specialize (Hv ltac:(cbn; lia)). unfold safe_lua in Hv.
    destruct (unpack_one f (rb_inc_depth rb1) L1) as [[rb2 L2]| | |]; cbn [obind swap_run safe_run] in *; try done.
    destruct Hv as [Hf2 [v Hv]]. unfold lua_rawset. rewrite Hv, Hk, Hst.
    destruct (heap_rawset_safe (lua_heap L2) p k v) as [[h' ->]|[e ->]]; cbn [obind]; [|done].
    pose proof (fo_len _ _ _ Hf2) as Hlen2. pose proof (fo_depth _ _ _ Hf2) as Hd2. cbn in Hlen2, Hd2.
    assert (Hf2' : follows 1 rb1 (rb_dec_depth rb2)).
    { pose proof (follows_depth _ _ _ (rb_depth rb1) Hf2) as H2. unfold rb_dec_depth.
      replace (rb_depth rb2 - 1) with (rb_depth rb1) by lia. by destruct rb1. }
    assert (Hs2 : rb_safe (rb_inc_depth (rb_dec_depth rb2))).
    { rewrite rb_inc_dec. exact (rb_safe_follows _ _ _ Hs1 Hf2). }
    pose proof (fo_depth _ _ _ Hf1) as Hd1.
    specialize (IH (rb_dec_depth rb2) (Lua h' (lua_fresh L2) (VTable p :: st)) Hs2
      ltac:(cbn; lia) eq_refl ltac:(cbn; lia) ltac:(lia)). unfold safe_lua in IH |- *.
    destruct (swap_run _) as [[L4 rb4]|e|u|]; cbn [safe_run] in *; try done.
    - destruct IH as [Hf4 H4]. split; [|done]. eapply (follows_le (1 + 0)); [|lia]. by eapply follows_trans.
    - destruct u; try done. by rewrite <- (fo_buffer _ _ _ Hf2'). }
  destruct k; try exact Hval. split; [apply follows_refl, Hf1|]. cbn. by rewrite Hk, Hst.
Qed.
End SafeLoops.

(** ** [push_value], [unpack_one] and the whole stream *)

(** The tag just read is the byte before the position. *)
Definition after_tag (rb : read_block) (type cookie : Z) : Prop :=
  arr_get (rb_buffer rb) (rb_ptr rb - 1) = Some (COMBINE_TYPE type cookie).

Lemma rb_take_tag rb bs rb1 :
  rb_ok rb -> Forall byte_ok (rb_buffer rb) -> rb_take rb 1 = Done (bs, rb1) ->
  let tag := le_value bs in
  follows 1 rb rb1 /\ 0 <= tag < 256 /\ after_tag rb1 (tag_type tag) (tag_cookie tag).
Proof.
  intros Ho Hb Ht. destruct (rb_take_safe rb 1 Ho Hb ltac:(lia)) as [Hs Hp].
  rewrite Ht in Hs. destruct Hs as [Hf (Hl & Hbs & E)]. pose proof (le_value_byte _ Hbs Hl) as Hr.
  split; [done|]. split; [done|]. unfold after_tag. rewrite (Hp _ _ Ht), (fo_buffer _ _ _ Hf).
  replace (rb_ptr rb + 1 - 1) with (rb_ptr rb) by lia.
  destruct (tag_ranges _ Hr) as (_ & _ & ->). destruct Ho as (H1 & _).
  destruct bs as [|b [|? ?]]; cbn in Hl; try lia. cbn [le_value].
  unfold arr_get. rewrite (proj2 (Z.leb_le 0 _)) by done.
  apply (f_equal (fun l => l !! 0%nat)) in E. cbn [lookup list_lookup] in E.
  rewrite lookup_take_lt, lookup_drop, Nat.add_0_r in E by lia. rewrite <- E. f_equal. lia.
Qed.

Lemma get_buffer_negative rb n L : rb_ok rb -> n < 0 -> get_buffer rb n L = Undef UBOutOfBounds.
Proof.
  intros (_ & H & _) Hn. unfold get_buffer, rb_take, rb_read. ztest; [lia|]. unfold rb_bytes.
  rewrite (proj2 (Z.leb_gt 0 n)) by done. by rewrite andb_false_r.
Qed.

Lemma long_string_safe rb L :
  rb_ok rb -> Forall byte_ok (rb_buffer rb) -> after_tag rb TYPE_LONG_STRING 4 ->
  safe_lua 0 rb (pushes L)
    (let* (bs, rb1) := rb_take rb 4 in get_buffer rb1 (wraps 32 (le_value bs)) L).
Proof.
  intros Ho Hb Htag. destruct (rb_take_safe rb 4 Ho Hb ltac:(lia)) as [Hs _].
  destruct (rb_take rb 4) as [[bs rb1]|e|u|]; cbn [obind]; try done.
  destruct Hs as [Hf (Hl & Hbs & E)]. destruct (Z.le_gt_cases 0 (wraps 32 (le_value bs))) as [Hn|Hn].
  - pose proof (get_buffer_safe rb1 _ L (fo_ok _ _ _ Hf) ltac:(by rewrite (fo_buffer _ _ _ Hf)) Hn) as Hg.
    unfold safe_lua in *. destruct (swap_run _) as [[L' rb2]|e|u|]; cbn [safe_run] in *; try done.
    + destruct Hg as [Hf2 HQ]. split; [|done]. eapply (follows_le (4 + 0)); [|lia]. by eapply follows_trans.
    + destruct u; try done. by rewrite <- (fo_buffer _ _ _ Hf).
  - rewrite get_buffer_negative by (done || apply Hf). change (negative_length (rb_buffer rb)).
    exists (rb_ptr rb - 1). split; [done|].
    replace (rb_ptr rb - 1 + 1) with (rb_ptr rb) by lia. change 4%nat with (Z.to_nat 4). by rewrite <- E.
Qed.

Section SafeValues.
Variable f : nat.
Hypothesis one_safe : forall rb L, rb_safe rb -> rb_len rb < Z.of_nat f ->
  safe_lua 1 rb (pushes L) (unpack_one f rb L).

Lemma rb_safe_new rb mark p top : rb_safe rb -> rb_safe (rb_push_ancestor top (rb_new_object rb mark p)).
Proof.
  intros [Ho Hb Hd Ha]. split; cbn; try done; [lia|]. intros i Hi Hm. ztest; [|apply Ha; lia].
  destruct (decide (i = rb_depth rb)) as [->|Hne]; [by rewrite lookup_insert_eq|].
  rewrite lookup_insert_ne by done. apply Ha; lia.
Qed.

Lemma follows_new rb mark p top :
  rb_ok rb -> follows 0 rb (rb_dec_depth (rb_push_ancestor top (rb_new_object rb mark p))).
Proof.
  intros Ho. split; cbn; try done; try lia. intros i Hi. ztest; [|done].
  destruct (decide (i = rb_depth rb)) as [->|Hne]; [by rewrite lookup_insert_eq|].
  by rewrite lookup_insert_ne.
Qed.

Lemma unpack_table_safe rb c type L :
  rb_safe rb -> rb_len rb < Z.of_nat f ->
  safe_lua 0 rb (pushes L) (unpack_table (unpack_one f) f rb c type L).
Proof.
  intros Hs Hl. unfold unpack_table, safe_lua.
  assert (Hsz : safe_run 0 rb (fun _ => True)
    (if c =? EXTEND_NUMBER then get_extend_integer rb else Done (c, rb))).
  { destruct (_ =? _); [by apply get_extend_integer_safe; apply Hs|by apply safe_done, Hs]. }
  destruct (if c =? EXTEND_NUMBER then _ else _) as [[n rb0]|e|u|]; cbn [obind] in *; try done.
  destruct Hsz as [Hf0 _]. pose proof (rb_safe_follows _ _ _ Hs Hf0) as Hs0.
  set (mark := type =? TYPE_TABLE_MARK). set (top := lua_gettop (lua_createtable L)).
  set (rb2 := rb_push_ancestor _ _). pose proof (fo_len _ _ _ Hf0) as Hl0.
  assert (Hs2 : rb_safe rb2) by by apply rb_safe_new.
  pose proof (unpack_array_safe f one_safe f 1 n rb2 (lua_createtable L) (lua_fresh L) (lua_stack L)
    Hs2 eq_refl ltac:(cbn; lia) ltac:(lia)) as Ha. unfold safe_lua in Ha.
  destruct (unpack_array _ _ _ _ _ _) as [[rb3 L3]|e|u|]; cbn [obind swap_run safe_run] in *; try done.
  2: { destruct u; try done. cbn in Ha. by rewrite <- (fo_buffer _ _ _ Hf0). }
  destruct Ha as [Hf3 Hst3]. pose proof (fo_len _ _ _ Hf3) as Hl3. pose proof (fo_depth _ _ _ Hf3) as Hd3.
  cbn in Hl3, Hd3. pose proof (sf_depth _ Hs0).
  assert (Hf3' : follows 0 rb0 (rb_dec_depth rb3)).
  { eapply (follows_trans 0 0); [by apply follows_new, Hs0|].
    pose proof (follows_depth _ _ _ (rb_depth rb0) Hf3) as H3. unfold rb_dec_depth at 2.
    replace (rb_depth rb3 - 1) with (rb_depth rb0) by lia. unfold rb_dec_depth. cbn [rb_push_ancestor rb_new_object rb_depth].
    replace (rb_depth rb0 + 1 - 1) with (rb_depth rb0) by lia. exact H3. }
  pose proof (unpack_hash_safe f one_safe f (rb_dec_depth rb3) L3 (lua_fresh L) (lua_stack L)) as Hh.
  rewrite rb_inc_dec in Hh.
  specialize (Hh (rb_safe_follows _ _ _ Hs2 Hf3) ltac:(cbn; lia) Hst3 ltac:(cbn; lia) ltac:(lia)).
  unfold safe_lua in Hh.
  destruct (swap_run _) as [[L4 rb4]|e|u|]; cbn [safe_run] in *; try done.
  - destruct Hh as [Hf4 Hst4]. split; [|by eexists].
    eapply (follows_le (0 + (0 + 0))); [|lia]. eapply follows_trans; [done|]. by eapply follows_trans.
  - destruct u; try done. cbn in Hh. by rewrite <- (fo_buffer _ _ _ Hf0), <- (fo_buffer _ _ _ Hf3').
Qed.

Lemma push_value_safe rb type cookie L :
  rb_safe rb -> rb_len rb < Z.of_nat f -> 0 <= cookie < 32 -> after_tag rb type cookie ->
  safe_lua 0 rb (pushes L) (push_value (unpack_one f) f rb type cookie L).
Proof.
  intros Hs Hl Hc Htag. pose proof (sf_ok _ Hs) as Ho. pose proof (sf_bytes _ Hs) as Hb.
  assert (Hpush : forall v, safe_lua 0 rb (pushes L) (Done (rb, lua_push v L))).
  { intros v. split; [by apply follows_refl|by eexists]. }
  assert (Hread : forall (A : Type) n (g : list Z -> A) (k : A -> value), 0 <= n ->
    safe_lua 0 rb (pushes L)
      (let* (a, rb1) := (let* (bs, rb1) := rb_take rb n in Done (g bs, rb1)) in Done (rb1, lua_push (k a) L))).
  { intros A n g k Hn. eapply (safe_push 0 _ (fun _ => True)), (safe_map 0 rb (fun _ => True)).
    eapply safe_weaken; [exact Hn|]. by apply rb_take_safe. }
  unfold push_value.
  destruct (type =? TYPE_BOOLEAN); [repeat (destruct (_ =? _); [by apply Hpush|]); done|].
  destruct (type =? TYPE_NUMBER).
  { destruct (_ =? _); [apply (Hread _ 8 le_value VNumber); lia|].
    eapply (safe_push 0 _ (fun _ => True)). by apply get_integer_safe. }
  destruct (type =? TYPE_USERDATA).
  { destruct (_ =? _); [apply (Hread _ 8 le_value VLightUserdata); lia|].
    destruct (negb _); [done|apply (Hread _ 8 le_value VCFunction); lia]. }
  destruct (type =? TYPE_SHORT_STRING); [by apply get_buffer_safe; [..|lia]|].
  destruct (Z.eqb_spec type TYPE_LONG_STRING) as [->|_].
  { destruct (cookie =? 2).
    - unfold safe_lua. pose proof (proj1 (rb_take_safe rb 2 Ho Hb ltac:(lia))) as Ht.
      destruct (rb_take rb 2) as [[bs rb1]|e|u|]; cbn [obind]; try done.
      destruct Ht as [Hf (Hn & Hbs & _)].
      pose proof (get_buffer_safe rb1 _ L (fo_ok _ _ _ Hf) ltac:(by rewrite (fo_buffer _ _ _ Hf))
        (le_value_nonneg _ Hbs)) as Hg. unfold safe_lua in Hg.
      destruct (swap_run _) as [[L' rb2]|e|u|]; cbn [safe_run] in *; try done.
      + destruct Hg as [Hf2 HQ]. split; [|done]. eapply (follows_le (2 + 0)); [|lia]. by eapply follows_trans.
      + destruct u; try done. by rewrite <- (fo_buffer _ _ _ Hf).
    - destruct (Z.eqb_spec cookie 4) as [->|_]; [by apply long_string_safe|done]. }
  destruct (_ || _); [by apply unpack_table_safe|]. destruct (type =? TYPE_REF); [|done].
  by apply unpack_ref_safe.
Qed.
End SafeValues.

Lemma unpack_one_safe f rb L :
  rb_safe rb -> rb_len rb < Z.of_nat f -> safe_lua 1 rb (pushes L) (unpack_one f rb L).
Proof.
  revert rb L. induction f as [|f IH]; intros rb L Hs Hl; cbn [unpack_one].
  { destruct (sf_ok _ Hs) as (_ & ? & _). lia. }
  destruct (rb_take_safe rb 1 (sf_ok _ Hs) (sf_bytes _ Hs) ltac:(lia)) as [Ht _].
  destruct (rb_take rb 1) as [[bs rb1]|e|u|] eqn:E; cbn [obind]; try done. clear Ht.
  destruct (rb_take_tag rb bs rb1 (sf_ok _ Hs) (sf_bytes _ Hs) E) as (Hf1 & Hr & Htag).
  destruct (tag_ranges _ Hr) as (_ & Hc & _). pose proof (fo_len _ _ _ Hf1).
  pose proof (push_value_safe f IH rb1 _ _ L (rb_safe_follows _ _ _ Hs Hf1) ltac:(lia) Hc Htag) as Hv.
  unfold safe_lua in *. destruct (swap_run _) as [[L' rb2]|e|u|]; cbn [safe_run] in *; try done.
  - destruct Hv as [Hf2 HQ]. split; [|done]. eapply (follows_le (1 + 0)); [|lia]. by eapply follows_trans.
  - destruct u; try done. by rewrite <- (fo_buffer _ _ _ Hf1).
Qed.

Lemma unpack_all_safe f rb L :
  rb_safe rb -> rb_len rb < Z.of_nat f ->
  safe_lua 0 rb (fun L' => exists vs, lua_stack L' = vs ++ lua_stack L) (unpack_all f rb L).
Proof.
  revert rb L. induction f as [|f IH]; intros rb L Hs Hl.
  { destruct (sf_ok _ Hs) as (_ & ? & _). lia. }
  destruct (Z.lt_ge_cases (rb_len rb) 1) as [Hend|Hmore].
  - cbn [unpack_all]. unfold rb_read. rewrite (proj2 (Z.ltb_lt _ _)) by lia.
    split; [apply follows_refl, Hs|by exists []].
  - pose proof (unpack_one_safe (S f) rb L Hs Hl) as H1. unfold safe_lua in *.
    assert (Hrd : rb_read rb 1 = (Some (rb_ptr rb), snd (rb_read rb 1))).
    { unfold rb_read. by rewrite (proj2 (Z.ltb_ge _ _)) by lia. }
    assert (E : unpack_all (S f) rb L = let* (rb1, L1) := unpack_one (S f) rb L in unpack_all f rb1 L1).
    { cbn [unpack_one unpack_all]. unfold rb_take. rewrite Hrd.
      by destruct (rb_bytes _ _ _) as [bs|e|u|]. }
    rewrite E. destruct (unpack_one (S f) rb L) as [[rb1 L1]|e|u|]; cbn [obind swap_run safe_run] in *; try done.
    destruct H1 as [Hf1 [v Hv]]. pose proof (fo_len _ _ _ Hf1).
    specialize (IH rb1 L1 (rb_safe_follows _ _ _ Hs Hf1) ltac:(lia)).
    destruct (swap_run _) as [[L' rb2]|e|u|]; cbn [safe_run] in *; try done.
    + destruct IH as [Hf2 [vs Hvs]]. split; [eapply (follows_le (1 + 0)); [by eapply follows_trans|lia]|].
      exists (vs ++ [v]). by rewrite Hvs, Hv, <- app_assoc.
    + destruct u; try done. by rewrite <- (fo_buffer _ _ _ Hf1).
Qed.
