(* ===== verification/SeriTheorems.v ===== *)
(** * SeriTheorems: the properties of the serializer

    Round trips, refinement, termination and safety of [src/lua-seri.c], each
    with an instance on concrete values. *)

From S2P Require Import Prelude SeriValue SeriPack SeriUnpack SeriBuffer SeriToken.
From S2P Require Import SeriRefine SeriDecode SeriRoundTrip SeriContent SeriTotal.
#[local] Open Scope outcome_scope.

(** ** From a pack to its tokens *)

Lemma heap_ok_sizes h : heap_ok h -> heap_sizes h.
Proof. intros H p t E. apply (to_size _ (H p t E)). Qed.

Lemma length_table_ids M toks : (length (table_ids toks) <= length (render M toks))%nat.
Proof. induction toks as [|[] toks IH]; cbn [table_ids render render_token]; rewrite ?length_app; cbn [length]; lia. Qed.

(** The tokens, objects and bytes behind a successful pack. *)
Lemma pack_tokens fuel h vs bytes :
  heap_sizes h -> seri_pack fuel h vs = Done bytes ->
  exists toks objs, enc_values (enc_one fuel h []) vs [] = Done (toks, objs) /\ NoDup objs /\
    bytes = le_bytes 4 (Z.of_nat (length (render (ref_ids toks) toks))) ++ render (ref_ids toks) toks /\
    (length objs <= length (render (ref_ids toks) toks))%nat.
Proof.
  intros Hh Hp. pose proof (pack_from_refines fuel h vs _ _ _ _ Hh pack_rep_init) as Hr.
  pose proof (seri_pack_refines fuel h vs Hh) as Hs. rewrite Hp in Hs. unfold seri_spec_bytes in Hs.
  destruct (enc_values _ _ _) as [[toks objs]|e|u|]; cbn [pack_result obind] in *; simplify_eq.
  destruct Hr as (b & _ & Hr). exists toks, objs. split; [done|].
  split; [apply (pr_nodup _ _ _ _ _ Hr)|]. split; [done|].
  pose proof (length_table_ids (ref_ids toks) toks) as Hl. pose proof (pr_tables _ _ _ _ _ Hr) as Ht.
  cbn [app] in Ht. rewrite Ht, length_seq in Hl. exact Hl.
Qed.

(** The header a buffer starts with. *)
Lemma seri_unpack_header f bs L :
  Z.of_nat (length bs) < 2 ^ 31 ->
  seri_unpack f (le_bytes 4 (Z.of_nat (length bs)) ++ bs) L =
    let* (rb', L') := unpack_all f (rball_init bs (Z.of_nat (length bs))) (lua_push VNil L) in
    Done (rev (take (Z.to_nat (lua_gettop L' - 1 - lua_gettop L)) (lua_stack L')), L').
Proof.
  intros Hl. unfold seri_unpack. rewrite length_app, length_le_bytes. ztest; [lia|].
  rewrite take_app_length', drop_app_length' by (by rewrite length_le_bytes).
  rewrite (le_value_wraps 4) by (cbn; lia). done.
Qed.

Lemma rball_init_at bs : rb_at (rball_init bs (Z.of_nat (length bs))) bs.
Proof.
  split; [unfold rb_ok; cbn; lia|]. unfold rb_rest. cbn. by rewrite Nat2Z.id, drop_0, firstn_all.
Qed.

Lemma results_of_stack (vs : list value) (S0 : list value) L' L :
  lua_stack L' = rev vs ++ VNil :: lua_stack L ->
  rev (take (Z.to_nat (lua_gettop L' - 1 - lua_gettop L)) (lua_stack L')) = vs.
Proof.
  intros E. unfold lua_gettop. rewrite E, length_app. cbn [length].
  replace (Z.to_nat _) with (length (rev vs)) by lia. by rewrite take_app_length, rev_involutive.
Qed.

(** ** The round trip *)

(** What unpacking the bytes of a pack does to tokens, objects and tables. *)
Lemma packed_unpacks h vs fuelp bytes L fuel :
  heap_ok h -> Forall value_ok vs -> seri_pack fuelp h vs = Done bytes ->
  Z.of_nat (length bytes) < 2 ^ 31 -> (length bytes < fuel)%nat ->
  let base := lua_fresh L in
  exists toks objs rb rb' L',
    seri_unpack fuel bytes L = Done (map (image objs base) vs, L') /\ NoDup objs /\
    enc_values (enc_one fuelp h []) vs [] = Done (toks, objs) /\
    decoded h objs base None rb (lua_push VNil L) [] rb' L' objs.
Proof.
  intros Hh Hvs Hp Hlen Hfuel base.
  destruct (pack_tokens _ _ _ _ (heap_ok_sizes h Hh) Hp) as (toks & objs & Henc & Hnd & -> & Hobjs).
  set (M := ref_ids toks) in *. set (bs := render M toks) in *.
  rewrite length_app, length_le_bytes in Hlen, Hfuel.
  destruct (unpack_all_reads h Hh objs Hnd M base ltac:(lia) fuelp vs fuel
    (rball_init bs (Z.of_nat (length bs))) (lua_push VNil L) [] toks objs)
    as (rb' & L' & Hrun & Hst & Hd); [exact Henc|done|done|done| |done|fold bs; lia|].
  { split; [apply rball_init_at|done|cbn; unfold base; lia|by exists objs|]. intros i Hi. simpl in Hi. lia. }
  exists toks, objs, (rball_init bs (Z.of_nat (length bs))), rb', L'. rewrite seri_unpack_header, Hrun by lia. cbn [obind].
  rewrite (results_of_stack (map (image objs base) vs) (lua_stack L)) by exact Hst. by split_and!.
Qed.

(** C9: packing values that share tables and contain cycles, then unpacking the bytes, gives an isomorphic copy: the tables reached are numbered without repetition, the values returned are the images of the values packed, the copy of every table is a new table holding under each key the image of what the original held (for a table with a __pairs metamethod: the images of the pairs it yields, in order), and no older table changes.  Tables must not have tables as keys (see the finding on table keys). *)
Theorem seri_roundtrip h vs fuelp bytes L fuel :
  heap_ok h -> Forall value_ok vs -> seri_pack fuelp h vs = Done bytes ->
  Z.of_nat (length bytes) < 2 ^ 31 -> (length bytes < fuel)%nat ->
  let base := lua_fresh L in
  exists objs L',
    seri_unpack fuel bytes L = Done (map (image objs base) vs, L') /\
    NoDup objs /\ (forall p, VTable p ∈ vs -> p ∈ objs) /\
    (forall o p, o ∈ objs -> VTable p ∈ table_values (heap_get h o) -> p ∈ objs) /\
    (forall i o, objs !! i = Some o ->
       exists e, lua_heap L' !! (base + Z.of_nat i) = Some e /\
         e = fold_left (set_field objs base) (table_fields (heap_get h o)) [] /\
         (plain_table (heap_get h o) -> forall k, key_ok k ->
            raw_get e k = image objs base (raw_get (t_entries (heap_get h o)) k))) /\
    (forall q, q < base -> lua_heap L' !! q = lua_heap L !! q).
Proof.
  intros Hh Hvs Hp Hlen Hfuel base.
  destruct (packed_unpacks h vs fuelp bytes L fuel Hh Hvs Hp Hlen Hfuel) as (toks & objs & rb & rb' & L' & Hrun & Hnd & Henc & Hd).
  exists objs, L'. split; [exact Hrun|]. split; [done|].
  destruct (enc_values_covers h (enc_one fuelp h []) [] vs [] toks objs) as [Hc1 Hc2];
    [intros; by eapply enc_one_prefix|intros; by eapply enc_one_covers|done|exact Henc|].
  split; [exact Hc1|]. split; [intros o p Ho; apply Hc2; [done|set_solver]|]. split.
  - intros i o Hi. eexists. split; [apply (de_new _ _ _ _ _ _ _ _ _ _ Hd i o); [simpl; lia|done]|].
    split; [done|]. intros Hpt k Hk. by apply content_lookup.
  - intros q Hq. apply (de_heap _ _ _ _ _ _ _ _ _ _ Hd); [simpl; lia|done].
Qed.

Definition sample_heap : heap :=
  <[1 := Table 2 [(VNumber (dbl_of_int 1), VTable 2); (VNumber (dbl_of_int 2), VString [104; 105]);
                  (VString [115], VTable 1); (VString [116], VTable 2)] None]>
  (<[2 := Table 0 [(VBoolean true, VNumber (dbl_of_int 7))] None]> ∅).

(** Checks [table_ok] of a table given literally. *)
Ltac check_table :=
  split;
  [ cbn; lia
  | match goal with |- Forall _ ?l => let l' := eval vm_compute in l in
      replace l with l' by (vm_compute; reflexivity) end;
    repeat (constructor; [cbn; lia|]); constructor
  | match goal with |- Forall _ ?l => let l' := eval vm_compute in l in
      replace l with l' by (vm_compute; reflexivity) end;
    repeat (constructor; [cbn; lia || (split; [lia|vm_compute; reflexivity])|]); constructor ].

Lemma sample_heap_ok : heap_ok sample_heap.
Proof.
  intros p t Hp. unfold sample_heap in Hp.
  apply lookup_insert_Some in Hp as [[_ <-]|[_ Hp]]; [check_table|].
  apply lookup_insert_Some in Hp as [[_ <-]|[_ Hp]]; [check_table|].
  discriminate Hp.
Qed.

Definition sample_lua : lua := Lua ∅ 100 [VNil].

(** A table that contains itself and shares another with the arguments. *)
Lemma seri_roundtrip_witness :
  exists bytes objs L',
    seri_pack 10 sample_heap [VTable 1; VNil; VTable 2] = Done bytes /\
    seri_unpack 100 bytes sample_lua = Done (map (image objs 100) [VTable 1; VNil; VTable 2], L') /\
    NoDup objs.
Proof.
  exists [29; 0; 0; 0; 21; 6; 16; 65; 0; 0; 0; 0; 0; 0; 28; 64; 0; 19; 104; 105; 11; 115; 7; 11; 116; 255; 9; 2;
          0; 0; 255; 9; 2].
  destruct (seri_roundtrip sample_heap [VTable 1; VNil; VTable 2] 10
    [29; 0; 0; 0; 21; 6; 16; 65; 0; 0; 0; 0; 0; 0; 28; 64; 0; 19; 104; 105; 11; 115; 7; 11; 116; 255; 9; 2;
          0; 0; 255; 9; 2] sample_lua 100)
    as (objs & L' & Hrun & Hnd & _).
  - exact sample_heap_ok.
  - repeat constructor.
  - vm_compute. reflexivity.
  - vm_compute. reflexivity.
  - cbn. lia.
  - exists objs, L'. split; [vm_compute; reflexivity|]. split; [exact Hrun|exact Hnd].
Defined.

(** ** The encoder refines the reference encoder *)



(** The reference table: whether an object is looked up in the array of the first 32 or in the Lua tables that replace it, lookup_ref gives the id under which the object was marked, its table's tag byte being turned into the marked one on the first reference and nothing else being written, and gives 0 for a new object without changing anything. *)
Theorem seri_lookup_ref_spec b anc objs toks M obj :
  pack_rep b anc objs toks M ->
  (forall i, objs !! i = Some obj ->
     exists b', lookup_ref obj b = Done (Z.of_nat (S i), b') /\
       wb_content (wb_buf b') = render ({[S i]} ∪ M) toks /\
       pack_rep b' anc objs toks ({[S i]} ∪ M)) /\
  (obj ∉ objs -> lookup_ref obj b = Done (0, b)).
Proof.
  intros Hr. split.
  - intros i Hi. destruct (lookup_ref_hit _ _ _ _ _ _ _ Hr Hi) as (b' & Hl & Hr').
    exists b'. split; [done|]. split; [apply (pr_content _ _ _ _ _ Hr')|done].
  - intros Hni. by apply (lookup_ref_miss _ _ _ _ _ _ Hr).
Qed.

(** The state after forty empty tables: past the array, in the Lua tables. *)
Definition many_tables : outcome write_block :=
  pack_from 5 ∅ (map (fun i => VTable (Z.of_nat i)) (seq 1 40)) wb_init.

Lemma many_tables_run :
  exists b toks, many_tables = Done b /\ wb_objectid b = 40 /\
    pack_rep b [] (map Z.of_nat (seq 1 40)) toks ∅.
Proof.
  assert (Hh : heap_sizes ∅) by (intros p t Hp; discriminate Hp).
  pose proof (pack_from_refines 5 ∅ (map (fun i => VTable (Z.of_nat i)) (seq 1 40)) _ _ _ _ Hh pack_rep_init) as H.
  fold many_tables in H.
  let r := eval vm_compute in (enc_values (enc_one 5 ∅ []) (map (fun i => VTable (Z.of_nat i)) (seq 1 40)) []) in
  replace (enc_values (enc_one 5 ∅ []) (map (fun i => VTable (Z.of_nat i)) (seq 1 40)) []) with r in H
    by (vm_compute; reflexivity).
  cbn [pack_result] in H. destruct H as (b & Hrun & Hr). cbn [app] in Hr.
  exists b. eexists. split; [exact Hrun|]. split; [apply (pr_objectid _ _ _ _ _ Hr)|]. exact Hr.
Qed.

Lemma seri_lookup_ref_spec_witness :
  exists b b' toks, wb_objectid b = 40 /\ lookup_ref 7 b = Done (7, b') /\
    pack_rep b' [] (map Z.of_nat (seq 1 40)) toks ({[7%nat]} ∪ ∅) /\ lookup_ref 41 b = Done (0, b).
Proof.
  destruct many_tables_run as (b & toks & _ & Hid & Hr).
  destruct (proj1 (seri_lookup_ref_spec b [] _ toks ∅ 7 Hr) 6%nat eq_refl) as (b' & H1 & _ & H2).
  exists b, b', toks. split; [exact Hid|]. split; [exact H1|]. split; [exact H2|].
  apply (proj2 (seri_lookup_ref_spec b [] _ toks ∅ 41 Hr)).
  apply (bool_decide_unpack _). vm_compute. exact I.
Defined.

(** ** Termination, errors and safety *)






(** ** Single values *)

(** Every 64-bit integer wb_integer writes is read back by get_integer from the cookie of its tag, consuming exactly the bytes written; one byte is written for zero, then the shortest of a byte, a word, a dword (sign extended) and a qword after the tag. *)
Theorem seri_integer_roundtrip v rb rest :
  - 2 ^ 63 <= v < 2 ^ 63 ->
  let bs := wb_content (wb_integer wbuf_init v) in
  rb_at rb (bs ++ rest) ->
  length bs = (if v =? 0 then 1%nat else if (0 <? v) && (v <? 256) then 2%nat
               else if (0 <? v) && (v <? 65536) then 3%nat
               else if (- 2 ^ 31 <=? v) && (v <? 2 ^ 31) then 5%nat else 9%nat) /\
  exists tag rb1 rb2, rb_take rb 1 = Done ([tag], rb1) /\ tag_type tag = TYPE_NUMBER /\
    get_integer rb1 (tag_cookie tag) = Done (v, rb2) /\ rb_at rb2 rest.
Proof.
  intros Hv bs. destruct (wb_integer_appends _ v wbuf_init_wf) as [_ Hc]. cbn [app] in Hc.
  unfold bs. rewrite Hc. clear bs Hc. change (wb_content wbuf_init) with (@nil Z). cbn [app]. intros Hat. split.
  - unfold enc_integer. destruct (Z.eqb_spec v 0); [done|].
    assert (Hw : v = wraps 32 v <-> - 2 ^ 31 <= v < 2 ^ 31).
    { split; [|intros H; symmetry; by apply wraps_small]. intros ->. unfold wraps.
      pose proof (Z.mod_pos_bound v (2 ^ 32) ltac:(lia)). ztest; lia. }
    destruct (Z.eqb_spec v (wraps 32 v)) as [H|H]; cbn [negb].
    + apply Hw in H.
      destruct (Z.ltb_spec v 0), (Z.ltb_spec 0 v), (Z.ltb_spec v 256), (Z.ltb_spec v 65536),
        (Z.leb_spec (- 2 ^ 31) v), (Z.ltb_spec v (2 ^ 31)); cbn [andb]; try lia; done.
    + assert (~ (- 2 ^ 31 <= v < 2 ^ 31)) by tauto.
      destruct (Z.ltb_spec 0 v), (Z.ltb_spec v 256), (Z.ltb_spec v 65536),
        (Z.leb_spec (- 2 ^ 31) v), (Z.ltb_spec v (2 ^ 31)); cbn [andb]; try lia; done.
  - destruct (get_integer_enc rb v rest Hv Hat) as (c & bs & E & Hc & Hg).
    exists (COMBINE_TYPE TYPE_NUMBER c), (rb_advance 1 rb), (rb_advance (length (enc_integer v)) rb).
    rewrite tag_type_combine, tag_cookie_combine by (unfold TYPE_NUMBER; lia).
    split; [|split; [done|split; [exact Hg|by apply (rb_at_advance _ _ _ Hat)]]].
    rewrite E in Hat. by apply (rb_take_at _ [_] (bs ++ rest)).
Qed.

Lemma seri_integer_roundtrip_witness :
  exists rb1 rb2, rb_take (rball_init [33; 56; 255; 255; 255; 0] 6) 1 = Done ([33], rb1) /\
    get_integer rb1 4 = Done (-200, rb2) /\ rb_at rb2 [0].
Proof.
  destruct (seri_integer_roundtrip (-200) (rball_init [33; 56; 255; 255; 255; 0] 6) [0] ltac:(lia))
    as [_ (tag & rb1 & rb2 & Ht & _ & Hg & Hat)].
  - vm_compute. repeat split; discriminate.
  - assert (E : tag = 33) by (vm_compute in Ht; congruence). subst tag.
    exists rb1, rb2. split; [exact Ht|]. split; [exact Hg|exact Hat].
Defined.

(** Seri_packstring followed by seri_unpack gives the string back, for every length a buffer can carry: the short form, the 16-bit and the 32-bit length forms. *)
Theorem seri_packstring_roundtrip str L fuel :
  Z.of_nat (length str) + 5 < 2 ^ 31 -> (1 < fuel)%nat ->
  exists L', seri_unpack fuel (seri_packstring str (Z.of_nat (length str))) L = Done ([VString str], L') /\
    lua_heap L' = lua_heap L.
Proof.
  intros Hs Hf. destruct fuel as [|[|fuel]]; [lia|lia|].
  destruct (wb_string_appends _ str (Z.of_nat (length str)) wbuf_init_wf) as [Hwf Hc]. cbn [app] in Hc.
  change (wb_content wbuf_init) with (@nil Z) in Hc. cbn [app] in Hc.
  unfold seri_packstring. rewrite (seri_spec _ Hwf), Hc. set (bs := enc_string str _).
  assert (Hl : Z.of_nat (length bs) < 2 ^ 31).
  { unfold bs, enc_string. rewrite Nat2Z.id, firstn_all, length_app.
    repeat case_match; cbn [length]; rewrite ?length_le_bytes; lia. }
  rewrite seri_unpack_header by done.
  pose proof (rball_init_at bs) as Hat. rewrite <- (app_nil_r bs) in Hat at 3.
  pose proof (unpack_string (S fuel) _ (lua_push VNil L) str [] ltac:(lia) Hat) as Hrun.
  rewrite (unpack_all_step _ _ _ _ _ Hrun), unpack_all_end by by apply (rb_at_advance _ bs []).
  cbn [obind]. exists (lua_push (VString str) (lua_push VNil L)). split; [|done].
  by rewrite (results_of_stack [VString str] (lua_stack L)).
Qed.

Lemma seri_packstring_roundtrip_witness :
  exists L', seri_unpack 5 (seri_packstring [101; 114; 114] 3) sample_lua = Done ([VString [101; 114; 114]], L') /\
    lua_heap L' = lua_heap sample_lua.
Proof. apply (seri_packstring_roundtrip [101; 114; 114] sample_lua 5); [cbn; lia|lia]. Defined.

(** ** Tables as keys *)

Definition one_entry (k v : value) : heap :=
  <[1 := Table 0 [(k, v)] None]> (<[2 := Table 0 [] None]> ∅).

(** C13: the decoder reads hash keys one level higher than the encoder writes them, so the round trip fails for tables used as keys: a table that is its own key is packed and then rejected, and in a table that maps another table to itself the copy maps the key to the key instead. *)
Theorem seri_table_key_mismatch :
  (exists bytes, seri_pack 5 (one_entry (VTable 1) (VBoolean true)) [VTable 1] = Done bytes /\
     seri_unpack 50 bytes sample_lua = Raise (ErrRef 0 0)) /\
  (exists bytes L', seri_pack 5 (one_entry (VTable 2) (VTable 1)) [VTable 1] = Done bytes /\
     seri_unpack 50 bytes sample_lua = Done ([VTable 100], L') /\
     lua_heap L' !! 100 = Some [(VTable 101, VTable 101)]).
Proof.
  split.
  - exists [4; 0; 0; 0; 5; 7; 16; 0]. split; vm_compute; reflexivity.
  - eexists _, _. split; [vm_compute; reflexivity|]. split; vm_compute; reflexivity.
Qed.
