(* ===== verification/SeriApi.v ===== *)
(** * SeriApi: the functions of src/lua-seri.c that Lua and C call

    [pack], [unpack] and [unpack_remove] with their argument tests, the protected
    call around the reader, and the buffers on the C heap they allocate and
    free.  Full userdata are not passed as buffers. *)

From S2P Require Import Prelude SeriValue SeriPack SeriUnpack.
#[local] Open Scope outcome_scope.

(** ** State and results *)

(** The Lua state of the caller and the buffers allocated, by address. *)
Record api_state := ApiState {
  as_lua : lua;
  as_blocks : gmap Z (list Z)
}.

Definition set_blocks (b : gmap Z (list Z)) (st : api_state) : api_state := ApiState (as_lua st) b.

(** What a call of a C function gives its caller in Lua. *)
Inductive api_result := ApiReturn (vs : list value) | ApiRaise (e : lua_error).

(** ** The buffer an argument stands for *)

(** [lua_isnoneornil] and [lua_touserdata] of the first argument. *)
Definition arg_isnoneornil (args : list value) : bool :=
  match args with [] | VNil :: _ => true | _ => false end.

Definition arg_touserdata (args : list value) : Z :=
  match args with VLightUserdata p :: _ => p | _ => 0 end.

(** ** Reading *)

(** [seri_unpack_]: called with a clean stack; reading a buffer that is not
    allocated, NULL among them, is undefined. *)
Definition seri_unpack_ (fuel : nat) (buffer : Z) (st : api_state) : outcome (list value * lua) :=
  match as_blocks st !! buffer with
  | None => Undef UBOutOfBounds
  | Some bytes => seri_unpack fuel bytes (Lua (lua_heap (as_lua st)) (lua_fresh (as_lua st)) [])
  end.

(** The state after values were read: the tables are new, the stack is the
    caller's. *)
Definition with_tables (L : lua) (st : api_state) : api_state :=
  ApiState (Lua (lua_heap L) (lua_fresh L) (lua_stack (as_lua st))) (as_blocks st).

(** [lua_pcall] of [seri_unpack_]: an error is caught and is the result. *)
Definition pcall_unpack (fuel : nat) (buffer : Z) (st : api_state) : outcome (api_result * api_state) :=
  match seri_unpack_ fuel buffer st with
  | Done (vs, L) => Done (ApiReturn vs, with_tables L st)
  | Raise e => Done (ApiRaise e, st)
  | Undef u => Undef u
  | NoFuel => NoFuel
  end.

(** [free] of a buffer that is allocated. *)
Definition free_buffer (buffer : Z) (st : api_state) : outcome api_state :=
  match as_blocks st !! buffer with
  | Some _ => Done (set_blocks (delete buffer (as_blocks st)) st)
  | None => if buffer =? 0 then Done st else Undef UBOutOfBounds
  end.

(** The error is raised again once the buffer is freed. *)
Definition seri_unpackptr (fuel : nat) (buffer : Z) (st : api_state) : outcome (api_result * api_state) :=
  let* (r, st1) := pcall_unpack fuel buffer st in
  let* st2 := free_buffer buffer st1 in
  Done (r, st2).

Definition luaseri_unpack_remove (fuel : nat) (args : list value) (st : api_state) : outcome (api_result * api_state) :=
  if arg_isnoneornil args || (arg_touserdata args =? 0) then Done (ApiReturn [], st)
  else seri_unpackptr fuel (arg_touserdata args) st.

(** Unlike [unpack_remove], [unpack] does not test the pointer. *)
Definition luaseri_unpack (fuel : nat) (args : list value) (st : api_state) : outcome (api_result * api_state) :=
  if arg_isnoneornil args then Done (ApiReturn [], st)
  else pcall_unpack fuel (arg_touserdata args) st.

(** [seri_unpackstr]: the bytes of a Lua string, which stays the caller's. *)
Definition seri_unpackstr (fuel : nat) (args : list value) (st : api_state) : outcome (api_result * api_state) :=
  match args with
  | VString bytes :: _ =>
    match seri_unpack fuel bytes (Lua (lua_heap (as_lua st)) (lua_fresh (as_lua st)) []) with
    | Done (vs, L) => Done (ApiReturn vs, with_tables L st)
    | Raise e => Done (ApiRaise e, st)
    | Undef u => Undef u
    | NoFuel => NoFuel
    end
  | _ => Done (ApiRaise ErrType, st)
  end.

(** ** Writing *)

(** [pack] of the arguments, whose tables are [h]; [address] is where [malloc]
    puts the buffer. *)
Definition luaseri_pack (fuel : nat) (h : heap) (args : list value) (address : Z) (st : api_state) :
    outcome (api_result * api_state) :=
  match seri_pack fuel h args with
  | Done buffer =>
    Done (ApiReturn [VLightUserdata address; VNumber (dbl_of_int (Z.of_nat (length buffer)))],
          set_blocks (<[address := buffer]> (as_blocks st)) st)
  | Raise e => Done (ApiRaise e, st)
  | Undef u => Undef u
  | NoFuel => NoFuel
  end.
