(* ===== verification/Concur.v ===== *)
(** * Concur: programs of atomic sections, their interleavings and a logic

    The functions of [service.c] are modelled as programs: sequences of
    sections that each run atomically on the shared state (a critical section
    under a mutex, or one access to memory another thread may touch), composed
    by the control flow of the C code.  A section consumes a choice, an integer
    that stands for what its environment answers (an allocation that fails, an
    error code), and is not enabled ([None]) while it has to wait.

    A thread may own resources; the logic [wt] says that a program keeps an
    invariant of the state and of all the threads' resources, whatever the
    other threads do in between, and that each section stays within a
    transition relation. *)

From S2P Require Import Prelude.

Section Programs.
Context {S : Type}.

(** ** Programs *)

Inductive prog (A : Type) : Type :=
| Ret (a : A)
| Sec {X : Type} (f : Z -> S -> option (X * S)) (k : X -> prog A)
| Loop {B : Type} (body : prog (option B)) (k : B -> prog A).
#[global] Arguments Ret {A}.
#[global] Arguments Sec {A X}.
#[global] Arguments Loop {A B}.

Fixpoint pbind {A B} (p : prog A) (q : A -> prog B) : prog B :=
  match p with
  | Ret a => q a
  | Sec f k => Sec f (fun x => pbind (k x) q)
  | Loop body k => Loop body (fun b => pbind (k b) q)
  end.

(** One section as a program; a loop that ends when its body returns a value. *)
Definition section {X} (f : Z -> S -> option (X * S)) : prog X := Sec f Ret.
Definition loop {B} (body : prog (option B)) : prog B := Loop body Ret.

(** A turn of a loop: its body, then the rest or the loop again. *)
Definition unroll {A B} (body : prog (option B)) (k : B -> prog A) : prog A :=
  pbind body (fun o => match o with Some b => k b | None => Loop body k end).

Definition prog_step {A} (p : prog A) (c : Z) (s : S) : option (prog A * S) :=
  match p with
  | Ret _ => None
  | Sec f k => match f c s with Some (x, s') => Some (k x, s') | None => None end
  | Loop body k => Some (unroll body k, s)
  end.

(** A program run alone, given the answers of its environment. *)
Fixpoint exec {A} (fuel : nat) (p : prog A) (cs : list Z) (s : S) : option (A * S) :=
  match fuel with
  | O => None
  | Datatypes.S fuel' =>
    match p with
    | Ret a => Some (a, s)
    | Sec f k =>
      match f (hd 0 cs) s with Some (x, s') => exec fuel' (k x) (tl cs) s' | None => None end
    | Loop body k => exec fuel' (unroll body k) cs s
    end
  end.

(** *** Runs to the end

    [returns p cs s a s']: alone and with the answers [cs] of the environment
    (0 when they run out), [p] returns [a] in the state [s'].  [den] says the
    same along the structure of the program, with the answers left over. *)
Definition returns {A} (p : prog A) (cs : list Z) (s : S) (a : A) (s' : S) : Prop :=
  exists fuel, exec fuel p cs s = Some (a, s').

Inductive iter {B} (body : list Z -> S -> option B -> list Z -> S -> Prop) :
    list Z -> S -> B -> list Z -> S -> Prop :=
| IterDone cs s b cs' s' : body cs s (Some b) cs' s' -> iter body cs s b cs' s'
| IterMore cs s cs1 s1 b cs' s' :
    body cs s None cs1 s1 -> iter body cs1 s1 b cs' s' -> iter body cs s b cs' s'.

Fixpoint den {A} (p : prog A) : list Z -> S -> A -> list Z -> S -> Prop :=
  match p with
  | Ret a => fun cs s a' cs' s' => a' = a /\ cs' = cs /\ s' = s
  | Sec f k => fun cs s a cs' s' => exists x s1, f (hd 0 cs) s = Some (x, s1) /\ den (k x) (tl cs) s1 a cs' s'
  | Loop body k => fun cs s a cs' s' =>
      exists b cs1 s1, iter (den body) cs s b cs1 s1 /\ den (k b) cs1 s1 a cs' s'
  end.

Lemma den_bind {A B} (p : prog A) (q : A -> prog B) cs s a cs1 s1 b cs' s' :
  den p cs s a cs1 s1 -> den (q a) cs1 s1 b cs' s' -> den (pbind p q) cs s b cs' s'.
Proof.
  revert B q cs s a cs1 s1 b cs' s'.
  induction p as [A a0|A X f k IH|A C body _ k IHk]; intros B q cs s a cs1 s1 b cs' s'; cbn [den pbind].
  - by intros (-> & -> & ->).
  - intros (x & s2 & Hf & Hk) Hq. exists x, s2. split; [done|]. by eapply IH.
  - intros (c & cs2 & s2 & Hi & Hk) Hq. exists c, cs2, s2. split; [done|]. by eapply IHk.
Qed.

Lemma den_bind_inv {A B} (p : prog A) (q : A -> prog B) cs s b cs' s' :
  den (pbind p q) cs s b cs' s' -> exists a cs1 s1, den p cs s a cs1 s1 /\ den (q a) cs1 s1 b cs' s'.
Proof.
  revert B q cs s b cs' s'. induction p as [A a|A X f k IH|A C body _ k IHk]; intros B q cs s b cs' s'; cbn [den pbind].
  - intros H. by exists a, cs, s.
  - intros (x & s2 & Hf & (a & cs1 & s1 & H1 & H2)%IH). exists a, cs1, s1. split; [|done]. by exists x, s2.
  - intros (c & cs2 & s2 & Hi & (a & cs1 & s1 & H1 & H2)%IHk). exists a, cs1, s1. split; [|done]. by exists c, cs2, s2.
Qed.

Lemma den_exec {A B} (p : prog A) (q : A -> prog B) cs s a cs1 s1 fuel r :
  den p cs s a cs1 s1 -> exec fuel (q a) cs1 s1 = Some r ->
  exists fuel', exec fuel' (pbind p q) cs s = Some r.
Proof.
  revert B q cs s a cs1 s1 fuel r.
  induction p as [A a0|A X f k IH|A C body IHb k IHk]; intros B q cs s a cs1 s1 fuel r; cbn [den pbind].
  - intros (-> & -> & ->) H. by exists fuel.
  - intros (x & s2 & Hf & Hk) Hq. destruct (IH x _ q _ _ _ _ _ _ _ Hk Hq) as [n Hn].
    exists (Datatypes.S n). cbn [exec]. by rewrite Hf.
  - intros (c & cs2 & s2 & Hi & Hk) Hq. destruct (IHk c _ q _ _ _ _ _ _ _ Hk Hq) as [n Hn]. clear Hk Hq.
    set (k' := fun c => pbind (k c) q) in *.
    change (exec n (k' c) cs2 s2 = Some r) in Hn.
    induction Hi as [cs s c cs2 s2 Hb|cs s cs3 s3 c cs2 s2 Hb _ IHi].
    + destruct (IHb _ (fun o => match o with Some b => k' b | None => Loop body k' end) _ _ _ _ _ _ _ Hb Hn) as [n' Hn'].
      exists (Datatypes.S n'). cbn [exec]. exact Hn'.
    + destruct (IHi Hn) as [n' Hn'].
      destruct (IHb _ (fun o => match o with Some b => k' b | None => Loop body k' end) _ _ _ _ _ _ _ Hb Hn') as [n2 Hn2].
      exists (Datatypes.S n2). cbn [exec]. exact Hn2.
Qed.

Lemma den_returns {A} (p : prog A) cs s a cs' s' : den p cs s a cs' s' -> returns p cs s a s'.
Proof.
  assert (H : forall a cs s cs1 s1 fuel r, den p cs s a cs1 s1 -> exec fuel (Ret a) cs1 s1 = Some r ->
    exists fuel', exec fuel' p cs s = Some r).
  { clear. induction p as [A a0|A X f k IH|A C body IHb k IHk]; intros a cs0 s0 cs1 s1 fuel r; cbn [den].
    - intros (-> & -> & ->) H. by exists fuel.
    - intros (x & s2 & Hf & Hk) Hq. destruct (IH x _ _ _ _ _ _ _ Hk Hq) as [n Hn].
      exists (Datatypes.S n). cbn [exec]. by rewrite Hf.
    - intros (c & cs2 & s2 & Hi & Hk) Hq. destruct (IHk c _ _ _ _ _ _ _ Hk Hq) as [n Hn]. clear Hk Hq.
      induction Hi as [cs0 s0 c cs2 s2 Hb|cs0 s0 cs3 s3 c cs2 s2 Hb _ IHi].
      + destruct (den_exec body (fun o => match o with Some b => k b | None => Loop body k end) _ _ _ _ _ _ _ Hb Hn) as [n' Hn'].
        by exists (Datatypes.S n').
      + destruct (IHi Hn) as [n' Hn'].
        destruct (den_exec body (fun o => match o with Some b => k b | None => Loop body k end) _ _ _ _ _ _ _ Hb Hn') as [n2 Hn2].
        by exists (Datatypes.S n2). }
  intros Hd. destruct (H _ _ _ _ _ 1%nat (a, s') Hd eq_refl) as [n Hn]. by exists n.
Qed.

(** A section that is enabled, first in a program. *)
Lemma den_sec {A X} (f : Z -> S -> option (X * S)) (k : X -> prog A) cs s x s1 a cs' s' :
  f (hd 0 cs) s = Some (x, s1) -> den (k x) (tl cs) s1 a cs' s' -> den (pbind (section f) k) cs s a cs' s'.
Proof. intros H1 H2. exists x, s1. by split. Qed.

(** ** Interleavings *)

Definition conf : Type := list (prog unit) * S.

(** Thread [i] runs its next section with the answer [c]. *)
Inductive conf_step : conf -> list (nat * Z) -> conf -> Prop :=
| ConfStep ps s i c p p' s' :
    ps !! i = Some p -> prog_step p c s = Some (p', s') ->
    conf_step (ps, s) [(i, c)] (<[i := p']> ps, s').

Fixpoint conf_run (sched : list (nat * Z)) (cf : conf) : option conf :=
  match sched with
  | [] => Some cf
  | (i, c) :: sched' =>
    match fst cf !! i with
    | Some p =>
      match prog_step p c (snd cf) with
      | Some (p', s') => conf_run sched' (<[i := p']> (fst cf), s')
      | None => None
      end
    | None => None
    end
  end.

Lemma conf_run_steps sched cf cf' :
  conf_run sched cf = Some cf' -> steps conf_step cf sched cf'.
Proof.
  revert cf. induction sched as [|[i c] sched IH]; intros [ps s] H; cbn in H; [by simplify_eq; constructor|].
  destruct (ps !! i) as [p|] eqn:Ei; [|done]. destruct (prog_step p c s) as [[p' s']|] eqn:Ep; [|done].
  change ((i, c) :: sched) with ([(i, c)] ++ sched). econstructor; [by econstructor|by apply IH].
Qed.

(** Runs computed by [conf_run]: what a test on the last configuration says. *)
Lemma conf_run_test sched cf (test : conf -> bool) :
  match conf_run sched cf with Some cf' => test cf' | None => false end = true ->
  exists cf', steps conf_step cf sched cf' /\ test cf' = true.
Proof.
  destruct (conf_run sched cf) as [cf'|] eqn:E; [|done]. intros H. exists cf'. split; [by apply conf_run_steps|done].
Qed.

(** Each thread has returned, or has never run. *)
Definition all_done (es : list (nat * Z)) (cf : conf) : Prop :=
  forall i p, fst cf !! i = Some p -> p = Ret tt \/ i ∉ es.*1.

Definition is_ret (p : prog unit) : bool := match p with Ret _ => true | _ => false end.

Definition done_test (es : list (nat * Z)) (cf : conf) : bool :=
  forallb (fun b : bool => b)
    (imap (fun i p => is_ret p || negb (existsb (Nat.eqb i) (fst <$> es))) (fst cf)).

Lemma done_test_ok es cf : done_test es cf = true -> all_done es cf.
Proof.
  intros H i p Hp. unfold done_test in H. rewrite forallb_forall in H.
  assert (Hb : (fun i p => is_ret p || negb (existsb (Nat.eqb i) (fst <$> es))) i p = true).
  { apply H. apply list_elem_of_In, list_elem_of_lookup. exists i. by rewrite list_lookup_imap, Hp. }
  apply orb_true_iff in Hb as [Hb|Hb]; [left; destruct p as [[]| |]; done|right].
  intros Hin. apply negb_true_iff in Hb. apply not_true_iff_false in Hb. apply Hb, existsb_exists.
  exists i. split; [by apply list_elem_of_In|apply Nat.eqb_refl].
Qed.

(** ** The logic *)

Section Logic.
Context {R : Type}.
Variable inv : S -> list R -> Prop.
Variable guar : S -> S -> Prop.

(** [wt i p Q r]: thread [i] runs [p] owning [r]; when it returns [a] owning
    [r'], [Q a r'] holds. *)
Fixpoint wt {A} (i : nat) (p : prog A) (Q : A -> R -> Prop) (r : R) {struct p} : Prop :=
  match p with
  | Ret a => Q a r
  | Sec f k =>
    forall c s rs x s', inv s rs -> rs !! i = Some r -> f c s = Some (x, s') ->
    guar s s' /\ exists r', inv s' (<[i := r']> rs) /\ wt i (k x) Q r'
  | Loop body k =>
    exists I : R -> Prop, I r /\
    forall r0, I r0 ->
      wt i body (fun o r' => match o with Some b => wt i (k b) Q r' | None => I r' end) r0
  end.

Lemma wt_mono {A} i (p : prog A) (Q Q' : A -> R -> Prop) r :
  (forall a r', Q a r' -> Q' a r') -> wt i p Q r -> wt i p Q' r.
Proof.
  revert Q Q' r. induction p as [A a|A X f k IH|A B body IHb k IHk]; intros Q Q' r HQ; cbn.
  - apply HQ.
  - intros H c s rs x s' Hi Hr Hf. destruct (H c s rs x s' Hi Hr Hf) as (Hg & r' & Hi' & Hw).
    split; [done|]. exists r'. split; [done|]. by eapply IH.
  - intros (I & HI & H). exists I. split; [done|]. intros r0 H0.
    eapply IHb; [|by apply H]. intros [b|] r'; [|done]. intros Hw. by eapply IHk.
Qed.

Lemma wt_bind {A B} i (p : prog A) (q : A -> prog B) (Q : B -> R -> Prop) r :
  wt i p (fun a r' => wt i (q a) Q r') r -> wt i (pbind p q) Q r.
Proof.
  revert B q Q r. induction p as [A a|A X f k IH|A C body IHb k IHk]; intros B q Q r; cbn.
  - done.
  - intros H c s rs x s' Hi Hr Hf. destruct (H c s rs x s' Hi Hr Hf) as (Hg & r' & Hi' & Hw).
    split; [done|]. exists r'. split; [done|]. by apply IH.
  - intros (I & HI & H). exists I. split; [done|]. intros r0 H0.
    eapply wt_mono; [|by apply H]. intros [b|] r'; [|done]. intros Hw. by apply IHk.
Qed.

Lemma wt_section {X} i (f : Z -> S -> option (X * S)) (Q : X -> R -> Prop) r :
  (forall c s rs x s', inv s rs -> rs !! i = Some r -> f c s = Some (x, s') ->
     guar s s' /\ exists r', inv s' (<[i := r']> rs) /\ Q x r') ->
  wt i (section f) Q r.
Proof. intros H. exact H. Qed.

(** A loop whose body keeps [J]. *)
Lemma wt_loop {B} i (body : prog (option B)) (Q : B -> R -> Prop) (J : R -> Prop) r :
  J r ->
  (forall r0, J r0 -> wt i body (fun o r' => match o with Some b => Q b r' | None => J r' end) r0) ->
  wt i (loop body) Q r.
Proof. intros HJ H. exists J. split; [done|]. intros r0 H0. eapply wt_mono; [|by apply H]. by intros [b|]. Qed.

(** ** Soundness *)

(** What a thread holds when it is done. *)
Variable post : nat -> R -> Prop.

Definition conf_holds (rs : list R) (cf : conf) : Prop :=
  length rs = length (fst cf) /\ inv (snd cf) rs /\
  forall i p r, fst cf !! i = Some p -> rs !! i = Some r -> wt i p (fun _ r' => post i r') r.

Hypothesis guar_refl : forall s, guar s s.

Lemma prog_step_wt {A} i (p : prog A) (Q : A -> R -> Prop) r c s rs p' s' :
  wt i p Q r -> inv s rs -> rs !! i = Some r -> prog_step p c s = Some (p', s') ->
  guar s s' /\ exists r', inv s' (<[i := r']> rs) /\ wt i p' Q r'.
Proof.
  destruct p as [a|X f k|B body k]; cbn [prog_step wt]; intros Hw Hi Hr Hs; [done| |].
  - destruct (f c s) as [[x s1]|] eqn:Ef; simplify_eq. by eapply Hw.
  - simplify_eq. split; [apply guar_refl|]. exists r. rewrite list_insert_id by done.
    split; [done|]. destruct Hw as (I & HI & Hb). unfold unroll. apply wt_bind.
    eapply wt_mono; [|by apply Hb]. intros [b|] r'; [done|]. intros HI'. exists I. by split.
Qed.

Lemma conf_holds_step rs cf es cf' :
  conf_holds rs cf -> conf_step cf es cf' ->
  guar (snd cf) (snd cf') /\
  exists rs', conf_holds rs' cf' /\ forall i, i ∉ es.*1 -> rs' !! i = rs !! i.
Proof.
  intros (Hl & Hi & Hw) Hs. destruct Hs as [ps s i c p p' s' Hp Hs]. cbn [fst snd] in *.
  destruct (lookup_lt_is_Some_2 rs i) as [r Hr]; [rewrite Hl; by eapply lookup_lt_Some|].
  destruct (prog_step_wt i p _ r c s rs p' s' (Hw _ _ _ Hp Hr) Hi Hr Hs) as (Hg & r' & Hi' & Hw').
  split; [done|]. exists (<[i := r']> rs). split.
  - unfold conf_holds. cbn [fst snd]. split; [by rewrite !length_insert|]. split; [done|].
    intros j q rj Hq Hrj. destruct (decide (i = j)) as [->|Hne].
    + rewrite list_lookup_insert_eq in Hq by (by eapply lookup_lt_Some).
      rewrite (list_lookup_insert_eq rs) in Hrj by (by eapply lookup_lt_Some). by simplify_eq.
    + rewrite list_lookup_insert_ne in Hq by done. rewrite (list_lookup_insert_ne rs) in Hrj by done.
      by eapply Hw.
  - intros j Hj. apply (list_lookup_insert_ne rs). intros ->. apply Hj. cbn. by left.
Qed.

Hypothesis guar_trans : forall s1 s2 s3, guar s1 s2 -> guar s2 s3 -> guar s1 s3.

(** Along any interleaving the invariant holds, the states are related, and
    the threads that did not run hold what they held. *)
Theorem conf_holds_steps rs cf es cf' :
  conf_holds rs cf -> steps conf_step cf es cf' ->
  guar (snd cf) (snd cf') /\
  exists rs', conf_holds rs' cf' /\ forall i, i ∉ es.*1 -> rs' !! i = rs !! i.
Proof.
  intros H Hs. revert rs H. induction Hs as [cf|cf1 es1 cf2 es2 cf3 H1 _ IH]; intros rs H.
  - split; [apply guar_refl|]. by exists rs.
  - destruct (conf_holds_step _ _ _ _ H H1) as (Hg & rs2 & H2 & E2).
    destruct (IH rs2 H2) as (Hg' & rs3 & H3 & E3). split; [by eapply guar_trans|].
    exists rs3. split; [done|]. intros i Hn. rewrite fmap_app, not_elem_of_app in Hn. destruct Hn.
    rewrite E3 by done. by apply E2.
Qed.
End Logic.
End Programs.

#[global] Arguments prog : clear implicits.
#[global] Arguments conf : clear implicits.

Declare Scope prog_scope.
Delimit Scope prog_scope with prog.
Notation "x <- p ;; q" := (pbind p (fun x => q))
  (at level 100, p at next level, right associativity) : prog_scope.
Notation "'let!' pat := p 'in' q" := (pbind p (fun pat => q))
  (at level 10, pat pattern, p at level 200, q at level 200) : prog_scope.
