(* ===== verification/ServiceState.v ===== *)
(** * ServiceState: the state behind services (src/service.h, src/service.c)

    The pool, the fields of [struct service] grouped by what protects them, the
    part of libuv and of pthreads the code relies on, and the elementary
    accesses the functions of [service.c] are made of.

    A mailbox is the abstract queue of [Queue]: every operation of mailbox.c is
    one atomic step on it ([MailboxConc] shows the C code linearizable to these
    steps).  A mailbox is named by its service, since a service has one mailbox
    in its life. *)

From S2P Require Import Prelude Message Mailbox Queue MailboxCorrect Concur.
#[local] Open Scope prog_scope.

(** ** Data *)

Definition MAX_SERVICES : Z := 32.
Definition MAX_SERVICE_NAME_LEN : Z := 32.
Definition SERVICE_MAILBOX_MIN_SIZE : Z := 16.
Definition SERVICE_MAILBOX_MAX_SIZE : Z := 65536.

Inductive service_state :=
| SERVICE_NEW | SERVICE_STARTING | SERVICE_RUNNING | SERVICE_STOPPING
| SERVICE_STOPPED | SERVICE_JOINED | SERVICE_FREED.

#[export] Instance service_state_eq_dec : EqDecision service_state.
Proof. solve_decision. Defined.

(** The enumeration's values: the code compares states. *)
Definition state_code (s : service_state) : Z :=
  match s with
  | SERVICE_NEW => 0 | SERVICE_STARTING => 1 | SERVICE_RUNNING => 2 | SERVICE_STOPPING => 3
  | SERVICE_STOPPED => 4 | SERVICE_JOINED => 5 | SERVICE_FREED => 6
  end.

Inductive send_result :=
| SERVICE_SEND_OK | SERVICE_SEND_FULL | SERVICE_SEND_NOT_FOUND
| SERVICE_SEND_STOPPING | SERVICE_SEND_STOPPED.

#[export] Instance send_result_eq_dec : EqDecision send_result.
Proof. solve_decision. Defined.

(** errno values *)
Definition ENOENT : Z := 2.
Definition ENOMEM : Z := 12.
Definition EBUSY : Z := 16.
Definition EINVAL : Z := 22.
Definition EDEADLK : Z := 35.
Definition EALREADY : Z := 114.
Definition ECANCELED : Z := 125.

(** An async handle: closed (or not initialised yet), active with its pending
    flag, or closing until its close callback runs. *)
Inductive handle := HClosed | HActive (pending : bool) | HClosing.

#[export] Instance handle_eq_dec : EqDecision handle.
Proof. solve_decision. Defined.

Inductive condvar := PinsChanged | StateChanged (s : Z).

#[export] Instance condvar_eq_dec : EqDecision condvar.
Proof. solve_decision. Defined.

(** Who touched a mailbox that was deleted, or a handle that is not active. *)
Inductive access :=
| AccPush | AccPop | AccFinish | AccOverload | AccShutdown
| AccStopClose | AccStartClose | AccDelete
| AccNotify | AccStart | AccContinue | AccStopNotify.

Inductive fault :=
| Fault (a : access) (s : Z)
| FaultFree (p : Z).

(** Fields protected by [pool->lock]. *)
Record route := Route {
  rt_routable : bool;
  rt_send_pins : Z
}.

(** Fields protected by [state_lock]. *)
Record status := Status {
  st_state : service_state;
  st_stop_requested : bool;
  st_start_done : bool;
  st_thread_created : bool;
  st_joining : bool;
  st_thread_joined : bool;
  st_start_error : Z;
  st_join_error : Z;
  st_exit_error : option (list Z);
  st_loop_ready : bool;
  st_inbox_async_ready : bool;
  st_control_async_ready : bool
}.

(** The resources a service holds until it is freed: [ru_source] and
    [ru_config] are heap blocks, [ru_inbox] says whether [service->inbox] is not
    NULL and [ru_box] is the mailbox itself, [None] once deleted. *)
Record runtime := Runtime {
  ru_source : option Z;
  ru_config : option Z;
  ru_inbox : bool;
  ru_box : option queue;
  ru_L : bool;
  ru_func_ref : bool
}.

(** libuv's side: the loop, the two async handles, whether Lua has handles of
    its own on the loop. *)
Record uvloop := UvLoop {
  lo_open : bool;
  lo_inbox_handle : handle;
  lo_control_handle : handle;
  lo_user_handles : bool
}.

(** A service; its id is its key in the pool.  [sv_exited] is pthread's side of
    [service->thread]: the thread has returned. *)
Record service := Service {
  sv_name : list Z;
  sv_route : route;
  sv_status : status;
  sv_runtime : runtime;
  sv_loop : uvloop;
  sv_exited : bool
}.

(** The pool and what surrounds it: the live heap blocks, the threads waiting
    on a condition variable, and the misuses of freed or closed objects. *)
Record sys := Sys {
  sy_services : gmap Z service;
  sy_next_id : Z;
  sy_heap : gset Z;
  sy_waiting : gmap nat condvar;
  sy_faults : list fault
}.

(** Assignments to single fields. *)
Definition set_routable (v : bool) (x : route) : route :=
  Route v (rt_send_pins x).
Definition set_send_pins (v : Z) (x : route) : route :=
  Route (rt_routable x) v.
Definition set_state (v : service_state) (x : status) : status :=
  Status v (st_stop_requested x) (st_start_done x) (st_thread_created x) (st_joining x)
    (st_thread_joined x) (st_start_error x) (st_join_error x) (st_exit_error x) (st_loop_ready x)
    (st_inbox_async_ready x) (st_control_async_ready x).
Definition set_stop_requested (v : bool) (x : status) : status :=
  Status (st_state x) v (st_start_done x) (st_thread_created x) (st_joining x)
    (st_thread_joined x) (st_start_error x) (st_join_error x) (st_exit_error x) (st_loop_ready x)
    (st_inbox_async_ready x) (st_control_async_ready x).
Definition set_start_done (v : bool) (x : status) : status :=
  Status (st_state x) (st_stop_requested x) v (st_thread_created x) (st_joining x)
    (st_thread_joined x) (st_start_error x) (st_join_error x) (st_exit_error x) (st_loop_ready x)
    (st_inbox_async_ready x) (st_control_async_ready x).
Definition set_thread_created (v : bool) (x : status) : status :=
  Status (st_state x) (st_stop_requested x) (st_start_done x) v (st_joining x)
    (st_thread_joined x) (st_start_error x) (st_join_error x) (st_exit_error x) (st_loop_ready x)
    (st_inbox_async_ready x) (st_control_async_ready x).
Definition set_joining (v : bool) (x : status) : status :=
  Status (st_state x) (st_stop_requested x) (st_start_done x) (st_thread_created x) v
    (st_thread_joined x) (st_start_error x) (st_join_error x) (st_exit_error x) (st_loop_ready x)
    (st_inbox_async_ready x) (st_control_async_ready x).
Definition set_thread_joined (v : bool) (x : status) : status :=
  Status (st_state x) (st_stop_requested x) (st_start_done x) (st_thread_created x) (st_joining x)
    v (st_start_error x) (st_join_error x) (st_exit_error x) (st_loop_ready x)
    (st_inbox_async_ready x) (st_control_async_ready x).
Definition set_start_error (v : Z) (x : status) : status :=
  Status (st_state x) (st_stop_requested x) (st_start_done x) (st_thread_created x) (st_joining x)
    (st_thread_joined x) v (st_join_error x) (st_exit_error x) (st_loop_ready x)
    (st_inbox_async_ready x) (st_control_async_ready x).
Definition set_join_error (v : Z) (x : status) : status :=
  Status (st_state x) (st_stop_requested x) (st_start_done x) (st_thread_created x) (st_joining x)
    (st_thread_joined x) (st_start_error x) v (st_exit_error x) (st_loop_ready x)
    (st_inbox_async_ready x) (st_control_async_ready x).
Definition set_exit_error (v : option (list Z)) (x : status) : status :=
  Status (st_state x) (st_stop_requested x) (st_start_done x) (st_thread_created x) (st_joining x)
    (st_thread_joined x) (st_start_error x) (st_join_error x) v (st_loop_ready x)
    (st_inbox_async_ready x) (st_control_async_ready x).
Definition set_loop_ready (v : bool) (x : status) : status :=
  Status (st_state x) (st_stop_requested x) (st_start_done x) (st_thread_created x) (st_joining x)
    (st_thread_joined x) (st_start_error x) (st_join_error x) (st_exit_error x) v
    (st_inbox_async_ready x) (st_control_async_ready x).
Definition set_inbox_async_ready (v : bool) (x : status) : status :=
  Status (st_state x) (st_stop_requested x) (st_start_done x) (st_thread_created x) (st_joining x)
    (st_thread_joined x) (st_start_error x) (st_join_error x) (st_exit_error x) (st_loop_ready x)
    v (st_control_async_ready x).
Definition set_control_async_ready (v : bool) (x : status) : status :=
  Status (st_state x) (st_stop_requested x) (st_start_done x) (st_thread_created x) (st_joining x)
    (st_thread_joined x) (st_start_error x) (st_join_error x) (st_exit_error x) (st_loop_ready x)
    (st_inbox_async_ready x) v.
Definition set_source (v : option Z) (x : runtime) : runtime :=
  Runtime v (ru_config x) (ru_inbox x) (ru_box x) (ru_L x) (ru_func_ref x).
Definition set_config (v : option Z) (x : runtime) : runtime :=
  Runtime (ru_source x) v (ru_inbox x) (ru_box x) (ru_L x) (ru_func_ref x).
Definition set_inbox (v : bool) (x : runtime) : runtime :=
  Runtime (ru_source x) (ru_config x) v (ru_box x) (ru_L x) (ru_func_ref x).
Definition set_box (v : option queue) (x : runtime) : runtime :=
  Runtime (ru_source x) (ru_config x) (ru_inbox x) v (ru_L x) (ru_func_ref x).
Definition set_L (v : bool) (x : runtime) : runtime :=
  Runtime (ru_source x) (ru_config x) (ru_inbox x) (ru_box x) v (ru_func_ref x).
Definition set_func_ref (v : bool) (x : runtime) : runtime :=
  Runtime (ru_source x) (ru_config x) (ru_inbox x) (ru_box x) (ru_L x) v.
Definition set_open (v : bool) (x : uvloop) : uvloop :=
  UvLoop v (lo_inbox_handle x) (lo_control_handle x) (lo_user_handles x).
Definition set_inbox_handle (v : handle) (x : uvloop) : uvloop :=
  UvLoop (lo_open x) v (lo_control_handle x) (lo_user_handles x).
Definition set_control_handle (v : handle) (x : uvloop) : uvloop :=
  UvLoop (lo_open x) (lo_inbox_handle x) v (lo_user_handles x).
Definition set_user_handles (v : bool) (x : uvloop) : uvloop :=
  UvLoop (lo_open x) (lo_inbox_handle x) (lo_control_handle x) v.
Definition on_route (f : route -> route) (x : service) : service :=
  Service (sv_name x) (f (sv_route x)) (sv_status x) (sv_runtime x) (sv_loop x) (sv_exited x).
Definition on_status (f : status -> status) (x : service) : service :=
  Service (sv_name x) (sv_route x) (f (sv_status x)) (sv_runtime x) (sv_loop x) (sv_exited x).
Definition on_runtime (f : runtime -> runtime) (x : service) : service :=
  Service (sv_name x) (sv_route x) (sv_status x) (f (sv_runtime x)) (sv_loop x) (sv_exited x).
Definition on_loop (f : uvloop -> uvloop) (x : service) : service :=
  Service (sv_name x) (sv_route x) (sv_status x) (sv_runtime x) (f (sv_loop x)) (sv_exited x).
Definition set_exited (v : bool) (x : service) : service :=
  Service (sv_name x) (sv_route x) (sv_status x) (sv_runtime x) (sv_loop x) v.
Definition put_services (v : gmap Z service) (x : sys) : sys :=
  Sys v (sy_next_id x) (sy_heap x) (sy_waiting x) (sy_faults x).
Definition put_next_id (v : Z) (x : sys) : sys :=
  Sys (sy_services x) v (sy_heap x) (sy_waiting x) (sy_faults x).
Definition put_heap (v : gset Z) (x : sys) : sys :=
  Sys (sy_services x) (sy_next_id x) v (sy_waiting x) (sy_faults x).
Definition put_waiting (v : gmap nat condvar) (x : sys) : sys :=
  Sys (sy_services x) (sy_next_id x) (sy_heap x) v (sy_faults x).
Definition put_faults (v : list fault) (x : sys) : sys :=
  Sys (sy_services x) (sy_next_id x) (sy_heap x) (sy_waiting x) v.


(** ** Elementary accesses *)

Definition ret {A} (a : A) : prog sys A := Ret a.

(** A section on one service. *)
Definition on_service {X} (s : Z) (f : Z -> service -> X * service) (c : Z) (y : sys) : option (X * sys) :=
  match sy_services y !! s with
  | Some sv => let '(x, sv') := f c sv in Some (x, put_services (<[s := sv']> (sy_services y)) y)
  | None => None
  end.

Definition add_fault (f : fault) (y : sys) : sys := put_faults (f :: sy_faults y) y.

(** [pthread_cond_broadcast]: the threads waiting on [cv] may go on. *)
Definition broadcast (cv : condvar) (y : sys) : sys :=
  put_waiting (filter (fun e => snd e <> cv) (sy_waiting y)) y.

Definition broadcast_after {X} (cv : condvar) (f : Z -> sys -> option (X * sys)) (c : Z) (y : sys) :
    option (X * sys) :=
  match f c y with Some (x, y') => Some (x, broadcast cv y') | None => None end.

(** A critical section with a [pthread_cond_wait] loop: the section goes on
    when [ready] holds and otherwise the thread [self] waits on [cv]. *)
Definition wait_section {X} (self : nat) (cv : condvar) (s : Z) (ready : service -> bool)
    (f : Z -> service -> X * service) (c : Z) (y : sys) : option (option X * sys) :=
  match sy_services y !! s with
  | Some sv =>
    if ready sv then
      let '(x, sv') := f c sv in Some (Some x, put_services (<[s := sv']> (sy_services y)) y)
    else Some (None, put_waiting (<[self := cv]> (sy_waiting y)) y)
  | None => None
  end.

(** The end of a wait: after a broadcast, or spuriously. *)
Definition wake_section (self : nat) (c : Z) (y : sys) : option (unit * sys) :=
  match sy_waiting y !! self with
  | None => Some (tt, y)
  | Some _ => if c =? 1 then Some (tt, put_waiting (delete self (sy_waiting y)) y) else None
  end.

Definition wait_loop {X} (self : nat) (cv : condvar) (s : Z) (ready : service -> bool)
    (f : Z -> service -> X * service) : prog sys X :=
  loop (r <- section (wait_section self cv s ready f) ;;
        match r with
        | Some x => ret (Some x)
        | None => _ <- section (wake_section self) ;; ret None
        end).

(** A mailbox operation through the field [service->inbox], which must not be
    NULL, or through a copy of the pointer. *)
Definition mailbox_live (field : bool) (sv : service) : option queue :=
  if field && negb (ru_inbox (sv_runtime sv)) then None else ru_box (sv_runtime sv).

Definition mailbox_op {X} (a : access) (field : bool) (s : Z) (default : X)
    (f : Z -> queue -> X * queue) (c : Z) (y : sys) : option (X * sys) :=
  match sy_services y !! s with
  | Some sv =>
    match mailbox_live field sv with
    | Some q =>
      let '(x, q') := f c q in
      Some (x, put_services (<[s := on_runtime (set_box (Some q')) sv]> (sy_services y)) y)
    | None => Some (default, add_fault (Fault a s) y)
    end
  | None => None
  end.

(** [mailbox_try_push]: the choice 0 lets the growth's allocation fail. *)
Definition try_push (m : message) (c : Z) (q : queue) : (mailbox_result * bool) * queue :=
  if q_can_push PUSH_CAPACITY_MAX (negb (c =? 0)) q then q_push m q else ((MAILBOX_FULL, false), q).

(** ** libuv

    The functions of libuv the code calls are a parameter: what they return and
    leave of the loop, given the environment's choice.  [LibuvLaws] is what the
    code relies on, as libuv documents it: a call returns the error code the
    environment chooses and on 0 has its effect, on an error none; sending to an
    async handle needs an active one; only an active handle that is pending has
    its callback called, only a closing one its close callback; [uv_run]
    returns when no handle is left; the handles Lua opens and closes are other
    handles. *)

Definition async_handle (control : bool) (l : uvloop) : handle :=
  if control then lo_control_handle l else lo_inbox_handle l.
Definition set_async_handle (control : bool) (h : handle) : uvloop -> uvloop :=
  if control then set_control_handle h else set_inbox_handle h.

(** What the loop does next: the callback of an async handle, a close callback,
    the callback of a handle Lua opened; or it ends. *)
Inductive uv_event := EvAsync (control : bool) | EvClosed (control : bool) | EvUser | EvDone.

Class Libuv := {
  uv_loop_init : Z -> uvloop -> Z * uvloop;
  uv_async_init : bool -> Z -> uvloop -> Z * uvloop;
  uv_async_send : bool -> Z -> uvloop -> Z * uvloop;
  uv_is_closing : bool -> uvloop -> bool;
  uv_close : bool -> uvloop -> uvloop;
  uv_poll : Z -> uvloop -> option (uv_event * uvloop);
  uv_loop_close : Z -> uvloop -> Z * uvloop;
  uv_user : Z -> uvloop -> uvloop
}.

Class LibuvLaws `{Libuv} := {
  uv_loop_init_law c l : uv_loop_init c l = (c, if c =? 0 then set_open true l else l);
  uv_async_init_law control c l :
    uv_async_init control c l = (c, if c =? 0 then set_async_handle control (HActive false) l else l);
  uv_async_send_law control c l b : async_handle control l = HActive b ->
    uv_async_send control c l = (c, if c =? 0 then set_async_handle control (HActive true) l else l);
  uv_is_closing_law control l :
    uv_is_closing control l = match async_handle control l with HActive _ => false | _ => true end;
  uv_close_law control l b : async_handle control l = HActive b ->
    uv_close control l = set_async_handle control HClosing l;
  uv_poll_law c l e l' : uv_poll c l = Some (e, l') ->
    match e with
    | EvAsync control => async_handle control l = HActive true /\ l' = set_async_handle control (HActive false) l
    | EvClosed control => async_handle control l = HClosing /\ l' = set_async_handle control HClosed l
    | EvUser => l' = l
    | EvDone => l' = l /\ lo_inbox_handle l = HClosed /\ lo_control_handle l = HClosed /\ lo_user_handles l = false
    end;
  uv_loop_close_law c l : snd (uv_loop_close c l) = if fst (uv_loop_close c l) =? 0 then set_open false l else l;
  uv_user_law c l : exists b, uv_user c l = set_user_handles b l
}.

(** A call of a libuv function on the loop of a service. *)
Definition uv_call {X} (s : Z) (f : Z -> uvloop -> X * uvloop) : Z -> sys -> option (X * sys) :=
  on_service s (fun c sv => let '(x, l) := f c (sv_loop sv) in (x, on_loop (fun _ => l) sv)).

(** [uv_async_send] needs an active handle. *)
Definition async_send `{Libuv} (a : access) (control : bool) (s : Z) (c : Z) (y : sys) : option (Z * sys) :=
  match sy_services y !! s with
  | Some sv =>
    match async_handle control (sv_loop sv) with
    | HActive _ => uv_call s (uv_async_send control) c y
    | _ => Some (0, add_fault (Fault a s) y)
    end
  | None => None
  end.

(** [malloc]: the address chosen, [None] when it fails. *)
Definition malloc (c : Z) (y : sys) : option (option Z * sys) :=
  if (c <=? 0) || bool_decide (c ∈ sy_heap y) then Some (None, y)
  else Some (Some c, put_heap ({[c]} ∪ sy_heap y) y).

Definition free_block (p : option Z) (y : sys) : sys :=
  match c_free p (sy_heap y) with
  | Some h => put_heap h y
  | None => match p with Some a => add_fault (FaultFree a) y | None => y end
  end.

Definition free (p : option Z) (_ : Z) (y : sys) : option (unit * sys) := Some (tt, free_block p y).

(** An answer of the environment. *)
Definition choose (c : Z) (y : sys) : option (Z * sys) := Some (c, y).
