(* ===== verification/Service.v ===== *)
(** * Service: the functions of src/service.c as programs

    One definition per function, with the sections of the C code in its order:
    what runs under [pool->lock] or under [state_lock] is one section, and so is
    each call of a mailbox or libuv function.  A NULL service is [None].

    Lua code is not modelled: what a Lua function called through [lua_pcall]
    does with services is any sequence of the calls [api_call] lists, which the
    environment chooses. *)

From S2P Require Import Prelude Message Mailbox Queue MailboxCorrect Concur ServiceState.
#[local] Open Scope prog_scope.

#[local] Abbreviation prog := (prog sys).

Section Libuv.
Context `{U : Libuv}.

(** ** The pool *)

(** [service_pool_new]: no service, and what surrounds the pool is fresh; [ok]
    says that the allocation and the initialisations succeed. *)
Definition service_pool_new (ok : bool) : option sys :=
  if ok then Some (Sys ∅ 0 ∅ ∅ []) else None.

(** ** Reading fields *)

Definition read_service {X} (s : Z) (f : service -> X) : prog X :=
  section (on_service s (fun _ sv => (f sv, sv))).

Definition service_get_state (s : option Z) : prog service_state :=
  match s with
  | None => ret SERVICE_FREED
  | Some s => read_service s (fun sv => st_state (sv_status sv))
  end.

Definition service_get_exit_error (s : option Z) : prog (option (list Z)) :=
  match s with
  | None => ret None
  | Some s => read_service s (fun sv => st_exit_error (sv_status sv))
  end.

(** The loop's address is there or not. *)
Definition service_get_loop (s : option Z) : prog bool :=
  match s with
  | None => ret false
  | Some s => read_service s (fun sv => st_loop_ready (sv_status sv))
  end.

Definition service_get_async (s : option Z) : prog bool :=
  match s with
  | None => ret false
  | Some s => read_service s (fun sv => st_inbox_async_ready (sv_status sv))
  end.

Definition service_pool_get_service (pool : bool) (id : Z) : prog (option Z) :=
  if negb pool || (MAX_SERVICES <=? id) then ret None
  else section (fun _ y => Some (match sy_services y !! id with Some _ => Some id | None => None end, y)).

(** The loop of [service_pool_lookup_service]: ids from [id], [n] left. *)
Fixpoint find_routable (services : gmap Z service) (name : list Z) (id : Z) (n : nat) : option Z :=
  match n with
  | O => None
  | S n' =>
    match services !! id with
    | Some sv =>
      if rt_routable (sv_route sv) && bool_decide (sv_name sv = name) then Some id
      else find_routable services name (id + 1) n'
    | None => find_routable services name (id + 1) n'
    end
  end.

Definition service_pool_lookup_service (pool : bool) (name : option (list Z)) : prog (option Z) :=
  match pool, name with
  | true, Some name =>
    section (fun _ y => Some (find_routable (sy_services y) name 0 (Z.to_nat (sy_next_id y)), y))
  | _, _ => ret None
  end.

(** The copy of the message may fail to be allocated (choice 0). *)
Definition service_set_exit_error (s : option Z) (message : option (list Z)) : prog unit :=
  match s, message with
  | Some s, Some message =>
    copy <- section choose ;;
    if copy =? 0 then ret tt
    else
      section (on_service s (fun _ sv =>
        (tt, match st_exit_error (sv_status sv) with
             | None => on_status (set_exit_error (Some message)) sv
             | Some _ => sv
             end)))
  | _, _ => ret tt
  end.

(** ** Pins *)

Definition inactive_send_result (s : Z) : prog send_result :=
  state <- service_get_state (Some s) ;;
  ret (if state_code state <? state_code SERVICE_STOPPED then SERVICE_SEND_STOPPING
        else SERVICE_SEND_STOPPED).

(** [*out] is the second component; [None] of the section is no service. *)
Definition pin_section (id : Z) (_ : Z) (y : sys) : option (option bool * sys) :=
  match sy_services y !! id with
  | None => Some (None, y)
  | Some sv =>
    if rt_routable (sv_route sv) then
      Some (Some true,
            put_services (<[id := on_route (set_send_pins (wrapu 32 (rt_send_pins (sv_route sv) + 1))) sv]>
                            (sy_services y)) y)
    else Some (Some false, y)
  end.

Definition service_pool_pin (pool : bool) (id : Z) : prog (send_result * option Z) :=
  if negb pool || (MAX_SERVICES <=? id) then ret (SERVICE_SEND_NOT_FOUND, None)
  else
    pinned <- section (pin_section id) ;;
    match pinned with
    | None => ret (SERVICE_SEND_NOT_FOUND, None)
    | Some true => ret (SERVICE_SEND_OK, Some id)
    | Some false => result <- inactive_send_result id ;; ret (result, None)
    end.

Definition unpin_section (s : Z) (_ : Z) (y : sys) : option (unit * sys) :=
  match sy_services y !! s with
  | None => None
  | Some sv =>
    if 0 <? rt_send_pins (sv_route sv) then
      let pins := rt_send_pins (sv_route sv) - 1 in
      let y' := put_services (<[s := on_route (set_send_pins pins) sv]> (sy_services y)) y in
      Some (tt, if pins =? 0 then broadcast PinsChanged y' else y')
    else Some (tt, y)
  end.

Definition service_unpin (s : Z) : prog unit := section (unpin_section s).

Definition service_retire (s : Z) : prog unit :=
  section (on_service s (fun _ sv => (tt, on_route (set_routable false) sv))).

Definition service_wait_pins (self : nat) (s : Z) : prog unit :=
  wait_loop self PinsChanged s (fun sv => rt_send_pins (sv_route sv) =? 0) (fun _ sv => (tt, sv)).

(** ** Stopping and sending *)

(** The section of [service_stop]: whether to close the mailbox, and whether to
    signal the control handle. *)
Definition stop_section (s : Z) : Z -> sys -> option ((bool * bool) * sys) :=
  broadcast_after (StateChanged s) (on_service s (fun _ sv =>
    let st := sv_status sv in
    match st_state st with
    | SERVICE_NEW =>
      ((true, false),
       on_status (fun x => set_state SERVICE_STOPPED (set_start_error ECANCELED
                             (set_start_done true (set_stop_requested true x)))) sv)
    | SERVICE_STARTING | SERVICE_RUNNING =>
      let first_request := negb (st_stop_requested st) in
      ((true, first_request && st_control_async_ready st),
       on_status (fun x => set_state SERVICE_STOPPING (set_stop_requested true x)) sv)
    | SERVICE_STOPPING | SERVICE_STOPPED | SERVICE_JOINED | SERVICE_FREED => ((false, false), sv)
    end)).

Definition service_stop (s : option Z) : prog Z :=
  match s with
  | None => ret EINVAL
  | Some s =>
    _ <- service_retire s ;;
    let! (inbox, control) := section (stop_section s) in
    _ <- (if inbox then section (mailbox_op AccStopClose false s tt (fun _ q => q_close q)) else ret tt) ;;
    _ <- (if control then section (async_send AccStopNotify true s) else ret 0) ;;
    ret 0
  end.

Definition service_send (pool : bool) (m : option message) : prog send_result :=
  match m with
  | None => ret SERVICE_SEND_NOT_FOUND
  | Some m =>
    pin <- service_pool_pin pool (m_to m) ;;
    match pin with
    | (SERVICE_SEND_OK, Some s) =>
      let! (mailbox_result, notify) :=
        section (mailbox_op AccPush true s (MAILBOX_CLOSED, false) (try_push m)) in
      notify_error <-
        (if bool_decide (mailbox_result = MAILBOX_OK) && notify then
           async_ready <- read_service s (fun sv => st_inbox_async_ready (sv_status sv)) ;;
           if (async_ready : bool) then section (async_send AccNotify false s) else ret 0
         else ret 0) ;;
      result <-
        match mailbox_result with
        | MAILBOX_FULL => ret SERVICE_SEND_FULL
        | MAILBOX_CLOSED => inactive_send_result s
        | MAILBOX_OK => ret SERVICE_SEND_OK
        end ;;
      _ <- service_unpin s ;;
      _ <- (if notify_error =? 0 then ret 0 else service_stop (Some s)) ;;
      ret result
    | (result, _) => ret result
    end
  end.

Definition service_recv (s : option Z) (out : bool) : prog (option message) :=
  match s with
  | Some s =>
    if out then
      state <- service_get_state (Some s) ;;
      if bool_decide (state = SERVICE_RUNNING) then
        section (mailbox_op AccPop true s None (fun _ q => q_pop q))
      else ret None
    else ret None
  | None => ret None
  end.

(** ** Creating, freeing and joining *)

(** The thread that runs service [s]. *)
Definition service_thread (s : Z) : nat := Z.to_nat s.

Definition new_service (name : list Z) (source : Z) (config : option Z) (mailbox_size : Z) : service :=
  Service name (Route true 0)
    (Status SERVICE_NEW false false false false false 0 0 None false false false)
    (Runtime (Some source) config true (Some (queue_new mailbox_size)) false false)
    (UvLoop false HClosed HClosed false) false.

(** The registration under the pool's lock. *)
Definition register_section (name : list Z) (sv : service) (_ : Z) (y : sys) : option (option Z * sys) :=
  let id := sy_next_id y in
  if MAX_SERVICES <=? id then Some (None, y)
  else if bool_decide (name <> []) &&
          bool_decide (is_Some (find_routable (sy_services y) name 0 (Z.to_nat id)))
  then Some (None, y)
  else Some (Some id, put_next_id (id + 1) (put_services (<[id := sv]> (sy_services y)) y)).

(** The choice 0 is a failure of one of the allocations and initialisations
    before the copy of the source, whose undoing leaves nothing behind. *)
Definition service_new (pool : bool) (name : option (list Z)) (source : option (list Z))
    (config : option Z) (mailbox_size : Z) : prog (option Z) :=
  if negb pool || bool_decide (source = None) ||
     (mailbox_size <? SERVICE_MAILBOX_MIN_SIZE) || (SERVICE_MAILBOX_MAX_SIZE <? mailbox_size) ||
     match name with Some n => MAX_SERVICE_NAME_LEN <=? Z.of_nat (length n) | None => false end
  then ret None
  else
    allocated <- section choose ;;
    if allocated =? 0 then ret None
    else
      copy <- section malloc ;;
      match copy with
      | None => ret None
      | Some src =>
        let n := default [] name in
        id <- section (register_section n (new_service n src config mailbox_size)) ;;
        match id with
        | Some id => ret (Some id)
        | None => _ <- section (free (Some src)) ;; ret None
        end
      end.

(** [mailbox_delete]: the queued payloads are freed with the mailbox. *)
Definition delete_section (s : Z) (_ : Z) (y : sys) : option (unit * sys) :=
  match sy_services y !! s with
  | Some sv =>
    match ru_box (sv_runtime sv) with
    | Some q =>
      Some (tt, foldl (fun y a => free_block (Some a) y)
                  (put_services (<[s := on_runtime (set_box None) sv]> (sy_services y)) y) (q_payloads q))
    | None => Some (tt, add_fault (Fault AccDelete s) y)
    end
  | None => None
  end.

(** The section of [service_free]: what the fields held, unless it is busy. *)
Definition free_section (s : Z) : Z -> sys -> option (option (bool * option Z * option Z) * sys) :=
  broadcast_after (StateChanged s) (on_service s (fun _ sv =>
    if bool_decide (st_state (sv_status sv) = SERVICE_JOINED) then
      let ru := sv_runtime sv in
      (Some (ru_inbox ru, ru_source ru, ru_config ru),
       on_status (set_state SERVICE_FREED)
         (on_runtime (fun x => set_inbox false (set_source None (set_config None x))) sv))
    else (None, sv))).

Definition service_free (self : nat) (s : option Z) : prog Z :=
  match s with
  | None => ret EINVAL
  | Some s =>
    _ <- service_retire s ;;
    _ <- service_wait_pins self s ;;
    fields <- section (free_section s) ;;
    match fields with
    | None => ret EBUSY
    | Some (inbox, source, config) =>
      _ <- (if (inbox : bool) then section (delete_section s) else ret tt) ;;
      _ <- section (free source) ;;
      _ <- section (free config) ;;
      ret 0
    end
  end.

(** [service_join] up to its first unlock, once nobody else is joining: an
    error to return, or [None] and the caller is the joiner. *)
Definition join_claim (has_thread : bool) (_ : Z) (sv : service) : option Z * service :=
  let st := sv_status sv in
  if st_thread_joined st || bool_decide (st_state st = SERVICE_FREED) then (Some (st_join_error st), sv)
  else if negb has_thread && negb (bool_decide (st_state st = SERVICE_STOPPED)) then (Some EINVAL, sv)
  else (None, on_status (set_joining true) sv).

Definition not_joining (sv : service) : bool := negb (st_joining (sv_status sv)).

Inductive join_start := JoinDeadlock | JoinWait (has_thread : bool) | JoinClaimed (has_thread : bool) (r : option Z).

Definition join_section (self : nat) (s : Z) (c : Z) (y : sys) : option (join_start * sys) :=
  match sy_services y !! s with
  | Some sv =>
    let has_thread := st_thread_created (sv_status sv) in
    if has_thread && bool_decide (self = service_thread s) then Some (JoinDeadlock, y)
    else
      match wait_section self (StateChanged s) s not_joining (join_claim has_thread) c y with
      | Some (Some r, y') => Some (JoinClaimed has_thread r, y')
      | Some (None, y') => Some (JoinWait has_thread, y')
      | None => None
      end
  | None => None
  end.

(** [pthread_join]: returns once the thread has exited, or fails at once with
    the error the choice names. *)
Definition pthread_join (s : Z) (c : Z) (y : sys) : option (Z * sys) :=
  match sy_services y !! s with
  | Some sv =>
    if c =? 0 then (if sv_exited sv then Some (0, y) else None) else Some (c, y)
  | None => None
  end.

Definition joined_section (s error : Z) : Z -> sys -> option (unit * sys) :=
  on_service s (fun _ sv =>
    (tt, on_status (fun x =>
           let x1 := set_join_error error x in
           if error =? 0 then set_state SERVICE_JOINED (set_thread_joined true x1) else x1) sv)).

Definition join_end_section (s : Z) : Z -> sys -> option (unit * sys) :=
  broadcast_after (StateChanged s) (on_service s (fun _ sv => (tt, on_status (set_joining false) sv))).

Definition service_join (self : nat) (s : option Z) : prog Z :=
  match s with
  | None => ret EINVAL
  | Some s =>
    start <- section (join_section self s) ;;
    let! (has_thread, claim) :=
      match start with
      | JoinDeadlock => ret (true, Some EDEADLK)
      | JoinClaimed has_thread r => ret (has_thread, r)
      | JoinWait has_thread =>
        _ <- section (wake_section self) ;;
        r <- wait_loop self (StateChanged s) s not_joining (join_claim has_thread) ;;
        ret (has_thread, r)
      end in
    match claim with
    | Some error => ret error
    | None =>
      error <- (if (has_thread : bool) then section (pthread_join s) else ret 0) ;;
      _ <- section (joined_section s error) ;;
      error <- (if error =? 0 then service_free self (Some s) else ret error) ;;
      _ <- section (join_end_section s) ;;
      ret error
    end
  end.

(** ** Starting *)

(** The section of [service_start] up to its wait: [pthread_create] fails with
    the error the choice names. *)
Definition start_section (s : Z) (c : Z) (y : sys) : option (option (option Z) * sys) :=
  match sy_services y !! s with
  | Some sv =>
    if negb (bool_decide (st_state (sv_status sv) = SERVICE_NEW)) then Some (Some None, y)
    else if c =? 0 then
      Some (None, put_services (<[s := on_status (fun x =>
        set_thread_created true (set_state SERVICE_STARTING x)) sv]> (sy_services y)) y)
    else
      Some (Some (Some c), broadcast (StateChanged s) (put_services (<[s := on_status (fun x =>
        set_start_error c (set_start_done true (set_state SERVICE_STOPPED x))) sv]> (sy_services y)) y))
  | None => None
  end.

Definition service_start (self : nat) (s : option Z) : prog Z :=
  match s with
  | None => ret EINVAL
  | Some s =>
    started <- section (start_section s) ;;
    match started with
    | Some None => ret EALREADY
    | Some (Some error) =>
      _ <- service_retire s ;;
      _ <- section (mailbox_op AccStartClose true s tt (fun _ q => q_close q)) ;;
      ret error
    | None =>
      wait_loop self (StateChanged s) s (fun sv => st_start_done (sv_status sv))
        (fun _ sv => (st_start_error (sv_status sv), sv))
    end
  end.

(** ** What Lua code does with services *)

Inductive api_call :=
| ApiSend (m : message)       (* with a payload allocated for it when [m_sz] is not 0 *)
| ApiRecv                     (* of the thread's own service; the payload is unpacked and freed *)
| ApiStart (s : Z)
| ApiStop (s : Z)
| ApiJoin (s : Z)
| ApiFree (s : Z)
| ApiNew (name : option (list Z)) (mailbox_size : Z)
| ApiSetExitError (s : Z) (message : list Z)
| ApiLookup (name : list Z)
| ApiGet (s : Z)
| ApiUvOpen (s : Z).          (* luv opens or closes handles of its own on the loop *)

(** [lservice_send_message] after its argument checks: a message that was not
    accepted is disposed of. *)
Definition send_message (m : message) : prog send_result :=
  result <- service_send true (Some m) ;;
  _ <- (if bool_decide (result = SERVICE_SEND_OK) then ret tt else section (free (m_msg m))) ;;
  ret result.

Definition existing (s : Z) (p : prog unit) : prog unit :=
  id <- service_pool_get_service true s ;; match id with Some _ => p | None => ret tt end.

Definition forget {A} (p : prog A) : prog unit := _ <- p ;; ret tt.

Definition api (self : nat) (call : api_call) : prog unit :=
  match call with
  | ApiSend m =>
    payload <- (if m_sz m =? 0 then ret None else section malloc) ;;
    forget (send_message (Message (m_from m) (m_to m) (m_session m) (m_type m) payload (m_sz m)))
  | ApiRecv =>
    let s := Z.of_nat self in
    existing s (m <- service_recv (Some s) true ;;
                match m with Some m => section (free (m_msg m)) | None => ret tt end)
  | ApiStart s => existing s (forget (service_start self (Some s)))
  | ApiStop s => existing s (forget (service_stop (Some s)))
  | ApiJoin s => existing s (forget (service_join self (Some s)))
  | ApiFree s => existing s (forget (service_free self (Some s)))
  | ApiNew name size =>
    config <- section malloc ;;
    id <- service_new true name (Some []) config size ;;
    match id with Some _ => ret tt | None => section (free config) end
  | ApiSetExitError s e => existing s (service_set_exit_error (Some s) (Some e))
  | ApiLookup name => forget (service_pool_lookup_service true (Some name))
  | ApiGet s => existing s (forget (read_service s (fun sv => sv_name sv)))
  | ApiUvOpen s => existing s (section (uv_call s (fun c l => (tt, uv_user c l))))
  end.

(** A client thread: a list of calls. *)
Fixpoint client (self : nat) (calls : list api_call) : prog unit :=
  match calls with
  | [] => ret tt
  | call :: calls' => _ <- api self call ;; client self calls'
  end.

Section Thread.
(** The call a choice of the environment stands for. *)
Variable lua_call : Z -> option api_call.
(** The message of the error a choice stands for. *)
Variable lua_error : Z -> list Z.

(** Lua code: calls until the environment makes it return; what it returns is
    the last choice. *)
Definition lua_pcall (self : nat) : prog Z :=
  loop (c <- section choose ;;
        match lua_call c with
        | Some call => _ <- api self call ;; ret None
        | None => ret (Some c)
        end).

(** ** The service's thread *)

Definition set_field (s : Z) (f : service -> service) : prog unit :=
  section (on_service s (fun _ sv => (tt, f sv))).

Definition service_init_loop (s : Z) : prog Z :=
  error <- section (uv_call s uv_loop_init) ;;
  if negb (error =? 0) then ret error
  else
    _ <- set_field s (on_status (set_loop_ready true)) ;;
    error <- section (uv_call s (uv_async_init false)) ;;
    if negb (error =? 0) then ret error
    else
      _ <- set_field s (on_status (set_inbox_async_ready true)) ;;
      error <- section (uv_call s (uv_async_init true)) ;;
      if negb (error =? 0) then ret error
      else
        _ <- set_field s (on_status (set_control_async_ready true)) ;;
        ret 0.

(** [free(service->config); service->config = NULL]. *)
Definition release_config (s : Z) : prog unit :=
  config <- read_service s (fun sv => ru_config (sv_runtime sv)) ;;
  _ <- section (free config) ;;
  set_field s (on_runtime (set_config None)).

(** The steps of [service_init_lua] in order: the choices 0 are the failures of
    [luaL_newstate], of the load and of the binding of the module, [luv] is what
    [service_load_luv] returns; the main chunk fails when its code returns a
    multiple of 4, gives a table (to be normalised) on 1 modulo 4 and something
    that is no handler on 2 modulo 4. *)
Definition service_init_lua (self : nat) (s : Z) : prog Z :=
  L <- section choose ;;
  if L =? 0 then ret ENOMEM
  else
    _ <- set_field s (on_runtime (set_L true)) ;;
    loaded <- section choose ;;
    if loaded =? 0 then ret EINVAL
    else
      luv <- section choose ;;
      if luv <? 0 then ret EINVAL
      else
        bound <- lua_pcall self ;;
        if bound =? 0 then _ <- release_config s ;; ret EINVAL
        else
          result <- lua_pcall self ;;
          if result mod 4 =? 0 then _ <- release_config s ;; ret EINVAL
          else
            normalized <- (if result mod 4 =? 1 then lua_pcall self else ret 1) ;;
            if normalized =? 0 then _ <- release_config s ;; ret EINVAL
            else
              _ <- release_config s ;;
              if result mod 4 =? 2 then ret EINVAL
              else
                _ <- set_field s (on_runtime (set_func_ref true)) ;;
                ret 0.

(** The [ERROR] reply to a request. *)
Definition drain_reply (s : Z) (m : message) : message :=
  Message s (m_from m) (m_session m) (message_type_code MESSAGE_ERROR) None 0.

Definition needs_reply (m : message) : bool :=
  (m_type m =? message_type_code MESSAGE_REQUEST) && (0 <? m_session m).

Definition service_drain_mailbox (s : Z) : prog unit :=
  loop (m <- section (mailbox_op AccShutdown true s None (fun _ q => q_pop q)) ;;
        match m with
        | None => ret (Some tt)
        | Some m =>
          _ <- (if needs_reply m then forget (service_send true (Some (drain_reply s m))) else ret tt) ;;
          _ <- section (free (m_msg m)) ;;
          ret None
        end).

Definition service_notify_lua_stop (self : nat) (s : Z) : prog unit :=
  handler <- read_service s (fun sv => ru_L (sv_runtime sv) && ru_func_ref (sv_runtime sv)) ;;
  if (handler : bool) then forget (lua_pcall self) else ret tt.

(** With a Lua state, the functions of luv are called to close the handles Lua
    opened: which of them they close is up to luv. *)
Definition service_close_luv_handles (s : Z) : prog unit :=
  section (on_service s (fun c sv =>
    (tt, if ru_L (sv_runtime sv) then on_loop (uv_user c) sv else sv))).

Definition handles_closed (sv : service) : bool :=
  negb (st_inbox_async_ready (sv_status sv)) && negb (st_control_async_ready (sv_status sv)).

Definition service_runtime_handles_closed (s : Z) : prog bool := read_service s handles_closed.

Definition service_runtime_handle_closed (s : Z) (control : bool) : prog unit :=
  closed <- section (on_service s (fun _ sv =>
    let sv' := on_status (if control then set_control_async_ready false else set_inbox_async_ready false) sv in
    (handles_closed sv', sv'))) ;;
  if (closed : bool) then service_close_luv_handles s else ret tt.

(** [if (ready && !uv_is_closing(handle)) uv_close(handle)]. *)
Definition close_runtime_handle (control : bool) (s : Z) : prog unit :=
  set_field s (fun sv =>
    if (if control then st_control_async_ready (sv_status sv) else st_inbox_async_ready (sv_status sv)) then
      if negb (uv_is_closing control (sv_loop sv)) then on_loop (uv_close control) sv else sv
    else sv).

Definition service_close_runtime_handles (s : Z) : prog unit :=
  _ <- close_runtime_handle false s ;; close_runtime_handle true s.

Definition service_prepare_shutdown (self : nat) (s : Z) : prog unit :=
  _ <- service_retire s ;;
  _ <- section (mailbox_op AccShutdown true s tt (fun _ q => q_close q)) ;;
  _ <- service_wait_pins self s ;;
  service_drain_mailbox s.

Definition service_control_cb (self : nat) (s : Z) : prog unit :=
  stopping <- read_service s (fun sv => st_stop_requested (sv_status sv)) ;;
  if (stopping : bool) then
    _ <- service_prepare_shutdown self s ;; service_close_runtime_handles s
  else ret tt.

(** The dispatcher fails when its code returns no positive number and asks for
    another batch when it returns 1. *)
Definition service_async_cb (self : nat) (s : Z) : prog unit :=
  state <- service_get_state (Some s) ;;
  if negb (bool_decide (state = SERVICE_RUNNING)) then ret tt
  else
    handler <- read_service s (fun sv => ru_L (sv_runtime sv) && ru_func_ref (sv_runtime sv)) ;;
    if negb (handler : bool) then ret tt
    else
      result <- lua_pcall self ;;
      _ <- (if result <=? 0 then service_set_exit_error (Some s) (Some (lua_error result)) else ret tt) ;;
      _ <- section (mailbox_op AccOverload true s 0 (fun _ q => q_take_overload q)) ;;
      if result <=? 0 then forget (service_stop (Some s))
      else if result =? 1 then
        more <- section (mailbox_op AccFinish true s false (fun _ q => q_finish_batch q)) ;;
        if (more : bool) then
          error <- section (async_send AccContinue false s) ;;
          if error =? 0 then ret tt else forget (service_stop (Some s))
        else ret tt
      else ret tt.

(** The next callback of the loop. *)
Definition uv_next (s : Z) (c : Z) (y : sys) : option (uv_event * sys) :=
  match sy_services y !! s with
  | None => None
  | Some sv =>
    match uv_poll c (sv_loop sv) with
    | Some (e, l) => Some (e, put_services (<[s := on_loop (fun _ => l) sv]> (sy_services y)) y)
    | None => None
    end
  end.

(** [uv_run] calls the callbacks of this file, until no handle is left. *)
Definition uv_run (self : nat) (s : Z) : prog unit :=
  loop (event <- section (uv_next s) ;;
        match event with
        | EvAsync false => _ <- service_async_cb self s ;; ret None
        | EvAsync true => _ <- service_control_cb self s ;; ret None
        | EvClosed control => _ <- service_runtime_handle_closed s control ;; ret None
        | EvUser => _ <- lua_pcall self ;; ret None
        | EvDone => ret (Some tt)
        end).

Definition stopped_section (s : Z) : Z -> sys -> option (unit * sys) :=
  broadcast_after (StateChanged s) (on_service s (fun _ sv =>
    (tt, on_status (fun x => set_state SERVICE_STOPPED (set_control_async_ready false
           (set_inbox_async_ready false (set_loop_ready false x)))) sv))).

Definition service_finish_thread (self : nat) (s : Z) : prog unit :=
  loop_ready <- section (on_service s (fun _ sv =>
    let st := sv_status sv in
    (st_loop_ready st,
     if state_code (st_state st) <? state_code SERVICE_STOPPING
     then on_status (set_state SERVICE_STOPPING) sv else sv))) ;;
  _ <- service_prepare_shutdown self s ;;
  _ <- service_notify_lua_stop self s ;;
  _ <- (if (loop_ready : bool) then
          loop (_ <- service_close_runtime_handles s ;;
                closed <- service_runtime_handles_closed s ;;
                _ <- (if (closed : bool) then service_close_luv_handles s else ret tt) ;;
                _ <- uv_run self s ;;
                error <- section (uv_call s uv_loop_close) ;;
                ret (if error =? 0 then Some tt else None))
        else ret tt) ;;
  _ <- set_field s (on_runtime (fun x => set_L false (set_func_ref false x))) ;;
  section (stopped_section s).

(** The section that decides whether the service runs. *)
Definition started_section (s error : Z) : Z -> sys -> option (bool * sys) :=
  broadcast_after (StateChanged s) (on_service s (fun _ sv =>
    if (error =? 0) && negb (st_stop_requested (sv_status sv)) then
      (true, on_status (fun x => set_start_done true (set_start_error 0 (set_state SERVICE_RUNNING x))) sv)
    else
      (false, on_status (fun x => set_start_done true
         (set_start_error (if error =? 0 then ECANCELED else error) (set_state SERVICE_STOPPING x))) sv))).

(** The thread waits to be created, and exits at the end. *)
Definition thread_created (s : Z) (_ : Z) (y : sys) : option (unit * sys) :=
  match sy_services y !! s with
  | Some sv => if st_thread_created (sv_status sv) then Some (tt, y) else None
  | None => None
  end.

Definition service_thread_main (self : nat) (s : Z) : prog unit :=
  _ <- section (thread_created s) ;;
  error <- service_init_loop s ;;
  stop_requested <- read_service s (fun sv => st_stop_requested (sv_status sv)) ;;
  error <- (if (error =? 0) && negb (stop_requested : bool) then service_init_lua self s else ret error) ;;
  running <- section (started_section s error) ;;
  _ <- (if (running : bool) then _ <- section (async_send AccStart false s) ;; uv_run self s else ret tt) ;;
  _ <- service_finish_thread self s ;;
  set_field s (set_exited true).
End Thread.

(** ** Deleting the pool *)

(** The loops of [service_pool_delete] over the ids. *)
Fixpoint stop_all (id : Z) (n : nat) : prog unit :=
  match n with
  | O => ret tt
  | S n' => _ <- service_stop (Some id) ;; stop_all (id + 1) n'
  end.

Fixpoint join_all (self : nat) (id : Z) (n : nat) : prog bool :=
  match n with
  | O => ret true
  | S n' =>
    error <- service_join self (Some id) ;;
    if error =? 0 then join_all self (id + 1) n' else ret false
  end.

(** The services' structures and the pool itself are freed. *)
Definition service_pool_delete (self : nat) (pool : bool) : prog unit :=
  if pool then
    n <- section (fun _ y => Some (Z.to_nat (sy_next_id y), y)) ;;
    _ <- stop_all 0 n ;;
    joined <- join_all self 0 n ;;
    if (joined : bool) then section (fun _ y => Some (tt, put_services ∅ (put_next_id 0 y))) else ret tt
  else ret tt.
End Libuv.
