(* ===== verification/ServiceInv.v ===== *)
(** * ServiceInv: the invariant of one service

    What a thread may hold of a service: a pin, the right to join it or to
    delete its mailbox, something it saw that stays true; and the phase of the
    service's own thread.  [svc_inv] ties how many of each are held to the
    fields of the service; the lemmas show that each change the functions of
    [service.c] make to a service keeps it. *)

From S2P Require Import Prelude Message Mailbox Queue MailboxCorrect Concur ServiceState Service.

(** ** What threads hold *)

(** The phases of a service's thread: waiting to be created; before the inbox
    handle is initialised, before its flag is set, up to the section that
    publishes the outcome of the start ([PhTaken]: while it releases the
    configuration); running; stopping, with the mailbox
    drained, with the inbox handle closed; after the section that stops the
    service; gone.  Other threads are in [PhNone]. *)
Inductive phase :=
| PhNone | PhDormant | PhInit | PhAsync | PhReady | PhTaken | PhRun | PhFinish | PhDrained | PhClosing
| PhStopped | PhExited.

Definition phase_code (ph : phase) : Z :=
  match ph with
  | PhNone => -1 | PhDormant => 0 | PhInit => 1 | PhAsync => 2 | PhReady => 3 | PhTaken => 3 | PhRun => 4
  | PhFinish => 5 | PhDrained => 6 | PhClosing => 7 | PhStopped => 8 | PhExited => 9
  end.

(** The tokens about a service. *)
Inductive kind :=
| KPin       (* counted in send_pins *)
| KAsync     (* the same, and the inbox handle was ready *)
| KJoin      (* joining, before the thread is known to have exited *)
| KReady     (* joining, the thread has exited or never was *)
| KJoined    (* joining, after join_error is set *)
| KFree      (* about to delete the mailbox *)
| KRetired   (* seen: not routable *)
| KQuiet     (* seen: not routable and without a pin *)
| KClosed    (* seen: the mailbox is closed *)
| KThread    (* seen: it has a thread *)
| KNoThread. (* seen: stopped without a thread *)

Definition kind_eqb (k k' : kind) : bool :=
  match k, k' with
  | KPin, KPin | KAsync, KAsync | KJoin, KJoin | KReady, KReady | KJoined, KJoined | KFree, KFree
  | KRetired, KRetired | KQuiet, KQuiet | KClosed, KClosed | KThread, KThread | KNoThread, KNoThread => true
  | _, _ => false
  end.

(** A token about a service, or a heap block. *)
Inductive token := TSvc (k : kind) (s : Z) | TBlock (a : Z).

Definition token_eqb (t t' : token) : bool :=
  match t, t' with
  | TSvc k s, TSvc k' s' => kind_eqb k k' && (s =? s')
  | TBlock a, TBlock a' => a =? a'
  | _, _ => false
  end.

Record res := Res { r_phase : phase; r_toks : list token }.

Fixpoint held (ts : list token) (t : token) : nat :=
  match ts with [] => O | t' :: ts' => (Nat.b2n (token_eqb t' t) + held ts' t)%nat end.

Definition is_pin (t : token) : bool := match t with TSvc KPin _ | TSvc KAsync _ => true | _ => false end.

Fixpoint pins (ts : list token) : nat :=
  match ts with [] => O | t :: ts' => (Nat.b2n (is_pin t) + pins ts')%nat end.

(** How many of a token all the threads hold. *)
Fixpoint total (rs : list res) (t : token) : nat :=
  match rs with [] => O | r :: rs' => (held (r_toks r) t + total rs' t)%nat end.

Definition phase_of (s : Z) (rs : list res) : phase :=
  match rs !! service_thread s with Some r => r_phase r | None => PhNone end.

Lemma total_insert rs i r r' t :
  rs !! i = Some r -> (total (<[i := r']> rs) t + held (r_toks r) t = total rs t + held (r_toks r') t)%nat.
Proof.
  revert i. induction rs as [|r0 rs IH]; intros i Hi; [done|].
  destruct i as [|i]; cbn in Hi; [simplify_eq; cbn; lia|].
  specialize (IH i Hi). change (<[S i:=r']> (r0 :: rs)) with (r0 :: <[i:=r']> rs). cbn. lia.
Qed.

Lemma total_held rs i r t : rs !! i = Some r -> (held (r_toks r) t <= total rs t)%nat.
Proof.
  revert i. induction rs as [|r0 rs IH]; intros [|i] Hi; cbn in *; simplify_eq; [lia|].
  specialize (IH i Hi). lia.
Qed.

Lemma held_pins ts s : (held ts (TSvc KPin s) + held ts (TSvc KAsync s) <= pins ts)%nat.
Proof. induction ts as [|[[] s'|a] ts IH]; cbn; try lia; destruct (s' =? s); cbn; lia. Qed.

Lemma total_pins rs s :
  (forall i r, rs !! i = Some r -> (pins (r_toks r) <= 1)%nat) -> (total rs (TSvc KPin s) + total rs (TSvc KAsync s) <= length rs)%nat.
Proof.
  induction rs as [|r rs IH]; intros H; cbn; [lia|].
  pose proof (H 0%nat r eq_refl). pose proof (held_pins (r_toks r) s). specialize (IH (fun i => H (S i))). lia.
Qed.

Lemma phase_of_insert s rs i r r' :
  rs !! i = Some r ->
  phase_of s (<[i := r']> rs) = if decide (i = service_thread s) then r_phase r' else phase_of s rs.
Proof.
  intros Hi. unfold phase_of. destruct (decide (i = service_thread s)) as [<-|Hne].
  - by rewrite (list_lookup_insert_eq rs) by (by eapply lookup_lt_Some).
  - by rewrite (list_lookup_insert_ne rs).
Qed.

(** ** One service *)

Definition code (sv : service) : Z := state_code (st_state (sv_status sv)).
Definition handle_code (h : handle) : Z := match h with HClosed => 0 | HActive _ => 1 | HClosing => 2 end.
Definition inbox_code (sv : service) : Z := handle_code (lo_inbox_handle (sv_loop sv)).

Definition box_there (b : option queue) : bool := match b with Some _ => true | None => false end.
Definition box_closed (b : option queue) : bool := match b with Some q => q_closed q | None => true end.
Definition box_empty (b : option queue) : bool :=
  match b with Some q => match q_items q with [] => true | _ => false end | None => true end.

Record svc_inv (sv : service) (ph : phase) (n : kind -> nat) : Prop := SvcInv {
  si_pins : rt_send_pins (sv_route sv) = Z.of_nat (n KPin + n KAsync);
  si_async_active : (0 < n KAsync)%nat -> inbox_code sv = 1;
  si_joining : (n KJoin + n KReady + n KJoined)%nat = Nat.b2n (st_joining (sv_status sv));
  si_claim : (0 < n KJoin + n KReady)%nat -> st_thread_joined (sv_status sv) = false;
  si_ready : (0 < n KReady)%nat ->
    code sv = 4 /\ (st_thread_created (sv_status sv) = true -> phase_code ph = 9);
  si_free : (0 < n KFree)%nat -> n KFree = 1%nat /\ code sv = 6;
  si_box : box_there (ru_box (sv_runtime sv)) = true <-> code sv <> 6 \/ n KFree = 1%nat;
  si_inbox : ru_inbox (sv_runtime sv) = true <-> code sv <> 6;
  si_freed : code sv = 6 -> rt_routable (sv_route sv) = false /\ (n KPin + n KAsync)%nat = 0%nat;
  si_freed_fields : code sv = 6 -> ru_source (sv_runtime sv) = None /\ ru_config (sv_runtime sv) = None;
  si_retired : (0 < n KRetired)%nat -> rt_routable (sv_route sv) = false;
  si_quiet : (0 < n KQuiet)%nat -> rt_routable (sv_route sv) = false /\ (n KPin + n KAsync)%nat = 0%nat;
  si_closed : (0 < n KClosed)%nat -> box_closed (ru_box (sv_runtime sv)) = true;
  si_thread : (0 < n KThread)%nat -> st_thread_created (sv_status sv) = true;
  si_no_thread : (0 < n KNoThread)%nat -> st_thread_created (sv_status sv) = false /\ 4 <= code sv;
  si_stop_requested : st_stop_requested (sv_status sv) = true -> 3 <= code sv;
  si_joined : st_thread_joined (sv_status sv) = true <-> 5 <= code sv;
  si_joining_stopped :
    st_joining (sv_status sv) = true -> st_thread_created (sv_status sv) = false -> 4 <= code sv;
  si_exited : sv_exited sv = true <-> phase_code ph = 9;
  si_joined_exited : 5 <= code sv -> st_thread_created (sv_status sv) = true -> phase_code ph = 9;
  si_not_created : st_thread_created (sv_status sv) = false -> phase_code ph = 0 /\ (code sv = 0 \/ 4 <= code sv);
  si_starting : st_thread_created (sv_status sv) = true -> phase_code ph <= 3 ->
    (code sv = 1 \/ code sv = 3) /\ (st_stop_requested (sv_status sv) = false -> code sv = 1);
  si_run : phase_code ph = 4 -> code sv = 2 \/ code sv = 3;
  si_finish : 5 <= phase_code ph <= 7 -> code sv = 3;
  si_stopped : (phase_code ph = 8 -> code sv = 4) /\ (phase_code ph = 9 -> 4 <= code sv);
  si_phase : 0 <= phase_code ph;
  si_drained : 6 <= phase_code ph -> rt_routable (sv_route sv) = false /\ (n KPin + n KAsync)%nat = 0%nat /\
    box_closed (ru_box (sv_runtime sv)) = true /\ box_empty (ru_box (sv_runtime sv)) = true;
  si_handle_init : phase_code ph <= 1 -> inbox_code sv = 0 /\ st_inbox_async_ready (sv_status sv) = false;
  si_handle_async : phase_code ph = 2 -> inbox_code sv = 1 /\ st_inbox_async_ready (sv_status sv) = false;
  si_handle_run : 3 <= phase_code ph <= 4 -> inbox_code sv = 1 /\ st_inbox_async_ready (sv_status sv) = true;
  si_handle_finish : 5 <= phase_code ph <= 6 ->
    (st_inbox_async_ready (sv_status sv) = true -> inbox_code sv = 1) /\
    (st_inbox_async_ready (sv_status sv) = false -> inbox_code sv = 0);
  si_handle_closing : phase_code ph = 7 -> inbox_code sv <> 1
}.

Lemma svc_inv_ext sv ph n n' : (forall k, n k = n' k) -> svc_inv sv ph n -> svc_inv sv ph n'.
Proof. intros E []. constructor; rewrite <- ?E; assumption. Qed.

(** One more, or one fewer, of a token. *)
Definition n_add (k : kind) (n : kind -> nat) (k' : kind) : nat := (Nat.b2n (kind_eqb k k') + n k')%nat.
Definition n_del (k : kind) (n : kind -> nat) (k' : kind) : nat := (n k' - Nat.b2n (kind_eqb k k'))%nat.

(** ** Changes that keep the invariant *)

(** A clause the change does not touch is an assumption; the others are linear
    arithmetic and propositional reasoning over the fields it mentions. *)
Ltac svc_cbn :=
  unfold n_add, n_del, code, inbox_code;
  cbn [kind_eqb Nat.b2n Nat.add sv_name sv_route sv_status sv_runtime sv_loop
       on_route on_status on_runtime on_loop
       rt_routable rt_send_pins set_routable set_send_pins
       st_state st_stop_requested st_start_done st_thread_created st_joining st_thread_joined
       st_start_error st_join_error st_exit_error st_loop_ready st_inbox_async_ready st_control_async_ready
       set_state set_stop_requested set_start_done set_thread_created set_joining set_thread_joined
       set_start_error set_join_error set_exit_error set_loop_ready set_inbox_async_ready
       set_control_async_ready
       ru_source ru_config ru_inbox ru_box ru_L ru_func_ref
       set_source set_config set_inbox set_box set_L set_func_ref
       lo_open lo_inbox_handle lo_control_handle lo_user_handles sv_exited
       set_open set_inbox_handle set_control_handle set_user_handles set_exited
       set_async_handle async_handle
       state_code handle_code phase_code box_there box_closed box_empty].

Ltac svc_keep H := solve [destruct H; assumption].

(** Linear arithmetic with the named clauses. *)
Ltac svc_with H c := let K := fresh in pose proof (c _ _ _ H) as K; unfold code, inbox_code in K.
Ltac svc_forward :=
  repeat match goal with
  | H : _ /\ _ |- _ => destruct H
  | H : _ <-> _ |- _ => destruct H
  | H : ?A -> ?B |- _ =>
    match type of A with Prop => let K := fresh in assert (K : A) by first [lia | congruence]; specialize (H K); clear K end
  | H : _ \/ _ |- _ => destruct H
  end.
Ltac svc_split := intros; repeat match goal with |- _ /\ _ => split | |- _ <-> _ => split end; intros.
Ltac svc_lia :=
  unfold code, inbox_code in *; cbn [phase_code state_code handle_code] in *; svc_split; svc_forward;
  first [lia | congruence | exfalso; lia | tauto].
Tactic Notation "svc_by" constr(H) constr(c1) := svc_with H c1; svc_lia.
Tactic Notation "svc_by" constr(H) constr(c1) constr(c2) := svc_with H c1; svc_with H c2; svc_lia.
Tactic Notation "svc_by" constr(H) constr(c1) constr(c2) constr(c3) :=
  svc_with H c1; svc_with H c2; svc_with H c3; svc_lia.
Tactic Notation "svc_by" constr(H) constr(c1) constr(c2) constr(c3) constr(c4) :=
  svc_with H c1; svc_with H c2; svc_with H c3; svc_with H c4; svc_lia.

(** ... or with some clause. *)
Ltac svc_one H :=
  first [ svc_lia
        | svc_by H si_pins
        | svc_by H si_async_active
        | svc_by H si_joining
        | svc_by H si_claim
        | svc_by H si_ready
        | svc_by H si_free
        | svc_by H si_box
        | svc_by H si_inbox
        | svc_by H si_freed
        | svc_by H si_freed_fields
        | svc_by H si_retired
        | svc_by H si_quiet
        | svc_by H si_closed
        | svc_by H si_thread
        | svc_by H si_no_thread
        | svc_by H si_stop_requested
        | svc_by H si_joined
        | svc_by H si_joining_stopped
        | svc_by H si_exited
        | svc_by H si_joined_exited
        | svc_by H si_not_created
        | svc_by H si_starting
        | svc_by H si_run
        | svc_by H si_finish
        | svc_by H si_stopped
        | svc_by H si_phase
        | svc_by H si_drained
        | svc_by H si_handle_init
        | svc_by H si_handle_async
        | svc_by H si_handle_run
        | svc_by H si_handle_finish
        | svc_by H si_handle_closing ].

Ltac svc_clauses H := constructor; svc_cbn; try svc_keep H; try solve [svc_one H].

Lemma svc_pin sv ph n :
  svc_inv sv ph n -> rt_routable (sv_route sv) = true -> Z.of_nat (n KPin + n KAsync) < UINT32_MAX ->
  svc_inv (on_route (set_send_pins (wrapu 32 (rt_send_pins (sv_route sv) + 1))) sv) ph (n_add KPin n).
Proof.
  intros H Hr Hn. rewrite (si_pins _ _ _ H), wrapu_small by (unfold UINT32_MAX in *; lia).
  svc_clauses H.
Qed.

Lemma svc_unpin sv ph n :
  svc_inv sv ph n -> (0 < n KPin)%nat ->
  svc_inv (on_route (set_send_pins (rt_send_pins (sv_route sv) - 1)) sv) ph (n_del KPin n).
Proof. intros H Hn. svc_clauses H. Qed.

Lemma svc_async sv ph n :
  svc_inv sv ph n -> (0 < n KPin)%nat -> st_inbox_async_ready (sv_status sv) = true ->
  svc_inv sv ph (n_add KAsync (n_del KPin n)).
Proof.
  intros H Hn Hr. svc_clauses H. intros _.
  pose proof (si_phase _ _ _ H). pose proof (si_drained _ _ _ H). pose proof (si_handle_init _ _ _ H).
  pose proof (si_handle_async _ _ _ H).
  destruct ph; cbn [phase_code] in *; svc_by H si_handle_run si_handle_finish.
Qed.

Lemma svc_unasync sv ph n :
  svc_inv sv ph n -> (0 < n KAsync)%nat -> svc_inv sv ph (n_add KPin (n_del KAsync n)).
Proof. intros H Hn. svc_clauses H. Qed.

(** What was seen may be forgotten. *)
Definition seen (k : kind) : bool :=
  match k with KRetired | KQuiet | KClosed | KThread | KNoThread => true | _ => false end.

Lemma svc_drop k sv ph n : svc_inv sv ph n -> seen k = true -> svc_inv sv ph (n_del k n).
Proof. intros H Hk. destruct k; try discriminate Hk; svc_clauses H. Qed.

Lemma svc_retire sv ph n : svc_inv sv ph n -> svc_inv (on_route (set_routable false) sv) ph (n_add KRetired n).
Proof. intros H. svc_clauses H. Qed.

Lemma svc_wait_pins sv ph n :
  svc_inv sv ph n -> (0 < n KRetired)%nat -> rt_send_pins (sv_route sv) = 0 -> svc_inv sv ph (n_add KQuiet n).
Proof. intros H Hn Hp. svc_clauses H. svc_by H si_pins si_retired. Qed.

(** The fields the invariant speaks of. *)
Definition svc_same (sv sv' : service) : Prop :=
  sv_route sv' = sv_route sv /\
  st_state (sv_status sv') = st_state (sv_status sv) /\
  st_stop_requested (sv_status sv') = st_stop_requested (sv_status sv) /\
  st_thread_created (sv_status sv') = st_thread_created (sv_status sv) /\
  st_joining (sv_status sv') = st_joining (sv_status sv) /\
  st_thread_joined (sv_status sv') = st_thread_joined (sv_status sv) /\
  st_inbox_async_ready (sv_status sv') = st_inbox_async_ready (sv_status sv) /\
  ru_source (sv_runtime sv') = ru_source (sv_runtime sv) /\
  ru_config (sv_runtime sv') = ru_config (sv_runtime sv) /\
  ru_inbox (sv_runtime sv') = ru_inbox (sv_runtime sv) /\
  ru_box (sv_runtime sv') = ru_box (sv_runtime sv) /\
  inbox_code sv' = inbox_code sv /\
  sv_exited sv' = sv_exited sv.

Lemma svc_inv_same sv sv' ph n : svc_same sv sv' -> svc_inv sv ph n -> svc_inv sv' ph n.
Proof.
  intros (E1 & E2 & E3 & E4 & E5 & E6 & E7 & E8 & E9 & E10 & E11 & E12 & E13) [].
  constructor; unfold code in *; rewrite ?E1, ?E2, ?E3, ?E4, ?E5, ?E6, ?E7, ?E8, ?E9, ?E10, ?E11, ?E12, ?E13;
    assumption.
Qed.

(** What the phase says of the state. *)
Lemma svc_code_new sv ph n : svc_inv sv ph n -> code sv = 0 ->
  st_thread_created (sv_status sv) = false /\ phase_code ph = 0 /\ st_joining (sv_status sv) = false.
Proof.
  intros H Hc. pose proof (si_not_created _ _ _ H). pose proof (si_starting _ _ _ H). pose proof (si_run _ _ _ H).
  pose proof (si_finish _ _ _ H). pose proof (si_stopped _ _ _ H). pose proof (si_phase _ _ _ H).
  assert (st_thread_created (sv_status sv) = false /\ phase_code ph = 0) as [Ht Hp]
    by (destruct (st_thread_created (sv_status sv)), ph; svc_lia).
  split_and!; [done..|]. destruct (st_joining (sv_status sv)) eqn:E; [|done]. svc_by H si_joining_stopped.
Qed.

Lemma svc_live sv ph n : svc_inv sv ph n -> 1 <= phase_code ph <= 7 ->
  st_thread_created (sv_status sv) = true /\ 1 <= code sv <= 3 /\ (phase_code ph <= 3 -> code sv <> 2) /\
  st_thread_joined (sv_status sv) = false /\
  n KReady = 0%nat /\ n KFree = 0%nat /\ n KNoThread = 0%nat.
Proof.
  intros H Hp.
  assert (Ht : st_thread_created (sv_status sv) = true).
  { pose proof (si_not_created _ _ _ H). destruct (st_thread_created (sv_status sv)); [done|]. svc_lia. }
  assert (Hc : 1 <= code sv <= 3 /\ (phase_code ph <= 3 -> code sv <> 2)).
  { pose proof (si_starting _ _ _ H). pose proof (si_run _ _ _ H). pose proof (si_finish _ _ _ H).
    destruct ph; svc_lia. }
  assert (Hj : st_thread_joined (sv_status sv) = false).
  { pose proof (si_joined _ _ _ H). destruct (st_thread_joined (sv_status sv)); [svc_lia|done]. }
  split_and!; try done; try lia.
  - pose proof (si_ready _ _ _ H). destruct (n KReady); [done|]. svc_lia.
  - pose proof (si_free _ _ _ H). destruct (n KFree); [done|]. svc_lia.
  - pose proof (si_no_thread _ _ _ H). destruct (n KNoThread); [done|]. svc_lia.
Qed.

(** The same when the thread is created and has not begun. *)
Lemma svc_starting sv ph n : svc_inv sv ph n ->
  1 <= code sv <= 2 ->
  st_thread_created (sv_status sv) = true /\ 0 <= phase_code ph <= 4 /\
  n KReady = 0%nat /\ n KFree = 0%nat /\ n KNoThread = 0%nat.
Proof.
  intros H Hc.
  assert (Ht : st_thread_created (sv_status sv) = true).
  { pose proof (si_not_created _ _ _ H). destruct (st_thread_created (sv_status sv)); [done|]. svc_lia. }
  assert (Hp : 0 <= phase_code ph <= 4).
  { pose proof (si_phase _ _ _ H). pose proof (si_finish _ _ _ H). pose proof (si_stopped _ _ _ H).
    destruct ph; svc_lia. }
  split_and!; try done; try lia.
  - pose proof (si_ready _ _ _ H). destruct (n KReady); [done|]. svc_lia.
  - pose proof (si_free _ _ _ H). destruct (n KFree); [done|]. svc_lia.
  - pose proof (si_no_thread _ _ _ H). destruct (n KNoThread); [done|]. svc_lia.
Qed.

(** [service_stop], before the thread exists and after. *)
Lemma svc_stop_new sv ph n :
  svc_inv sv ph n -> st_state (sv_status sv) = SERVICE_NEW ->
  svc_inv (on_status (fun x => set_state SERVICE_STOPPED (set_start_error ECANCELED
             (set_start_done true (set_stop_requested true x)))) sv) ph n.
Proof.
  intros H Hs. assert (Hc : code sv = 0) by (unfold code; by rewrite Hs).
  destruct (svc_code_new _ _ _ H Hc) as (Ht & Hp & Hj). svc_clauses H.
Qed.

Lemma svc_stop_live sv ph n :
  svc_inv sv ph n -> 1 <= code sv <= 2 ->
  svc_inv (on_status (fun x => set_state SERVICE_STOPPING (set_stop_requested true x)) sv) ph n.
Proof. intros H Hc. destruct (svc_starting _ _ _ H Hc) as (Ht & Hp & Hr & Hf & Hn). svc_clauses H. Qed.

(** [service_start]: the thread is created or not. *)
Lemma svc_start sv ph n :
  svc_inv sv ph n -> st_state (sv_status sv) = SERVICE_NEW ->
  svc_inv (on_status (fun x => set_thread_created true (set_state SERVICE_STARTING x)) sv) ph n.
Proof.
  intros H Hs. assert (Hc : code sv = 0) by (unfold code; by rewrite Hs).
  destruct (svc_code_new _ _ _ H Hc) as (Ht & Hp & Hj). svc_clauses H.
Qed.

Lemma svc_start_failed e sv ph n :
  svc_inv sv ph n -> st_state (sv_status sv) = SERVICE_NEW ->
  svc_inv (on_status (fun x => set_start_error e (set_start_done true (set_state SERVICE_STOPPED x))) sv) ph n.
Proof.
  intros H Hs. assert (Hc : code sv = 0) by (unfold code; by rewrite Hs).
  destruct (svc_code_new _ _ _ H Hc) as (Ht & Hp & Hj). svc_clauses H.
Qed.

(** Operations on the mailbox. *)
Lemma svc_box q q' sv ph n :
  svc_inv sv ph n -> ru_box (sv_runtime sv) = Some q ->
  (q_closed q = true -> q_closed q' = true) ->
  (6 <= phase_code ph -> q_items q = [] -> q_items q' = []) ->
  svc_inv (on_runtime (set_box (Some q')) sv) ph n.
Proof.
  intros H Hb Hc Hi. svc_clauses H.
  - pose proof (si_box _ _ _ H) as K. rewrite Hb in K. exact K.
  - pose proof (si_closed _ _ _ H) as K. rewrite Hb in K. cbn in K. auto.
  - intros Hp. destruct (si_drained _ _ _ H Hp) as (H1 & H2 & H3 & H4). rewrite Hb in H3, H4. cbn in H3, H4.
    split_and!; auto. rewrite Hi; [done|done|]. by destruct (q_items q).
Qed.

(** Seeing that the mailbox is closed. *)
Lemma svc_see_closed sv ph n :
  svc_inv sv ph n -> box_closed (ru_box (sv_runtime sv)) = true -> svc_inv sv ph (n_add KClosed n).
Proof. intros H Hc. svc_clauses H. Qed.

(** [service_free]. *)
Lemma svc_free sv ph n :
  svc_inv sv ph n -> (0 < n KQuiet)%nat -> st_state (sv_status sv) = SERVICE_JOINED ->
  svc_inv (on_status (set_state SERVICE_FREED)
    (on_runtime (fun x => set_inbox false (set_source None (set_config None x))) sv)) ph (n_add KFree n).
Proof.
  intros H Hq Hs. assert (Hc : code sv = 5) by (unfold code; by rewrite Hs).
  assert (Hf : n KFree = 0%nat).
  { pose proof (si_free _ _ _ H). destruct (n KFree); [done|]. svc_lia. }
  assert (Hr : n KReady = 0%nat).
  { pose proof (si_ready _ _ _ H). destruct (n KReady); [done|]. svc_lia. }
  assert (Hp : phase_code ph = 0 \/ phase_code ph = 9).
  { pose proof (si_joined_exited _ _ _ H). pose proof (si_not_created _ _ _ H).
    destruct (st_thread_created (sv_status sv)); svc_lia. }
  svc_clauses H.
Qed.

Lemma svc_delete sv ph n :
  svc_inv sv ph n -> (0 < n KFree)%nat ->
  svc_inv (on_runtime (set_box None) sv) ph (n_del KFree n).
Proof.
  intros H Hf. destruct (si_free _ _ _ H Hf) as [Hf1 Hc]. svc_clauses H.
  all: rewrite Hf1; split; [done|]; intros [?|?]; [unfold code in *; lia|lia].
Qed.

(** [service_join]. *)
Lemma svc_claim sv ph n :
  svc_inv sv ph n -> st_joining (sv_status sv) = false -> st_thread_joined (sv_status sv) = false ->
  st_thread_created (sv_status sv) = true ->
  svc_inv (on_status (set_joining true) sv) ph (n_add KJoin n).
Proof. intros H Hj Hd Ht. svc_clauses H. all: pose proof (si_joining _ _ _ H) as K; rewrite Hj in K; cbn in K; lia. Qed.

Lemma svc_claim_stopped sv ph n :
  svc_inv sv ph n -> st_joining (sv_status sv) = false -> st_thread_joined (sv_status sv) = false ->
  st_thread_created (sv_status sv) = false -> st_state (sv_status sv) = SERVICE_STOPPED ->
  svc_inv (on_status (set_joining true) sv) ph (n_add KReady n).
Proof.
  intros H Hj Hd Ht Hs. assert (Hc : code sv = 4) by (unfold code; by rewrite Hs).
  svc_clauses H. all: pose proof (si_joining _ _ _ H) as K; rewrite Hj in K; cbn in K; lia.
Qed.

Lemma svc_see_thread sv ph n :
  svc_inv sv ph n -> st_thread_created (sv_status sv) = true -> svc_inv sv ph (n_add KThread n).
Proof. intros H Ht. svc_clauses H. Qed.

Lemma svc_see_no_thread sv ph n :
  svc_inv sv ph n -> st_joining (sv_status sv) = true -> st_thread_created (sv_status sv) = false ->
  svc_inv sv ph (n_add KNoThread n).
Proof. intros H Hj Ht. svc_clauses H. Qed.

Lemma svc_pthread_join sv ph n :
  svc_inv sv ph n -> (0 < n KJoin)%nat -> sv_exited sv = true ->
  svc_inv sv ph (n_add KReady (n_del KJoin n)).
Proof.
  intros H Hj He. pose proof (proj1 (si_exited _ _ _ H) He) as Hp.
  assert (Hc : code sv = 4).
  { pose proof (si_claim _ _ _ H). pose proof (si_joined _ _ _ H). pose proof (si_stopped _ _ _ H).
    destruct (st_thread_joined (sv_status sv)); svc_lia. }
  svc_clauses H.
Qed.

Lemma svc_joined sv ph n :
  svc_inv sv ph n -> (0 < n KReady)%nat ->
  svc_inv (on_status (fun x => set_state SERVICE_JOINED (set_thread_joined true (set_join_error 0 x))) sv) ph
    (n_add KJoined (n_del KReady n)).
Proof.
  intros H Hr. destruct (si_ready _ _ _ H Hr) as [Hc He].
  assert (Hj : (n KJoin = 0 /\ n KReady = 1)%nat).
  { pose proof (si_joining _ _ _ H). destruct (st_joining (sv_status sv)); cbn in *; lia. }
  assert (Hf : n KFree = 0%nat).
  { pose proof (si_free _ _ _ H). destruct (n KFree); [done|]. svc_lia. }
  assert (Hp : phase_code ph = 0 \/ phase_code ph = 9).
  { pose proof (si_not_created _ _ _ H). destruct (st_thread_created (sv_status sv)); svc_lia. }
  svc_clauses H.
Qed.

Lemma svc_join_failed e sv ph n :
  svc_inv sv ph n -> (0 < n KJoin)%nat ->
  svc_inv (on_status (set_join_error e) sv) ph (n_add KJoined (n_del KJoin n)).
Proof. intros H Hj. svc_clauses H. Qed.

Lemma svc_join_end sv ph n :
  svc_inv sv ph n -> (0 < n KJoined)%nat ->
  svc_inv (on_status (set_joining false) sv) ph (n_del KJoined n).
Proof.
  intros H Hj. assert (Hs : (n KJoin = 0 /\ n KReady = 0 /\ n KJoined = 1)%nat).
  { pose proof (si_joining _ _ _ H). destruct (st_joining (sv_status sv)); cbn in *; lia. }
  svc_clauses H.
Qed.

(** The service's own thread. *)
Lemma svc_created sv n :
  svc_inv sv PhDormant n -> st_thread_created (sv_status sv) = true -> svc_inv sv PhInit n.
Proof. intros H Ht. svc_clauses H. all: svc_by H si_starting si_exited si_joined_exited. Qed.

Lemma svc_async_init b sv n :
  svc_inv sv PhInit n -> svc_inv (on_loop (set_inbox_handle (HActive b)) sv) PhAsync n.
Proof.
  intros H. destruct (svc_live _ _ _ H) as (Ht & Hc & _ & Hj & Hr & Hf & Hn); [cbn; lia|]. svc_clauses H.
Qed.

Lemma svc_async_ready sv n :
  svc_inv sv PhAsync n -> svc_inv (on_status (set_inbox_async_ready true) sv) PhReady n.
Proof.
  intros H. destruct (svc_live _ _ _ H) as (Ht & Hc & _ & Hj & Hr & Hf & Hn); [cbn; lia|]. svc_clauses H.
Qed.

Lemma svc_take_config sv n : svc_inv sv PhReady n -> svc_inv sv PhTaken n.
Proof. intros H. svc_clauses H. Qed.

Lemma svc_release_config sv n :
  svc_inv sv PhTaken n -> svc_inv (on_runtime (set_config None) sv) PhReady n.
Proof. intros H. svc_clauses H. Qed.

Lemma svc_started sv n :
  svc_inv sv PhReady n -> st_stop_requested (sv_status sv) = false ->
  svc_inv (on_status (fun x => set_start_done true (set_start_error 0 (set_state SERVICE_RUNNING x))) sv)
    PhRun n.
Proof.
  intros H Hs. destruct (svc_live _ _ _ H) as (Ht & Hc & _ & Hj & Hr & Hf & Hn); [cbn; lia|].
  svc_clauses H.
Qed.

Lemma svc_not_started e sv ph n :
  svc_inv sv ph n -> ph = PhInit \/ ph = PhReady ->
  svc_inv (on_status (fun x => set_start_done true (set_start_error e (set_state SERVICE_STOPPING x))) sv)
    PhFinish n.
Proof.
  intros H Hp.
  destruct (svc_live _ _ _ H) as (Ht & Hc & _ & Hj & Hr & Hf & Hn);
    [destruct Hp as [ -> | -> ]; cbn; lia|].
  assert (Hle : phase_code ph <= 3) by (destruct Hp as [ -> | -> ]; cbn; lia).
  assert (Hi : inbox_code sv = 0 /\ st_inbox_async_ready (sv_status sv) = false \/
               inbox_code sv = 1 /\ st_inbox_async_ready (sv_status sv) = true).
  { destruct Hp as [ -> | -> ]; [left|right]; svc_by H si_handle_init si_handle_run. }
  svc_clauses H.
Qed.

(** Giving up running: [service_finish_thread], or [service_control_cb] once
    it saw the stop request. *)
Definition cease (ph : phase) : phase := match ph with PhRun => PhFinish | _ => ph end.

Lemma svc_stop_seen sv n :
  svc_inv sv PhRun n -> st_stop_requested (sv_status sv) = true -> svc_inv sv PhFinish n.
Proof.
  intros H Hs. destruct (svc_live _ _ _ H) as (Ht & Hc & _ & Hj & Hr & Hf & Hn); [cbn; lia|].
  svc_clauses H. all: svc_by H si_exited si_handle_run si_stop_requested.
Qed.

Lemma svc_finish_stopping sv n : svc_inv sv PhRun n -> code sv = 3 -> svc_inv sv PhFinish n.
Proof.
  intros H Hs. destruct (svc_live _ _ _ H) as (Ht & Hc & _ & Hj & Hr & Hf & Hn); [cbn; lia|].
  svc_clauses H. all: svc_by H si_exited si_handle_run.
Qed.

Lemma svc_finish sv n :
  svc_inv sv PhRun n -> svc_inv (on_status (set_state SERVICE_STOPPING) sv) PhFinish n.
Proof.
  intros H. destruct (svc_live _ _ _ H) as (Ht & Hc & _ & Hj & Hr & Hf & Hn); [cbn; lia|].
  svc_clauses H. 
Qed.

Lemma svc_drained sv n :
  svc_inv sv PhFinish n -> (0 < n KQuiet)%nat -> (0 < n KClosed)%nat ->
  box_empty (ru_box (sv_runtime sv)) = true -> svc_inv sv PhDrained n.
Proof.
  intros H Hq Hcl He. destruct (svc_live _ _ _ H) as (Ht & Hc & _ & Hj & Hr & Hf & Hn); [cbn; lia|].
  pose proof (si_closed _ _ _ H). pose proof (si_quiet _ _ _ H). 
  svc_clauses H. 
Qed.

Lemma svc_close_inbox h sv ph n :
  svc_inv sv ph n -> ph = PhDrained \/ ph = PhClosing -> handle_code h <> 1 ->
  svc_inv (on_loop (set_inbox_handle h) sv) PhClosing n.
Proof.
  intros H Hp Hh.
  destruct (svc_live _ _ _ H) as (Ht & Hc & _ & Hj & Hr & Hf & Hn);
    [destruct Hp as [ -> | -> ]; cbn; lia|].
  pose proof (si_drained _ _ _ H). assert (6 <= phase_code ph <= 7) by (destruct Hp as [ -> | -> ]; cbn; lia).
  svc_clauses H.
Qed.

Lemma svc_inbox_closed sv n :
  svc_inv sv PhClosing n -> svc_inv (on_status (set_inbox_async_ready false) sv) PhClosing n.
Proof. intros H. svc_clauses H. Qed.

Lemma svc_stopped sv ph n :
  svc_inv sv ph n -> ph = PhDrained \/ ph = PhClosing ->
  svc_inv (on_status (fun x => set_state SERVICE_STOPPED (set_control_async_ready false
           (set_inbox_async_ready false (set_loop_ready false x)))) sv) PhStopped n.
Proof.
  intros H Hp.
  destruct (svc_live _ _ _ H) as (Ht & Hc & _ & Hj & Hr & Hf & Hn);
    [destruct Hp as [ -> | -> ]; cbn; lia|].
  pose proof (si_drained _ _ _ H). assert (6 <= phase_code ph <= 7) by (destruct Hp as [ -> | -> ]; cbn; lia).
  svc_clauses H.
Qed.

Lemma svc_exit sv n :
  svc_inv sv PhStopped n -> svc_inv (set_exited true sv) PhExited n.
Proof. intros H. svc_clauses H. all: svc_by H si_stopped si_not_created si_drained. Qed.

Lemma svc_new name src config size :
  svc_inv (new_service name src config size) PhDormant (fun _ => 0%nat).
Proof. unfold new_service. constructor; svc_cbn; cbn; try done; try lia; try (split; intros; (done || lia)). Qed.
