(* ===== verification/ServiceLogic.v ===== *)
(** * ServiceLogic: the invariant of the pool and the rules for sections

    [pool_inv] relates the pool to what the threads hold: every service
    satisfies [svc_inv], ids and routable names are unique, and every live heap
    block has exactly one owner, a thread or a field of a service.  The rules
    reduce a section of a program to its effect on one service. *)

From S2P Require Import Prelude Message Mailbox Queue MailboxCorrect Concur ServiceState Service ServiceInv.

(** ** Ownership of heap blocks *)

Fixpoint cnt (a : Z) (l : list Z) : nat :=
  match l with [] => O | b :: l' => (Nat.b2n (b =? a)%Z + cnt a l')%nat end.

Definition opt_cnt (a : Z) (o : option Z) : nat := match o with Some b => Nat.b2n (b =? a) | None => O end.
Definition box_cnt (a : Z) (o : option queue) : nat := match o with Some q => cnt a (q_payloads q) | None => O end.
Definition taken (ph : phase) : bool := match ph with PhTaken => true | _ => false end.

(** The blocks a service owns; the configuration is no longer its own while its
    thread releases it. *)
Definition owned (sv : service) (ph : phase) (a : Z) : nat :=
  (opt_cnt a (ru_source (sv_runtime sv)) +
   (if taken ph then O else opt_cnt a (ru_config (sv_runtime sv))) +
   box_cnt a (ru_box (sv_runtime sv)))%nat.

Definition owned_at (m : gmap Z service) (rs : list res) (a : Z) (s : Z) : nat :=
  match m !! s with Some sv => owned sv (phase_of s rs) a | None => O end.

Fixpoint sum_ids (g : Z -> nat) (ids : list Z) : nat :=
  match ids with [] => O | s :: ids' => (g s + sum_ids g ids')%nat end.

Definition pool_ids : list Z := seqZ 0 MAX_SERVICES.

Definition heap_cnt (h : gset Z) (a : Z) : nat := if bool_decide (a ∈ h) then 1%nat else 0%nat.

Lemma sum_ids_eq g g' ids : (forall s, s ∈ ids -> g s = g' s) -> sum_ids g ids = sum_ids g' ids.
Proof.
  induction ids as [|s ids IH]; intros H; cbn; [done|].
  rewrite (H s), IH; [done| |left]. intros s' Hs. apply H. by right.
Qed.

Lemma sum_ids_update g g' ids s :
  NoDup ids -> s ∈ ids -> (forall s', s' <> s -> g s' = g' s') ->
  (sum_ids g' ids + g s = sum_ids g ids + g' s)%nat.
Proof.
  induction ids as [|s0 ids IH]; intros Hn Hs H; [by apply not_elem_of_nil in Hs|].
  apply NoDup_cons in Hn as [Hni Hn]. cbn. destruct (decide (s = s0)) as [->|Hne].
  - rewrite (sum_ids_eq g' g ids); [lia|]. intros s' Hs'. symmetry. apply H. by intros ->.
  - apply elem_of_cons in Hs as [?|Hs]; [done|]. rewrite (H s0) by done. specialize (IH Hn Hs H). lia.
Qed.

Lemma sum_ids_ge g ids s : s ∈ ids -> (g s <= sum_ids g ids)%nat.
Proof.
  induction ids as [|s0 ids IH]; intros Hs; [by apply not_elem_of_nil in Hs|].
  apply elem_of_cons in Hs as [->|Hs]; cbn; [lia|]. specialize (IH Hs). lia.
Qed.

Lemma sum_ids_zero g ids : (forall s, s ∈ ids -> g s = 0%nat) -> sum_ids g ids = 0%nat.
Proof.
  induction ids as [|s0 ids IH]; intros H; cbn; [done|].
  rewrite (H s0), IH; [done| |left]. intros s' Hs. apply H. by right.
Qed.

Lemma elem_of_pool_ids s : s ∈ pool_ids <-> 0 <= s < MAX_SERVICES.
Proof. unfold pool_ids. rewrite elem_of_seqZ. lia. Qed.

Lemma NoDup_pool_ids : NoDup pool_ids.
Proof. apply NoDup_seqZ. Qed.

Lemma heap_cnt_add c h a : c ∉ h -> heap_cnt ({[c]} ∪ h) a = (Nat.b2n (c =? a)%Z + heap_cnt h a)%nat.
Proof.
  intros Hc. unfold heap_cnt. destruct (Z.eqb_spec c a) as [->|Hne]; cbn.
  - rewrite bool_decide_eq_true_2 by set_solver. by rewrite bool_decide_eq_false_2.
  - erewrite bool_decide_ext; [done|]. set_solver.
Qed.

Lemma heap_cnt_del c h a : c ∈ h -> (heap_cnt (h ∖ {[c]}) a + Nat.b2n (c =? a)%Z = heap_cnt h a)%nat.
Proof.
  intros Hc. unfold heap_cnt. destruct (Z.eqb_spec c a) as [->|Hne]; cbn.
  - rewrite bool_decide_eq_false_2 by set_solver. by rewrite bool_decide_eq_true_2.
  - rewrite Nat.add_0_r. erewrite bool_decide_ext; [done|]. set_solver.
Qed.

(** ** The invariant *)

(** The misuses that remain: [service_stop] and the failed [service_start]
    reach for the mailbox or the control handle after they let go of the
    lock, holding no pin. *)
Definition benign (f : fault) : Prop :=
  match f with
  | Fault AccStopClose _ | Fault AccStartClose _ | Fault AccStopNotify _ => True
  | _ => False
  end.

Record pool_inv (y : sys) (rs : list res) : Prop := PoolInv {
  pi_threads : Z.of_nat (length rs) < UINT32_MAX;
  pi_next : 0 <= sy_next_id y <= MAX_SERVICES;
  pi_some : forall s, is_Some (sy_services y !! s) <-> 0 <= s < sy_next_id y;
  pi_svc : forall s sv, sy_services y !! s = Some sv ->
    svc_inv sv (phase_of s rs) (fun k => total rs (TSvc k s));
  pi_fresh : forall s k, sy_services y !! s = None -> total rs (TSvc k s) = 0%nat;
  pi_dormant : forall s, sy_services y !! s = None -> 0 <= s < MAX_SERVICES -> phase_of s rs = PhDormant;
  pi_one_pin : forall i r, rs !! i = Some r -> (pins (r_toks r) <= 1)%nat;
  pi_names : forall s1 s2 sv1 sv2, sy_services y !! s1 = Some sv1 -> sy_services y !! s2 = Some sv2 ->
    rt_routable (sv_route sv1) = true -> rt_routable (sv_route sv2) = true ->
    sv_name sv1 = sv_name sv2 -> sv_name sv1 <> [] -> s1 = s2;
  pi_heap : forall a, (total rs (TBlock a) + sum_ids (owned_at (sy_services y) rs a) pool_ids)%nat =
    heap_cnt (sy_heap y) a;
  pi_faults : Forall benign (sy_faults y)
}.

(** What a service can never take back. *)
Record svc_guar (sv sv' : service) : Prop := SvcGuar {
  sg_name : sv_name sv' = sv_name sv;
  sg_code : code sv <= code sv';
  sg_routable : rt_routable (sv_route sv') = true -> rt_routable (sv_route sv) = true;
  sg_exit_error : forall e, st_exit_error (sv_status sv) = Some e -> st_exit_error (sv_status sv') = Some e;
  sg_created : st_thread_created (sv_status sv) = true -> st_thread_created (sv_status sv') = true;
  sg_stop_requested : st_stop_requested (sv_status sv) = true -> st_stop_requested (sv_status sv') = true;
  sg_start_done : st_start_done (sv_status sv) = true -> st_start_done (sv_status sv') = true;
  sg_joined : st_thread_joined (sv_status sv) = true -> st_thread_joined (sv_status sv') = true;
  sg_closed : box_closed (ru_box (sv_runtime sv)) = true -> box_closed (ru_box (sv_runtime sv')) = true;
  sg_deleted : ru_box (sv_runtime sv) = None -> ru_box (sv_runtime sv') = None;
  sg_exited : sv_exited sv = true -> sv_exited sv' = true
}.

Definition pool_guar (y y' : sys) : Prop :=
  sy_next_id y <= sy_next_id y' /\
  forall s sv, sy_services y !! s = Some sv ->
    exists sv', sy_services y' !! s = Some sv' /\ svc_guar sv sv'.

#[export] Instance svc_guar_refl : Reflexive svc_guar.
Proof. intros sv. constructor; auto. lia. Qed.

#[export] Instance svc_guar_trans : Transitive svc_guar.
Proof. intros s1 s2 s3 [] []. constructor; eauto; [congruence|lia]. Qed.

Lemma pool_guar_refl y : pool_guar y y.
Proof. split; [lia|]. intros s sv H. exists sv. by split. Qed.

Lemma pool_guar_trans y1 y2 y3 : pool_guar y1 y2 -> pool_guar y2 y3 -> pool_guar y1 y3.
Proof.
  intros [H1 G1] [H2 G2]. split; [lia|]. intros s sv Hs. destruct (G1 s sv Hs) as (sv' & Hs' & Hg).
  destruct (G2 s sv' Hs') as (sv'' & Hs'' & Hg'). exists sv''. split; [done|]. by transitivity sv'.
Qed.

Ltac guar_tac := constructor; unfold code; cbn; auto; lia.

(** ** Preservation *)

Definition new_phase (i : nat) (s : Z) (r' : res) (ph : phase) : phase :=
  if decide (i = service_thread s) then r_phase r' else ph.

(** What a section of thread [i] may do to service [s] and to the thread. *)
Record step_ok (i : nat) (s : Z) (r r' : res) (sv sv' : service) (ph : phase) (n : kind -> nat)
    (h h' : gset Z) : Prop := StepOk {
  so_guar : svc_guar sv sv';
  so_other : forall k s', s' <> s -> held (r_toks r') (TSvc k s') = held (r_toks r) (TSvc k s');
  so_phase : i <> service_thread s -> r_phase r' = r_phase r;
  so_pins : (pins (r_toks r') <= 1)%nat;
  so_inv : exists n', svc_inv sv' (new_phase i s r' ph) n' /\
    forall k, (n' k + held (r_toks r) (TSvc k s) = n k + held (r_toks r') (TSvc k s))%nat;
  so_blocks : forall a, (held (r_toks r') (TBlock a) + owned sv' (new_phase i s r' ph) a + heap_cnt h a =
    held (r_toks r) (TBlock a) + owned sv ph a + heap_cnt h' a)%nat
}.

Section Preservation.
Context (y : sys) (rs : list res) (i : nat) (r : res).
Hypothesis Hinv : pool_inv y rs.
Hypothesis Hr : rs !! i = Some r.

Lemma pool_ids_in s sv : sy_services y !! s = Some sv -> 0 <= s < MAX_SERVICES.
Proof.
  intros H. pose proof (pi_next _ _ Hinv). destruct (pi_some _ _ Hinv s) as [K _].
  specialize (K (ex_intro _ sv H)). lia.
Qed.

(** The phases of the other services stay. *)
Lemma phase_of_other r' s s' :
  (i <> service_thread s -> r_phase r' = r_phase r) -> 0 <= s -> 0 <= s' -> s' <> s ->
  phase_of s' (<[i := r']> rs) = phase_of s' rs.
Proof.
  intros Hp Hs Hs' Hne. rewrite (phase_of_insert _ _ _ _ _ Hr). case_decide as E; [|done].
  unfold phase_of. rewrite <- E, Hr. apply Hp. intros E'. unfold service_thread in *. lia.
Qed.

Lemma one_pin_insert r' :
  (pins (r_toks r') <= 1)%nat -> forall j rj, <[i := r']> rs !! j = Some rj -> (pins (r_toks rj) <= 1)%nat.
Proof.
  intros Hpin j rj Hj. destruct (decide (i = j)) as [<-|Hne].
  - rewrite (list_lookup_insert_eq rs) in Hj by (by eapply lookup_lt_Some). by simplify_eq.
  - rewrite (list_lookup_insert_ne rs) in Hj by done. by eapply (pi_one_pin _ _ Hinv).
Qed.

(** Routable names stay unique while a service keeps its name and its route
    only closes. *)
Lemma names_step s sv sv' s1 s2 sv1 sv2 :
  sy_services y !! s = Some sv -> svc_guar sv sv' ->
  <[s := sv']> (sy_services y) !! s1 = Some sv1 -> <[s := sv']> (sy_services y) !! s2 = Some sv2 ->
  rt_routable (sv_route sv1) = true -> rt_routable (sv_route sv2) = true ->
  sv_name sv1 = sv_name sv2 -> sv_name sv1 <> [] -> s1 = s2.
Proof.
  intros Hs Hg.
  assert (Hlift : forall s0 sv0, <[s:=sv']> (sy_services y) !! s0 = Some sv0 -> rt_routable (sv_route sv0) = true ->
    exists sv0', sy_services y !! s0 = Some sv0' /\ rt_routable (sv_route sv0') = true /\ sv_name sv0' = sv_name sv0).
  { intros s0 sv0 H0 Hr0. destruct (decide (s0 = s)) as [->|Hne].
    - rewrite lookup_insert_eq in H0. simplify_eq. exists sv. split_and!; [done|by apply (sg_routable _ _ Hg)|].
      symmetry. apply (sg_name _ _ Hg).
    - rewrite lookup_insert_ne in H0 by done. by exists sv0. }
  intros H1 H2 R1 R2 En1 En2.
  destruct (Hlift _ _ H1 R1) as (sv1' & L1 & R1' & N1). destruct (Hlift _ _ H2 R2) as (sv2' & L2 & R2' & N2).
  eapply (pi_names _ _ Hinv); [exact L1|exact L2|done..| |]; congruence.
Qed.

(** Every live block keeps one owner. *)
Lemma heap_step s sv sv' r' h' :
  sy_services y !! s = Some sv -> (i <> service_thread s -> r_phase r' = r_phase r) ->
  (forall a, (held (r_toks r') (TBlock a) + owned sv' (new_phase i s r' (phase_of s rs)) a + heap_cnt (sy_heap y) a =
    held (r_toks r) (TBlock a) + owned sv (phase_of s rs) a + heap_cnt h' a)%nat) ->
  forall a, (total (<[i := r']> rs) (TBlock a) +
    sum_ids (owned_at (<[s := sv']> (sy_services y)) (<[i := r']> rs) a) pool_ids)%nat = heap_cnt h' a.
Proof.
  intros Hs Hp Hb a. pose proof (pool_ids_in s sv Hs) as Hid.
  pose proof (pi_heap _ _ Hinv a) as H. specialize (Hb a).
  pose proof (total_insert rs i r r' (TBlock a) Hr).
  pose proof (sum_ids_update (owned_at (sy_services y) rs a)
    (owned_at (<[s := sv']> (sy_services y)) (<[i := r']> rs) a) pool_ids s NoDup_pool_ids) as Hu.
  rewrite elem_of_pool_ids in Hu. specialize (Hu Hid).
  assert (E1 : owned_at (sy_services y) rs a s = owned sv (phase_of s rs) a)
    by (unfold owned_at; by rewrite Hs).
  assert (E2 : owned_at (<[s := sv']> (sy_services y)) (<[i := r']> rs) a s =
    owned sv' (new_phase i s r' (phase_of s rs)) a)
    by (unfold owned_at; by rewrite lookup_insert_eq, (phase_of_insert _ _ _ _ _ Hr)).
  assert (Hsame : forall s', s' <> s ->
    owned_at (sy_services y) rs a s' = owned_at (<[s := sv']> (sy_services y)) (<[i := r']> rs) a s').
  { intros s' Hne. unfold owned_at. rewrite lookup_insert_ne by done.
    destruct (sy_services y !! s') as [sv0|] eqn:Hl; [|done]. pose proof (pool_ids_in _ _ Hl).
    by rewrite (phase_of_other r' s) by (done || lia). }
  specialize (Hu Hsame). rewrite E1, E2 in Hu. lia.
Qed.

Lemma pool_step s sv sv' r' y' :
  sy_services y !! s = Some sv ->
  sy_services y' = <[s := sv']> (sy_services y) ->
  sy_next_id y' = sy_next_id y ->
  Forall benign (sy_faults y') ->
  step_ok i s r r' sv sv' (phase_of s rs) (fun k => total rs (TSvc k s)) (sy_heap y) (sy_heap y') ->
  pool_guar y y' /\ pool_inv y' (<[i := r']> rs).
Proof.
  intros Hs Es En Hf [Hg Ho Hp Hpin (n' & Hi & Hn) Hb].
  pose proof (pool_ids_in s sv Hs) as Hid.
  assert (Hoth : forall k s', s' <> s -> total (<[i := r']> rs) (TSvc k s') = total rs (TSvc k s')).
  { intros k s' Hne. pose proof (total_insert rs i r r' (TSvc k s') Hr). rewrite Ho in * by done. lia. }
  split.
  { split; [rewrite En; lia|]. intros s0 sv0 H0. rewrite Es. destruct (decide (s0 = s)) as [->|Hne].
    - rewrite lookup_insert_eq. exists sv'. split; [done|]. by simplify_eq.
    - rewrite lookup_insert_ne by done. exists sv0. split; [done|reflexivity]. }
  constructor.
  - rewrite length_insert. apply (pi_threads _ _ Hinv).
  - rewrite En. apply (pi_next _ _ Hinv).
  - intros s0. rewrite En, Es, <- (pi_some _ _ Hinv s0). destruct (decide (s0 = s)) as [->|Hne].
    + rewrite lookup_insert_eq, Hs. split; by intros _.
    + by rewrite lookup_insert_ne.
  - intros s0 sv0. rewrite Es. destruct (decide (s0 = s)) as [->|Hne].
    + rewrite lookup_insert_eq. intros [= <-]. rewrite (phase_of_insert _ _ _ _ _ Hr).
      eapply svc_inv_ext; [|exact Hi]. intros k. cbn. specialize (Hn k).
      pose proof (total_insert rs i r r' (TSvc k s) Hr). lia.
    + rewrite lookup_insert_ne by done. intros H0. pose proof (pool_ids_in _ _ H0).
      rewrite (phase_of_other r' s) by (done || lia).
      eapply svc_inv_ext; [|by apply (pi_svc _ _ Hinv)]. intros k. cbn. symmetry. by apply Hoth.
  - intros s0 k. rewrite Es. destruct (decide (s0 = s)) as [->|Hne]; [by rewrite lookup_insert_eq|].
    rewrite lookup_insert_ne by done. intros H0. rewrite Hoth by done. by apply (pi_fresh _ _ Hinv).
  - intros s0. rewrite Es. destruct (decide (s0 = s)) as [->|Hne]; [by rewrite lookup_insert_eq|].
    rewrite lookup_insert_ne by done. intros H0 Hs0. rewrite (phase_of_other r' s) by (done || lia).
    by apply (pi_dormant _ _ Hinv).
  - by apply one_pin_insert.
  - rewrite Es. intros s1 s2 sv1 sv2 H1 H2. by apply (names_step s sv sv' s1 s2 sv1 sv2).
  - rewrite Es. by eapply (heap_step s sv sv').
  - done.
Qed.

Lemma phase_of_same r' s : r_phase r' = r_phase r -> phase_of s (<[i := r']> rs) = phase_of s rs.
Proof.
  intros E. rewrite (phase_of_insert _ _ _ _ _ Hr). case_decide as Ei; [|done].
  unfold phase_of. by rewrite <- Ei, Hr.
Qed.

(** A section that only touches the thread's own blocks. *)
Lemma pool_local r' y' :
  sy_services y' = sy_services y -> sy_next_id y' = sy_next_id y -> Forall benign (sy_faults y') ->
  r_phase r' = r_phase r ->
  (forall k s, held (r_toks r') (TSvc k s) = held (r_toks r) (TSvc k s)) ->
  (pins (r_toks r') <= 1)%nat ->
  (forall a, held (r_toks r') (TBlock a) + heap_cnt (sy_heap y) a =
    held (r_toks r) (TBlock a) + heap_cnt (sy_heap y') a)%nat ->
  pool_guar y y' /\ pool_inv y' (<[i := r']> rs).
Proof.
  intros Es En Hf Hp Ho Hpin Hb.
  assert (Hoth : forall k s, total (<[i := r']> rs) (TSvc k s) = total rs (TSvc k s)).
  { intros k s. pose proof (total_insert rs i r r' (TSvc k s) Hr). rewrite Ho in *. lia. }
  split.
  { split; [rewrite En; lia|]. intros s sv Hs. rewrite Es. exists sv. by split. }
  pose proof Hinv as []. constructor; rewrite ?Es, ?En, ?length_insert; try done.
  - intros s sv Hs. rewrite phase_of_same by done.
    eapply svc_inv_ext; [|by apply pi_svc0]. intros k. cbn. symmetry. apply Hoth.
  - intros s k Hs. rewrite Hoth. by apply pi_fresh0.
  - intros s Hs Hid. rewrite phase_of_same by done. by apply pi_dormant0.
  - by apply one_pin_insert.
  - intros a. specialize (Hb a). specialize (pi_heap0 a).
    pose proof (total_insert rs i r r' (TBlock a) Hr).
    rewrite (sum_ids_eq _ (owned_at (sy_services y) rs a)); [lia|].
    intros s _. unfold owned_at. by rewrite phase_of_same.
Qed.

(** A new service takes over its creator's blocks. *)
Lemma pool_register name src config size r' y' :
  let s := sy_next_id y in
  s < MAX_SERVICES ->
  (forall s' sv', sy_services y !! s' = Some sv' -> rt_routable (sv_route sv') = true ->
     name <> [] -> sv_name sv' <> name) ->
  sy_services y' = <[s := new_service name src config size]> (sy_services y) ->
  sy_next_id y' = s + 1 -> sy_heap y' = sy_heap y -> sy_faults y' = sy_faults y ->
  r_phase r' = r_phase r ->
  (forall k s, held (r_toks r') (TSvc k s) = held (r_toks r) (TSvc k s)) ->
  (pins (r_toks r') <= 1)%nat ->
  (forall a, held (r_toks r') (TBlock a) + Nat.b2n (src =? a)%Z + opt_cnt a config =
    held (r_toks r) (TBlock a))%nat ->
  pool_guar y y' /\ pool_inv y' (<[i := r']> rs).
Proof.
  intros s Hlt Hname Es En Eh Ef Hp Ho Hpin Hb.
  assert (Hoth : forall k s, total (<[i := r']> rs) (TSvc k s) = total rs (TSvc k s)).
  { intros k s0. pose proof (total_insert rs i r r' (TSvc k s0) Hr). rewrite Ho in *. lia. }
  pose proof (pi_next _ _ Hinv) as Hnext.
  assert (Hnone : sy_services y !! s = None).
  { apply eq_None_not_Some. rewrite (pi_some _ _ Hinv). unfold s. lia. }
  assert (Hd : phase_of s rs = PhDormant) by (apply (pi_dormant _ _ Hinv); [done|unfold s in *; lia]).
  split.
  { split; [rewrite En; unfold s; lia|]. intros s0 sv Hs. rewrite Es. exists sv.
    rewrite lookup_insert_ne by (intros <-; congruence). by split. }
  pose proof Hinv as []. constructor; rewrite ?En, ?length_insert, ?Eh, ?Ef; try done.
  - unfold s in *. lia.
  - intros s0. rewrite Es. destruct (decide (s0 = s)) as [->|Hne].
    + rewrite lookup_insert_eq. split; [intros _; unfold s; lia|by eauto].
    + rewrite lookup_insert_ne by done. rewrite pi_some0. unfold s in *. lia.
  - intros s0 sv. rewrite Es, phase_of_same by done. destruct (decide (s0 = s)) as [->|Hne].
    + rewrite lookup_insert_eq. intros [= <-]. rewrite Hd.
      eapply svc_inv_ext; [|apply svc_new]. intros k. cbn. rewrite Hoth. symmetry. by apply pi_fresh0.
    + rewrite lookup_insert_ne by done. intros H0.
      eapply svc_inv_ext; [|by apply pi_svc0]. intros k. cbn. symmetry. apply Hoth.
  - intros s0 k. rewrite Es. destruct (decide (s0 = s)) as [->|Hne]; [by rewrite lookup_insert_eq|].
    rewrite lookup_insert_ne by done. intros H0. rewrite Hoth. by apply pi_fresh0.
  - intros s0. rewrite Es, phase_of_same by done. destruct (decide (s0 = s)) as [->|Hne]; [by rewrite lookup_insert_eq|].
    rewrite lookup_insert_ne by done. by apply pi_dormant0.
  - by apply one_pin_insert.
  - intros s1 s2 sv1 sv2. rewrite Es. intros H1 H2 R1 R2 N1 N2.
    destruct (decide (s1 = s)) as [E1|Hne1], (decide (s2 = s)) as [E2|Hne2]; [congruence| | |].
    + rewrite E1, lookup_insert_eq in H1. injection H1 as <-. rewrite lookup_insert_ne in H2 by done.
      cbn in N1, N2. exfalso. apply (Hname _ _ H2 R2); [done|by symmetry].
    + rewrite E2, lookup_insert_eq in H2. injection H2 as <-. rewrite lookup_insert_ne in H1 by done.
      cbn in N1. exfalso. apply (Hname _ _ H1 R1); congruence.
    + rewrite lookup_insert_ne in H1, H2 by done. eapply pi_names0; eauto.
  - intros a. specialize (Hb a). specialize (pi_heap0 a).
    pose proof (total_insert rs i r r' (TBlock a) Hr).
    pose proof (sum_ids_update (owned_at (sy_services y) rs a)
      (owned_at (sy_services y') (<[i := r']> rs) a) pool_ids s NoDup_pool_ids) as Hu.
    rewrite elem_of_pool_ids in Hu. specialize (Hu ltac:(unfold s in *; lia)).
    assert (E1 : owned_at (sy_services y) rs a s = 0%nat) by (unfold owned_at; by rewrite Hnone).
    assert (E2 : owned_at (sy_services y') (<[i := r']> rs) a s = (Nat.b2n (src =? a)%Z + opt_cnt a config)%nat).
    { unfold owned_at. rewrite Es, lookup_insert_eq, phase_of_same by done. rewrite Hd. cbn. lia. }
    assert (Hsame : forall s', s' <> s ->
      owned_at (sy_services y) rs a s' = owned_at (sy_services y') (<[i := r']> rs) a s').
    { intros s' Hne. unfold owned_at. rewrite Es, lookup_insert_ne by done. by rewrite phase_of_same. }
    specialize (Hu Hsame). rewrite E1, E2 in Hu. lia.
Qed.
End Preservation.

(** ** Rules *)

#[global] Abbreviation wtp := (wt pool_inv pool_guar).

(** What a section on service [s] may rely on. *)
Record svc_ctx (i : nat) (s : Z) (r : res) (sv : service) (ph : phase) (n : kind -> nat) : Prop := SvcCtx {
  sc_inv : svc_inv sv ph n;
  sc_phase : i = service_thread s -> ph = r_phase r;
  sc_held : forall k, (held (r_toks r) (TSvc k s) <= n k)%nat;
  sc_room : Z.of_nat (n KPin + n KAsync) < UINT32_MAX;
  sc_pins : (pins (r_toks r) <= 1)%nat
}.

Lemma pool_ctx y rs i r s sv :
  pool_inv y rs -> rs !! i = Some r -> sy_services y !! s = Some sv ->
  svc_ctx i s r sv (phase_of s rs) (fun k => total rs (TSvc k s)).
Proof.
  intros Hi Hr Hs. constructor.
  - by apply (pi_svc _ _ Hi).
  - intros ->. unfold phase_of. by rewrite Hr.
  - intros k. by apply (total_held rs i).
  - pose proof (total_pins rs s (pi_one_pin _ _ Hi)). pose proof (pi_threads _ _ Hi). lia.
  - by eapply (pi_one_pin _ _ Hi).
Qed.

Lemma new_phase_same i s r r' ph :
  (i = service_thread s -> ph = r_phase r) -> r_phase r' = r_phase r -> new_phase i s r' ph = ph.
Proof. intros H E. unfold new_phase. case_decide as Ei; [|done]. by rewrite E, H. Qed.

Lemma new_phase_own i s r' ph : i = service_thread s -> new_phase i s r' ph = r_phase r'.
Proof. intros E. unfold new_phase. by case_decide. Qed.

Lemma step_same i s r r' sv sv' ph n h n' :
  svc_ctx i s r sv ph n -> r_phase r' = r_phase r -> svc_guar sv sv' ->
  svc_inv sv' ph n' ->
  (forall k, n' k + held (r_toks r) (TSvc k s) = n k + held (r_toks r') (TSvc k s))%nat ->
  (forall k s', s' <> s -> held (r_toks r') (TSvc k s') = held (r_toks r) (TSvc k s')) ->
  (pins (r_toks r') <= 1)%nat ->
  (forall a, held (r_toks r') (TBlock a) + owned sv' ph a = held (r_toks r) (TBlock a) + owned sv ph a)%nat ->
  step_ok i s r r' sv sv' ph n h h.
Proof.
  intros Hc Hp Hg Hi Hn Ho Hpin Hb.
  assert (E : new_phase i s r' ph = ph) by (eapply new_phase_same; [apply Hc|done]).
  constructor; rewrite ?E; try done; [by exists n'|]. intros a. specialize (Hb a). lia.
Qed.

(** A section that leaves the thread's tokens alone. *)
Lemma step_keep i s r sv sv' ph n h :
  svc_ctx i s r sv ph n -> svc_guar sv sv' -> svc_inv sv' ph n ->
  (forall a, owned sv' ph a = owned sv ph a) -> step_ok i s r r sv sv' ph n h h.
Proof.
  intros Hc Hg Hi Hb. eapply step_same; try done; [apply Hc|]. intros a. by rewrite Hb.
Qed.

Lemma step_refl i s r sv ph n h : svc_ctx i s r sv ph n -> step_ok i s r r sv sv ph n h h.
Proof. intros Hc. eapply step_keep; try done. apply Hc. Qed.

(** The service's own thread changes phase. *)
Lemma step_own i s r r' sv sv' ph n h :
  svc_ctx i s r sv ph n -> i = service_thread s -> svc_guar sv sv' ->
  svc_inv sv' (r_phase r') n ->
  (forall k s', held (r_toks r') (TSvc k s') = held (r_toks r) (TSvc k s')) ->
  (pins (r_toks r') <= 1)%nat ->
  (forall a, held (r_toks r') (TBlock a) + owned sv' (r_phase r') a = held (r_toks r) (TBlock a) + owned sv ph a)%nat ->
  step_ok i s r r' sv sv' ph n h h.
Proof.
  intros Hc Hi Hg Hv Ho Hpin Hb.
  constructor; rewrite ?new_phase_own by done; try done.
  - exists n. split; [done|]. intros k. by rewrite Ho.
  - intros a. specialize (Hb a). lia.
Qed.

(** Any section on one service. *)
Lemma wt_svc {X} i s (f : Z -> sys -> option (X * sys)) (Q : X -> res -> Prop) r :
  (forall c y rs x y', pool_inv y rs -> rs !! i = Some r -> f c y = Some (x, y') ->
     exists sv sv' r', sy_services y !! s = Some sv /\ sy_services y' = <[s := sv']> (sy_services y) /\
       sy_next_id y' = sy_next_id y /\ Forall benign (sy_faults y') /\
       step_ok i s r r' sv sv' (phase_of s rs) (fun k => total rs (TSvc k s)) (sy_heap y) (sy_heap y') /\
       Q x r') ->
  wtp i (section f) Q r.
Proof.
  intros H. apply wt_section. intros c y rs x y' Hi Hr Hf.
  destruct (H c y rs x y' Hi Hr Hf) as (sv & sv' & r' & H1 & H2 & H3 & H4 & H5 & H6).
  destruct (pool_step y rs i r Hi Hr s sv sv' r' y') as [Hg Hi']; try done. split; [done|]. by exists r'.
Qed.

Lemma wt_on_service {X} i s (f : Z -> service -> X * service) (Q : X -> res -> Prop) r :
  (forall c sv ph n h, svc_ctx i s r sv ph n ->
     exists r', step_ok i s r r' sv (snd (f c sv)) ph n h h /\ Q (fst (f c sv)) r') ->
  wtp i (section (on_service s f)) Q r.
Proof.
  intros H. apply (wt_svc i s). intros c y rs x y' Hi Hr Hf. unfold on_service in Hf.
  destruct (sy_services y !! s) as [sv|] eqn:Hs; [|done].
  destruct (H c sv (phase_of s rs) (fun k => total rs (TSvc k s)) (sy_heap y)) as (r' & Hok & HQ);
    [by apply pool_ctx with (y := y)|].
  destruct (f c sv) as [x0 sv'] eqn:Ef. simplify_eq. exists sv, sv', r'. split_and!; try done.
  apply (pi_faults _ _ Hi).
Qed.

(** A section that reads a service. *)
Lemma wt_read {X} i s (f : service -> X) (Q : X -> res -> Prop) r :
  (forall sv ph n, svc_ctx i s r sv ph n -> Q (f sv) r) -> wtp i (read_service s f) Q r.
Proof.
  intros H. apply wt_on_service. intros c sv ph n h Hc. exists r. split; [by apply step_refl|]. by eapply H.
Qed.

(** What is only about the waiting threads. *)
Lemma pool_inv_waiting w y rs : pool_inv y rs -> pool_inv (put_waiting w y) rs.
Proof. intros []. by constructor. Qed.

Lemma pool_guar_waiting w y y' : pool_guar y y' -> pool_guar y (put_waiting w y').
Proof. done. Qed.

Lemma wt_broadcast_after {X} i cv (f : Z -> sys -> option (X * sys)) (Q : X -> res -> Prop) r :
  wtp i (section f) Q r -> wtp i (section (broadcast_after cv f)) Q r.
Proof.
  intros H. apply wt_section. intros c y rs x y' Hi Hr Hf. unfold broadcast_after in Hf.
  destruct (f c y) as [[x0 y0]|] eqn:Ef; [|done]. simplify_eq.
  destruct (H c y rs x y0 Hi Hr Ef) as (Hg & r' & Hi' & HQ).
  split; [by apply pool_guar_waiting|]. exists r'. split; [by apply pool_inv_waiting|done].
Qed.

Lemma wt_local {X} i (f : Z -> sys -> option (X * sys)) (Q : X -> res -> Prop) r :
  (forall c y rs x y', pool_inv y rs -> rs !! i = Some r -> f c y = Some (x, y') ->
     Q x r /\ exists w, y' = put_waiting w y) ->
  wtp i (section f) Q r.
Proof.
  intros H. apply wt_section. intros c y rs x y' Hi Hr Hf.
  destruct (H c y rs x y' Hi Hr Hf) as (HQ & w & ->).
  split; [apply pool_guar_waiting, pool_guar_refl|]. exists r. rewrite list_insert_id by done.
  split; [by apply pool_inv_waiting|done].
Qed.

Lemma wt_wake i self (Q : unit -> res -> Prop) r : Q tt r -> wtp i (section (wake_section self)) Q r.
Proof.
  intros HQ. apply wt_local. intros c y rs x y' Hi Hr Hf. unfold wake_section in Hf.
  split; [by destruct x|]. destruct y as [a b d w e]. cbn in Hf.
  destruct (w !! self); [destruct (c =? 1); [|done]|]; simplify_eq; eexists; reflexivity.
Qed.

Lemma wt_wait_section {X} i self cv s ready (f : Z -> service -> X * service) (Q : option X -> res -> Prop) r :
  (forall c sv ph n h, svc_ctx i s r sv ph n -> ready sv = true ->
     exists r', step_ok i s r r' sv (snd (f c sv)) ph n h h /\ Q (Some (fst (f c sv))) r') ->
  (forall sv ph n, svc_ctx i s r sv ph n -> ready sv = false -> Q None r) ->
  wtp i (section (wait_section self cv s ready f)) Q r.
Proof.
  intros H HN. apply wt_section. intros c y rs x y' Hi Hr Hf. unfold wait_section in Hf.
  destruct (sy_services y !! s) as [sv|] eqn:Hs; [|done].
  assert (Hc : svc_ctx i s r sv (phase_of s rs) (fun k => total rs (TSvc k s))) by by apply pool_ctx with (y := y).
  destruct (ready sv) eqn:Er.
  - destruct (H c sv _ _ (sy_heap y) Hc Er) as (r' & Hok & HQ). destruct (f c sv) as [x0 sv'] eqn:Ef. simplify_eq.
    destruct (pool_step y rs i r Hi Hr s sv sv' r' (put_services (<[s:=sv']> (sy_services y)) y)) as [Hg Hi']; try done.
    { apply (pi_faults _ _ Hi). }
    split; [done|]. by exists r'.
  - simplify_eq. split; [apply pool_guar_waiting, pool_guar_refl|]. exists r. rewrite list_insert_id by done.
    split; [by apply pool_inv_waiting|]. by eapply HN.
Qed.

Lemma wt_wait_loop {X} i self cv s ready (f : Z -> service -> X * service) (Q : X -> res -> Prop) r :
  (forall c sv ph n h, svc_ctx i s r sv ph n -> ready sv = true ->
     exists r', step_ok i s r r' sv (snd (f c sv)) ph n h h /\ Q (fst (f c sv)) r') ->
  wtp i (wait_loop self cv s ready f) Q r.
Proof.
  intros H. apply (wt_loop _ _ _ _ _ (fun r0 => r0 = r)); [done|]. intros r0 ->.
  apply wt_bind, wt_wait_section.
  - intros c sv ph n h Hc Hr. destruct (H c sv ph n h Hc Hr) as (r' & Hok & HQ). exists r'. by split.
  - intros sv ph n Hc _. apply wt_bind, wt_wake. done.
Qed.

Lemma wt_choose i (Q : Z -> res -> Prop) r : (forall c, Q c r) -> wtp i (section choose) Q r.
Proof.
  intros HQ. apply wt_local. intros c y rs x y' Hi Hr [= <- <-]. split; [done|].
  exists (sy_waiting y). by destruct y.
Qed.

(** A fault the invariant admits. *)
Lemma wt_fault_guar a s y rs : pool_inv y rs -> benign (Fault a s) -> pool_inv (add_fault (Fault a s) y) rs.
Proof. intros [] Hb. constructor; try done. cbn. by constructor. Qed.

Lemma pool_guar_fault f y : pool_guar y (add_fault f y).
Proof. exact (pool_guar_refl y). Qed.

Lemma wt_mailbox_op {X} i a field s (d : X) f (Q : X -> res -> Prop) r :
  (forall c sv ph n h, svc_ctx i s r sv ph n ->
     match mailbox_live field sv with
     | Some q => exists r', step_ok i s r r' sv (on_runtime (set_box (Some (snd (f c q)))) sv) ph n h h /\
                   Q (fst (f c q)) r'
     | None => benign (Fault a s) /\ Q d r
     end) ->
  wtp i (section (mailbox_op a field s d f)) Q r.
Proof.
  intros H. apply wt_section. intros c y rs x y' Hi Hr Hf. unfold mailbox_op in Hf.
  destruct (sy_services y !! s) as [sv|] eqn:Hs; [|done].
  specialize (H c sv (phase_of s rs) (fun k => total rs (TSvc k s)) (sy_heap y)).
  specialize (H (pool_ctx _ _ _ _ _ _ Hi Hr Hs)).
  destruct (mailbox_live field sv) as [q|].
  - destruct H as (r' & Hok & HQ). destruct (f c q) as [x0 q'] eqn:Ef. simplify_eq.
    destruct (pool_step y rs i r Hi Hr s sv (on_runtime (set_box (Some q')) sv) r'
      (put_services (<[s := on_runtime (set_box (Some q')) sv]> (sy_services y)) y)) as [Hg Hi']; try done.
    { apply (pi_faults _ _ Hi). }
    split; [done|]. by exists r'.
  - destruct H as [Hb HQ]. simplify_eq. split; [apply pool_guar_fault|]. exists r.
    rewrite list_insert_id by done. split; [by apply wt_fault_guar|done].
Qed.

(** A call of libuv that leaves the invariant's view of the inbox handle. *)
Lemma wt_uv_call {X} i s (f : Z -> uvloop -> X * uvloop) (Q : X -> res -> Prop) r :
  (forall c sv ph n, svc_ctx i s r sv ph n ->
     handle_code (lo_inbox_handle (snd (f c (sv_loop sv)))) = inbox_code sv /\ Q (fst (f c (sv_loop sv))) r) ->
  wtp i (section (uv_call s f)) Q r.
Proof.
  intros H. apply wt_on_service. intros c sv ph n h Hc. exists r. destruct (H c sv ph n Hc) as [H1 H2].
  destruct (f c (sv_loop sv)) as [x l]. cbn [fst snd] in *. split; [|done].
  apply step_keep; [done|guar_tac| |done]. eapply svc_inv_same; [|apply Hc]. by unfold svc_same.
Qed.

Lemma wt_async_send `{LibuvLaws} i a control s (Q : Z -> res -> Prop) r :
  (forall sv ph n, svc_ctx i s r sv ph n ->
     (exists b, async_handle control (sv_loop sv) = HActive b) \/ benign (Fault a s)) ->
  (forall x, Q x r) ->
  wtp i (section (async_send a control s)) Q r.
Proof.
  intros H' HQ. apply wt_section. intros c y rs x y' Hi Hr Hf. unfold async_send in Hf.
  destruct (sy_services y !! s) as [sv|] eqn:Hs; [|done].
  pose proof (pool_ctx _ _ _ _ _ _ Hi Hr Hs) as Hc. specialize (H' _ _ _ Hc).
  destruct (async_handle control (sv_loop sv)) as [|b|] eqn:Eh.
  1,3: injection Hf as <- <-; destruct H' as [[b E]|Hb]; [done|]; split; [apply pool_guar_fault|];
    exists r; rewrite list_insert_id by done; split; [by apply wt_fault_guar|done].
  unfold uv_call, on_service in Hf. rewrite Hs, (uv_async_send_law _ _ _ b) in Hf by done.
  injection Hf as <- <-. set (l := if c =? 0 then _ else _). set (sv' := on_loop (fun _ => l) sv).
  destruct (pool_step y rs i r Hi Hr s sv sv' r (put_services (<[s := sv']> (sy_services y)) y)) as [Hg Hi'];
    try done; [apply (pi_faults _ _ Hi)| |split; [done|by exists r]].
  apply step_keep; [done|unfold sv'; guar_tac| |done].
  eapply svc_inv_same; [|apply Hc]. unfold svc_same. split_and!; try done.
  unfold inbox_code, sv', l. destruct (c =? 0), control; cbn in *; try done. by rewrite Eh.
Qed.

Lemma wt_malloc i p ts (Q : option Z -> res -> Prop) :
  (pins ts <= 1)%nat ->
  Q None (Res p ts) -> (forall a, Q (Some a) (Res p (TBlock a :: ts))) ->
  wtp i (section malloc) Q (Res p ts).
Proof.
  intros Hp HN HS. apply wt_section. intros c y rs x y' Hi Hr Hf. unfold malloc in Hf.
  destruct ((c <=? 0) || bool_decide (c ∈ sy_heap y)) eqn:Ec; simplify_eq.
  - split; [apply pool_guar_refl|]. exists (Res p ts). by rewrite list_insert_id.
  - apply orb_false_iff in Ec as [_ Ec]. apply bool_decide_eq_false in Ec.
    destruct (pool_local y rs i (Res p ts) Hi Hr (Res p (TBlock c :: ts)) (put_heap ({[c]} ∪ sy_heap y) y))
      as [Hg Hi']; try done.
    + apply (pi_faults _ _ Hi).
    + intros a. cbn. rewrite heap_cnt_add by done. lia.
    + split; [done|]. exists (Res p (TBlock c :: ts)). by split.
Qed.

Lemma wt_free i p ts ts' o (Q : unit -> res -> Prop) :
  ts = match o with Some a => TBlock a :: ts' | None => ts' end ->
  Q tt (Res p ts') ->
  wtp i (section (free o)) Q (Res p ts).
Proof.
  intros -> HQ. apply wt_section. intros c y rs x y' Hi Hr [= <- <-].
  unfold free_block. destruct o as [a|]; cbn.
  - assert (Ha : a ∈ sy_heap y).
    { pose proof (pi_heap _ _ Hi a) as Hh. pose proof (total_held _ _ _ (TBlock a) Hr) as Ht. cbn in Ht.
      rewrite Z.eqb_refl in Ht. cbn in Ht. unfold heap_cnt in Hh. case_bool_decide; [done|lia]. }
    rewrite decide_True by done.
    destruct (pool_local y rs i _ Hi Hr (Res p ts') (put_heap (sy_heap y ∖ {[a]}) y)) as [Hg Hi']; try done.
    + apply (pi_faults _ _ Hi).
    + pose proof (pi_one_pin _ _ Hi _ _ Hr) as Hp. cbn in *. lia.
    + intros b. cbn. pose proof (heap_cnt_del a (sy_heap y) b Ha). lia.
    + split; [done|]. exists (Res p ts'). by split.
  - replace (put_heap (sy_heap y) y) with y by (by destruct y).
    split; [apply pool_guar_refl|]. exists (Res p ts'). by rewrite list_insert_id.
Qed.
