(* ===== verification/ServiceSafe.v ===== *)
(** * ServiceSafe: every function of service.c keeps the invariant

    For each function, what a thread holds before and after it ([neutral] when
    the same), whatever the other threads do between its sections. *)

From S2P Require Import Prelude Message Mailbox Queue MailboxCorrect Concur ServiceState Service.
From S2P Require Import ServiceInv ServiceLogic.
#[local] Open Scope prog_scope.

Section Safe.
Context {U : Libuv} {L : @LibuvLaws U}.

(** A program after which the thread holds what it held. *)
Definition neutral {A} (i : nat) (p : prog sys A) (r : res) : Prop := wtp i p (fun _ r' => r' = r) r.

(** The tokens of the three kinds of goals about them. *)
Ltac toks_count :=
  intros k; destruct k; unfold n_add, n_del;
  cbn [held token_eqb kind_eqb Nat.b2n r_toks andb app]; rewrite ?Z.eqb_refl; cbn [Nat.b2n]; cbv beta in *; lia.
Ltac toks_other :=
  let k := fresh in let s' := fresh in let Hne := fresh in
  intros k s' Hne; cbn [held token_eqb r_toks app];
  repeat match goal with |- context [?s =? s'] => rewrite (proj2 (Z.eqb_neq s s')) by congruence end;
  rewrite ?andb_false_r; reflexivity.
Ltac toks_block := let a := fresh in intros a; first [reflexivity | unfold owned; cbn; lia].

(** A token at hand is counted. *)
Lemma ctx_token i s p ts sv ph n k :
  svc_ctx i s (Res p ts) sv ph n -> (0 < held ts (TSvc k s))%nat -> (0 < n k)%nat.
Proof. intros Hc H. pose proof (sc_held _ _ _ _ _ _ Hc k). cbn in *. lia. Qed.

Lemma held_head k s ts : (0 < held (TSvc k s :: ts) (TSvc k s))%nat.
Proof. cbn. rewrite Z.eqb_refl. destruct k; cbn; lia. Qed.

(** ** Reading fields *)

Lemma read_neutral {X} i s (f : service -> X) r : neutral i (read_service s f) r.
Proof. by apply wt_read. Qed.

Lemma get_state_neutral i s r : neutral i (service_get_state s) r.
Proof. destruct s; [apply read_neutral|done]. Qed.

Lemma pool_get_service_neutral i pool id r : neutral i (service_pool_get_service pool id) r.
Proof.
  unfold service_pool_get_service, neutral. destruct (negb pool || (MAX_SERVICES <=? id)); [done|].
  apply wt_local. intros c y rs x y' _ _ [= <- <-]. split; [done|]. exists (sy_waiting y). by destruct y.
Qed.

Lemma lookup_neutral i pool name r : neutral i (service_pool_lookup_service pool name) r.
Proof.
  unfold service_pool_lookup_service, neutral. destruct pool, name; try done.
  apply wt_local. intros c y rs x y' _ _ [= <- <-]. split; [done|]. exists (sy_waiting y). by destruct y.
Qed.

Lemma set_exit_error_neutral i s e r : neutral i (service_set_exit_error s e) r.
Proof.
  unfold service_set_exit_error, neutral. destruct s as [s|], e as [e|]; try done.
  apply wt_bind, wt_choose. intros c. destruct (c =? 0); [done|].
  apply wt_on_service. intros c' sv ph n h Hc. exists r. split; [|done]. cbn [snd].
  destruct (st_exit_error (sv_status sv)) eqn:E; [by apply step_refl|].
  apply step_keep; [done| | |done].
  - constructor; unfold code; cbn; auto; [lia|congruence].
  - eapply svc_inv_same; [|apply Hc]. by unfold svc_same.
Qed.

Lemma inactive_wt i s r :
  wtp i (inactive_send_result s) (fun out r' => r' = r /\ out <> SERVICE_SEND_OK) r.
Proof.
  apply wt_bind. eapply wt_mono; [|apply get_state_neutral]. intros a r' ->. cbn.
  split; [done|]. by destruct (_ <? _).
Qed.

(** ** Pins *)

Lemma pin_wt i pool id p ts :
  pins ts = 0%nat ->
  wtp i (service_pool_pin pool id)
    (fun out r' => match out with
                   | (SERVICE_SEND_OK, Some s) => r' = Res p (TSvc KPin s :: ts)
                   | (SERVICE_SEND_OK, None) | (_, Some _) => False
                   | (_, None) => r' = Res p ts
                   end) (Res p ts).
Proof.
  intros Hp. unfold service_pool_pin. destruct (negb pool || (MAX_SERVICES <=? id)); [done|].
  apply wt_bind. eapply (wt_mono _ _ _ _ (fun o r' => match o with
    | Some true => r' = Res p (TSvc KPin id :: ts) | _ => r' = Res p ts end)).
  { intros [[]|] r' ->; [done| |done]. apply wt_bind.
    eapply wt_mono; [|apply inactive_wt]. by intros [] r' [-> ?]. }
  apply wt_section. intros c y rs x y' Hi Hr Hf. unfold pin_section in Hf.
  destruct (sy_services y !! id) as [sv|] eqn:Hs.
  2: { simplify_eq. split; [apply pool_guar_refl|]. exists (Res p ts). by rewrite list_insert_id. }
  destruct (rt_routable (sv_route sv)) eqn:Er; simplify_eq.
  2: { split; [apply pool_guar_refl|]. exists (Res p ts). by rewrite list_insert_id. }
  pose proof (pool_ctx _ _ _ _ _ _ Hi Hr Hs) as Hc.
  set (sv' := on_route _ sv).
  assert (Hok : step_ok i id (Res p ts) (Res p (TSvc KPin id :: ts)) sv sv' (phase_of id rs)
    (fun k => total rs (TSvc k id)) (sy_heap y) (sy_heap y)).
  { eapply step_same with (n' := n_add KPin (fun k => total rs (TSvc k id))); [done|done| | | | | |].
    - guar_tac.
    - apply svc_pin; [apply Hc|done|apply Hc].
    - toks_count.
    - toks_other.
    - cbn. lia.
    - toks_block. }
  destruct (pool_step y rs i _ Hi Hr id sv sv' (Res p (TSvc KPin id :: ts))
    (put_services (<[id := sv']> (sy_services y)) y)) as [Hg Hi']; try done; [apply (pi_faults _ _ Hi)|].
  split; [done|]. by exists (Res p (TSvc KPin id :: ts)).
Qed.

(** The pin a thread holds, whether it saw the inbox handle ready or not. *)
Definition pin_kind (k : kind) : bool := match k with KPin | KAsync => true | _ => false end.

Lemma unpin_wt i s k p ts :
  pin_kind k = true ->
  wtp i (service_unpin s) (fun _ r' => r' = Res p ts) (Res p (TSvc k s :: ts)).
Proof.
  intros Hk. apply (wt_svc i s). intros c y rs x y' Hi Hr Hf. unfold unpin_section in Hf.
  destruct (sy_services y !! s) as [sv|] eqn:Hs; [|done].
  pose proof (pool_ctx _ _ _ _ _ _ Hi Hr Hs) as Hc.
  pose proof (ctx_token _ _ _ _ _ _ _ _ Hc (held_head k s ts)) as Hn.
  assert (Hpos : 0 < rt_send_pins (sv_route sv)).
  { rewrite (si_pins _ _ _ (sc_inv _ _ _ _ _ _ Hc)). destruct k; try done; cbn in Hn; lia. }
  rewrite (proj2 (Z.ltb_lt 0 _) Hpos) in Hf.
  exists sv, (on_route (set_send_pins (rt_send_pins (sv_route sv) - 1)) sv), (Res p ts).
  split; [done|]. simplify_eq.
  assert (Hpc : (pins ts <= 1)%nat) by (pose proof (sc_pins _ _ _ _ _ _ Hc) as Hp; cbn in Hp; lia).
  pose proof (pi_faults _ _ Hi) as Hfa.
  split; [by destruct (_ =? 0)|]. split; [by destruct (_ =? 0)|].
  split; [by destruct (_ =? 0)|]. split; [|done].
  set (y' := if _ =? 0 then _ else _).
  assert (Eh : sy_heap y' = sy_heap y) by (unfold y'; by destruct (_ =? 0)). rewrite Eh.
  destruct k; try done.
  - eapply step_same with (n' := n_del KPin (fun k => total rs (TSvc k s))); [done|done|guar_tac| |toks_count|toks_other|done|toks_block].
    apply svc_unpin; [apply Hc|done].
  - eapply step_same with (n' := n_del KAsync (fun k => total rs (TSvc k s))); [done|done|guar_tac| |toks_count|toks_other|done|toks_block].
    eapply svc_inv_ext; [|apply svc_unpin; [apply svc_unasync; [apply Hc|done]|unfold n_add, n_del; cbn; lia]].
    intros k. destruct k; unfold n_add, n_del; cbn; lia.
Qed.

(** *** Leaving the pool's routes *)

Lemma retire_step i s r sv ph n h :
  svc_ctx i s r sv ph n -> step_ok i s r r sv (on_route (set_routable false) sv) ph n h h.
Proof.
  intros Hc. eapply step_keep; [done|constructor; unfold code; cbn; auto; (lia || done)| |done].
  eapply svc_inv_ext; [|eapply (svc_drop KRetired); [apply svc_retire, Hc|done]].
  intros k. destruct k; unfold n_add, n_del; cbn; lia.
Qed.

Lemma retire_neutral i s r : neutral i (service_retire s) r.
Proof. apply wt_on_service. intros c sv ph n h Hc. exists r. split; [by apply retire_step|done]. Qed.

Lemma retire_wt i s p ts :
  wtp i (service_retire s) (fun _ r' => r' = Res p (TSvc KRetired s :: ts)) (Res p ts).
Proof.
  apply wt_on_service. intros c sv ph n h Hc. exists (Res p (TSvc KRetired s :: ts)). split; [|done].
  eapply (step_same _ _ _ _ _ _ _ _ _ (n_add KRetired n));
    [done|done|constructor; unfold code; cbn; auto; (lia || done)| |toks_count|toks_other| |toks_block].
  - apply svc_retire, Hc.
  - pose proof (sc_pins _ _ _ _ _ _ Hc). cbn in *. lia.
Qed.

Lemma wait_pins_wt i self s p ts :
  (0 < held ts (TSvc KRetired s))%nat ->
  wtp i (service_wait_pins self s) (fun _ r' => r' = Res p (TSvc KQuiet s :: ts)) (Res p ts).
Proof.
  intros Hh. apply wt_wait_loop. intros c sv ph n h Hc Hz. apply Z.eqb_eq in Hz.
  exists (Res p (TSvc KQuiet s :: ts)). split; [|done].
  eapply (step_same _ _ _ _ _ _ _ _ _ (n_add KQuiet n));
    [done|done|reflexivity| |toks_count|toks_other| |toks_block].
  - apply svc_wait_pins; [apply Hc|by eapply ctx_token|done].
  - pose proof (sc_pins _ _ _ _ _ _ Hc). cbn in *. lia.
Qed.

(** ** Stopping *)

Lemma close_step i s r sv ph n h q :
  svc_ctx i s r sv ph n -> ru_box (sv_runtime sv) = Some q ->
  step_ok i s r r sv (on_runtime (set_box (Some (snd (q_close q)))) sv) ph n h h.
Proof.
  intros Hc Hb. eapply step_keep; [done| | |].
  - constructor; unfold code; cbn; auto; [lia|by rewrite Hb].
  - by apply svc_box with (q := q); [apply Hc| | |].
  - intros a. unfold owned. cbn. by rewrite Hb.
Qed.

Lemma stop_neutral i s r : neutral i (service_stop s) r.
Proof.
  unfold neutral, service_stop. destruct s as [s|]; [|done].
  apply wt_bind. eapply wt_mono; [|apply retire_neutral]. intros _ r' ->.
  apply wt_bind, wt_broadcast_after, wt_on_service. intros c sv ph n h Hc.
  exists r. split.
  { pose proof (sc_inv _ _ _ _ _ _ Hc) as Hi.
    cbv beta zeta. destruct (st_state (sv_status sv)) eqn:Es; cbn [snd]; try (by apply step_refl).
    - apply step_keep; [done| |by apply svc_stop_new|done].
      constructor; unfold code; rewrite ?Es; cbn; auto; lia.
    - apply step_keep; [done| |apply svc_stop_live; [done|unfold code; rewrite Es; cbn; lia]|done].
      constructor; unfold code; rewrite ?Es; cbn; auto; lia.
    - apply step_keep; [done| |apply svc_stop_live; [done|unfold code; rewrite Es; cbn; lia]|done].
      constructor; unfold code; rewrite ?Es; cbn; auto; lia. }
  destruct (fst _) as [inbox control].
  apply wt_bind. eapply (wt_mono _ _ _ _ (fun _ r' => r' = r)).
  2: { destruct inbox; [|done]. apply wt_mailbox_op. intros c' sv' ph' n' h' Hc'. cbn [mailbox_live andb].
       destruct (ru_box (sv_runtime sv')) as [q|] eqn:Hb; [|done].
       exists r. split; [by eapply close_step|done]. }
  intros _ r' ->. apply wt_bind. eapply (wt_mono _ _ _ _ (fun _ r' => r' = r)).
  2: { destruct control; [|done]. apply wt_async_send; [|done]. intros. by right. }
  by intros _ r' ->.
Qed.

(** ** Sending *)

Definition blk (o : option Z) : list token := match o with Some a => [TBlock a] | None => [] end.

Lemma held_blk_svc o ts k s : held (blk o ++ ts) (TSvc k s) = held ts (TSvc k s).
Proof. by destruct o. Qed.
Lemma pins_blk o ts : pins (blk o ++ ts) = pins ts.
Proof. by destruct o. Qed.
Lemma held_blk o ts a : held (blk o ++ ts) (TBlock a) = (opt_cnt a o + held ts (TBlock a))%nat.
Proof. by destruct o. Qed.

Lemma cnt_app a l l' : cnt a (l ++ l') = (cnt a l + cnt a l')%nat.
Proof. induction l as [|b l IH]; cbn; [done|]. rewrite IH. lia. Qed.

Lemma payloads_snoc items m a : cnt a (omap m_msg (items ++ [m])) = (cnt a (omap m_msg items) + opt_cnt a (m_msg m))%nat.
Proof. rewrite omap_app, cnt_app. f_equal. cbn. destruct (m_msg m); cbn; lia. Qed.

Lemma payloads_cons m items a : cnt a (omap m_msg (m :: items)) = (opt_cnt a (m_msg m) + cnt a (omap m_msg items))%nat.
Proof. cbn. destruct (m_msg m); cbn; lia. Qed.

(** A service that is pinned, or whose thread lives, has its mailbox. *)
Lemma box_live sv ph n :
  svc_inv sv ph n -> code sv <> 6 -> exists q, mailbox_live true sv = Some q /\ ru_box (sv_runtime sv) = Some q.
Proof.
  intros H Hc. pose proof (proj2 (si_inbox _ _ _ H) Hc) as Hi.
  pose proof (proj2 (si_box _ _ _ H) (or_introl Hc)) as Hb. unfold mailbox_live. rewrite Hi.
  destruct (ru_box (sv_runtime sv)) as [q|]; [|done]. by exists q.
Qed.

Lemma pinned_live sv ph n :
  svc_inv sv ph n -> (0 < n KPin + n KAsync)%nat -> code sv <> 6 /\ phase_code ph < 6.
Proof.
  intros H Hn. split.
  - intros Hc. destruct (si_freed _ _ _ H Hc). lia.
  - destruct (Z.lt_ge_cases (phase_code ph) 6) as [|Hp]; [done|]. destruct (si_drained _ _ _ H Hp) as (_ & K & _). lia.
Qed.

(** The push: an accepted message takes its payload along. *)
Lemma push_wt i s p ts m :
  wtp i (section (mailbox_op AccPush true s (MAILBOX_CLOSED, false) (try_push m)))
    (fun out r' => r' = Res p (TSvc KPin s ::
       match fst out with MAILBOX_OK => ts | _ => blk (m_msg m) ++ ts end))
    (Res p (TSvc KPin s :: blk (m_msg m) ++ ts)).
Proof.
  apply wt_mailbox_op. intros c sv ph n h Hc. pose proof (sc_inv _ _ _ _ _ _ Hc) as Hi.
  assert (Hn : (0 < n KPin)%nat) by (eapply ctx_token; [done|apply held_head]).
  destruct (pinned_live _ _ _ Hi) as [Hc6 Hp6]; [lia|]. destruct (box_live _ _ _ Hi Hc6) as (q & -> & Hb).
  eexists. split; [|reflexivity].
  assert (Hsame : step_ok i s (Res p (TSvc KPin s :: blk (m_msg m) ++ ts)) (Res p (TSvc KPin s :: blk (m_msg m) ++ ts))
    sv (on_runtime (set_box (Some q)) sv) ph n h h).
  { eapply step_keep; [done| | |].
    - constructor; unfold code; cbn; auto; [lia|by rewrite Hb|by rewrite Hb].
    - by apply svc_box with (q := q).
    - intros a. unfold owned. cbn. by rewrite Hb. }
  unfold try_push. destruct (q_can_push _ _ q) eqn:Ep; [|exact Hsame].
  unfold q_push. destruct (q_closed q) eqn:Ecl; [exact Hsame|]. cbn [fst snd].
  set (q' := Queue _ _ _ _ _ _ _).
  eapply (step_same _ _ _ _ _ _ _ _ _ n); [done|done| | | | | |].
  - constructor; unfold code; cbn; auto; [lia| |]; rewrite Hb; cbn; congruence.
  - apply svc_box with (q := q); [done|done|congruence|lia].
  - intros k. cbn [r_toks held]. rewrite held_blk_svc. lia.
  - intros k s' Hne. cbn [r_toks held]. by rewrite held_blk_svc.
  - pose proof (sc_pins _ _ _ _ _ _ Hc) as K. cbn in *. rewrite pins_blk in K. lia.
  - intros a. unfold owned. cbn [r_toks held token_eqb Nat.b2n]. rewrite held_blk, Hb. cbn. unfold q_payloads at 1, q'. cbn [q_items].
    rewrite payloads_snoc. unfold q_payloads. lia.
Qed.

(** Reading whether the inbox handle is ready, with a pin. *)
Lemma read_ready_wt i s p ts :
  wtp i (read_service s (fun sv => st_inbox_async_ready (sv_status sv)))
    (fun b r' => r' = Res p (TSvc (if b then KAsync else KPin) s :: ts)) (Res p (TSvc KPin s :: ts)).
Proof.
  apply wt_on_service. intros c sv ph n h Hc. cbn [fst snd].
  assert (Hn : (0 < n KPin)%nat) by (eapply ctx_token; [done|apply held_head]).
  destruct (st_inbox_async_ready (sv_status sv)) eqn:Er; (eexists; split; [|reflexivity]).
  - eapply (step_same _ _ _ _ _ _ _ _ _ (n_add KAsync (n_del KPin n)));
      [done|done|reflexivity| |toks_count|toks_other| |toks_block].
    + apply svc_async; [apply Hc|done|done].
    + pose proof (sc_pins _ _ _ _ _ _ Hc). cbn in *. lia.
  - by apply step_refl.
Qed.

Lemma notify_wt i s p ts r :
  r = Res p (TSvc KAsync s :: ts) -> neutral i (section (async_send AccNotify false s)) r.
Proof.
  intros ->. apply wt_async_send; [|done]. intros sv ph n Hc. left.
  assert (Hn : (0 < n KAsync)%nat) by (eapply ctx_token; [done|apply held_head]).
  pose proof (si_async_active _ _ _ (sc_inv _ _ _ _ _ _ Hc) Hn) as Ha. unfold inbox_code in Ha. cbn.
  destruct (lo_inbox_handle (sv_loop sv)) as [|b|]; try done. by exists b.
Qed.

Lemma send_wt i pool m p ts :
  pins ts = 0%nat ->
  wtp i (service_send pool (Some m))
    (fun out r' => r' = Res p (if bool_decide (out = SERVICE_SEND_OK) then ts else blk (m_msg m) ++ ts))
    (Res p (blk (m_msg m) ++ ts)).
Proof.
  intros Hp. unfold service_send. apply wt_bind.
  eapply wt_mono; [|apply pin_wt; by rewrite pins_blk].
  intros [result [s|]] r'; [|destruct result; first [done | by intros ->]].
  destruct result; try done. intros ->.
  apply wt_bind. eapply wt_mono; [|apply push_wt]. intros [pushed notify] r' ->. cbn [fst].
  set (ts' := match pushed with MAILBOX_OK => ts | _ => _ end).
  apply wt_bind. eapply (wt_mono _ _ _ _ (fun _ r' => exists k, pin_kind k = true /\ r' = Res p (TSvc k s :: ts'))).
  2: { destruct (bool_decide (pushed = MAILBOX_OK) && notify); [|by exists KPin].
       apply wt_bind. eapply wt_mono; [|apply read_ready_wt]. intros [] r' ->; [|by exists KPin].
       eapply wt_mono; [|by eapply notify_wt]. intros a r' ->. by exists KAsync. }
  intros err r' (k & Hk & ->).
  apply wt_bind. eapply (wt_mono _ _ _ _ (fun out r' => r' = Res p (TSvc k s :: ts') /\
    ts' = if bool_decide (out = SERVICE_SEND_OK) then ts else blk (m_msg m) ++ ts)).
  2: { destruct pushed; [done..|]. eapply wt_mono; [|apply inactive_wt]. intros out r' [-> Hne].
       by rewrite bool_decide_eq_false_2. }
  intros out r' [-> Hout]. apply wt_bind. eapply wt_mono; [|by apply unpin_wt]. intros _ r' ->.
  apply wt_bind. eapply (wt_mono _ _ _ _ (fun _ r' => r' = Res p ts')).
  2: { destruct (err =? 0); [done|apply stop_neutral]. }
  intros _ r' ->. cbn. by rewrite Hout.
Qed.

(** ** Receiving, on the service's own thread *)

Definition live (p : phase) : Prop := 1 <= phase_code p <= 7.

Lemma live_box i s p ts sv ph n :
  svc_ctx i s (Res p ts) sv ph n -> i = service_thread s -> live p ->
  exists q, mailbox_live true sv = Some q /\ ru_box (sv_runtime sv) = Some q.
Proof.
  intros Hc Hi Hl. pose proof (sc_phase _ _ _ _ _ _ Hc Hi) as ->. cbn in *.
  pose proof (sc_inv _ _ _ _ _ _ Hc) as H. destruct (svc_live _ _ _ H Hl) as (_ & K & _).
  eapply box_live; [done|lia].
Qed.

Lemma pop_step i s p ts sv ph n h q :
  svc_ctx i s (Res p ts) sv ph n -> ru_box (sv_runtime sv) = Some q ->
  step_ok i s (Res p ts)
    (Res p (match fst (q_pop q) with Some m => blk (m_msg m) ++ ts | None => ts end))
    sv (on_runtime (set_box (Some (snd (q_pop q)))) sv) ph n h h.
Proof.
  intros Hc Hb. pose proof (sc_inv _ _ _ _ _ _ Hc) as Hi. pose proof (sc_pins _ _ _ _ _ _ Hc) as Hp. cbn in Hp.
  unfold q_pop. destruct (q_items q) as [|m items] eqn:Ei; cbn [fst snd].
  - eapply step_keep; [done| | |].
    + constructor; unfold code; cbn; auto; [lia|by rewrite Hb|by rewrite Hb].
    + by apply svc_box with (q := q).
    + intros a. unfold owned. cbn. rewrite Hb. cbn. unfold q_payloads. by rewrite Ei.
  - eapply (step_same _ _ _ _ _ _ _ _ _ n); [done|done| | | | | |].
    + constructor; unfold code; cbn; auto; [lia|by rewrite Hb|by rewrite Hb].
    + apply svc_box with (q := q); try done. rewrite Ei. done.
    + intros k. cbn [r_toks]. by rewrite held_blk_svc.
    + intros k s' _. cbn [r_toks]. by rewrite held_blk_svc.
    + cbn. by rewrite pins_blk.
    + intros a. unfold owned. cbn [r_toks]. rewrite held_blk, Hb. cbn. unfold q_payloads. cbn [q_items].
      rewrite Ei, payloads_cons. lia.
Qed.

Lemma recv_wt i s out p ts :
  i = service_thread s -> live p ->
  wtp i (service_recv (Some s) out)
    (fun m r' => r' = Res p (match m with Some m => blk (m_msg m) ++ ts | None => ts end)) (Res p ts).
Proof.
  intros Hi Hl. unfold service_recv. destruct out; [|done].
  apply wt_bind. eapply wt_mono; [|apply get_state_neutral]. intros st r' ->.
  destruct (bool_decide _); [|done]. apply wt_mailbox_op. intros c sv ph n h Hc.
  destruct (live_box _ _ _ _ _ _ _ Hc Hi Hl) as (q & -> & Hb).
  eexists. split; [by apply pop_step|done].
Qed.

(** ** Creating *)

Lemma find_routable_none m name id k :
  find_routable m name id k = None ->
  forall s sv, id <= s < id + Z.of_nat k -> m !! s = Some sv -> rt_routable (sv_route sv) = true ->
  sv_name sv <> name.
Proof.
  revert id. induction k as [|k IH]; intros id H s sv Hs Hm Hr; [lia|]. cbn in H.
  destruct (decide (s = id)) as [->|Hne].
  - rewrite Hm, Hr in H. cbn in H. case_bool_decide; [done|]. done.
  - assert (Hn : find_routable m name (id + 1) k = None).
    { destruct (m !! id) as [sv0|]; [|done]. destruct (_ && _); [done|]. done. }
    eapply IH; [done| |done|done]. lia.
Qed.

Lemma new_wt i pool name source config size p ts :
  pins ts = 0%nat ->
  wtp i (service_new pool name source config size)
    (fun id r' => r' = Res p (match id with Some _ => ts | None => blk config ++ ts end))
    (Res p (blk config ++ ts)).
Proof.
  intros Hp. unfold service_new. destruct (_ || _); [done|].
  apply wt_bind, wt_choose. intros c. destruct (c =? 0); [done|].
  apply wt_bind, wt_malloc; [rewrite pins_blk; lia|done|]. intros src.
  apply wt_bind. apply wt_section. intros c' y rs x y' Hi Hr Hf. unfold register_section in Hf.
  assert (Hfree : wtp i (_ <- section (free (Some src)) ;; ret None)
    (fun (id : option Z) r' => r' = Res p (match id with Some _ => ts | None => blk config ++ ts end))
    (Res p (TBlock src :: blk config ++ ts))).
  { apply wt_bind. by apply wt_free with (ts' := blk config ++ ts). }
  destruct (MAX_SERVICES <=? sy_next_id y) eqn:Emax.
  { simplify_eq. split; [apply pool_guar_refl|]. eexists. by rewrite list_insert_id. }
  apply Z.leb_gt in Emax.
  destruct (bool_decide (default [] name <> []) && bool_decide _) eqn:En.
  { simplify_eq. split; [apply pool_guar_refl|]. eexists. by rewrite list_insert_id. }
  simplify_eq.
  edestruct (pool_register y rs i _ Hi Hr (default [] name) src config size (Res p ts)) as [Hg Hi'].
  all: cycle -1.
  - split; [exact Hg|]. exists (Res p ts). split; [exact Hi'|done].
  - done.
  - intros s' sv' Hs' Hr' Hne. apply andb_false_iff in En as [En|En]; apply bool_decide_eq_false in En; [done|].
    apply eq_None_not_Some in En. pose proof (pi_next _ _ Hi).
    eapply find_routable_none; [done| |done|done].
    destruct (pi_some _ _ Hi s') as [K _]. specialize (K (ex_intro _ _ Hs')). lia.
  - done.
  - done.
  - done.
  - done.
  - done.
  - intros k s. cbn [r_toks held token_eqb Nat.b2n]. by rewrite held_blk_svc.
  - cbn. lia.
  - intros a. cbn [r_toks held token_eqb]. rewrite held_blk. lia.
Qed.

(** ** Freeing *)

Lemma free_section_wt i s p ts :
  wtp i (section (free_section s))
    (fun out r' => match out with
                   | None => r' = Res p ts
                   | Some (inbox, source, config) =>
                     inbox = true /\ r' = Res p (TSvc KFree s :: blk source ++ blk config ++ ts)
                   end) (Res p (TSvc KQuiet s :: TSvc KRetired s :: ts)).
Proof.
  apply wt_broadcast_after, wt_on_service. intros c sv ph n h Hc.
  pose proof (sc_inv _ _ _ _ _ _ Hc) as Hi. pose proof (sc_pins _ _ _ _ _ _ Hc) as Hp. cbn in Hp.
  assert (Hq : (0 < n KQuiet)%nat) by (eapply ctx_token; [done|apply held_head]).
  assert (Hr : (0 < n KRetired)%nat) by (eapply ctx_token; [done|]; cbn; rewrite Z.eqb_refl; cbn; lia).
  cbv beta zeta. case_bool_decide as Es; cbn [fst snd].
  - eexists. split; [|split; [|reflexivity]].
    + eapply (step_same _ _ _ _ _ _ _ _ _ (n_del KQuiet (n_del KRetired (n_add KFree n)))); [done|done| | | | | |].
      * constructor; unfold code; rewrite ?Es; cbn; auto; lia.
      * apply svc_drop; [apply svc_drop; [|done]|done]. by apply svc_free.
      * intros k. destruct k; unfold n_add, n_del; cbn; rewrite ?Z.eqb_refl; cbn; rewrite ?held_blk_svc; lia.
      * intros k s' Hne. cbn. rewrite !held_blk_svc. rewrite (proj2 (Z.eqb_neq s s')) by congruence.
        by rewrite !andb_false_r.
      * cbn. rewrite !pins_blk. lia.
      * intros a. cbn. rewrite !held_blk. unfold owned. cbn.
        assert (Ht : taken ph = false).
        { pose proof (si_joined_exited _ _ _ Hi). pose proof (si_not_created _ _ _ Hi).
          assert (Hc5 : code sv = 5) by (unfold code; by rewrite Es).
          destruct (st_thread_created (sv_status sv)), ph; cbn in *; try done; svc_lia. }
        rewrite Ht. lia.
    + destruct (ru_inbox (sv_runtime sv)) eqn:Ei; [done|].
      destruct (proj2 (si_inbox _ _ _ Hi)); [unfold code; by rewrite Es|done].
  - exists (Res p ts). split; [|done].
    eapply (step_same _ _ _ _ _ _ _ _ _ (n_del KQuiet (n_del KRetired n)));
      [done|done|reflexivity| |toks_count|toks_other|cbn; lia|toks_block].
    apply svc_drop; [apply svc_drop; [done|done]|done].
Qed.

(** Freeing the payloads of a queue empties its share of the heap. *)
Lemma free_payloads l y :
  (forall a, (cnt a l <= heap_cnt (sy_heap y) a)%nat) ->
  let y' := foldl (fun y a => free_block (Some a) y) y l in
  sy_services y' = sy_services y /\ sy_next_id y' = sy_next_id y /\ sy_faults y' = sy_faults y /\
  forall a, (heap_cnt (sy_heap y') a + cnt a l = heap_cnt (sy_heap y) a)%nat.
Proof.
  revert y. induction l as [|b l IH]; intros y H; cbn [foldl]; [cbn; split_and!; try done; intros; lia|].
  assert (Hb : b ∈ sy_heap y).
  { specialize (H b). cbn in H. rewrite Z.eqb_refl in H. unfold heap_cnt in H. case_bool_decide; [done|cbn in H; lia]. }
  assert (E : free_block (Some b) y = put_heap (sy_heap y ∖ {[b]}) y).
  { unfold free_block. cbn. by rewrite decide_True. }
  rewrite E. destruct (IH (put_heap (sy_heap y ∖ {[b]}) y)) as (H1 & H2 & H3 & H4).
  - intros a. specialize (H a). cbn in H. pose proof (heap_cnt_del b (sy_heap y) a Hb). cbn. lia.
  - split_and!; try done. intros a. specialize (H4 a). cbn [cnt]. cbn in H4.
    pose proof (heap_cnt_del b (sy_heap y) a Hb). lia.
Qed.

Lemma delete_wt i s p ts :
  wtp i (section (delete_section s)) (fun _ r' => r' = Res p ts) (Res p (TSvc KFree s :: ts)).
Proof.
  apply (wt_svc i s). intros c y rs x y' Hi Hr Hf. unfold delete_section in Hf.
  destruct (sy_services y !! s) as [sv|] eqn:Hs; [|done].
  pose proof (pool_ctx _ _ _ _ _ _ Hi Hr Hs) as Hc. pose proof (sc_inv _ _ _ _ _ _ Hc) as Hv.
  pose proof (sc_pins _ _ _ _ _ _ Hc) as Hp. cbn in Hp.
  assert (Hn : (0 < total rs (TSvc KFree s))%nat) by exact (ctx_token _ _ _ _ _ _ _ KFree Hc (held_head _ _ _)).
  destruct (si_free _ _ _ Hv Hn) as [Hn1 Hc6].
  destruct (ru_box (sv_runtime sv)) as [q|] eqn:Hb.
  2: { pose proof (proj2 (si_box _ _ _ Hv) (or_intror Hn1)) as K. by rewrite Hb in K. }
  set (sv' := on_runtime (set_box None) sv) in *.
  set (y1 := put_services (<[s := sv']> (sy_services y)) y) in *.
  assert (Hown : forall a, (cnt a (q_payloads q) <= heap_cnt (sy_heap y1) a)%nat).
  { intros a. pose proof (pi_heap _ _ Hi a) as Hh.
    pose proof (sum_ids_ge (owned_at (sy_services y) rs a) pool_ids s) as Hge.
    rewrite elem_of_pool_ids in Hge. specialize (Hge (pool_ids_in y rs Hi s sv Hs)).
    unfold owned_at at 1 in Hge. rewrite Hs in Hge. unfold owned in Hge. rewrite Hb in Hge. cbn in *. lia. }
  destruct (free_payloads (q_payloads q) y1 Hown) as (E1 & E2 & E3 & E4).
  assert (Ey : y' = foldl (fun y a => free_block (Some a) y) y1 (q_payloads q)) by (by injection Hf).
  rewrite <- Ey in *.
  exists sv, sv', (Res p ts). split; [done|]. split; [by rewrite E1|]. split; [by rewrite E2|].
  split; [rewrite E3; apply (pi_faults _ _ Hi)|]. split; [|done].
  assert (Eph : new_phase i s (Res p ts) (phase_of s rs) = phase_of s rs)
    by (eapply new_phase_same; [apply Hc|done]).
  constructor.
  - constructor; unfold code; cbn; auto; lia.
  - toks_other.
  - done.
  - done.
  - rewrite Eph. exists (n_del KFree (fun k => total rs (TSvc k s))). split; [by apply svc_delete|toks_count].
  - intros a. rewrite Eph. specialize (E4 a). unfold owned. rewrite Hb. cbn in *. lia.
Qed.

Lemma free_neutral i self s p ts : pins ts = 0%nat -> neutral i (service_free self s) (Res p ts).
Proof.
  intros Hp. unfold neutral, service_free. destruct s as [s|]; [|done].
  apply wt_bind. eapply wt_mono; [|apply retire_wt]. intros _ r' ->.
  apply wt_bind. eapply wt_mono; [|apply wait_pins_wt, held_head]. intros _ r' ->.
  apply wt_bind. eapply wt_mono; [|apply free_section_wt]. intros [[[inbox source] config]|] r'; [|by intros ->].
  intros [-> ->]. apply wt_bind. eapply wt_mono; [|apply delete_wt]. intros _ r' ->.
  apply wt_bind, (wt_free _ _ _ (blk config ++ ts)); [by destruct source|].
  apply wt_bind, (wt_free _ _ _ ts); [by destruct config|]. done.
Qed.

(** ** Joining *)

(** What a claimed join holds. *)
Definition claim_kind (has_thread : bool) : kind := if has_thread then KJoin else KReady.

Definition claim_toks (s : Z) (has_thread : bool) (claim : option Z) (ts : list token) : list token :=
  match claim with Some _ => ts | None => TSvc (claim_kind has_thread) s :: ts end.

(** What was seen of the thread while waiting. *)
Definition wait_kind (has_thread : bool) : kind := if has_thread then KThread else KNoThread.

(** The claim, knowing whether the service has a thread. *)
Lemma claim_step i s has p ts c sv ph n h :
  svc_ctx i s (Res p ts) sv ph n -> st_thread_created (sv_status sv) = has ->
  st_joining (sv_status sv) = false ->
  step_ok i s (Res p ts) (Res p (claim_toks s has (fst (join_claim has c sv)) ts))
    sv (snd (join_claim has c sv)) ph n h h.
Proof.
  intros Hc Ht Hj. pose proof (sc_inv _ _ _ _ _ _ Hc) as Hi. pose proof (sc_pins _ _ _ _ _ _ Hc) as Hp. cbn in Hp.
  unfold join_claim. destruct (st_thread_joined (sv_status sv)) eqn:Hd; [by apply step_refl|].
  cbn [orb]. case_bool_decide as Hf; [by apply step_refl|].
  destruct has; cbn [negb andb]; [|case_bool_decide as Hs; [|by apply step_refl]];
    cbn [fst snd negb claim_toks claim_kind].
  - eapply (step_same _ _ _ _ _ _ _ _ _ (n_add KJoin n)); [done|done|guar_tac| |toks_count|toks_other|done|toks_block].
    by apply svc_claim.
  - eapply (step_same _ _ _ _ _ _ _ _ _ (n_add KReady n)); [done|done|guar_tac| |toks_count|toks_other|done|toks_block].
    by apply svc_claim_stopped.
Qed.

Lemma claim_wait_step i s has p ts c sv ph n h :
  svc_ctx i s (Res p (TSvc (wait_kind has) s :: ts)) sv ph n -> st_joining (sv_status sv) = false ->
  step_ok i s (Res p (TSvc (wait_kind has) s :: ts)) (Res p (claim_toks s has (fst (join_claim has c sv)) ts))
    sv (snd (join_claim has c sv)) ph n h h.
Proof.
  intros Hc Hj. pose proof (sc_inv _ _ _ _ _ _ Hc) as Hi. pose proof (sc_pins _ _ _ _ _ _ Hc) as Hp.
  assert (Hn : (0 < n (wait_kind has))%nat) by (eapply ctx_token; [done|apply held_head]).
  assert (Ht : st_thread_created (sv_status sv) = has).
  { destruct has; [by apply (si_thread _ _ _ Hi)|by apply (si_no_thread _ _ _ Hi)]. }
  set (n0 := n_del (wait_kind has) n).
  assert (Hi0 : svc_inv sv ph n0) by (apply svc_drop; [done|by destruct has]).
  assert (Hc0 : svc_ctx i s (Res p ts) sv ph n0).
  { destruct Hc as [_ H1 H2 H3 H4]. constructor; try done.
    - intros k. specialize (H2 k). unfold n0, n_del. destruct has; destruct k; cbn in *; rewrite ?Z.eqb_refl in *; cbn in *; lia.
    - unfold n0, n_del. destruct has; cbn; lia.
    - destruct has; cbn in *; lia. }
  destruct (claim_step i s has p ts c sv ph n0 h Hc0 Ht Hj) as [H1 H2 H3 H4 (n' & H5 & H6) H7].
  constructor; try done.
  - intros k s' Hne. rewrite H2 by done. cbn. rewrite (proj2 (Z.eqb_neq s s')) by congruence.
    by rewrite andb_false_r.
  - exists n'. split; [done|]. intros k. specialize (H6 k). unfold n0, n_del in H6. cbn [r_toks] in *.
    destruct has; destruct k; cbn in *; rewrite ?Z.eqb_refl; cbn; lia.
Qed.

Definition join_toks (s : Z) (start : join_start) (ts : list token) : list token :=
  match start with
  | JoinDeadlock => ts
  | JoinWait has => TSvc (wait_kind has) s :: ts
  | JoinClaimed has claim => claim_toks s has claim ts
  end.

Lemma join_section_wt i self s p ts :
  wtp i (section (join_section self s)) (fun start r' => r' = Res p (join_toks s start ts)) (Res p ts).
Proof.
  apply wt_section. intros c y rs x y' Hi Hr Hf. unfold join_section, wait_section in Hf.
  destruct (sy_services y !! s) as [sv|] eqn:Hs; [|done].
  pose proof (pool_ctx _ _ _ _ _ _ Hi Hr Hs) as Hc. pose proof (sc_inv _ _ _ _ _ _ Hc) as Hv.
  remember (st_thread_created (sv_status sv)) as has eqn:Eh.
  destruct (has && bool_decide (self = service_thread s)).
  { simplify_eq. split; [apply pool_guar_refl|]. eexists. by rewrite list_insert_id. }
  unfold not_joining in Hf. destruct (st_joining (sv_status sv)) eqn:Hj; cbn [negb] in Hf.
  - injection Hf as <- <-. set (r' := Res p (TSvc (wait_kind has) s :: ts)).
    assert (Hok : step_ok i s (Res p ts) r' sv sv (phase_of s rs) (fun k => total rs (TSvc k s)) (sy_heap y) (sy_heap y)).
    { eapply (step_same _ _ _ _ _ _ _ _ _ (n_add (wait_kind has) (fun k => total rs (TSvc k s))));
        [done|done|reflexivity| | | | |toks_block].
      - subst has. destruct (st_thread_created (sv_status sv)) eqn:E; [by apply svc_see_thread|by apply svc_see_no_thread].
      - unfold r'. clear. destruct has; cbn [wait_kind]; toks_count.
      - unfold r'. clear. destruct has; cbn [wait_kind]; toks_other.
      - pose proof (sc_pins _ _ _ _ _ _ Hc). by destruct has. }
    destruct (pool_step y rs i _ Hi Hr s sv sv r' (put_waiting (<[self := StateChanged s]> (sy_waiting y)) y))
      as [Hg Hi']; try done.
    { cbn. by rewrite insert_id. }
    { apply (pi_faults _ _ Hi). }
    split; [done|]. by exists r'.
  - destruct (join_claim has c sv) as [claim sv'] eqn:Ecl. injection Hf as <- <-.
    pose proof (claim_step i s has p ts c sv _ _ (sy_heap y) Hc (eq_sym Eh) Hj) as Hok. rewrite Ecl in Hok. cbn [fst snd] in Hok.
    destruct (pool_step y rs i _ Hi Hr s sv sv' (Res p (claim_toks s has claim ts))
      (put_services (<[s := sv']> (sy_services y)) y)) as [Hg Hi']; try done.
    { apply (pi_faults _ _ Hi). }
    split; [done|]. by eexists.
Qed.

Lemma pthread_join_wt i s p ts :
  wtp i (section (pthread_join s))
    (fun error r' => r' = Res p (TSvc (if error =? 0 then KReady else KJoin) s :: ts)) (Res p (TSvc KJoin s :: ts)).
Proof.
  apply (wt_svc i s). intros c y rs x y' Hi Hr Hf. unfold pthread_join in Hf.
  destruct (sy_services y !! s) as [sv|] eqn:Hs; [|done].
  pose proof (pool_ctx _ _ _ _ _ _ Hi Hr Hs) as Hc. pose proof (sc_pins _ _ _ _ _ _ Hc) as Hp. cbn in Hp.
  assert (Hn : (0 < total rs (TSvc KJoin s))%nat) by exact (ctx_token _ _ _ _ _ _ _ KJoin Hc (held_head _ _ _)).
  exists sv, sv, (Res p (TSvc (if x =? 0 then KReady else KJoin) s :: ts)).
  split; [done|]. destruct (c =? 0) eqn:Ec.
  - destruct (sv_exited sv) eqn:Ee; [|done]. injection Hf as <- <-. cbn [Z.eqb].
    rewrite insert_id by done. split; [done|]. split; [done|]. split; [apply (pi_faults _ _ Hi)|]. split; [|done].
    eapply (step_same _ _ _ _ _ _ _ _ _ (n_add KReady (n_del KJoin (fun k => total rs (TSvc k s)))));
      [done|done|reflexivity| |toks_count|toks_other|done|toks_block].
    apply svc_pthread_join; [apply Hc|done|done].
  - injection Hf as <- <-. rewrite Ec, insert_id by done. split; [done|]. split; [done|].
    split; [apply (pi_faults _ _ Hi)|]. split; [|done]. by apply step_refl.
Qed.

Lemma joined_wt i s error p ts :
  wtp i (section (joined_section s error)) (fun _ r' => r' = Res p (TSvc KJoined s :: ts))
    (Res p (TSvc (if error =? 0 then KReady else KJoin) s :: ts)).
Proof.
  apply wt_on_service. intros c sv ph n h Hc. pose proof (sc_inv _ _ _ _ _ _ Hc) as Hi.
  pose proof (sc_pins _ _ _ _ _ _ Hc) as Hp. exists (Res p (TSvc KJoined s :: ts)). split; [|done].
  cbn [fst snd]. destruct (Z.eqb_spec error 0) as [->|Hne].
  - assert (Hn : (0 < n KReady)%nat) by (eapply ctx_token; [done|apply held_head]).
    destruct (si_ready _ _ _ Hi Hn) as [Hc4 _].
    eapply (step_same _ _ _ _ _ _ _ _ _ (n_add KJoined (n_del KReady n)));
      [done|done| |by apply svc_joined|toks_count|toks_other|done|toks_block].
    unfold code in Hc4. constructor; unfold code; cbn; auto; lia.
  - assert (Hn : (0 < n KJoin)%nat) by (eapply ctx_token; [done|apply held_head]).
    eapply (step_same _ _ _ _ _ _ _ _ _ (n_add KJoined (n_del KJoin n)));
      [done|done|guar_tac|by apply svc_join_failed|toks_count|toks_other|done|toks_block].
Qed.

Lemma join_end_wt i s p ts :
  wtp i (section (join_end_section s)) (fun _ r' => r' = Res p ts) (Res p (TSvc KJoined s :: ts)).
Proof.
  apply wt_broadcast_after, wt_on_service. intros c sv ph n h Hc.
  assert (Hn : (0 < n KJoined)%nat) by (eapply ctx_token; [done|apply held_head]).
  exists (Res p ts). split; [|done].
  eapply (step_same _ _ _ _ _ _ _ _ _ (n_del KJoined n));
    [done|done|guar_tac|apply svc_join_end; [apply Hc|done]|toks_count|toks_other|apply Hc|toks_block].
Qed.

Lemma join_neutral i self s p ts : pins ts = 0%nat -> neutral i (service_join self s) (Res p ts).
Proof.
  intros Hp. unfold neutral, service_join. destruct s as [s|]; [|done].
  apply wt_bind. eapply wt_mono; [|apply join_section_wt]. intros start r' ->.
  apply wt_bind. eapply (wt_mono _ _ _ _ (fun out r' => r' = Res p (claim_toks s (fst out) (snd out) ts))).
  2: { destruct start as [|has|has claim]; cbn [join_toks]; [done| |done].
       apply wt_bind, wt_wake, wt_bind. eapply (wt_mono _ _ _ _ (fun claim r' => r' = Res p (claim_toks s has claim ts))).
       { by intros claim r' ->. }
       apply wt_wait_loop. intros c sv ph n h Hc Hr. apply negb_true_iff in Hr.
       eexists. split; [by apply claim_wait_step|done]. }
  intros [has claim] r' ->. cbn [fst snd]. destruct claim as [e|]; [done|]. cbn [claim_toks].
  apply wt_bind.
  eapply (wt_mono _ _ _ _ (fun error r' => r' = Res p (TSvc (if error =? 0 then KReady else KJoin) s :: ts))).
  2: { destruct has; [apply pthread_join_wt|done]. }
  intros error r' ->. apply wt_bind. eapply wt_mono; [|apply joined_wt]. intros _ r' ->.
  apply wt_bind. eapply (wt_mono _ _ _ _ (fun _ r' => r' = Res p (TSvc KJoined s :: ts))).
  2: { destruct (error =? 0); [by apply free_neutral|done]. }
  intros e r' ->. apply wt_bind. eapply wt_mono; [|apply join_end_wt]. by intros _ r' ->.
Qed.

(** ** Starting *)

Lemma start_neutral i self s r : neutral i (service_start self s) r.
Proof.
  unfold neutral, service_start. destruct s as [s|]; [|done].
  apply wt_bind. eapply (wt_mono _ _ _ _ (fun _ r' => r' = r)).
  2: { apply wt_section. intros c y rs x y' Hi Hr Hf. unfold start_section in Hf.
       destruct (sy_services y !! s) as [sv|] eqn:Hs; [|done].
       pose proof (pool_ctx _ _ _ _ _ _ Hi Hr Hs) as Hc. pose proof (sc_inv _ _ _ _ _ _ Hc) as Hv.
       destruct (negb _) eqn:En.
       { simplify_eq. split; [apply pool_guar_refl|]. exists r. by rewrite list_insert_id. }
       apply negb_false_iff, bool_decide_eq_true in En.
       assert (Hc0 : code sv = 0) by (unfold code; by rewrite En).
       destruct (c =? 0); simplify_eq; set (sv' := on_status _ sv).
       - destruct (pool_step y rs i r Hi Hr s sv sv' r (put_services (<[s := sv']> (sy_services y)) y))
           as [Hg Hi']; try done; [apply (pi_faults _ _ Hi)| |split; [done|by exists r]].
         apply step_keep; [done| |by apply svc_start|done].
         unfold code in Hc0. constructor; unfold code; cbn; auto; lia.
       - destruct (pool_step y rs i r Hi Hr s sv sv' r
           (broadcast (StateChanged s) (put_services (<[s := sv']> (sy_services y)) y)))
           as [Hg Hi']; try done; [apply (pi_faults _ _ Hi)| |split; [done|by exists r]].
         apply step_keep; [done| |by apply svc_start_failed|done].
         unfold code in Hc0. constructor; unfold code; cbn; auto; lia. }
  intros [[error|]|] r' ->; [|done|].
  - apply wt_bind. eapply wt_mono; [|apply retire_neutral]. intros _ r' ->.
    apply wt_bind. eapply (wt_mono _ _ _ _ (fun _ r' => r' = r)); [by intros _ r' ->|].
    apply wt_mailbox_op. intros c sv ph n h Hc. unfold mailbox_live. cbn [andb].
    destruct (negb _); [done|]. destruct (ru_box (sv_runtime sv)) as [q|] eqn:Hb; [|done].
    exists r. split; [by eapply close_step|done].
  - apply wt_wait_loop. intros c sv ph n h Hc _. exists r. split; [by apply step_refl|done].
Qed.

(** ** Lua code and clients *)

(** Only the thread of a service receives for it. *)
Definition caller (i : nat) (p : phase) : Prop := Z.of_nat i < MAX_SERVICES -> live p.

Lemma existing_neutral i s (q : prog sys unit) r :
  (s < MAX_SERVICES -> neutral i q r) -> neutral i (existing s q) r.
Proof.
  intros H. unfold neutral, existing. apply wt_bind.
  unfold service_pool_get_service. cbn [negb orb]. destruct (Z.leb_spec MAX_SERVICES s); [done|].
  apply wt_local. intros c y rs x y' _ _ [= <- <-]. split.
  - destruct (sy_services y !! s); [by apply H|done].
  - exists (sy_waiting y). by destruct y.
Qed.

Lemma forget_neutral {A} i (q : prog sys A) r : neutral i q r -> neutral i (forget q) r.
Proof. intros H. apply wt_bind. eapply wt_mono; [|exact H]. by intros a r' ->. Qed.

Lemma send_message_neutral i m p ts :
  pins ts = 0%nat ->
  wtp i (send_message m) (fun _ r' => r' = Res p ts) (Res p (blk (m_msg m) ++ ts)).
Proof.
  intros Hp. apply wt_bind. eapply wt_mono; [|by apply send_wt]. intros result r' ->.
  apply wt_bind. case_bool_decide; [done|]. by apply (wt_free _ _ _ ts); [destruct (m_msg m)|].
Qed.

Lemma api_neutral i call p ts : pins ts = 0%nat -> caller i p -> neutral i (api i call) (Res p ts).
Proof.
  intros Hp Hcall. destruct call as [m| |s|s|s|s|name size|s e|name|s|s]; cbn [api].
  - unfold neutral. apply wt_bind.
    eapply (wt_mono _ _ _ _ (fun payload r' => r' = Res p (blk payload ++ ts))).
    { intros payload r' ->. apply wt_bind. eapply wt_mono; [|by apply send_message_neutral]. by intros a r' ->. }
    destruct (m_sz m =? 0); [done|]. by apply wt_malloc; [lia|..].
  - apply existing_neutral. intros Hs. apply wt_bind.
    eapply wt_mono; [|apply (recv_wt _ _ _ p ts)].
    + intros [m|] r' ->; [|done]. by apply (wt_free _ _ _ ts); [destruct (m_msg m)|].
    + unfold service_thread. lia.
    + by apply Hcall.
  - apply existing_neutral. intros _. apply forget_neutral, start_neutral.
  - apply existing_neutral. intros _. apply forget_neutral, stop_neutral.
  - apply existing_neutral. intros _. by apply forget_neutral, join_neutral.
  - apply existing_neutral. intros _. by apply forget_neutral, free_neutral.
  - unfold neutral. apply wt_bind, wt_malloc; [lia|..].
    + apply wt_bind. eapply wt_mono; [|apply (new_wt _ _ _ _ None); done]. intros [id|] r' ->; [done|].
      by apply (wt_free _ _ _ ts).
    + intros a. apply wt_bind. eapply wt_mono; [|apply (new_wt _ _ _ _ (Some a)); done]. intros [id|] r' ->; [done|].
      by apply (wt_free _ _ _ ts).
  - apply existing_neutral. intros _. apply set_exit_error_neutral.
  - apply forget_neutral, lookup_neutral.
  - apply existing_neutral. intros _. apply forget_neutral, read_neutral.
  - apply existing_neutral. intros _. apply wt_uv_call. intros c sv ph n Hc. split; [|done]. cbn [snd].
    by destruct (uv_user_law c (sv_loop sv)) as [b ->].
Qed.

Lemma client_neutral i calls p ts : pins ts = 0%nat -> caller i p -> neutral i (client i calls) (Res p ts).
Proof.
  intros Hp Hcall. induction calls as [|call calls IH]; cbn [client]; [done|].
  apply wt_bind. eapply wt_mono; [|by apply api_neutral]. by intros a r' ->.
Qed.

Section Thread.
Variable lua_call : Z -> option api_call.
Variable lua_error : Z -> list Z.

Lemma pcall_neutral i p ts : pins ts = 0%nat -> caller i p -> neutral i (lua_pcall lua_call i) (Res p ts).
Proof.
  intros Hp Hcall. unfold neutral. apply (wt_loop _ _ _ _ _ (fun r0 => r0 = Res p ts)); [done|]. intros r0 ->.
  apply wt_bind, wt_choose. intros c. destruct (lua_call c) as [call|]; [|done].
  apply wt_bind. eapply wt_mono; [|by apply api_neutral]. by intros a r' ->.
Qed.

(** ** The service's thread *)

Section Own.
Context (i : nat) (s : Z) (ts : list token).
Hypothesis Hi : i = service_thread s.
Hypothesis Hp : pins ts = 0%nat.

(** What the invariant does not speak of. *)
Lemma set_field_neutral f r :
  (forall sv, svc_same sv (f sv) /\ svc_guar sv (f sv)) -> neutral i (set_field s f) r.
Proof.
  intros Hf. apply wt_on_service. intros c sv ph n h Hc. exists r. split; [|done]. cbn [fst snd].
  destruct (Hf sv) as [Hs Hg]. apply step_keep; [done|done|by eapply svc_inv_same; [|apply Hc]|].
  intros a. unfold owned. destruct Hs as (_ & _ & _ & _ & _ & _ & _ & -> & -> & _ & -> & _). done.
Qed.

(** A section of the thread that moves to another phase. *)
Lemma own_phase {X} (f : Z -> service -> X * service) (Q : X -> res -> Prop) p :
  (forall c sv n, svc_inv sv p n -> exists p',
     svc_inv (snd (f c sv)) p' n /\ svc_guar sv (snd (f c sv)) /\
     (forall a, owned (snd (f c sv)) p' a = owned sv p a) /\ Q (fst (f c sv)) (Res p' ts)) ->
  wtp i (section (on_service s f)) Q (Res p ts).
Proof.
  intros H. apply wt_on_service. intros c sv ph n h Hc. pose proof (sc_phase _ _ _ _ _ _ Hc Hi) as ->.
  cbn [r_phase] in *. destruct (H c sv n (sc_inv _ _ _ _ _ _ Hc)) as (p' & H1 & H2 & H3 & H4).
  exists (Res p' ts). split; [|done]. apply step_own; try done; [cbn; lia|]. intros a. by rewrite H3.
Qed.

(** A call of libuv on the thread's own loop that may move to another phase. *)
Lemma own_uv_call {X} (f : Z -> uvloop -> X * uvloop) (Q : X -> res -> Prop) p :
  (forall c sv n, svc_inv sv p n -> exists p', taken p' = taken p /\
     svc_inv (on_loop (fun _ => snd (f c (sv_loop sv))) sv) p' n /\
     Q (fst (f c (sv_loop sv))) (Res p' ts)) ->
  wtp i (section (uv_call s f)) Q (Res p ts).
Proof.
  intros H. apply own_phase. intros c sv n Hv. destruct (H c sv n Hv) as (p' & Ht & Hi' & HQ).
  exists p'. destruct (f c (sv_loop sv)) as [x l]. cbn [fst snd] in *.
  split; [done|]. split; [guar_tac|]. split; [|done]. intros a. unfold owned. by rewrite Ht.
Qed.

Lemma init_loop_wt :
  wtp i (service_init_loop s)
    (fun error r' => exists p, r' = Res p ts /\ (p = PhInit \/ p = PhReady) /\ (error = 0 -> p = PhReady))
    (Res PhInit ts).
Proof.
  unfold service_init_loop. apply wt_bind.
  eapply (wt_mono _ _ _ _ (fun _ r' => r' = Res PhInit ts)).
  2: { apply own_uv_call. intros c sv n Hv. rewrite uv_loop_init_law. exists PhInit. split; [done|]. split; [|done].
       eapply svc_inv_same; [|exact Hv]. unfold svc_same. cbn [snd]. by destruct (c =? 0). }
  intros error r' ->. destruct (Z.eqb_spec error 0) as [->|Hne]; cbn [negb].
  2: { exists PhInit. by split_and!; [|left|]. }
  apply wt_bind. eapply wt_mono; [|apply set_field_neutral; intros; split; [by unfold svc_same|guar_tac]].
  intros _ r' ->. apply wt_bind.
  eapply (wt_mono _ _ _ _ (fun error r' => r' = Res (if error =? 0 then PhAsync else PhInit) ts)).
  2: { apply own_uv_call. intros c sv n Hv. rewrite uv_async_init_law. cbn [fst snd].
       exists (if c =? 0 then PhAsync else PhInit). split; [by destruct (c =? 0)|]. split; [|done].
       destruct (c =? 0); [by apply svc_async_init|]. by eapply svc_inv_same; [|exact Hv]. }
  intros error r' ->. destruct (Z.eqb_spec error 0) as [->|Hne]; cbn [negb].
  2: { exists PhInit. by split_and!; [|left|]. }
  apply wt_bind. eapply (wt_mono _ _ _ _ (fun _ r' => r' = Res PhReady ts)).
  2: { apply own_phase. intros c sv n Hv. exists PhReady. split; [by apply svc_async_ready|]. split; [guar_tac|done]. }
  intros _ r' ->. apply wt_bind. eapply (wt_mono _ _ _ _ (fun _ r' => r' = Res PhReady ts)).
  2: { apply own_uv_call. intros c sv n Hv. rewrite uv_async_init_law. exists PhReady. split; [done|]. split; [|done].
       eapply svc_inv_same; [|exact Hv]. unfold svc_same. cbn [snd]. by destruct (c =? 0). }
  intros error r' ->. destruct (Z.eqb_spec error 0) as [->|Hne]; cbn [negb].
  2: { exists PhReady. by split_and!; [|right|]. }
  apply wt_bind. eapply wt_mono; [|apply set_field_neutral; intros; split; [by unfold svc_same|guar_tac]].
  intros _ r' ->. exists PhReady. by split_and!; [|right|].
Qed.

Lemma release_config_wt : neutral i (release_config s) (Res PhReady ts).
Proof.
  unfold neutral, release_config. apply wt_bind.
  eapply (wt_mono _ _ _ _ (fun config r' => r' = Res PhTaken (blk config ++ ts))).
  2: { apply wt_on_service. intros c sv ph n h Hc. pose proof (sc_phase _ _ _ _ _ _ Hc Hi) as ->.
       eexists. split; [|reflexivity]. cbn [fst snd].
       apply step_own; [done|done|reflexivity|apply svc_take_config, Hc| | |].
       - intros k s'. cbn [r_toks]. by rewrite held_blk_svc.
       - cbn [r_toks]. rewrite pins_blk. lia.
       - intros a. cbn [r_toks r_phase]. rewrite held_blk. unfold owned. cbn [taken]. lia. }
  intros config r' ->. apply wt_bind, (wt_free _ _ _ ts); [by destruct config|].
  apply wt_on_service. intros c sv ph n h Hc. pose proof (sc_phase _ _ _ _ _ _ Hc Hi) as ->.
  exists (Res PhReady ts). split; [|done]. cbn [fst snd].
  apply step_own; [done|done|guar_tac|apply svc_release_config, Hc|done|cbn; lia|].
  intros a. unfold owned. cbn. done.
Qed.

Lemma caller_live p : live p -> caller i p.
Proof. by intros H _. Qed.

Lemma init_lua_neutral : neutral i (service_init_lua lua_call i s) (Res PhReady ts).
Proof.
  assert (Hc : caller i PhReady) by (apply caller_live; unfold live; cbn; lia).
  assert (Hrel : forall e : Z, wtp i (_ <- release_config s ;; ret e) (fun _ r' => r' = Res PhReady ts) (Res PhReady ts)).
  { intros e. apply wt_bind. eapply wt_mono; [|apply release_config_wt]. by intros _ r' ->. }
  unfold neutral, service_init_lua. apply wt_bind, wt_choose. intros c1. destruct (c1 =? 0); [done|].
  apply wt_bind. eapply wt_mono; [|apply set_field_neutral; intros; split; [by unfold svc_same|guar_tac]].
  intros _ r' ->. apply wt_bind, wt_choose. intros c2. destruct (c2 =? 0); [done|].
  apply wt_bind, wt_choose. intros c3. destruct (c3 <? 0); [done|].
  apply wt_bind. eapply wt_mono; [|by apply pcall_neutral]. intros bound r' ->.
  destruct (bound =? 0); [apply Hrel|].
  apply wt_bind. eapply wt_mono; [|by apply pcall_neutral]. intros result r' ->.
  destruct (result mod 4 =? 0); [apply Hrel|].
  apply wt_bind. eapply (wt_mono _ _ _ _ (fun _ r' => r' = Res PhReady ts)).
  2: { destruct (result mod 4 =? 1); [by apply pcall_neutral|done]. }
  intros normalized r' ->. destruct (normalized =? 0); [apply Hrel|].
  apply wt_bind. eapply wt_mono; [|apply release_config_wt]. intros _ r' ->.
  destruct (result mod 4 =? 2); [done|].
  apply wt_bind. eapply wt_mono; [|apply set_field_neutral; intros; split; [by unfold svc_same|guar_tac]].
  by intros _ r' ->.
Qed.

(** *** Shutting down *)

Definition drained (p : phase) : phase := match p with PhFinish => PhDrained | _ => p end.
Definition stopping (p : phase) : Prop := p = PhFinish \/ p = PhDrained \/ p = PhClosing.

Lemma stopping_live p : stopping p -> live p.
Proof. intros [ -> | [ -> | -> ] ]; unfold live; cbn; lia. Qed.

(** The drain loop ends with nothing left; it forgets what was seen. *)
Lemma drain_wt p :
  stopping p ->
  wtp i (service_drain_mailbox s) (fun _ r' => r' = Res (drained p) ts)
    (Res p (TSvc KQuiet s :: TSvc KClosed s :: TSvc KRetired s :: ts)).
Proof.
  intros Hst. pose proof (stopping_live p Hst) as Hl.
  set (ts' := TSvc KQuiet s :: TSvc KClosed s :: TSvc KRetired s :: ts).
  apply (wt_loop _ _ _ _ _ (fun r0 => r0 = Res p ts')); [done|]. intros r0 ->.
  apply wt_bind. eapply (wt_mono _ _ _ _ (fun m r' => r' = match m with
    | Some m => Res p (blk (m_msg m) ++ ts') | None => Res (drained p) ts end)).
  { intros [m|] r' ->; [|done]. apply wt_bind. eapply (wt_mono _ _ _ _ (fun _ r' => r' = Res p (blk (m_msg m) ++ ts'))).
    - intros _ r' ->. by apply wt_bind, (wt_free _ _ _ ts'); [destruct (m_msg m)|].
    - destruct (needs_reply m); [|done]. apply wt_bind.
      eapply wt_mono; [|apply (send_wt i true (drain_reply s m) p (blk (m_msg m) ++ ts')); by rewrite pins_blk].
      intros result r' ->. cbn. by destruct (bool_decide _). }
  apply wt_mailbox_op. intros c sv ph n h Hc.
  destruct (live_box _ _ _ _ _ _ _ Hc Hi Hl) as (q & -> & Hb).
  pose proof (pop_step _ _ _ _ _ _ _ h _ Hc Hb) as Hok. unfold q_pop in *.
  pose proof (sc_phase _ _ _ _ _ _ Hc Hi) as ->. cbn [r_phase] in *.
  destruct (q_items q) as [|m items] eqn:Ei; [|eexists; split; [exact Hok|done]].
  eexists. split; [|reflexivity].
  assert (H1 : (0 < n KQuiet)%nat) by (eapply ctx_token; [done|apply held_head]).
  assert (H2 : (0 < n KClosed)%nat) by (eapply ctx_token; [done|]; cbn; rewrite Z.eqb_refl; cbn; lia).
  assert (H3 : (0 < n KRetired)%nat) by (eapply ctx_token; [done|]; cbn; rewrite Z.eqb_refl; cbn; lia).
  cbn [fst snd] in *. set (q' := Queue _ _ _ _ _ _ _) in *. set (sv' := on_runtime (set_box (Some q')) sv) in *.
  assert (Hv : svc_inv sv' p n).
  { apply svc_box with (q := q); [apply Hc|done..]. }
  assert (Hv' : svc_inv sv' (drained p) n).
  { destruct Hst as [ -> | [ -> | -> ] ]; [|done..]. cbn. by apply svc_drained. }
  clear Hc. unfold ts' in *. constructor.
  - apply (so_guar _ _ _ _ _ _ _ _ _ _ Hok).
  - toks_other.
  - by intros ?.
  - cbn. lia.
  - rewrite new_phase_own by done. exists (n_del KQuiet (n_del KClosed (n_del KRetired n))).
    split; [|toks_count]. apply svc_drop; [|done]. apply svc_drop; [|done]. by apply svc_drop.
  - intros a. rewrite new_phase_own by done. cbn [r_toks r_phase held token_eqb Nat.b2n].
    unfold owned. cbn. rewrite Hb. cbn. unfold q_payloads. rewrite Ei. cbn.
    assert (Et : taken (drained p) = taken p) by (destruct Hst as [ -> | [ -> | -> ] ]; done). rewrite Et. lia.
Qed.

Lemma prepare_shutdown_wt p :
  stopping p -> wtp i (service_prepare_shutdown i s) (fun _ r' => r' = Res (drained p) ts) (Res p ts).
Proof.
  intros Hst. pose proof (stopping_live p Hst) as Hl. unfold service_prepare_shutdown.
  apply wt_bind. eapply wt_mono; [|apply retire_wt]. intros _ r' ->.
  apply wt_bind. eapply (wt_mono _ _ _ _ (fun _ r' => r' = Res p (TSvc KClosed s :: TSvc KRetired s :: ts))).
  { intros _ r' ->. apply wt_bind. eapply wt_mono; [|apply wait_pins_wt; cbn; rewrite Z.eqb_refl; cbn; lia].
    intros _ r' ->. by apply drain_wt. }
  apply wt_mailbox_op. intros c sv ph n h Hc.
  destruct (live_box _ _ _ _ _ _ _ Hc Hi Hl) as (q & -> & Hb).
  eexists. split; [|reflexivity]. pose proof (close_step _ _ _ _ _ _ h _ Hc Hb) as Hok.
  eapply (step_same _ _ _ _ _ _ _ _ _ (n_add KClosed n)); [done|done| | |toks_count|toks_other|cbn; lia|].
  - apply (so_guar _ _ _ _ _ _ _ _ _ _ Hok).
  - apply svc_see_closed; [|done]. by apply svc_box with (q := q); [apply Hc|..].
  - intros a. unfold owned. cbn. by rewrite Hb.
Qed.

(** *** The loop *)

Definition quiet (p : phase) : Prop := p = PhDrained \/ p = PhClosing.

Lemma close_inbox_wt p :
  quiet p -> wtp i (close_runtime_handle false s) (fun _ r' => r' = Res PhClosing ts) (Res p ts).
Proof.
  intros Hq. apply own_phase. intros c sv n Hv. exists PhClosing. cbn [fst snd].
  assert (Hsame : inbox_code sv <> 1 -> svc_inv sv PhClosing n).
  { intros Hne. eapply svc_inv_same; [|apply (svc_close_inbox (lo_inbox_handle (sv_loop sv)) _ _ _ Hv Hq Hne)].
    by unfold svc_same. }
  assert (Hok : svc_inv sv PhClosing n ->
    svc_inv sv PhClosing n /\ svc_guar sv sv /\ (forall a, owned sv PhClosing a = owned sv p a) /\
    Res PhClosing ts = Res PhClosing ts).
  { intros H'. split_and!; try done. intros a. by destruct Hq as [ -> | -> ]. }
  destruct (st_inbox_async_ready (sv_status sv)) eqn:Er.
  - rewrite uv_is_closing_law. cbn [async_handle].
    destruct (lo_inbox_handle (sv_loop sv)) as [|b|] eqn:Eh; cbn [negb].
    + apply Hok, Hsame. unfold inbox_code. by rewrite Eh.
    + assert (E : on_loop (uv_close false) sv = on_loop (set_inbox_handle HClosing) sv).
      { unfold on_loop. by rewrite (uv_close_law _ _ b). }
      rewrite E. split; [by apply svc_close_inbox with (ph := p)|]. split; [guar_tac|]. split; [|done].
      intros a. by destruct Hq as [ -> | -> ].
    + apply Hok, Hsame. unfold inbox_code. by rewrite Eh.
  - apply Hok, Hsame. destruct Hq as [ -> | -> ].
    + pose proof (si_handle_finish _ _ _ Hv) as K. cbn in K. destruct K as [_ K]; [lia|]. rewrite K by done. done.
    + by apply (si_handle_closing _ _ _ Hv).
Qed.

Lemma close_handles_wt p :
  quiet p -> wtp i (service_close_runtime_handles s) (fun _ r' => r' = Res PhClosing ts) (Res p ts).
Proof.
  intros Hq. apply wt_bind. eapply wt_mono; [|by apply close_inbox_wt]. intros _ r' ->.
  apply set_field_neutral. intros sv.
  destruct (st_control_async_ready _); [|split; [by unfold svc_same|reflexivity]].
  rewrite uv_is_closing_law. cbn [async_handle].
  destruct (lo_control_handle (sv_loop sv)) as [|b|] eqn:Eh; cbn [negb]; try (split; [by unfold svc_same|reflexivity]).
  assert (E : on_loop (uv_close true) sv = on_loop (set_control_handle HClosing) sv).
  { unfold on_loop. by rewrite (uv_close_law _ _ b). }
  rewrite E. split; [by unfold svc_same|guar_tac].
Qed.

Lemma close_luv_neutral r : neutral i (service_close_luv_handles s) r.
Proof.
  apply wt_on_service. intros c sv ph n h Hc. exists r. split; [|done]. cbn [fst snd].
  destruct (ru_L _); [|by apply step_refl]. destruct (uv_user_law c (sv_loop sv)) as [b Hb].
  assert (E : on_loop (uv_user c) sv = on_loop (set_user_handles b) sv) by (unfold on_loop; by rewrite Hb). rewrite E.
  apply step_keep; [done|guar_tac| |done]. eapply svc_inv_same; [|apply Hc]. by unfold svc_same.
Qed.

(** The phases of a thread in its loop: running, or closing down. *)
Definition running (p : phase) : Prop := p = PhRun \/ p = PhClosing.

Lemma running_live p : running p -> live p.
Proof. intros [ -> | -> ]; unfold live; cbn; lia. Qed.

Lemma control_cb_wt p :
  running p ->
  wtp i (service_control_cb i s) (fun _ r' => r' = Res p ts \/ r' = Res PhClosing ts) (Res p ts).
Proof.
  intros Hr. apply wt_bind.
  eapply (wt_mono _ _ _ _ (fun (b : bool) r' => r' = Res (if b then cease p else p) ts)).
  2: { apply own_phase. intros c sv n Hv. cbn [fst snd]. eexists. split; [|split; [reflexivity|split; [|reflexivity]]].
       - destruct (st_stop_requested (sv_status sv)) eqn:Es; [|done].
         destruct Hr as [ -> | -> ]; [|done]. by apply svc_stop_seen.
       - intros a. by destruct Hr as [ -> | -> ], (st_stop_requested _). }
  intros [] r' ->; [|by left].
  assert (Hst : stopping (cease p)) by (destruct Hr as [ -> | -> ]; unfold stopping; cbn; auto).
  apply wt_bind. eapply wt_mono; [|by apply prepare_shutdown_wt]. intros _ r' ->.
  eapply wt_mono; [|apply close_handles_wt]. { intros _ r' ->. by right. }
  destruct Hr as [ -> | -> ]; unfold quiet; cbn; auto.
Qed.

(** A mailbox operation of the thread that keeps what is queued. *)
Lemma own_mailbox_neutral {X} a (d : X) (f : Z -> queue -> X * queue) p :
  live p ->
  (forall c q, q_items (snd (f c q)) = q_items q /\ q_closed (snd (f c q)) = q_closed q) ->
  neutral i (section (mailbox_op a true s d f)) (Res p ts).
Proof.
  intros Hl Hf. apply wt_mailbox_op. intros c sv ph n h Hc.
  destruct (live_box _ _ _ _ _ _ _ Hc Hi Hl) as (q & -> & Hb). exists (Res p ts). split; [|done].
  destruct (Hf c q) as [H1 H2]. apply step_keep; [done| | |].
  - constructor; unfold code; cbn; auto; [lia| |]; rewrite Hb; cbn; congruence.
  - apply svc_box with (q := q); [apply Hc|done|congruence|congruence].
  - intros b. unfold owned. cbn. rewrite Hb. cbn. unfold q_payloads. by rewrite H1.
Qed.

Lemma own_async_send_neutral a p :
  phase_code p = 3 \/ phase_code p = 4 -> neutral i (section (async_send a false s)) (Res p ts).
Proof.
  intros Hpc. apply wt_async_send; [|done]. intros sv ph n Hc. left.
  pose proof (sc_phase _ _ _ _ _ _ Hc Hi) as ->. cbn [r_phase] in *.
  destruct (si_handle_run _ _ _ (sc_inv _ _ _ _ _ _ Hc)) as [K _]; [lia|]. unfold inbox_code in K. cbn.
  destruct (lo_inbox_handle (sv_loop sv)) as [|b|]; try done. by exists b.
Qed.

Lemma async_cb_neutral : neutral i (service_async_cb lua_call lua_error i s) (Res PhRun ts).
Proof.
  assert (Hl : live PhRun) by (unfold live; cbn; lia).
  unfold neutral, service_async_cb. apply wt_bind. eapply wt_mono; [|apply get_state_neutral]. intros st r' ->.
  destruct (negb _); [done|]. apply wt_bind. eapply wt_mono; [|apply read_neutral]. intros handler r' ->.
  destruct (negb _); [done|]. apply wt_bind.
  eapply wt_mono; [|by apply pcall_neutral; [|apply caller_live]]. intros result r' ->.
  apply wt_bind. eapply (wt_mono _ _ _ _ (fun _ r' => r' = Res PhRun ts)).
  2: { destruct (result <=? 0); [apply set_exit_error_neutral|done]. }
  intros _ r' ->. apply wt_bind. eapply wt_mono; [|by apply own_mailbox_neutral]. intros overload r' ->.
  destruct (result <=? 0); [apply forget_neutral, stop_neutral|].
  destruct (result =? 1); [|done].
  apply wt_bind. eapply wt_mono; [|by apply own_mailbox_neutral]. intros [] r' ->; [|done].
  apply wt_bind. eapply wt_mono; [|apply own_async_send_neutral; cbn; lia]. intros error r' ->.
  destruct (error =? 0); [done|apply forget_neutral, stop_neutral].
Qed.

(** The events due tell the phase. *)
Lemma uv_next_inv c y e y' :
  uv_next s c y = Some (e, y') -> exists sv, sy_services y !! s = Some sv /\
  match e with
  | EvAsync control => async_handle control (sv_loop sv) = HActive true /\
      y' = put_services (<[s := on_loop (set_async_handle control (HActive false)) sv]> (sy_services y)) y
  | EvClosed control => async_handle control (sv_loop sv) = HClosing /\
      y' = put_services (<[s := on_loop (set_async_handle control HClosed) sv]> (sy_services y)) y
  | _ => y' = y
  end.
Proof.
  unfold uv_next. destruct (sy_services y !! s) as [sv|] eqn:Hs; [|done].
  destruct (uv_poll c (sv_loop sv)) as [[e0 l]|] eqn:Ep; [|done]. intros [= <- <-]. exists sv. split; [done|].
  pose proof (uv_poll_law _ _ _ _ Ep) as K.
  assert (Hid : on_loop (fun _ => sv_loop sv) sv = sv) by (by destruct sv).
  destruct e0 as [control|control| |].
  - by destruct K as [K ->].
  - by destruct K as [K ->].
  - rewrite K, Hid, insert_id by done. by destruct y.
  - destruct K as (K & _). rewrite K, Hid, insert_id by done. by destruct y.
Qed.

Lemma uv_next_wt p :
  running p ->
  wtp i (section (uv_next s))
    (fun e r' => r' = Res p ts /\
       match e with EvAsync false => p = PhRun | EvClosed false => p = PhClosing | _ => True end) (Res p ts).
Proof.
  intros Hrun. apply (wt_svc i s). intros c y rs x y' Hinv Hr Hf.
  destruct (uv_next_inv _ _ _ _ Hf) as (sv & Hs & He). clear Hf.
  pose proof (pool_ctx _ _ _ _ _ _ Hinv Hr Hs) as Hc. pose proof (sc_inv _ _ _ _ _ _ Hc) as Hv.
  pose proof (sc_phase _ _ _ _ _ _ Hc Hi) as Hph. cbn [r_phase] in Hph.
  pose proof (pi_faults _ _ Hinv) as Hfa.
  assert (Hkeep : forall sv', svc_same sv sv' -> svc_guar sv sv' ->
    step_ok i s (Res p ts) (Res p ts) sv sv' (phase_of s rs) (fun k => total rs (TSvc k s)) (sy_heap y) (sy_heap y)).
  { intros sv' Hsame Hg. apply step_keep; [done|done|by eapply svc_inv_same|].
    intros a. unfold owned. destruct Hsame as (_ & _ & _ & _ & _ & _ & _ & -> & -> & _ & -> & _). done. }
  assert (Hrc : phase_code p = 4 -> inbox_code sv = 1).
  { rewrite <- Hph. intros Hpc. pose proof (si_handle_run _ _ _ Hv). lia. }
  assert (Hcl : phase_code p = 7 -> inbox_code sv <> 1).
  { rewrite <- Hph. apply (si_handle_closing _ _ _ Hv). }
  assert (Hget : exists sv', sy_services y' = <[s := sv']> (sy_services y) /\ sy_next_id y' = sy_next_id y /\
    sy_faults y' = sy_faults y /\ sy_heap y' = sy_heap y /\
    step_ok i s (Res p ts) (Res p ts) sv sv' (phase_of s rs) (fun k => total rs (TSvc k s)) (sy_heap y) (sy_heap y) /\
    match x with EvAsync false => p = PhRun | EvClosed false => p = PhClosing | _ => True end).
  { destruct x as [[]|[]| |].
    - destruct He as [_ ->]. eexists. split_and!; try done. apply Hkeep; [by unfold svc_same|guar_tac].
    - destruct He as [He ->]. cbn in He. eexists. split_and!; try done.
      + apply Hkeep; [|guar_tac]. unfold svc_same, inbox_code. cbn. by rewrite He.
      + destruct Hrun as [ -> | -> ]; [done|]. destruct Hcl; [done|]. unfold inbox_code. by rewrite He.
    - destruct He as [_ ->]. eexists. split_and!; try done. apply Hkeep; [by unfold svc_same|guar_tac].
    - destruct He as [He ->]. cbn in He.
      assert (p = PhClosing) as Ep.
      { destruct Hrun as [ -> | -> ]; [|done]. unfold inbox_code in Hrc. rewrite He in Hrc. by specialize (Hrc eq_refl). }
      eexists. split_and!; try done. apply step_keep; [done|guar_tac| |done].
      rewrite Hph, Ep in *. by apply svc_close_inbox with (ph := PhClosing); [|right|].
    - subst y'. exists sv. rewrite insert_id by done. split_and!; try done. by apply step_refl.
    - subst y'. exists sv. rewrite insert_id by done. split_and!; try done. by apply step_refl. }
  destruct Hget as (sv' & E1 & E2 & E3 & E4 & Hok & Hx). exists sv, sv', (Res p ts).
  rewrite E3, E4. by split_and!.
Qed.

Lemma handle_closed_neutral control p :
  (control = false -> p = PhClosing) -> neutral i (service_runtime_handle_closed s control) (Res p ts).
Proof.
  intros Hc. unfold neutral, service_runtime_handle_closed. apply wt_bind.
  eapply (wt_mono _ _ _ _ (fun _ r' => r' = Res p ts)).
  { intros [] r' ->; [apply close_luv_neutral|done]. }
  destruct control.
  - apply wt_on_service. intros c sv ph n h Hx. exists (Res p ts). split; [|done]. cbn [fst snd].
    apply step_keep; [done|guar_tac| |done]. eapply svc_inv_same; [|apply Hx]. by unfold svc_same.
  - rewrite Hc by done. apply own_phase. intros c sv n Hv. exists PhClosing. cbn [fst snd].
    split; [by apply svc_inbox_closed|]. split; [guar_tac|done].
Qed.

(** [uv_run] starts in the phase [p] and ends in it, or closing down. *)
Lemma uv_run_wt p :
  running p ->
  wtp i (uv_run lua_call lua_error i s) (fun _ r' => r' = Res p ts \/ r' = Res PhClosing ts) (Res p ts).
Proof.
  intros Hrun. set (J := fun r0 : res => r0 = Res p ts \/ r0 = Res PhClosing ts).
  apply (wt_loop _ _ _ _ _ J); [by left|]. intros r0 HJ.
  assert (Hq : exists q, r0 = Res q ts /\ running q /\ J (Res q ts)).
  { destruct HJ as [ -> | -> ]; [by exists p; split_and!; [|done|left]|].
    exists PhClosing. by split_and!; [|right|right]. }
  destruct Hq as (q & -> & Hq & HJq).
  apply wt_bind. eapply wt_mono; [|by apply uv_next_wt]. intros e r' [-> He].
  assert (Hn : forall X (prg : prog sys X), neutral i prg (Res q ts) ->
    wtp i (_ <- prg ;; ret None)
      (fun (o : option unit) r' => match o with Some _ => J r' | None => J r' end) (Res q ts)).
  { intros X prg H. apply wt_bind. eapply wt_mono; [|exact H]. by intros a r' ->. }
  destruct e as [[]|control| |].
  - apply wt_bind. eapply wt_mono; [|by apply control_cb_wt]. intros _ r' [ -> | -> ]; [done|by right].
  - rewrite He in *. apply Hn, async_cb_neutral.
  - apply Hn, handle_closed_neutral. by intros ->.
  - apply Hn, pcall_neutral; [done|]. by apply caller_live, running_live.
  - done.
Qed.

Lemma uv_loop_close_neutral r : neutral i (section (uv_call s uv_loop_close)) r.
Proof.
  apply wt_uv_call. intros c sv ph n Hc. split; [|done]. rewrite uv_loop_close_law. by destruct (_ =? 0).
Qed.

Lemma notify_stop_neutral p : live p -> neutral i (service_notify_lua_stop lua_call i s) (Res p ts).
Proof.
  intros Hl. apply wt_bind. eapply wt_mono; [|apply read_neutral]. intros [] r' ->; [|done].
  by apply forget_neutral, pcall_neutral; [|apply caller_live].
Qed.

(** The loop that closes the handles until the loop is closed. *)
Lemma close_loop_wt p :
  quiet p ->
  wtp i (loop (_ <- service_close_runtime_handles s ;;
               closed <- service_runtime_handles_closed s ;;
               _ <- (if (closed : bool) then service_close_luv_handles s else ret tt) ;;
               _ <- uv_run lua_call lua_error i s ;;
               error <- section (uv_call s uv_loop_close) ;;
               ret (if error =? 0 then Some tt else None)))
    (fun _ r' => exists q, quiet q /\ r' = Res q ts) (Res p ts).
Proof.
  intros Hq.
  apply (wt_loop _ _ _ _ _ (fun r0 => exists q, quiet q /\ r0 = Res q ts)); [by exists p|].
  intros r0 (q & Hq' & ->). apply wt_bind. eapply wt_mono; [|by apply close_handles_wt]. intros _ r' ->.
  apply wt_bind. eapply wt_mono; [|apply read_neutral]. intros closed r' ->.
  apply wt_bind. eapply (wt_mono _ _ _ _ (fun _ r' => r' = Res PhClosing ts)).
  2: { destruct (closed : bool); [apply close_luv_neutral|done]. }
  intros _ r' ->. apply wt_bind. eapply wt_mono; [|apply uv_run_wt; by right].
  intros u r' Hr'; cbv beta in Hr'. assert (E : r' = Res PhClosing ts) by (by destruct Hr'). clear Hr'. subst r'.
  apply wt_bind. eapply wt_mono; [|apply uv_loop_close_neutral]. intros error r' ->.
  destruct (error =? 0); exists PhClosing; (split; [by right|done]).
Qed.

Lemma finish_thread_wt p :
  running p \/ stopping p ->
  wtp i (service_finish_thread lua_call lua_error i s) (fun _ r' => r' = Res PhStopped ts) (Res p ts).
Proof.
  intros Hst. unfold service_finish_thread. apply wt_bind.
  eapply (wt_mono _ _ _ _ (fun _ r' => r' = Res (cease p) ts)).
  2: { apply own_phase. intros c sv n Hv. cbn [fst snd]. exists (cease p).
       assert (Ho : forall sv', owned sv' (cease p) = owned sv' p).
       { intros sv'. destruct Hst as [[ -> | -> ]|[ -> | [ -> | -> ] ] ]; done. }
       rewrite Ho. change (state_code SERVICE_STOPPING) with 3. destruct (Z.ltb_spec (state_code (st_state (sv_status sv))) 3) as [Hlt|Hge].
       - assert (p = PhRun) as ->.
         { pose proof (si_finish _ _ _ Hv) as K. unfold code in K.
           destruct Hst as [[ -> | -> ]|[ -> | [ -> | -> ] ] ]; try done; cbn in K; exfalso; lia. }
         split; [by apply svc_finish|]. split; [|done]. constructor; unfold code; cbn; auto. lia.
       - split; [|done]. destruct Hst as [[ -> | -> ]|[ -> | [ -> | -> ] ] ]; try done. cbn.
         apply svc_finish_stopping; [done|]. unfold code. pose proof (si_run _ _ _ Hv eq_refl) as K. unfold code in K. lia. }
  intros loop_ready r' ->.
  assert (Hst' : stopping (cease p)).
  { destruct Hst as [[ -> | -> ]|[ -> | [ -> | -> ] ] ]; unfold stopping; cbn; auto. }
  apply wt_bind. eapply wt_mono; [|by apply prepare_shutdown_wt]. intros _ r' ->.
  assert (Hq : quiet (drained (cease p))).
  { destruct Hst' as [ -> | [ -> | -> ] ]; unfold quiet; cbn; auto. }
  assert (Hl : live (drained (cease p))).
  { destruct Hq as [ -> | -> ]; unfold live; cbn; lia. }
  revert Hq Hl. generalize (drained (cease p)). clear p Hst Hst'. intros p Hq Hl.
  apply wt_bind. eapply wt_mono; [|by apply notify_stop_neutral]. intros _ r' ->.
  apply wt_bind. eapply (wt_mono _ _ _ _ (fun _ r' => exists q, quiet q /\ r' = Res q ts)).
  2: { destruct loop_ready; [|by exists p]. by apply close_loop_wt. }
  intros _ r' (q & Hq' & ->). apply wt_bind.
  eapply wt_mono; [|apply set_field_neutral; intros; split; [by unfold svc_same|guar_tac]].
  intros _ r' ->. apply wt_broadcast_after, own_phase. intros c sv n Hv. exists PhStopped. cbn [fst snd].
  split; [by eapply svc_stopped|]. split; [|split; [|done]].
  - pose proof (si_finish _ _ _ Hv) as K. unfold code in K.
    assert (state_code (st_state (sv_status sv)) = 3) by (apply K; destruct Hq' as [ -> | -> ]; cbn; lia).
    constructor; unfold code; cbn; auto. lia.
  - intros a. by destruct Hq' as [ -> | -> ].
Qed.

Lemma thread_created_wt :
  wtp i (section (thread_created s)) (fun _ r' => r' = Res PhInit ts) (Res PhDormant ts).
Proof.
  apply (wt_svc i s). intros c y rs x y' Hinv Hr Hf. unfold thread_created in Hf.
  destruct (sy_services y !! s) as [sv|] eqn:Hs; [|done].
  destruct (st_thread_created (sv_status sv)) eqn:Et; [|done]. injection Hf as <- <-.
  pose proof (pool_ctx _ _ _ _ _ _ Hinv Hr Hs) as Hc. pose proof (sc_inv _ _ _ _ _ _ Hc) as Hv.
  pose proof (sc_phase _ _ _ _ _ _ Hc Hi) as Hph. cbn [r_phase] in Hph.
  exists sv, sv, (Res PhInit ts). rewrite insert_id by done.
  split_and!; try done; [apply (pi_faults _ _ Hinv)|].
  rewrite Hph in *. apply step_own; try done; [by apply svc_created|cbn; lia].
Qed.

(** The service runs, or finishes at once. *)
Lemma started_wt p error :
  p = PhInit \/ p = PhReady -> (error = 0 -> p = PhReady) ->
  wtp i (section (started_section s error)) (fun b r' => r' = Res (if (b : bool) then PhRun else PhFinish) ts) (Res p ts).
Proof.
  intros Hpp He'.
  apply wt_broadcast_after, own_phase. intros c sv n Hv. cbv beta.
  assert (Hcode : code sv <= 3).
  { destruct (svc_live _ _ _ Hv) as (_ & K & _); [destruct Hpp as [ -> | -> ]; cbn; lia|]. lia. }
  destruct ((error =? 0) && negb (st_stop_requested (sv_status sv))) eqn:E; cbn [fst snd]; eexists.
  - apply andb_true_iff in E as [E1 E2]. apply negb_true_iff in E2.
    assert (p = PhReady) as -> by (apply He'; lia). split; [by apply svc_started|].
    split; [|split; [|reflexivity]].
    + pose proof (si_not_created _ _ _ Hv) as K1. pose proof (si_starting _ _ _ Hv) as K2. unfold code in *.
      destruct (st_thread_created (sv_status sv)) eqn:Et; cbn in K1, K2;
        [destruct K2 as [_ K2]; [done|lia|]; specialize (K2 E2)|lia].
      constructor; unfold code; cbn; auto. lia.
    + done.
  - split; [by eapply svc_not_started|]. split; [|split; [|reflexivity]].
    + unfold code in *. constructor; unfold code; cbn; auto.
    + intros a. by destruct Hpp as [ -> | -> ].
Qed.

Lemma thread_main_wt :
  wtp i (service_thread_main lua_call lua_error i s) (fun _ r' => r' = Res PhExited ts) (Res PhDormant ts).
Proof.
  unfold service_thread_main. apply wt_bind.
  eapply (wt_mono _ _ _ _ (fun _ r' => r' = Res PhInit ts)).
  2: apply thread_created_wt.
  intros _ r' ->. apply wt_bind. eapply wt_mono; [|apply init_loop_wt].
  intros error r' (p & -> & Hpp & He). apply wt_bind. eapply wt_mono; [|apply read_neutral].
  intros stop r' ->. apply wt_bind.
  eapply (wt_mono _ _ _ _ (fun error r' => r' = Res p ts /\ (error = 0 -> p = PhReady))).
  2: { destruct ((error =? 0) && negb stop) eqn:E; [|done]. apply andb_true_iff in E as [E _].
       rewrite He by lia. eapply wt_mono; [|apply init_lua_neutral]. by intros e r' ->. }
  intros error' r' [-> He']. apply wt_bind.
  eapply (wt_mono _ _ _ _ (fun b r' => r' = Res (if (b : bool) then PhRun else PhFinish) ts)).
  2: by apply started_wt.
  intros running_ r' ->. apply wt_bind.
  eapply (wt_mono _ _ _ _ (fun _ r' => exists q, r' = Res q ts /\ (running q \/ stopping q))).
  2: { destruct running_; [|exists PhFinish; split; [done|right; by left]].
       apply wt_bind. eapply wt_mono; [|apply own_async_send_neutral; cbn; lia]. intros e r' ->.
       eapply wt_mono; [|apply uv_run_wt; by left]. intros _ r' [ -> | -> ]; eexists; (split; [reflexivity|left]).
       - by left.
       - by right. }
  intros _ r' (q & -> & Hq). apply wt_bind. eapply wt_mono; [|by apply finish_thread_wt]. intros _ r' ->.
  apply own_phase. intros c sv n Hv. exists PhExited. cbn [fst snd]. split; [by apply svc_exit|].
  split; [guar_tac|done].
Qed.
End Own.
End Thread.
End Safe.
