(* ===== verification/ServiceSystem.v ===== *)
(** * ServiceSystem: a pool, the threads of its services and any clients

    The configurations a program that uses the library can reach: one thread
    for each possible service, waiting to be created, and client threads that
    make any sequence of calls, interleaved in any way.  [system_holds] is the
    invariant of [ServiceLogic] for all of them. *)

From S2P Require Import Prelude Message Mailbox Queue MailboxCorrect Concur ServiceState Service.
From S2P Require Import ServiceInv ServiceLogic ServiceSafe.

Section System.
Context {U : Libuv} {L : @LibuvLaws U}.
Variable lua_call : Z -> option api_call.
Variable lua_error : Z -> list Z.

(** The threads: services first, then clients from index [MAX_SERVICES] on. *)
Definition service_main (s : Z) : prog sys unit :=
  service_thread_main lua_call lua_error (service_thread s) s.

Definition system (clients : list (list api_call)) : conf sys :=
  ((service_main <$> pool_ids) ++
   imap (fun k calls => client (Z.to_nat MAX_SERVICES + k) calls) clients,
   default (Sys ∅ 0 ∅ ∅ []) (service_pool_new true)).

Definition reachable (clients : list (list api_call)) (es : list (nat * Z)) (cf : conf sys) : Prop :=
  Z.of_nat (length clients) < UINT32_MAX - MAX_SERVICES /\ steps conf_step (system clients) es cf.

(** ** The invariant at the start *)

Definition idle_res (i : nat) : res := Res (if decide (Z.of_nat i < MAX_SERVICES) then PhDormant else PhNone) [].

Definition system_res (clients : list (list api_call)) : list res :=
  idle_res <$> seq 0 (Z.to_nat MAX_SERVICES + length clients).

Lemma system_res_lookup clients i r : system_res clients !! i = Some r -> r = idle_res i.
Proof.
  unfold system_res. rewrite list_lookup_fmap. intros H. apply fmap_Some in H as (k & Hk & ->).
  apply lookup_seq in Hk as [-> _]. done.
Qed.

Lemma total_idle l t : total (idle_res <$> l) t = 0%nat.
Proof. induction l as [|k l IH]; cbn; [done|]. by rewrite IH. Qed.

Lemma system_res_phase clients s : 0 <= s < MAX_SERVICES -> phase_of s (system_res clients) = PhDormant.
Proof.
  intros Hs. unfold phase_of, system_res, service_thread. rewrite list_lookup_fmap, lookup_seq_lt by lia.
  cbn. rewrite decide_True by lia. done.
Qed.

Lemma system_inv clients :
  Z.of_nat (length clients) < UINT32_MAX - MAX_SERVICES -> pool_inv (snd (system clients)) (system_res clients).
Proof.
  intros Hc. change (snd (system clients)) with (Sys ∅ 0 ∅ ∅ []).
  constructor; cbn [sy_services sy_next_id sy_heap sy_faults].
  - unfold system_res. rewrite length_fmap, length_seq. unfold MAX_SERVICES in *. lia.
  - unfold MAX_SERVICES. lia.
  - intros s. rewrite lookup_empty. split; [by intros []|lia].
  - intros s sv. by rewrite lookup_empty.
  - intros s k _. apply total_idle.
  - intros s _ Hs. by apply system_res_phase.
  - intros i r Hr. apply system_res_lookup in Hr as ->. cbn. lia.
  - intros s1 s2 sv1 sv2. by rewrite lookup_empty.
  - intros a. unfold system_res. rewrite total_idle, sum_ids_zero; [|done].
    unfold heap_cnt. by rewrite bool_decide_eq_false_2 by set_solver.
  - constructor.
Qed.

(** A thread that is done holds nothing. *)
Definition done_res (i : nat) (r : res) : Prop := r_toks r = [] /\ (Z.of_nat i < MAX_SERVICES -> r_phase r = PhExited).

Lemma system_start clients :
  Z.of_nat (length clients) < UINT32_MAX - MAX_SERVICES ->
  conf_holds pool_inv pool_guar done_res (system_res clients) (system clients).
Proof.
  intros Hc. unfold conf_holds. split; [|split; [by apply system_inv|]].
  { cbn. unfold system_res. rewrite length_app, !length_fmap, length_imap, length_seq. unfold pool_ids.
    rewrite length_seqZ. done. }
  intros i p r Hp Hr. apply system_res_lookup in Hr as ->. cbn [fst system] in Hp.
  apply lookup_app_Some in Hp as [Hp|[Hge Hp]].
  - rewrite list_lookup_fmap in Hp. apply fmap_Some in Hp as (s & Hs & ->).
    unfold pool_ids in Hs. apply lookup_seqZ in Hs as [-> Hlt]. rewrite Z.add_0_l in *.
    assert (Ei : i = service_thread (Z.of_nat i)) by (unfold service_thread; lia).
    unfold idle_res. rewrite decide_True by lia.
    eapply wt_mono; [|unfold service_main; rewrite <- Ei; apply thread_main_wt; [exact Ei|done]].
    intros _ r' ->. by split.
  - assert (El : length (service_main <$> pool_ids) = Z.to_nat MAX_SERVICES).
    { unfold pool_ids. by rewrite length_fmap, length_seqZ. }
    rewrite El in *. rewrite list_lookup_imap in Hp. apply fmap_Some in Hp as (calls & _ & ->).
    replace (Z.to_nat MAX_SERVICES + (i - Z.to_nat MAX_SERVICES))%nat with i by lia.
    unfold idle_res. rewrite decide_False by lia.
    eapply wt_mono; [|apply client_neutral; [done|]].
    + intros _ r' ->. split; [done|lia].
    + intros Hlt. lia.
Qed.

(** ** The invariant of everything reachable *)

Lemma system_holds clients es cf :
  reachable clients es cf ->
  exists rs, conf_holds pool_inv pool_guar done_res rs cf /\
    forall i, i ∉ es.*1 -> rs !! i = system_res clients !! i.
Proof.
  intros [Hc Hs].
  destruct (conf_holds_steps pool_inv pool_guar done_res pool_guar_refl pool_guar_trans _ _ _ _ (system_start _ Hc) Hs)
    as [_ (rs & H & E)]. by exists rs.
Qed.

Lemma system_guar clients es1 cf1 es2 cf2 :
  reachable clients es1 cf1 -> steps conf_step cf1 es2 cf2 -> pool_guar (snd cf1) (snd cf2).
Proof.
  intros Hr Hs. destruct (system_holds _ _ _ Hr) as (rs & H & _).
  by destruct (conf_holds_steps pool_inv pool_guar done_res pool_guar_refl pool_guar_trans _ _ _ _ H Hs).
Qed.

Lemma system_pool clients es cf : reachable clients es cf -> exists rs, pool_inv (snd cf) rs.
Proof. intros Hr. destruct (system_holds _ _ _ Hr) as (rs & (_ & H & _) & _). by exists rs. Qed.
End System.

(** ** When every thread is done *)

(** What a service owns, field by field. *)
Definition owns (sv : service) (a : Z) : Prop :=
  ru_source (sv_runtime sv) = Some a \/ ru_config (sv_runtime sv) = Some a \/
  exists q, ru_box (sv_runtime sv) = Some q /\ a ∈ q_payloads q.

Lemma total_zero rs t : (forall i r, rs !! i = Some r -> r_toks r = []) -> total rs t = 0%nat.
Proof.
  induction rs as [|r rs IH]; intros H; cbn; [done|].
  rewrite (H 0%nat r eq_refl), IH; [done|]. intros i r' Hr. by apply (H (S i)).
Qed.

Lemma cnt_pos a l : (0 < cnt a l)%nat <-> a ∈ l.
Proof.
  induction l as [|b l IH]; cbn; [split; [lia|by intros ?%not_elem_of_nil]|].
  rewrite elem_of_cons, <- IH. destruct (Z.eqb_spec b a) as [->|Hne]; cbn; [split; [by left|lia]|].
  split; [by right|]. intros [?|?]; [by subst|done].
Qed.

Lemma opt_cnt_pos a o : (0 < opt_cnt a o)%nat <-> o = Some a.
Proof.
  destruct o as [b|]; cbn; [|split; [lia|done]].
  destruct (Z.eqb_spec b a) as [->|Hne]; cbn; split; first [done | lia | congruence].
Qed.

Lemma owned_pos sv ph a : taken ph = false -> (0 < owned sv ph a)%nat <-> owns sv a.
Proof.
  intros Ht. unfold owned, owns. rewrite Ht.
  rewrite <- !opt_cnt_pos. destruct (ru_box (sv_runtime sv)) as [q|]; cbn.
  - pose proof (cnt_pos a (q_payloads q)) as K. split.
    + intros H. destruct (decide (0 < opt_cnt a (ru_source (sv_runtime sv)))%nat); [by left|].
      destruct (decide (0 < opt_cnt a (ru_config (sv_runtime sv)))%nat); [by right; left|].
      right; right. exists q. split; [done|]. apply K. lia.
    + intros [?|[?|(q' & [= <-] & Hin)]]; [lia|lia|]. apply K in Hin. lia.
  - split; [intros H|intros [?|[?|(q' & ? & _)]]; [lia|lia|done]].
    destruct (decide (0 < opt_cnt a (ru_source (sv_runtime sv)))%nat); [by left|right; left; lia].
Qed.

Lemma sum_ids_pos g ids : (0 < sum_ids g ids)%nat -> exists s, s ∈ ids /\ (0 < g s)%nat.
Proof.
  induction ids as [|s ids IH]; cbn; [lia|]. intros H. destruct (decide (0 < g s)%nat).
  - exists s. split; [by left|done].
  - destruct IH as (s' & H1 & H2); [lia|]. exists s'. split; [by right|done].
Qed.

Lemma done_holds clients rs es cf :
  conf_holds pool_inv pool_guar done_res rs cf ->
  (forall i, i ∉ es.*1 -> rs !! i = system_res clients !! i) -> all_done es cf ->
  forall i r, rs !! i = Some r -> r_toks r = [] /\ (Z.of_nat i < MAX_SERVICES -> taken (r_phase r) = false).
Proof.
  intros (Hl & _ & Hw) E Hd i r Hr.
  destruct (lookup_lt_is_Some_2 (fst cf) i) as [p Hp]; [rewrite <- Hl; by eapply lookup_lt_Some|].
  destruct (Hd i p Hp) as [->|Hn].
  - pose proof (Hw _ _ _ Hp Hr) as [H1 H2]. split; [done|]. intros Hi. by rewrite H2.
  - rewrite E in Hr by done. apply system_res_lookup in Hr as ->. split; [done|].
    intros Hi. unfold idle_res. by rewrite decide_True.
Qed.

(** Then every live block belongs to a service. *)
Lemma done_heap clients rs es cf :
  conf_holds pool_inv pool_guar done_res rs cf ->
  (forall i, i ∉ es.*1 -> rs !! i = system_res clients !! i) -> all_done es cf ->
  forall a, a ∈ sy_heap (snd cf) <-> exists s sv, sy_services (snd cf) !! s = Some sv /\ owns sv a.
Proof.
  intros H E Hd a. pose proof (done_holds _ _ _ _ H E Hd) as Hr. destruct H as (_ & Hi & _).
  assert (Ht : forall s, 0 <= s < MAX_SERVICES -> taken (phase_of s rs) = false).
  { intros s Hs. unfold phase_of. destruct (rs !! service_thread s) as [r|] eqn:Er; [|done].
    apply (Hr _ _ Er). unfold service_thread. lia. }
  assert (Hz : total rs (TBlock a) = 0%nat) by (apply total_zero; intros i r Hir; by apply (Hr i r)).
  pose proof (pi_heap _ _ Hi a) as Hh. rewrite Hz in Hh. unfold heap_cnt in Hh.
  split.
  - intros Ha. rewrite bool_decide_eq_true_2 in Hh by done.
    destruct (sum_ids_pos (owned_at (sy_services (snd cf)) rs a) pool_ids) as (s & Hs & Hp); [lia|].
    apply elem_of_pool_ids in Hs. unfold owned_at in Hp.
    destruct (sy_services (snd cf) !! s) as [sv|] eqn:Es; [|lia]. exists s, sv. split; [done|].
    eapply owned_pos; [|exact Hp]. by apply Ht.
  - intros (s & sv & Hs & Ho). pose proof (pool_ids_in _ _ Hi s sv Hs) as Hid.
    apply (owned_pos sv (phase_of s rs)) in Ho; [|by apply Ht].
    pose proof (sum_ids_ge (owned_at (sy_services (snd cf)) rs a) pool_ids s) as Hge.
    rewrite elem_of_pool_ids in Hge. specialize (Hge Hid). unfold owned_at at 1 in Hge. rewrite Hs in Hge.
    case_bool_decide; [done|lia].
Qed.

Lemma done_freed clients rs es cf s sv :
  conf_holds pool_inv pool_guar done_res rs cf ->
  (forall i, i ∉ es.*1 -> rs !! i = system_res clients !! i) -> all_done es cf ->
  sy_services (snd cf) !! s = Some sv -> st_state (sv_status sv) = SERVICE_FREED -> forall a, ~ owns sv a.
Proof.
  intros H E Hd Hs Hf a. pose proof (done_holds _ _ _ _ H E Hd) as Hr. destruct H as (_ & Hi & _).
  pose proof (pi_svc _ _ Hi s sv Hs) as Hv.
  assert (Hc : code sv = 6) by (unfold code; by rewrite Hf).
  destruct (si_freed_fields _ _ _ Hv Hc) as [H1 H2].
  assert (Hz : total rs (TSvc KFree s) = 0%nat) by (apply total_zero; intros i r Hir; by apply (Hr i r)).
  assert (Hb : ru_box (sv_runtime sv) = None).
  { pose proof (proj1 (si_box _ _ _ Hv)) as K. destruct (ru_box (sv_runtime sv)); [|done].
    destruct (K eq_refl); lia. }
  unfold owns. rewrite H1, H2, Hb. intros [?|[?|(q & ? & _)]]; done.
Qed.
