(* ===== verification/ServiceExec.v ===== *)
(** * ServiceExec: sending and draining, run without interference

    [deliver] is what [service_send] means when no other thread acts in
    between; [drain_effect] what the drain of a mailbox means.  The lemmas show
    that the programs compute them. *)

From S2P Require Import Prelude Message Mailbox Queue MailboxCorrect Concur ServiceState Service.
#[local] Open Scope prog_scope.

Section Exec.
Context {U : Libuv} {L : @LibuvLaws U}.

(** ** The meaning of a send *)

Definition inactive_result (sv : service) : send_result :=
  if state_code (st_state (sv_status sv)) <? state_code SERVICE_STOPPED then SERVICE_SEND_STOPPING
  else SERVICE_SEND_STOPPED.

(** The receiver once the message is queued: notified by the first push. *)
Definition delivered (m : message) (q : queue) (sv : service) : service :=
  let sv' := on_runtime (set_box (Some (snd (q_push m q)))) sv in
  if negb (q_scheduled q) && st_inbox_async_ready (sv_status sv)
  then on_loop (set_inbox_handle (HActive true)) sv' else sv'.

(** The last unpin wakes those who wait for it. *)
Definition unpinned (sv : service) (y : sys) : sys :=
  if rt_send_pins (sv_route sv) =? 0 then broadcast PinsChanged y else y.

Definition deliver (alloc : bool) (m : message) (y : sys) : send_result * sys :=
  if MAX_SERVICES <=? m_to m then (SERVICE_SEND_NOT_FOUND, y)
  else
    match sy_services y !! m_to m with
    | None => (SERVICE_SEND_NOT_FOUND, y)
    | Some sv =>
      if negb (rt_routable (sv_route sv)) then (inactive_result sv, y)
      else
        match ru_box (sv_runtime sv) with
        | None => (SERVICE_SEND_NOT_FOUND, y)
        | Some q =>
          if q_closed q then (inactive_result sv, unpinned sv y)
          else if q_can_push PUSH_CAPACITY_MAX alloc q then
            (SERVICE_SEND_OK, unpinned sv (put_services (<[m_to m := delivered m q sv]> (sy_services y)) y))
          else (SERVICE_SEND_FULL, unpinned sv y)
        end
    end.

(** A service senders can reach is as its invariant says. *)
Definition reachable_ok (sv : service) : Prop :=
  rt_routable (sv_route sv) = true ->
  0 <= rt_send_pins (sv_route sv) < UINT32_MAX /\ ru_inbox (sv_runtime sv) = true /\
  is_Some (ru_box (sv_runtime sv)) /\
  (st_inbox_async_ready (sv_status sv) = true -> exists b, lo_inbox_handle (sv_loop sv) = HActive b).

Lemma put_services_twice a b y : put_services b (put_services a y) = put_services b y.
Proof. done. Qed.

Lemma put_services_id y : put_services (sy_services y) y = y.
Proof. by destruct y. Qed.

Lemma pinned_pins z : 0 <= z < UINT32_MAX -> wrapu 32 (z + 1) = z + 1.
Proof. intros H. apply wrapu_small. unfold UINT32_MAX in *. lia. Qed.

(** The pin and the unpin cancel. *)
Definition pinned (sv : service) : service := on_route (set_send_pins (rt_send_pins (sv_route sv) + 1)) sv.

Lemma unpin_pinned s sv y services :
  0 <= rt_send_pins (sv_route sv) ->
  services !! s = Some (pinned sv) ->
  unpin_section s 0 (put_services services y) =
    Some (tt, unpinned sv (put_services (<[s := sv]> services) y)).
Proof.
  intros Hp Hs. unfold unpin_section. cbn [sy_services put_services]. rewrite Hs.
  cbn [pinned on_route sv_route set_send_pins rt_send_pins].
  rewrite (proj2 (Z.ltb_lt _ _)) by lia. rewrite Z.add_simpl_r. unfold unpinned.
  assert (E : on_route (set_send_pins (rt_send_pins (sv_route sv))) (pinned sv) = sv)
    by (by destruct sv as [? [] ? ? ?]).
  fold (pinned sv). rewrite E, put_services_twice. by destruct (_ =? 0).
Qed.

Lemma den_ret {A} (a : A) cs y : den (ret a) cs y a cs y.
Proof. by split_and!. Qed.

Lemma den_inactive {B} s sv y cs (k : send_result -> prog sys B) b cs' s' :
  sy_services y !! s = Some sv ->
  den (k (inactive_result sv)) (tl cs) y b cs' s' ->
  den (pbind (inactive_send_result s) k) cs y b cs' s'.
Proof.
  intros Hs Hk. unfold inactive_send_result. cbn [service_get_state read_service pbind section].
  exists (st_state (sv_status sv)), y. split; [|exact Hk].
  unfold on_service. rewrite Hs, insert_id by done. by rewrite put_services_id.
Qed.

(** What the environment answers to the sections of a send: an allocation may
    fail, a notification does not. *)
Definition send_answers (alloc : bool) : list Z := [0; if alloc then 1 else 0; 0; 0; 0].

Lemma pin_routable s sv y c :
  sy_services y !! s = Some sv -> rt_routable (sv_route sv) = true -> 0 <= rt_send_pins (sv_route sv) < UINT32_MAX ->
  pin_section s c y = Some (Some true, put_services (<[s := pinned sv]> (sy_services y)) y).
Proof. intros Hs Hr Hp. unfold pin_section. by rewrite Hs, Hr, pinned_pins. Qed.

Lemma push_pinned alloc m s sv q y services :
  services !! s = Some (pinned sv) -> ru_inbox (sv_runtime sv) = true -> ru_box (sv_runtime sv) = Some q ->
  let out := try_push m (if alloc : bool then 1 else 0) q in
  mailbox_op AccPush true s (MAILBOX_CLOSED, false) (try_push m) (if alloc then 1 else 0) (put_services services y) =
    Some (fst out, put_services (<[s := on_runtime (set_box (Some (snd out))) (pinned sv)]> services) y).
Proof.
  intros Hs Hi Hb. unfold mailbox_op. cbn [sy_services put_services]. rewrite Hs.
  unfold mailbox_live. cbn [pinned on_route sv_runtime]. rewrite Hi, Hb. cbn [negb andb].
  by destruct (try_push m _ q).
Qed.

Lemma box_same q sv : ru_box (sv_runtime sv) = Some q -> on_runtime (set_box (Some q)) (pinned sv) = pinned sv.
Proof. intros H. destruct sv as [? ? ? [] ?]. cbn in *. by subst. Qed.

(** The last unpin of a send, whatever became of the receiver's other fields. *)
Lemma unpin_den s sv sv' y (r : send_result) rest :
  0 <= rt_send_pins (sv_route sv) -> sv_route sv' = sv_route sv ->
  den (pbind (service_unpin s) (fun _ => pbind (ret 0) (fun _ => ret r))) (0 :: rest)
    (put_services (<[s := pinned sv']> (sy_services y)) y) r rest
    (unpinned sv (put_services (<[s := sv']> (sy_services y)) y)).
Proof.
  intros Hp E. unfold service_unpin. eapply den_sec.
  - cbn [hd]. rewrite unpin_pinned with (sv := sv'); [|by rewrite E|by rewrite lookup_insert_eq].
    by rewrite insert_insert_eq.
  - cbn. unfold unpinned. by rewrite E.
Qed.

(** A send whose receiver is pinned. *)
Section Pinned.
Context (m : message) (sv : service) (q : queue) (y : sys).
Hypothesis Hid : m_to m < MAX_SERVICES.
Hypothesis Hs : sy_services y !! m_to m = Some sv.
Hypothesis Hr : rt_routable (sv_route sv) = true.
Hypothesis Hp : 0 <= rt_send_pins (sv_route sv) < UINT32_MAX.
Hypothesis Hi : ru_inbox (sv_runtime sv) = true.
Hypothesis Hb : ru_box (sv_runtime sv) = Some q.

#[local] Abbreviation s := (m_to m).
#[local] Abbreviation at_s x := (put_services (<[s := x]> (sy_services y)) y).

(** Up to the push: what is left to run, and in which state. *)
Lemma send_from_push alloc k out rest :
  fst (try_push m (if alloc : bool then 1 else 0) q) = out ->
  (forall cs, den (
      notify_error <-
        (if bool_decide (fst out = MAILBOX_OK) && snd out then
           async_ready <- read_service s (fun sv => st_inbox_async_ready (sv_status sv)) ;;
           if (async_ready : bool) then section (async_send AccNotify false s) else ret 0
         else ret 0) ;;
      result <-
        match fst out with
        | MAILBOX_FULL => ret SERVICE_SEND_FULL
        | MAILBOX_CLOSED => inactive_send_result s
        | MAILBOX_OK => ret SERVICE_SEND_OK
        end ;;
      _ <- service_unpin s ;;
      _ <- (if notify_error =? 0 then ret 0 else service_stop (Some s)) ;;
      ret result) (take k [0; 0; 0] ++ cs)
      (at_s (on_runtime (set_box (Some (snd (try_push m (if alloc then 1 else 0) q)))) (pinned sv)))
      (fst rest) cs (snd rest)) ->
  forall cs, den (service_send true (Some m)) (take (2 + k) (send_answers alloc) ++ cs) y (fst rest) cs (snd rest).
Proof.
  intros Hout Hrest cs. unfold service_send, service_pool_pin. cbn [negb orb].
  rewrite (proj2 (Z.leb_gt _ _)) by done. exists (Some true), (at_s (pinned sv)).
  split; [by apply pin_routable|]. eapply den_sec.
  - cbn [hd tl take app send_answers]. rewrite (push_pinned alloc m s sv q y (<[s := pinned sv]> (sy_services y)))
      by (done || by rewrite lookup_insert_eq). by rewrite insert_insert_eq.
  - rewrite Hout. destruct out as [r n]. cbn [hd tl take app send_answers]. apply Hrest.
Qed.

Lemma send_unchanged : at_s sv = y.
Proof. by rewrite insert_id, put_services_id by done. Qed.

(** The mailbox does not take the message. *)
Lemma send_refused alloc r :
  (q_closed q = true /\ r = inactive_result sv) \/
  (q_closed q = false /\ q_can_push PUSH_CAPACITY_MAX alloc q = false /\ r = SERVICE_SEND_FULL) ->
  exists k, forall rest, den (service_send true (Some m)) (take k (send_answers alloc) ++ rest) y r rest (unpinned sv y).
Proof.
  intros [[Ec ->]|(Ec & Ecan & ->)].
  - assert (Et : try_push m (if alloc then 1 else 0) q = ((MAILBOX_CLOSED, false), q)).
    { unfold try_push, q_can_push, q_push. rewrite Ec. by destruct alloc. }
    exists 4%nat. apply (send_from_push alloc 2 _ (inactive_result sv, unpinned sv y) eq_refl).
    rewrite Et. intros cs. cbn [fst snd take app]. rewrite (box_same q) by done.
    eapply den_inactive; [by apply lookup_insert_eq|]. cbn [tl].
    pose proof (unpin_den s sv sv y (inactive_result sv) cs) as H. rewrite send_unchanged in H. by apply H; [lia|].
  - assert (Et : try_push m (if alloc then 1 else 0) q = ((MAILBOX_FULL, false), q)).
    { unfold try_push. assert (E : negb ((if alloc then 1 else 0) =? 0) = alloc) by by destruct alloc. by rewrite E, Ecan. }
    exists 3%nat. apply (send_from_push alloc 1 _ (SERVICE_SEND_FULL, unpinned sv y) eq_refl).
    rewrite Et. intros cs. cbn [fst snd take app]. rewrite (box_same q) by done.
    pose proof (unpin_den s sv sv y SERVICE_SEND_FULL cs) as H. rewrite send_unchanged in H. by apply H; [lia|].
Qed.

(** The mailbox takes it. *)
Lemma send_accepted alloc :
  (st_inbox_async_ready (sv_status sv) = true -> exists b, lo_inbox_handle (sv_loop sv) = HActive b) ->
  q_closed q = false -> q_can_push PUSH_CAPACITY_MAX alloc q = true ->
  exists k, forall rest, den (service_send true (Some m)) (take k (send_answers alloc) ++ rest) y SERVICE_SEND_OK rest
    (unpinned sv (at_s (delivered m q sv))).
Proof.
  intros Hh Ec Ecan. set (q' := snd (q_push m q)).
  assert (Et : try_push m (if alloc then 1 else 0) q = ((MAILBOX_OK, negb (q_scheduled q)), q')).
  { unfold try_push. assert (E : negb ((if alloc then 1 else 0) =? 0) = alloc) by by destruct alloc. rewrite E, Ecan.
    unfold q', q_push. by rewrite Ec. }
  set (out := (SERVICE_SEND_OK, unpinned sv (at_s (delivered m q sv)))).
  assert (Hfrom := fun k => send_from_push alloc k _ out eq_refl). rewrite Et in Hfrom. cbn [fst snd out] in Hfrom.
  rewrite bool_decide_eq_true_2 in Hfrom by done. cbn [andb] in Hfrom. unfold delivered. fold q'.
  unfold delivered in Hfrom. fold q' in Hfrom.
  destruct (q_scheduled q); cbn [negb andb] in *.
  { exists 3%nat. apply (Hfrom 1%nat). intros cs.
    apply (unpin_den s sv (on_runtime (set_box (Some q')) sv)); [lia|done]. }
  assert (Hread : on_service s (fun _ sv => (st_inbox_async_ready (sv_status sv), sv)) 0
      (at_s (on_runtime (set_box (Some q')) (pinned sv))) =
    Some (st_inbox_async_ready (sv_status sv), at_s (on_runtime (set_box (Some q')) (pinned sv)))).
  { unfold on_service. cbn [sy_services put_services].
    by rewrite lookup_insert_eq, put_services_twice, insert_insert_eq. }
  destruct (st_inbox_async_ready (sv_status sv)).
  2: { exists 4%nat. apply (Hfrom 2%nat). intros cs. eapply den_sec; [exact Hread|].
       apply (unpin_den s sv (on_runtime (set_box (Some q')) sv)); [lia|done]. }
  destruct (Hh eq_refl) as [b Hhb]. exists 5%nat. apply (Hfrom 3%nat). intros cs.
  eapply den_sec; [exact Hread|]. eapply den_sec.
  { unfold async_send, uv_call, on_service. cbn [sy_services put_services hd tl take app]. rewrite lookup_insert_eq.
    cbn [on_runtime pinned on_route sv_loop async_handle]. rewrite Hhb, (uv_async_send_law _ _ _ b) by done.
    cbn [Z.eqb set_async_handle]. rewrite put_services_twice, insert_insert_eq. reflexivity. }
  apply (unpin_den s sv (on_loop (set_inbox_handle (HActive true)) (on_runtime (set_box (Some q')) sv))); [lia|done].
Qed.
End Pinned.

Lemma send_den alloc m y :
  (forall sv, sy_services y !! m_to m = Some sv -> reachable_ok sv) ->
  exists k, forall rest,
    den (service_send true (Some m)) (take k (send_answers alloc) ++ rest) y
      (fst (deliver alloc m y)) rest (snd (deliver alloc m y)).
Proof.
  intros Hok. unfold deliver. destruct (Z.leb_spec MAX_SERVICES (m_to m)) as [Hge|Hid].
  { exists 0%nat. intros rest. unfold service_send, service_pool_pin. cbn [negb orb]. by rewrite (proj2 (Z.leb_le _ _)). }
  destruct (sy_services y !! m_to m) as [sv|] eqn:Hs.
  2: { exists 1%nat. intros rest. unfold service_send, service_pool_pin. cbn [negb orb].
       rewrite (proj2 (Z.leb_gt _ _)) by done. exists None, y. split; [|done]. unfold pin_section. by rewrite Hs. }
  destruct (rt_routable (sv_route sv)) eqn:Hr; cbn [negb].
  2: { exists 2%nat. intros rest. unfold service_send, service_pool_pin. cbn [negb orb].
       rewrite (proj2 (Z.leb_gt _ _)) by done. exists (Some false), y.
       split; [unfold pin_section; by rewrite Hs, Hr|]. cbn [tl take app send_answers].
       eapply den_bind; [eapply den_inactive; [exact Hs|apply den_ret]|].
       unfold inactive_result. destruct (_ <? _); apply den_ret. }
  destruct (Hok sv eq_refl Hr) as (Hp & Hi & [q Hb] & Hh). rewrite Hb.
  destruct (q_closed q) eqn:Ec; [apply (send_refused m sv q y); auto|].
  destruct (q_can_push PUSH_CAPACITY_MAX alloc q) eqn:Ecan; [by apply send_accepted|].
  apply (send_refused m sv q y); auto.
Qed.

(** ** The drain of a mailbox *)

Definition box_items (sv : service) : list message :=
  match ru_box (sv_runtime sv) with Some q => q_items q | None => [] end.

(** The messages queued for a service. *)
Definition inbox_items (y : sys) (t : Z) : list message :=
  match sy_services y !! t with Some sv => box_items sv | None => [] end.

Definition routable_at (y : sys) (t : Z) : bool :=
  match sy_services y !! t with Some sv => rt_routable (sv_route sv) | None => false end.

(** A pool in which a send cannot fail for want of memory, with room for [k]
    more messages in every open route. *)
Definition pool_ok (s k : Z) (y : sys) : Prop :=
  (forall t, is_Some (sy_services y !! t) -> t < MAX_SERVICES) /\
  forall t sv, sy_services y !! t = Some sv -> reachable_ok sv /\
    (t <> s -> rt_routable (sv_route sv) = true -> forall q, ru_box (sv_runtime sv) = Some q ->
       q_closed q = false /\ q_length q + k <= PUSH_CAPACITY_MAX).

Lemma delivered_fields m q sv :
  let sv' := delivered m q sv in
  sv_route sv' = sv_route sv /\ sv_status sv' = sv_status sv /\
  ru_inbox (sv_runtime sv') = ru_inbox (sv_runtime sv) /\ ru_box (sv_runtime sv') = Some (snd (q_push m q)) /\
  (st_inbox_async_ready (sv_status sv) = true -> (exists b, lo_inbox_handle (sv_loop sv) = HActive b) ->
   exists b, lo_inbox_handle (sv_loop sv') = HActive b).
Proof.
  unfold delivered. destruct (negb (q_scheduled q)), (st_inbox_async_ready (sv_status sv)); cbn; split_and!; try done.
  intros _ _. by exists true.
Qed.

(** A delivery to nobody leaves the services as they are; one to an open route
    finds room. *)
Lemma deliver_cases s k m y :
  1 <= k -> pool_ok s k y -> m_to m <> s ->
  let y' := snd (deliver true m y) in
  sy_heap y' = sy_heap y /\ sy_faults y' = sy_faults y /\
  ((routable_at y (m_to m) = false /\ sy_services y' = sy_services y) \/
   (exists sv q, sy_services y !! m_to m = Some sv /\ rt_routable (sv_route sv) = true /\
      ru_box (sv_runtime sv) = Some q /\ q_closed q = false /\ q_length q + k <= PUSH_CAPACITY_MAX /\
      sy_services y' = <[m_to m := delivered m q sv]> (sy_services y))).
Proof.
  intros Hk [Hlt Hok] Hne. unfold deliver, routable_at.
  destruct (Z.leb_spec MAX_SERVICES (m_to m)) as [Hge|_].
  { cbn [snd]. split_and!; [done..|]. left. split; [|done]. destruct (sy_services y !! m_to m) eqn:E; [|done].
    specialize (Hlt (m_to m)). rewrite E in Hlt. specialize (Hlt (ex_intro _ _ eq_refl)). lia. }
  destruct (sy_services y !! m_to m) as [sv|] eqn:Hs; [|cbn [snd]; split_and!; [done..|by left]].
  destruct (rt_routable (sv_route sv)) eqn:Hr; cbn [negb]; [|cbn [snd]; split_and!; [done..|by left]].
  destruct (Hok _ _ Hs) as [Hre Hroom]. destruct (Hre Hr) as (Hp & Hi & [q Hb] & Hh). rewrite Hb.
  destruct (Hroom Hne Hr q Hb) as [Hc Hlen]. rewrite Hc.
  assert (Ecan : q_can_push PUSH_CAPACITY_MAX true q = true).
  { unfold q_can_push. rewrite Hc. cbn [orb andb]. destruct (Z.eqb_spec (q_length q) (q_capacity q)); cbn; [|done].
    apply Z.leb_le. lia. }
  rewrite Ecan. cbn [snd]. unfold unpinned.
  split_and!; [by destruct (_ =? 0)|by destruct (_ =? 0)|]. right. exists sv, q. split_and!; try done. by destruct (_ =? 0).
Qed.

(** What a delivery changes, seen from outside. *)
Lemma deliver_ok s k m y :
  1 <= k -> pool_ok s k y -> m_to m <> s ->
  let y' := snd (deliver true m y) in
  pool_ok s (k - 1) y' /\
  sy_services y' !! s = sy_services y !! s /\ sy_heap y' = sy_heap y /\ sy_faults y' = sy_faults y /\
  (forall t, routable_at y' t = routable_at y t) /\
  (forall t, inbox_items y' t = inbox_items y t ++ if bool_decide (t = m_to m) && routable_at y t then [m] else []).
Proof.
  intros Hk Hpool Hne. cbv zeta. destruct (deliver_cases s k m y Hk Hpool Hne) as (Hheap & Hfaults & Hcase).
  revert Hheap Hfaults Hcase. generalize (snd (deliver true m y)). intros y' Hheap Hfaults Hcase.
  destruct Hpool as [Hlt Hok].
  assert (Hw : forall t sv, sy_services y !! t = Some sv -> reachable_ok sv /\
    (t <> s -> rt_routable (sv_route sv) = true -> forall q, ru_box (sv_runtime sv) = Some q ->
       q_closed q = false /\ q_length q + (k - 1) <= PUSH_CAPACITY_MAX)).
  { intros t sv Ht. destruct (Hok t sv Ht) as [H1 H2]. split; [done|].
    intros H3 H4 q Hq. destruct (H2 H3 H4 q Hq). split; [done|lia]. }
  destruct Hcase as [[Hf Es]|(sv & q & Hs & Hr & Hb & Hc & Hlen & Es)].
  { unfold pool_ok, routable_at, inbox_items in *. rewrite Es. split_and!; try done.
    intros t. case_bool_decide as E; [rewrite E, Hf|]; cbn; by rewrite app_nil_r. }
  destruct (delivered_fields m q sv) as (Er & Est & Ei & Eb & Eh). set (sv' := delivered m q sv) in *.
  destruct (Hok _ _ Hs) as [Hre _]. destruct (Hre Hr) as (Hp & Hin & _ & Hh).
  assert (Eit : q_items (snd (q_push m q)) = q_items q ++ [m] /\ q_closed (snd (q_push m q)) = false)
    by (unfold q_push; by rewrite Hc). destruct Eit as [Eit Ecl].
  assert (Hl : forall t, sy_services y' !! t = if decide (t = m_to m) then Some sv' else sy_services y !! t).
  { intros t. rewrite Es. case_decide as E; [rewrite E; by rewrite lookup_insert_eq|by rewrite lookup_insert_ne]. }
  split_and!; [split| |done|done| |].
  - intros t. rewrite Hl. case_decide as E; [intros _; rewrite E; apply Hlt; by exists sv|apply Hlt].
  - intros t sv0. rewrite Hl. case_decide as E; [|apply Hw]. intros [= <-]. split.
    + intros _. rewrite Er, Est, Ei, Eb. split_and!; [lia|lia|done|by eexists|auto].
    + intros _ _ q0. rewrite Eb. intros [= <-]. split; [done|]. unfold q_length in *. rewrite Eit, length_app. cbn. lia.
  - rewrite Hl. by rewrite decide_False by congruence.
  - intros t. unfold routable_at. rewrite Hl. case_decide as E; [|done]. by rewrite E, Hs, Er.
  - intros t. unfold inbox_items, routable_at. rewrite Hl. case_decide as E.
    + rewrite E, Hs, Hr. rewrite bool_decide_eq_true_2 by done. cbn. unfold box_items. by rewrite Eb, Hb, Eit.
    + rewrite bool_decide_eq_false_2 by done. cbn. by rewrite app_nil_r.
Qed.

(** The replies a drain owes to the service [t]. *)
Definition replies (s t : Z) (ms : list message) : list message :=
  drain_reply s <$> filter (fun m => needs_reply m = true /\ m_from m = t) ms.

Lemma replies_cons s t m ms :
  replies s t (m :: ms) =
  (if bool_decide (t = m_from m) && needs_reply m then [drain_reply s m] else []) ++ replies s t ms.
Proof.
  unfold replies. rewrite filter_cons. case_decide as E.
  - destruct E as [E1 E2]. rewrite E1, bool_decide_eq_true_2 by done. done.
  - destruct (needs_reply m) eqn:En; [|by rewrite andb_false_r].
    rewrite bool_decide_eq_false_2; [done|]. intros E'. apply E. by split.
Qed.

(** *** One turn *)

Definition pop_own (sv : service) (q : queue) (s : Z) (y : sys) : sys :=
  put_services (<[s := on_runtime (set_box (Some (snd (q_pop q)))) sv]> (sy_services y)) y.

Lemma pop_den s sv q y c :
  sy_services y !! s = Some sv -> ru_inbox (sv_runtime sv) = true -> ru_box (sv_runtime sv) = Some q ->
  mailbox_op AccShutdown true s None (fun _ q => q_pop q) c y = Some (fst (q_pop q), pop_own sv q s y).
Proof.
  intros Hs Hi Hb. unfold mailbox_op, mailbox_live, pop_own. rewrite Hs, Hi, Hb. cbn [andb negb]. by destruct (q_pop q).
Qed.

(** The service that drains: retired, with its messages. *)
Record draining (s : Z) (ms : list message) (y : sys) : Prop := Draining {
  dr_sv : exists sv q, sy_services y !! s = Some sv /\ rt_routable (sv_route sv) = false /\
    ru_inbox (sv_runtime sv) = true /\ ru_box (sv_runtime sv) = Some q /\ q_items q = ms;
  dr_ok : pool_ok s (Z.of_nat (length ms)) y;
  dr_nodup : NoDup (omap m_msg ms);
  dr_live : Forall (fun a => a ∈ sy_heap y) (omap m_msg ms)
}.

Definition drain_body (s : Z) : prog sys (option unit) :=
  m <- section (mailbox_op AccShutdown true s None (fun _ q => q_pop q)) ;;
  match m with
  | None => ret (Some tt)
  | Some m =>
    _ <- (if needs_reply m then forget (service_send true (Some (drain_reply s m))) else ret tt) ;;
    _ <- section (free (m_msg m)) ;;
    ret None
  end.

(** What is left of the state of the pool after a turn. *)
Record turned (s : Z) (m : message) (y y' : sys) : Prop := Turned {
  tu_routable : forall t, routable_at y' t = routable_at y t;
  tu_items : forall t, t <> s -> inbox_items y' t =
    inbox_items y t ++ if routable_at y t then replies s t [m] else [];
  tu_heap : sy_heap y' = sy_heap y ∖ list_to_set (omap m_msg [m]);
  tu_faults : sy_faults y' = sy_faults y
}.

Lemma pool_ok_pop s k sv q y :
  sy_services y !! s = Some sv -> rt_routable (sv_route sv) = false -> pool_ok s k y -> pool_ok s k (pop_own sv q s y).
Proof.
  intros Hs Hr [H1 H2]. unfold pop_own. split; intros t; cbn [sy_services put_services];
    (destruct (decide (t = s)) as [->|Hne]; [rewrite lookup_insert_eq|rewrite lookup_insert_ne by done]).
  - intros _. apply H1. by exists sv.
  - apply H1.
  - intros sv0 [= <-]. split; [|done]. intros Hx. cbn in Hx. congruence.
  - apply H2.
Qed.

Lemma routable_at_pop s sv q y t :
  sy_services y !! s = Some sv -> routable_at (pop_own sv q s y) t = routable_at y t.
Proof.
  intros Hs. unfold routable_at, pop_own. cbn [sy_services put_services].
  destruct (decide (t = s)) as [->|Hne]; [by rewrite lookup_insert_eq, Hs|by rewrite lookup_insert_ne].
Qed.

Lemma inbox_items_pop s sv q y t : t <> s -> inbox_items (pop_own sv q s y) t = inbox_items y t.
Proof. intros Hne. unfold inbox_items, pop_own. cbn [sy_services put_services]. by rewrite lookup_insert_ne. Qed.

(** The reply, if any, is sent without changing the draining service. *)
Lemma reply_den s m y k :
  routable_at y s = false -> pool_ok s (k + 1) y -> 0 <= k ->
  exists cs y', (forall rest, den (if needs_reply m then forget (service_send true (Some (drain_reply s m))) else ret tt)
      (cs ++ rest) y tt rest y') /\
    pool_ok s k y' /\ sy_services y' !! s = sy_services y !! s /\ sy_heap y' = sy_heap y /\ sy_faults y' = sy_faults y /\
    (forall t, routable_at y' t = routable_at y t) /\
    (forall t, t <> s -> inbox_items y' t = inbox_items y t ++ if routable_at y t then replies s t [m] else []).
Proof.
  intros Hr Hok Hk.
  assert (Hsmall : pool_ok s k y).
  { destruct Hok as [H1 H2]. split; [done|]. intros t sv Ht. destruct (H2 t sv Ht) as [H3 H4]. split; [done|].
    intros H5 H6 q Hq. destruct (H4 H5 H6 q Hq). split; [done|lia]. }
  assert (Hrep : forall t, replies s t [m] = if bool_decide (t = m_from m) && needs_reply m then [drain_reply s m] else []).
  { intros t. rewrite replies_cons. by rewrite app_nil_r. }
  destruct (needs_reply m) eqn:En.
  2: { exists [], y. split; [intros rest; apply den_ret|]. split_and!; try done.
       intros t _. rewrite Hrep, andb_false_r. destruct (routable_at y t); by rewrite app_nil_r. }
  destruct (send_den true (drain_reply s m) y) as [n Hn].
  { intros sv Hsv. by apply (proj2 Hok) in Hsv as [? _]. }
  exists (take n (send_answers true)), (snd (deliver true (drain_reply s m) y)).
  split. { intros rest. eapply den_bind; [apply Hn|apply den_ret]. }
  destruct (decide (m_from m = s)) as [E|Hne].
  - assert (Ed : snd (deliver true (drain_reply s m) y) = y).
    { unfold deliver. cbn [drain_reply m_to]. rewrite E. unfold routable_at in Hr.
      destruct (MAX_SERVICES <=? s); [done|]. destruct (sy_services y !! s); [|done]. by rewrite Hr. }
    rewrite Ed. split_and!; try done. intros t Ht. rewrite Hrep, bool_decide_eq_false_2 by congruence. cbn.
    destruct (routable_at y t); by rewrite app_nil_r.
  - destruct (deliver_ok s (k + 1) (drain_reply s m) y) as (D1 & D2 & D3 & D4 & D5 & D6); [lia|done|done|].
    rewrite Z.add_simpl_r in D1. split_and!; try done. intros t Ht. rewrite D6, Hrep. cbn [drain_reply m_to].
    rewrite andb_true_r. by destruct (routable_at y t), (bool_decide _).
Qed.

Lemma turn_den s m ms y :
  draining s (m :: ms) y ->
  exists cs y', (forall rest, den (drain_body s) (cs ++ rest) y None rest y') /\ draining s ms y' /\ turned s m y y'.
Proof.
  intros [(sv & q & Hs & Hr & Hi & Hb & Hq) Hok Hnd Hl].
  pose proof (pop_den s sv q y 0 Hs Hi Hb) as Hpop. unfold q_pop in Hpop. rewrite Hq in Hpop. cbn [fst] in Hpop.
  assert (Hok1 : pool_ok s (Z.of_nat (length ms) + 1) (pop_own sv q s y)).
  { eapply pool_ok_pop; [done|done|]. cbn [length] in Hok. by rewrite Nat2Z.inj_succ in Hok. }
  assert (Hr1 : routable_at (pop_own sv q s y) s = false).
  { rewrite routable_at_pop by done. unfold routable_at. by rewrite Hs. }
  destruct (reply_den s m _ _ Hr1 Hok1) as (cs & y2 & Hd & R1 & R2 & R3 & R4 & R5 & R6); [lia|].
  assert (Hlive : forall a, m_msg m = Some a -> a ∈ sy_heap y2).
  { intros a Ea. rewrite R3. cbn in Hl. rewrite Ea in Hl. by apply Forall_cons in Hl as [? _]. }
  set (y3 := free_block (m_msg m) y2).
  assert (E3 : y3 = put_heap (sy_heap y2 ∖ list_to_set (omap m_msg [m])) y2).
  { unfold y3, free_block. cbn. destruct (m_msg m) as [a|] eqn:Ea; cbn.
    - rewrite decide_True by by apply Hlive. f_equal. set_solver.
    - f_equal. set_solver. }
  exists (0 :: cs ++ [0]), y3. split; [|split].
  - intros rest. unfold drain_body. eapply den_sec; [exact Hpop|]. cbn [tl app]. rewrite <- app_assoc.
    eapply den_bind; [apply Hd|]. eapply den_sec; [reflexivity|]. apply den_ret.
  - rewrite E3. constructor; cbn [sy_services put_heap sy_heap].
    + exists (on_runtime (set_box (Some (snd (q_pop q)))) sv), (snd (q_pop q)). rewrite R2. unfold pop_own.
      cbn [sy_services put_services]. rewrite lookup_insert_eq. split_and!; try done. unfold q_pop. by rewrite Hq.
    + exact R1.
    + cbn in Hnd. destruct (m_msg m); [by apply NoDup_cons in Hnd as [_ ?]|done].
    + rewrite R3. cbn. cbn in Hl, Hnd.
      destruct (m_msg m) as [a|]; cbn.
      * apply NoDup_cons in Hnd as [Hna _]. apply Forall_cons in Hl as [_ Hl].
        rewrite Forall_forall in Hl |- *. intros b Hb'. apply elem_of_difference. split; [by apply Hl|].
        assert (Hba : b <> a) by (by intros ->). clear - Hba. set_solver.
      * eapply Forall_impl; [exact Hl|]. clear. set_solver.
  - rewrite E3. constructor; cbn [sy_heap put_heap sy_faults].
    + intros t. transitivity (routable_at y2 t); [done|]. by rewrite R5, routable_at_pop.
    + intros t Ht. transitivity (inbox_items y2 t); [done|]. by rewrite R6, routable_at_pop, inbox_items_pop.
    + by rewrite R3.
    + by rewrite R4.
Qed.

Lemma drain_iter s ms y :
  draining s ms y ->
  exists cs y', (forall rest, iter (den (drain_body s)) (cs ++ rest) y tt rest y') /\
    (forall t, t <> s -> inbox_items y' t = inbox_items y t ++ if routable_at y t then replies s t ms else []) /\
    inbox_items y' s = [] /\ sy_heap y' = sy_heap y ∖ list_to_set (omap m_msg ms) /\ sy_faults y' = sy_faults y.
Proof.
  revert y. induction ms as [|m ms IH]; intros y Hd.
  - destruct Hd as [(sv & q & Hs & Hr & Hi & Hb & Hq) Hok _ _].
    pose proof (pop_den s sv q y 0 Hs Hi Hb) as Hpop. unfold q_pop in Hpop. rewrite Hq in Hpop. cbn [fst] in Hpop.
    exists [0], (pop_own sv q s y). split_and!.
    + intros rest. apply IterDone. eapply den_sec; [exact Hpop|]. apply den_ret.
    + intros t Ht. rewrite inbox_items_pop by done. destruct (routable_at y t); by rewrite app_nil_r.
    + unfold inbox_items, pop_own. cbn [sy_services put_services]. rewrite lookup_insert_eq. unfold box_items. cbn.
      unfold q_pop. by rewrite Hq.
    + cbn. set_solver.
    + done.
  - destruct (turn_den s m ms y Hd) as (cs1 & y1 & H1 & Hd1 & [T1 T2 T3 T4]).
    destruct (IH y1 Hd1) as (cs2 & y2 & H2 & I1 & I2 & I3 & I4).
    exists (cs1 ++ cs2), y2. split_and!; try done.
    + intros rest. rewrite <- app_assoc. eapply IterMore; [apply H1|apply H2].
    + intros t Ht. rewrite I1, T1, T2 by done. rewrite (replies_cons s t m ms).
      pose proof (replies_cons s t m []) as Er. rewrite app_nil_r in Er. rewrite Er.
      destruct (routable_at y t); [by rewrite app_assoc|]. by rewrite !app_nil_r.
    + rewrite I3, T3. cbn. destruct (m_msg m); cbn; set_solver.
    + by rewrite I4.
Qed.

(** ** Creating a service *)

Definition name_taken (n : list Z) (y : sys) : Prop :=
  n <> [] /\ exists s sv, 0 <= s < sy_next_id y /\ sy_services y !! s = Some sv /\
    rt_routable (sv_route sv) = true /\ sv_name sv = n.

Lemma find_routable_spec m name id k :
  is_Some (find_routable m name id k) <->
  exists s sv, id <= s < id + Z.of_nat k /\ m !! s = Some sv /\ rt_routable (sv_route sv) = true /\ sv_name sv = name.
Proof.
  revert id. induction k as [|k IH]; intros id; cbn [find_routable].
  { split; [by intros []|]. intros (s & sv & Hs & _). lia. }
  assert (Hrec : (forall sv, m !! id = Some sv -> rt_routable (sv_route sv) = true -> sv_name sv <> name) ->
    is_Some (find_routable m name (id + 1) k) <->
    exists s sv, id <= s < id + Z.of_nat (S k) /\ m !! s = Some sv /\ rt_routable (sv_route sv) = true /\ sv_name sv = name).
  { intros Hno. rewrite IH. split; intros (s & sv & Hs & H1 & H2 & H3).
    - exists s, sv. split_and!; try done; lia.
    - destruct (decide (s = id)) as [->|Hne]; [by destruct (Hno sv H1 H2)|]. exists s, sv. split_and!; try done; lia. }
  destruct (m !! id) as [sv|] eqn:Hm; [|by apply Hrec].
  destruct (rt_routable (sv_route sv)) eqn:Hr; cbn [andb]; [|apply Hrec; intros sv' [= <-]; congruence].
  case_bool_decide as Hn; [|by apply Hrec; intros sv' [= <-] _].
  split; [intros _|by eauto]. exists id, sv. split_and!; try done; lia.
Qed.

Definition new_ok (name source : option (list Z)) (mailbox_size c1 c2 : Z) (y : sys) : Prop :=
  source <> None /\ SERVICE_MAILBOX_MIN_SIZE <= mailbox_size <= SERVICE_MAILBOX_MAX_SIZE /\
  Z.of_nat (length (default [] name)) < MAX_SERVICE_NAME_LEN /\
  c1 <> 0 /\ 0 < c2 /\ (c2 ∉ sy_heap y) /\ sy_next_id y < MAX_SERVICES /\ ~ name_taken (default [] name) y.

Lemma taken_test n y :
  0 <= sy_next_id y ->
  bool_decide (n <> []) && bool_decide (is_Some (find_routable (sy_services y) n 0 (Z.to_nat (sy_next_id y)))) =
    bool_decide (n <> [] /\ is_Some (find_routable (sy_services y) n 0 (Z.to_nat (sy_next_id y)))) /\
  (n <> [] /\ is_Some (find_routable (sy_services y) n 0 (Z.to_nat (sy_next_id y))) <-> name_taken n y).
Proof.
  intros Hy. split; [symmetry; apply bool_decide_and|]. unfold name_taken. rewrite find_routable_spec.
  rewrite Z.add_0_l, Z2Nat.id by done. done.
Qed.

Lemma new_valid (name source : option (list Z)) mailbox_size :
  source <> None -> SERVICE_MAILBOX_MIN_SIZE <= mailbox_size <= SERVICE_MAILBOX_MAX_SIZE ->
  Z.of_nat (length (default [] name)) < MAX_SERVICE_NAME_LEN ->
  bool_decide (source = None) || (mailbox_size <? SERVICE_MAILBOX_MIN_SIZE) ||
  (SERVICE_MAILBOX_MAX_SIZE <? mailbox_size) ||
  match name with Some n => MAX_SERVICE_NAME_LEN <=? Z.of_nat (length n) | None => false end = false.
Proof.
  intros H1 H2 H3. rewrite bool_decide_eq_false_2 by done.
  rewrite (proj2 (Z.ltb_ge _ _)), (proj2 (Z.ltb_ge _ _)) by lia. cbn [orb].
  destruct name as [n|]; [apply Z.leb_gt; exact H3|done].
Qed.

Lemma new_den name source config mailbox_size c1 c2 y :
  0 <= sy_next_id y ->
  (new_ok name source mailbox_size c1 c2 y ->
   returns (service_new true name source config mailbox_size) [c1; c2] y (Some (sy_next_id y))
     (put_next_id (sy_next_id y + 1)
       (put_services (<[sy_next_id y := new_service (default [] name) c2 config mailbox_size]> (sy_services y))
         (put_heap ({[c2]} ∪ sy_heap y) y)))) /\
  (~ new_ok name source mailbox_size c1 c2 y ->
   returns (service_new true name source config mailbox_size) [c1; c2] y None y).
Proof.
  intros Hy. set (n := default [] name). destruct (taken_test n y Hy) as [Et Hnt].
  unfold service_new. cbn [negb orb]. fold n.
  split.
  - intros (V1 & V2 & V3 & V4 & V5 & V6 & V7 & V8). rewrite new_valid by done.
    eapply (den_returns _ _ _ _ []). eapply den_sec; [reflexivity|]. cbn [hd tl]. rewrite (proj2 (Z.eqb_neq c1 0)) by done.
    eapply den_sec.
    { cbn [hd]. unfold malloc. rewrite (proj2 (Z.leb_gt c2 0)) by lia. rewrite bool_decide_eq_false_2 by done. reflexivity. }
    eapply den_sec.
    { unfold register_section. cbn [sy_next_id sy_services put_heap]. rewrite (proj2 (Z.leb_gt _ _)) by done.
      rewrite Et, bool_decide_eq_false_2 by (by rewrite Hnt). reflexivity. }
    apply den_ret.
  - intros Hno. destruct (_ || _) eqn:Ev.
    { eapply den_returns. apply den_ret. }
    assert (Hv : source <> None /\ SERVICE_MAILBOX_MIN_SIZE <= mailbox_size <= SERVICE_MAILBOX_MAX_SIZE /\
      Z.of_nat (length n) < MAX_SERVICE_NAME_LEN).
    { rewrite !orb_false_iff in Ev. destruct Ev as [[[E1 E2] E3] E4]. apply bool_decide_eq_false in E1.
      split; [done|]. split; [lia|]. unfold n. destruct name as [n0|]; cbn; [lia|unfold MAX_SERVICE_NAME_LEN; lia]. }
    destruct (decide (c1 = 0)) as [->|Hc1].
    { eapply den_returns, den_sec; [reflexivity|]. apply den_ret. }
    destruct (decide (0 < c2 /\ c2 ∉ sy_heap y)) as [[Hc2 Hc2']|Hc2].
    2: { assert (Hm : malloc c2 y = Some (None, y)).
         { unfold malloc. destruct (Z.leb_spec c2 0); [done|]. cbn [orb].
           destruct (decide (c2 ∈ sy_heap y)); [by rewrite bool_decide_eq_true_2|].
           exfalso. apply Hc2. by split. }
         eapply den_returns, den_sec; [reflexivity|]. cbn [hd tl]. rewrite (proj2 (Z.eqb_neq c1 0)) by done.
         eapply den_sec; [exact Hm|apply den_ret]. }
    set (y1 := put_heap ({[c2]} ∪ sy_heap y) y).
    assert (Hreg : register_section n (new_service n c2 config mailbox_size) 0 y1 = Some (None, y1)).
    { unfold register_section. cbn [sy_next_id sy_services y1 put_heap].
      destruct (Z.leb_spec MAX_SERVICES (sy_next_id y)) as [|Hlt]; [done|].
      rewrite Et.
      destruct (bool_decide (n <> [] /\ _)) eqn:Htk; [done|]. exfalso.
      apply bool_decide_eq_false in Htk. rewrite Hnt in Htk. apply Hno.
      unfold new_ok. fold n. clear - Hv Hc1 Hc2 Hc2' Hlt Htk. tauto. }
    eapply den_returns, den_sec; [reflexivity|]. cbn [hd tl]. rewrite (proj2 (Z.eqb_neq c1 0)) by done.
    eapply den_sec.
    { cbn [hd]. unfold malloc. rewrite (proj2 (Z.leb_gt c2 0)) by lia. rewrite bool_decide_eq_false_2 by done. reflexivity. }
    eapply den_sec; [exact Hreg|]. eapply den_sec; [|apply den_ret]. unfold free, free_block. cbn.
    rewrite decide_True by set_solver. do 2 f_equal. destruct y as [a b h w e]. cbn in *. unfold put_heap. cbn.
    f_equal. clear - Hc2'. set_solver.
Qed.
End Exec.
