(* ===== verification/ServiceTheorems.v ===== *)
(** * ServiceTheorems: what service.c guarantees to concurrent callers

    The properties of the functions of [service.c] run by any number of
    threads, interleaved in any way, and what they miss. *)

From S2P Require Import Prelude Message Mailbox Queue MailboxCorrect Concur ServiceState Service.
From S2P Require Import ServiceInv ServiceLogic ServiceSafe ServiceSystem ServiceExec.

(** ** Scenarios for the witnesses *)

(** A libuv for the witnesses: handles as its documentation describes them. *)
Definition example_poll (c : Z) (l : uvloop) : option (uv_event * uvloop) :=
  let due (control : bool) (h : handle) (e : uv_event) (h' : handle) :=
    if bool_decide (async_handle control l = h) then Some (e, set_async_handle control h' l) else None in
  match c with
  | 0 => due false (HActive true) (EvAsync false) (HActive false)
  | 1 => due true (HActive true) (EvAsync true) (HActive false)
  | 2 => due false HClosing (EvClosed false) HClosed
  | 3 => due true HClosing (EvClosed true) HClosed
  | 4 => if lo_user_handles l then Some (EvUser, l) else None
  | _ =>
    if bool_decide (lo_inbox_handle l = HClosed) && bool_decide (lo_control_handle l = HClosed) && negb (lo_user_handles l)
    then Some (EvDone, l) else None
  end.

Definition example_libuv : Libuv := {|
  uv_loop_init c l := (c, if c =? 0 then set_open true l else l);
  uv_async_init control c l := (c, if c =? 0 then set_async_handle control (HActive false) l else l);
  uv_async_send control c l := (c, if c =? 0 then set_async_handle control (HActive true) l else l);
  uv_is_closing control l := match async_handle control l with HActive _ => false | _ => true end;
  uv_close control l := set_async_handle control HClosing l;
  uv_poll := example_poll;
  uv_loop_close _ l :=
    if bool_decide (lo_inbox_handle l = HClosed) && bool_decide (lo_control_handle l = HClosed) && negb (lo_user_handles l)
    then (0, set_open false l) else (EBUSY, l);
  uv_user c l := set_user_handles (c =? 7) l
|}.

#[local] Existing Instance example_libuv.

Lemma example_laws : @LibuvLaws example_libuv.
Proof.
  constructor; try done.
  - intros c l e l'. cbn [uv_poll example_libuv]. unfold example_poll. cbv zeta. intros H.
    repeat case_match; simplify_eq; repeat case_bool_decide; simplify_eq; try done.
    all: match goal with H : _ && _ = true |- _ => apply andb_true_iff in H as [H1 H3]; apply andb_true_iff in H1 as [H1 H2] end;
      cbn in *; split_and!; try done; by apply negb_true_iff.
  - intros c l. cbn [uv_loop_close example_libuv]. by destruct (_ && _).
  - intros c l. by eexists.
Qed.

#[local] Existing Instance example_laws.

(** Lua code that only returns. *)
Definition quiet_lua (_ : Z) : option api_call := None.
Definition no_message (_ : Z) : list Z := [].

Definition by_thread (i : nat) (choices : list Z) : list (nat * Z) := (fun c => (i, c)) <$> choices.

(** A client creates a service, starts it, sends it a message, stops it and
    joins it; the service's thread runs in between. *)
Definition life_calls : list api_call :=
  [ApiNew (Some [97]) 16; ApiStart 0; ApiSend (Message 7 0 5 0 None 8); ApiStop 0; ApiJoin 0].

Definition life_start : list (nat * Z) :=
  by_thread 32 [100; 1; 101; 0;  0; 0; 0; 0] ++
  by_thread 0 [0; 0; 0; 0; 0; 0; 0; 0;  1; 0; 1; 1; 0; 1; 0; 3; 0; 0; 0; 0; 0; 0; 0] ++
  by_thread 32 [0; 0; 0;  102; 0; 1; 0; 0; 0] ++
  by_thread 0 [0; 0; 0; 0; 3; 0; 0] ++
  by_thread 32 [0; 0; 0; 0; 0; 0; 0].

Definition life_end : list (nat * Z) :=
  by_thread 0 [1; 0; 0; 0; 0; 0; 0; 0; 0; 0; 3; 3; 3; 3; 3; 3; 3; 2; 3; 3; 3; 5; 3; 3; 3; 3; 3; 3; 3; 3; 3; 3; 3;
               3; 3; 3; 3; 3; 5; 3; 3; 3; 3] ++
  by_thread 32 [0; 0; 0; 0; 0; 0; 0; 0; 0; 0].

Definition life : conf sys := system quiet_lua no_message [life_calls].

(** A test on a service of the last configuration. *)
Definition on_svc (s : Z) (f : service -> bool) (cf : conf sys) : bool :=
  match sy_services (snd cf) !! s with Some sv => f sv | None => false end.

Lemma on_svc_ok s f cf : on_svc s f cf = true -> exists sv, sy_services (snd cf) !! s = Some sv /\ f sv = true.
Proof. unfold on_svc. destruct (sy_services (snd cf) !! s) as [sv|]; [|done]. intros H. by exists sv. Qed.

Lemma reachable_run clients sched test :
  Z.of_nat (length clients) < UINT32_MAX - MAX_SERVICES ->
  match conf_run sched (system quiet_lua no_message clients) with Some cf => test cf | None => false end = true ->
  exists cf, reachable quiet_lua no_message clients sched cf /\ test cf = true.
Proof.
  intros Hc H. destruct (conf_run_test _ _ _ H) as (cf & Hs & Ht). exists cf. by split; [split|].
Qed.

Definition is_state (st : service_state) (sv : service) : bool := bool_decide (st_state (sv_status sv) = st).

(** ** The theorems *)


(** Two clients: one stops a service that was not started and is suspended
    before it closes the mailbox; the other joins, which deletes it. *)
Definition race_calls : list (list api_call) := [[ApiNew (Some [97]) 16; ApiStop 0]; [ApiJoin 0]].
Definition race : list (nat * Z) :=
  by_thread 32 [100; 1; 101; 0;  0; 0; 0] ++ by_thread 33 [0; 0; 0; 0; 0; 0; 0; 0] ++ by_thread 32 [0].

Definition race_test (cf : conf sys) : bool :=
  match sy_faults (snd cf) with [Fault AccStopClose 0] => true | _ => false end.


(** C23: The use after free in service_stop is real: thread 32 stops a service that was never started and is suspended between releasing the state lock and mailbox_close; thread 33 joins the service, which deletes the mailbox; thread 32 then closes the deleted mailbox. *)
Theorem service_stop_use_after_free :
  exists cf, reachable quiet_lua no_message race_calls race cf /\ sy_faults (snd cf) = [Fault AccStopClose 0] /\
    exists sv, sy_services (snd cf) !! 0 = Some sv /\ ru_box (sv_runtime sv) = None.
Proof.
  destruct (reachable_run race_calls race
    (fun cf => race_test cf && on_svc 0 (fun sv => negb (box_there (ru_box (sv_runtime sv)))) cf))
    as (cf & Hr & Ht); [done|vm_compute; reflexivity|].
  apply andb_true_iff in Ht as [H1 H2]. exists cf. split; [done|]. split.
  - unfold race_test in H1. by repeat case_match.
  - apply on_svc_ok in H2 as (sv & Hs & Hb). exists sv. split; [done|]. by destruct (ru_box (sv_runtime sv)).
Qed.

(** C15: A service only moves forward, whatever the callers do: its state never goes back in the order NEW, STARTING, RUNNING, STOPPING, STOPPED, JOINED, FREED; once retired it is never routable again; its name never changes; the first exit error reported is the one kept; a stop request, the outcome of the start, the creation of the thread and the join are never taken back; a closed mailbox stays closed and a deleted one deleted. *)
Theorem service_moves_forward (U : Libuv) (L : @LibuvLaws U) lua_call lua_error clients es cf es' cf' s sv :
  reachable lua_call lua_error clients es cf -> steps conf_step cf es' cf' ->
  sy_services (snd cf) !! s = Some sv ->
  exists sv', sy_services (snd cf') !! s = Some sv' /\
    state_code (st_state (sv_status sv)) <= state_code (st_state (sv_status sv')) /\
    (rt_routable (sv_route sv) = false -> rt_routable (sv_route sv') = false) /\
    sv_name sv' = sv_name sv /\
    (forall e, st_exit_error (sv_status sv) = Some e -> st_exit_error (sv_status sv') = Some e) /\
    (st_stop_requested (sv_status sv) = true -> st_stop_requested (sv_status sv') = true) /\
    (st_start_done (sv_status sv) = true -> st_start_done (sv_status sv') = true) /\
    (st_thread_created (sv_status sv) = true -> st_thread_created (sv_status sv') = true) /\
    (st_thread_joined (sv_status sv) = true -> st_thread_joined (sv_status sv') = true) /\
    (box_closed (ru_box (sv_runtime sv)) = true -> box_closed (ru_box (sv_runtime sv')) = true) /\
    (ru_box (sv_runtime sv) = None -> ru_box (sv_runtime sv') = None).
Proof.
  intros Hr Hs Hsv. destruct (system_guar _ _ _ _ _ _ _ Hr Hs) as [_ Hg].
  destruct (Hg s sv Hsv) as (sv' & Hsv' & []). exists sv'. split_and!; try done.
  intros Hf. destruct (rt_routable (sv_route sv')) eqn:E; [|done]. rewrite sg_routable in Hf by done. done.
Qed.

Example service_moves_forward_witness :
  exists cf cf', reachable quiet_lua no_message [life_calls] life_start cf /\ steps conf_step cf life_end cf' /\
    exists sv, sy_services (snd cf) !! 0 = Some sv /\ st_state (sv_status sv) = SERVICE_STOPPING /\
    exists sv', sy_services (snd cf') !! 0 = Some sv' /\
      state_code (st_state (sv_status sv)) <= state_code (st_state (sv_status sv')) /\
      (rt_routable (sv_route sv) = false -> rt_routable (sv_route sv') = false).
Proof.
  destruct (reachable_run [life_calls] life_start (fun cf => on_svc 0 (is_state SERVICE_STOPPING) cf &&
    match conf_run life_end cf with Some cf' => true | None => false end)) as (cf & Hr & Ht);
    [done|vm_compute; reflexivity|].
  apply andb_true_iff in Ht as [H1 H2]. apply on_svc_ok in H1 as (sv & Hs & Hst).
  destruct (conf_run_test life_end cf (fun _ => true) H2) as (cf' & Hsteps & _).
  exists cf, cf'. split; [done|]. split; [done|]. exists sv. split; [done|].
  split; [by apply bool_decide_eq_true in Hst|].
  destruct (service_moves_forward _ _ _ _ _ _ _ _ _ _ _ Hr Hsteps Hs) as (sv' & K1 & K2 & K3 & _).
  exists sv'. by split_and!.
Defined.

(** C16: A service whose thread has reached STOPPED is quiet for good: nobody can route to it, no sender holds a pin, and its mailbox is deleted or else closed and empty, so no accepted message was left behind. *)
Theorem service_stopped_quiet (U : Libuv) (L : @LibuvLaws U) lua_call lua_error clients es cf s sv :
  reachable lua_call lua_error clients es cf -> sy_services (snd cf) !! s = Some sv ->
  st_thread_created (sv_status sv) = true ->
  state_code SERVICE_STOPPED <= state_code (st_state (sv_status sv)) ->
  rt_routable (sv_route sv) = false /\ rt_send_pins (sv_route sv) = 0 /\
  match ru_box (sv_runtime sv) with Some q => q_closed q = true /\ q_items q = [] | None => True end.
Proof.
  intros Hr Hs Ht Hc. change (4 <= code sv) in Hc. destruct (system_pool _ _ _ _ _ Hr) as (rs & Hi).
  pose proof (pi_svc _ _ Hi s sv Hs) as Hv.
  assert (Hp : 6 <= phase_code (phase_of s rs)).
  { pose proof (si_phase _ _ _ Hv). pose proof (si_starting _ _ _ Hv) as K1. pose proof (si_run _ _ _ Hv).
    pose proof (si_finish _ _ _ Hv). specialize (K1 Ht).
    destruct (Z.le_gt_cases (phase_code (phase_of s rs)) 3); [lia|].
    destruct (Z.eq_dec (phase_code (phase_of s rs)) 4); [lia|].
    destruct (Z.eq_dec (phase_code (phase_of s rs)) 5); lia. }
  destruct (si_drained _ _ _ Hv Hp) as (H1 & H2 & H3 & H4). pose proof (si_pins _ _ _ Hv) as H5.
  split; [done|]. split; [lia|]. destruct (ru_box (sv_runtime sv)) as [q|]; [|done]. cbn in H3, H4.
  split; [done|]. by destruct (q_items q).
Qed.

Example service_stopped_quiet_witness :
  exists cf, reachable quiet_lua no_message [life_calls] (life_start ++ take 43 life_end) cf /\
    exists sv, sy_services (snd cf) !! 0 = Some sv /\ st_state (sv_status sv) = SERVICE_STOPPED /\
      rt_routable (sv_route sv) = false /\ rt_send_pins (sv_route sv) = 0.
Proof.
  destruct (reachable_run [life_calls] (life_start ++ take 43 life_end)
    (on_svc 0 (fun sv => is_state SERVICE_STOPPED sv && st_thread_created (sv_status sv)))) as (cf & Hr & Ht);
    [done|vm_compute; reflexivity|].
  apply on_svc_ok in Ht as (sv & Hs & Ht). apply andb_true_iff in Ht as [H1 H2]. apply bool_decide_eq_true in H1.
  exists cf. split; [done|]. exists sv. split; [done|]. split; [done|].
  destruct (service_stopped_quiet _ _ _ _ _ _ _ _ _ Hr Hs H2) as (K1 & K2 & _); [rewrite H1; cbn; lia|]. by split.
Defined.

(** C20: A service is JOINED or FREED exactly when one join of it succeeded, and then its thread, if it ever had one, has exited; a FREED service has let go of its source, its configuration and its mailbox pointer, is not routable and is held by no sender, so that deleting its mailbox is safe. *)
Theorem service_joined_exited (U : Libuv) (L : @LibuvLaws U) lua_call lua_error clients es cf s sv :
  reachable lua_call lua_error clients es cf -> sy_services (snd cf) !! s = Some sv ->
  (st_thread_joined (sv_status sv) = true <-> state_code SERVICE_JOINED <= state_code (st_state (sv_status sv))) /\
  (st_thread_joined (sv_status sv) = true -> st_thread_created (sv_status sv) = true -> sv_exited sv = true) /\
  (st_state (sv_status sv) = SERVICE_FREED ->
     ru_source (sv_runtime sv) = None /\ ru_config (sv_runtime sv) = None /\ ru_inbox (sv_runtime sv) = false /\
     rt_routable (sv_route sv) = false /\ rt_send_pins (sv_route sv) = 0).
Proof.
  intros Hr Hs. destruct (system_pool _ _ _ _ _ Hr) as (rs & Hi). pose proof (pi_svc _ _ Hi s sv Hs) as Hv.
  split; [apply (si_joined _ _ _ Hv)|]. split.
  - intros Hj Ht. apply (si_exited _ _ _ Hv), (si_joined_exited _ _ _ Hv); [|done]. by apply (si_joined _ _ _ Hv).
  - intros Hf. assert (Hc : code sv = 6) by (unfold code; by rewrite Hf).
    destruct (si_freed_fields _ _ _ Hv Hc). destruct (si_freed _ _ _ Hv Hc). pose proof (si_pins _ _ _ Hv).
    split_and!; try done; [|lia]. destruct (ru_inbox (sv_runtime sv)) eqn:E; [|done].
    by destruct (proj1 (si_inbox _ _ _ Hv) E).
Qed.

Example service_joined_exited_witness :
  exists cf, reachable quiet_lua no_message [life_calls] (life_start ++ life_end) cf /\
    exists sv, sy_services (snd cf) !! 0 = Some sv /\ st_thread_joined (sv_status sv) = true /\
      sv_exited sv = true /\ ru_source (sv_runtime sv) = None.
Proof.
  destruct (reachable_run [life_calls] (life_start ++ life_end)
    (on_svc 0 (fun sv => is_state SERVICE_FREED sv && st_thread_created (sv_status sv) && st_thread_joined (sv_status sv))))
    as (cf & Hr & Ht); [done|vm_compute; reflexivity|].
  apply on_svc_ok in Ht as (sv & Hs & Ht). apply andb_true_iff in Ht as [Ht H3]. apply andb_true_iff in Ht as [H1 H2].
  apply bool_decide_eq_true in H1. exists cf. split; [done|]. exists sv. split; [done|]. split; [done|].
  destruct (service_joined_exited _ _ _ _ _ _ _ _ _ Hr Hs) as (_ & K1 & K2). split; [by apply K1|].
  by destruct (K2 H1).
Defined.

(** C21: The services of a pool have the ids 0, 1, ... below MAX_SERVICES in the order of their creation, and two services that can both be routed to never share a name, except the empty one. *)
Theorem service_ids_names (U : Libuv) (L : @LibuvLaws U) lua_call lua_error clients es cf :
  reachable lua_call lua_error clients es cf ->
  0 <= sy_next_id (snd cf) <= MAX_SERVICES /\
  (forall s, is_Some (sy_services (snd cf) !! s) <-> 0 <= s < sy_next_id (snd cf)) /\
  (forall s1 s2 sv1 sv2, sy_services (snd cf) !! s1 = Some sv1 -> sy_services (snd cf) !! s2 = Some sv2 ->
     rt_routable (sv_route sv1) = true -> rt_routable (sv_route sv2) = true ->
     sv_name sv1 = sv_name sv2 -> sv_name sv1 <> [] -> s1 = s2).
Proof.
  intros Hr. destruct (system_pool _ _ _ _ _ Hr) as (rs & H). destruct H.
  split; [exact pi_next|]. split; [exact pi_some|exact pi_names].
Qed.

(** Two clients create services of the same name; the second gets none. *)
Definition twin_calls : list (list api_call) := [[ApiNew (Some [97]) 16]; [ApiNew (Some [97]) 16]].
Definition twins : list (nat * Z) := by_thread 32 [100; 1; 101; 0] ++ by_thread 33 [102; 1; 103; 0; 0; 0].

Example service_ids_names_witness :
  exists cf, reachable quiet_lua no_message twin_calls twins cf /\ sy_next_id (snd cf) = 1 /\
    (forall s, is_Some (sy_services (snd cf) !! s) <-> 0 <= s < 1).
Proof.
  destruct (reachable_run twin_calls twins (fun cf => sy_next_id (snd cf) =? 1)) as (cf & Hr & Ht);
    [done|vm_compute; reflexivity|].
  apply Z.eqb_eq in Ht. exists cf. split; [done|]. split; [done|].
  destruct (service_ids_names _ _ _ _ _ _ _ Hr) as (_ & K & _). rewrite <- Ht. exact K.
Defined.



(** ** One caller at a time *)












(** ** A request that is never answered *)

Definition lost_calls : list api_call :=
  [ApiNew (Some [97]) 16; ApiNew (Some [98]) 16; ApiSend (Message 1 0 5 1 None 8); ApiStop 0; ApiJoin 0].
Definition lost_accept : list (nat * Z) := by_thread 32 [100; 1; 101; 0;  102; 1; 103; 0;  104; 0; 1; 0; 0].
Definition lost_join : list (nat * Z) := by_thread 32 (replicate 15 0).

(** C24: A request accepted by a service that is stopped before it was started is never answered: service 0 accepts a request (session 5) of service 1 while it is NEW, is stopped and joined by the only client, which returns; service 0 is FREED, its queue is gone, and the mailbox of service 1, which is still routable, holds no ERROR. *)
Theorem service_unstarted_request_lost :
  exists cf cf', reachable quiet_lua no_message [lost_calls] lost_accept cf /\
    inbox_items (snd cf) 0 = [Message 1 0 5 1 (Some 104) 8] /\ needs_reply (Message 1 0 5 1 (Some 104) 8) = true /\
    steps conf_step cf lost_join cf' /\ all_done (lost_accept ++ lost_join) cf' /\
    (exists sv, sy_services (snd cf') !! 0 = Some sv /\ st_state (sv_status sv) = SERVICE_FREED) /\
    routable_at (snd cf') 1 = true /\ inbox_items (snd cf') 1 = [].
Proof.
  destruct (reachable_run [lost_calls] lost_accept (fun cf =>
    match inbox_items (snd cf) 0 with [Message 1 0 5 1 (Some 104) 8] => true | _ => false end &&
    match conf_run lost_join cf with
    | Some cf' => done_test (lost_accept ++ lost_join) cf' && on_svc 0 (is_state SERVICE_FREED) cf' &&
        routable_at (snd cf') 1 && match inbox_items (snd cf') 1 with [] => true | _ => false end
    | None => false
    end)) as (cf & Hr & Ht); [done|vm_compute; reflexivity|].
  apply andb_true_iff in Ht as [H1 H2].
  destruct (conf_run_test lost_join cf _ H2) as (cf' & Hs & Ht). clear H2.
  apply andb_true_iff in Ht as [Ht H5]. apply andb_true_iff in Ht as [Ht H4]. apply andb_true_iff in Ht as [H2 H3].
  exists cf, cf'. split; [done|]. split; [by repeat case_match|]. split; [done|]. split; [done|].
  split; [by apply done_test_ok|]. split.
  - apply on_svc_ok in H3 as (sv & Hsv & Hst). exists sv. split; [done|]. by apply bool_decide_eq_true in Hst.
  - split; [done|]. by destruct (inbox_items (snd cf') 1).
Qed.
