(* ===== verification/Log.v ===== *)
(** * Log: the process-wide logger of src/log.c

    Names and levels, the construction of a record in its fixed buffer, the
    write loop, and the settings that the first call initialises from the
    environment.  Strings are lists of bytes without their terminating NUL; a
    memory access outside a buffer, or the use of a byte never stored, makes the
    result [None].

    [vsnprintf]'s result for the caller's format is an input: the formatted
    text, [None] when it fails.  So are the clock, the environment variables,
    [fstat] and what the kernel answers to each [write]. *)

From S2P Require Import Prelude.
From stdpp Require Import pretty.
#[local] Open Scope Z_scope.

(** ** Constants *)

Definition LOG_LINE_MAX : Z := 4096.
Definition LOG_TRUNCATED : list Z := bytes_of "...".

Definition LOG_DEBUG : Z := 0.
Definition LOG_INFO : Z := 1.
Definition LOG_WARN : Z := 2.
Definition LOG_ERROR : Z := 3.
Definition LOG_OFF : Z := 4.
Definition LOG_FORMAT_TEXT : Z := 0.
Definition LOG_FORMAT_JOURNAL : Z := 1.

Definition level_names : list (list Z) := bytes_of <$> ["debug"; "info"; "warn"; "error"; "off"].
Definition level_labels : list (list Z) := bytes_of <$> ["DEBUG"; "INFO "; "WARN "; "ERROR"].
Definition journal_prefixes : list (list Z) := bytes_of <$> ["<7>"; "<6>"; "<4>"; "<3>"].
Definition format_names : list (list Z) := bytes_of <$> ["text"; "journal"].

Definition INT_MAX : Z := 2 ^ 31 - 1.
Definition EINTR : Z := 4.

(** ** Names *)

(** [tolower] in the C locale, the one the runtime keeps. *)
Definition tolower (b : Z) : Z := if (65 <=? b) && (b <=? 90) then b + 32 else b.

(** [strcasecmp]: the difference of the first bytes that differ, the end of a
    string counting as 0. *)
Fixpoint strcasecmp (a b : list Z) : Z :=
  match a, b with
  | [], [] => 0
  | x :: _, [] => tolower x
  | [], y :: _ => - tolower y
  | x :: a', y :: b' =>
    if tolower x - tolower y =? 0 then strcasecmp a' b' else tolower x - tolower y
  end.

(** The loop of [parse_name] over the names from index [i]. *)
Fixpoint parse_from (name : list Z) (names : list (list Z)) (i : Z) : Z :=
  match names with
  | [] => -1
  | n :: names' => if strcasecmp name n =? 0 then i else parse_from name names' (i + 1)
  end.

Definition parse_name (name : option (list Z)) (names : list (list Z)) (count : Z) : Z :=
  match name with
  | None => -1
  | Some name => parse_from name (take (Z.to_nat count) names) 0
  end.

Definition log_parse_level (name : option (list Z)) : Z := parse_name name level_names (LOG_OFF + 1).
Definition log_parse_format (name : option (list Z)) : Z :=
  parse_name name format_names (LOG_FORMAT_JOURNAL + 1).

Definition log_level_name (level : Z) : option (list Z) :=
  if (LOG_DEBUG <=? level) && (level <=? LOG_OFF) then arr_get level_names level else None.

Definition log_format_name (format : Z) : option (list Z) :=
  if (LOG_FORMAT_TEXT <=? format) && (format <=? LOG_FORMAT_JOURNAL) then arr_get format_names format
  else None.

(** ** The buffer of a record *)

(** [append] of the bytes [s]: at most what keeps one byte for the newline. *)
Definition append (buf : buffer) (pos : Z) (s : list Z) : option (buffer * Z) :=
  let room := size_sub (LOG_LINE_MAX - 1) pos in
  let n := if room <? Z.of_nat (length s) then room else Z.of_nat (length s) in
  buf' ← memcpy buf pos (take (Z.to_nat n) s);
  Some (buf', pos + n).

(** [snprintf(buf + pos, size, ...)] of the text [s]: the bytes that fit and a
    NUL are stored; the result is the length of the text, negative when it is
    no [int]. *)
Definition snprintf (buf : buffer) (pos size : Z) (s : list Z) : option (buffer * Z) :=
  if INT_MAX <? Z.of_nat (length s) then Some (buf, -1)
  else if size =? 0 then Some (buf, Z.of_nat (length s))
  else
    buf' ← memcpy buf pos (take (Z.to_nat (size - 1)) s ++ [0]);
    Some (buf', Z.of_nat (length s)).

(** [%d] and [%03ld]. *)
Definition decimal (z : Z) : list Z := bytes_of (pretty z).
Definition decimal3 (z : Z) : list Z := replicate (3 - length (decimal z)) 48 ++ decimal z.

(** The loop over the lines of the message; each turn takes at least a byte, so
    the length of the message bounds the turns. *)
Fixpoint emit_lines (fuel : nat) (journal : bool) (prefix p : list Z) (buf : buffer) (pos : Z) (truncated : bool) :
    option (buffer * Z * bool) :=
  match p, fuel with
  | [], _ => Some (buf, pos, truncated)
  | _, O => None
  | _, S fuel' =>
    let nl := index_of 10 p in
    let chunk := match nl with Some i => S i | None => length p end in
    '(buf1, pos1) ← append buf pos (take chunk p);
    let p' := drop chunk p in
    if size_sub pos1 pos <? Z.of_nat chunk then Some (buf1, pos1, true)
    else if bool_decide (is_Some nl) && bool_decide (p' <> []) && journal then
      '(buf2, pos2) ← append buf1 pos1 prefix;
      if size_sub pos2 pos1 <? Z.of_nat (length prefix) then Some (buf2, pos2, true)
      else emit_lines fuel' journal prefix p' buf2 pos2 truncated
    else emit_lines fuel' journal prefix p' buf1 pos1 truncated
  end.

(** The start of the record: the priority for the journal, else the time, what
    [strftime] made of it and its nanoseconds, and the label. *)
Definition emit_header (level format : Z) (now : list Z * Z) (buf : buffer) : option (list Z * (buffer * Z)) :=
  if format =? LOG_FORMAT_JOURNAL then
    prefix ← arr_get journal_prefixes level;
    r ← append buf 0 prefix;
    Some (prefix, r)
  else
    label ← arr_get level_labels level;
    '(buf1, n) ← snprintf buf 0 LOG_LINE_MAX
      (fst now ++ bytes_of "." ++ decimal3 (snd now / 1000000) ++ bytes_of " " ++ label ++ bytes_of " ");
    Some ([], (buf1, wrapu 64 n)).

Definition location (file : list Z) (line : Z) : list Z := file ++ bytes_of ":" ++ decimal line ++ bytes_of ": ".

Definition emit_location (file : option (list Z)) (line : Z) (buf : buffer) (pos : Z) : option (buffer * Z) :=
  match file with
  | None => Some (buf, pos)
  | Some file =>
    let size := size_sub (LOG_LINE_MAX - 1) pos in
    '(buf1, n) ← snprintf buf pos size (location file line);
    if 0 <? n then
      Some (buf1, pos + (if n <? size then n else size_sub (LOG_LINE_MAX - 2) pos))
    else Some (buf1, pos)
  end.

(** The record [emit] builds: [Some None] when [vsnprintf] fails. *)
Definition emit_record (level format : Z) (file : option (list Z)) (line : Z) (text : option (list Z))
    (now : list Z * Z) : option (option (list Z)) :=
  match text with
  | None => Some None
  | Some text =>
    if INT_MAX <? Z.of_nat (length text) then Some None
    else
      let message := take (Z.to_nat (LOG_LINE_MAX - 1)) text in
      let truncated := LOG_LINE_MAX <=? Z.of_nat (length text) in
      '(prefix, (buf1, pos1)) ← emit_header level format now (replicate (Z.to_nat LOG_LINE_MAX) None);
      '(buf2, pos2) ← emit_location file line buf1 pos1;
      '(buf3, pos3, truncated) ←
        emit_lines (length message) (format =? LOG_FORMAT_JOURNAL) prefix message buf2 pos2 truncated;
      '(buf4, pos4) ←
        (if truncated : bool then
           let marker := Z.of_nat (length LOG_TRUNCATED) in
           append buf3 (if LOG_LINE_MAX - 1 - marker <? pos3 then LOG_LINE_MAX - 1 - marker else pos3) LOG_TRUNCATED
         else Some (buf3, pos3));
      buf5 ← memcpy buf4 pos4 [10];
      bytes ← mapM id (take (Z.to_nat (pos4 + 1)) buf5);
      Some (Some bytes)
  end.

(** ** Writing *)

(** What the kernel answers to a [write]: it takes at most so many bytes, or
    fails with an error. *)
Inductive write_answer := Took (n : nat) | Failed (e : Z).

(** The loop of [write_all]: the answers left, [errno], and the bytes each
    successful call took, after those of earlier calls.  [None] when the answers
    are used up: the call has not returned. *)
Fixpoint write_all (answers : list write_answer) (data : list Z) (errno : Z) (written : list (list Z)) :
    option (list write_answer * Z * list (list Z)) :=
  match data, answers with
  | [], _ => Some (answers, errno, written)
  | _, [] => None
  | _, Took n :: answers' => write_all answers' (drop n data) errno (written ++ [take n data])
  | _, Failed e :: answers' =>
    if e =? EINTR then write_all answers' data e written else Some (answers', e, written)
  end.

(** ** The logger *)

(** The static variables, [errno] of the calling thread, the answers the kernel
    will give, the bytes each [write] took so far and the number of times the
    clock was read. *)
Record logger := Logger {
  lg_once : bool;
  lg_level : Z;
  lg_format : Z;
  lg_errno : Z;
  lg_answers : list write_answer;
  lg_written : list (list Z);
  lg_times : nat
}.

Definition set_once (v : bool) (g : logger) : logger :=
  Logger v (lg_level g) (lg_format g) (lg_errno g) (lg_answers g) (lg_written g) (lg_times g).
Definition set_level (v : Z) (g : logger) : logger :=
  Logger (lg_once g) v (lg_format g) (lg_errno g) (lg_answers g) (lg_written g) (lg_times g).
Definition set_format (v : Z) (g : logger) : logger :=
  Logger (lg_once g) (lg_level g) v (lg_errno g) (lg_answers g) (lg_written g) (lg_times g).
Definition set_errno (v : Z) (g : logger) : logger :=
  Logger (lg_once g) (lg_level g) (lg_format g) v (lg_answers g) (lg_written g) (lg_times g).

(** The state when the process starts. *)
Definition logger_init (answers : list write_answer) : logger :=
  Logger false LOG_INFO LOG_FORMAT_TEXT 0 answers [] 0.

(** The process around the logger: the environment variables, [fstat] of stderr
    (device and inode, or the error) and the readings of the clock. *)
Record process := Process {
  pr_level : option (list Z);
  pr_format : option (list Z);
  pr_journal_stream : option (list Z);
  pr_stderr : Z * Z + Z;
  pr_clock : nat -> list Z * Z
}.

Definition emit (pr : process) (level format : Z) (file : option (list Z)) (line : Z) (text : option (list Z))
    (g : logger) : option logger :=
  record ← emit_record level format file line text (pr_clock pr (lg_times g));
  match record with
  | None => Some g
  | Some bytes =>
    '(answers, errno, written) ← write_all (lg_answers g) bytes (lg_errno g) (lg_written g);
    Some (Logger (lg_once g) (lg_level g) (lg_format g) errno answers written
            (if format =? LOG_FORMAT_JOURNAL then lg_times g else S (lg_times g)))
  end.

Definition emit_now (pr : process) (level : Z) (file : option (list Z)) (line : Z) (text : option (list Z))
    (g : logger) : option logger :=
  emit pr level (lg_format g) file line text g.

(** [sscanf] of one [%llu]: white space, a sign, digits; the value saturates and
    a minus sign negates it in 64 bits. *)
Definition is_space (b : Z) : bool := (b =? 32) || ((9 <=? b) && (b <=? 13)).
Definition is_digit (b : Z) : bool := (48 <=? b) && (b <=? 57).

Fixpoint skip_spaces (s : list Z) : list Z :=
  match s with b :: s' => if is_space b then skip_spaces s' else s | [] => [] end.

Fixpoint scan_digits (s : list Z) (acc : Z) : Z * list Z :=
  match s with
  | b :: s' => if is_digit b then scan_digits s' (acc * 10 + (b - 48)) else (acc, s)
  | [] => (acc, [])
  end.

Definition scan_llu (s : list Z) : option (Z * list Z) :=
  let s1 := skip_spaces s in
  let '(neg, s2) :=
    match s1 with 45 :: s' => (true, s') | 43 :: s' => (false, s') | _ => (false, s1) end in
  match s2 with
  | b :: _ =>
    if is_digit b then
      let '(v, rest) := scan_digits s2 0 in
      if 2 ^ 64 - 1 <? v then Some (2 ^ 64 - 1, rest)
      else Some (if neg : bool then wrapu 64 (- v) else v, rest)
    else None
  | [] => None
  end.

(** [sscanf(stream, "%llu:%llu", &dev, &ino) == 2]. *)
Definition scan_stream (s : list Z) : option (Z * Z) :=
  '(dev, rest) ← scan_llu s;
  match rest with
  | 58 :: rest' => '(ino, _) ← scan_llu rest'; Some (dev, ino)
  | _ => None
  end.

Definition stderr_is_journal (pr : process) (g : logger) : bool * logger :=
  match pr_journal_stream pr with
  | None => (false, g)
  | Some stream =>
    match scan_stream stream with
    | None => (false, g)
    | Some (dev, ino) =>
      match pr_stderr pr with
      | inr e => (false, set_errno e g)
      | inl (st_dev, st_ino) => ((st_dev =? dev) && (st_ino =? ino), g)
      end
    end
  end.

Definition ignoring_level (v : list Z) : list Z := bytes_of "ignoring invalid SERVICE_LOG_LEVEL: " ++ v.
Definition ignoring_format (v : list Z) : list Z := bytes_of "ignoring invalid SERVICE_LOG_FORMAT: " ++ v.

(** The format the environment asks for, else what stderr is. *)
Definition init_format (pr : process) (g : logger) : Z * logger :=
  let format := log_parse_format (pr_format pr) in
  if format <? 0 then
    let '(journal, g') := stderr_is_journal pr g in
    (if journal : bool then LOG_FORMAT_JOURNAL else LOG_FORMAT_TEXT, g')
  else (format, g).

Definition log_init (pr : process) (g : logger) : option logger :=
  let level := log_parse_level (pr_level pr) in
  let '(format, g1) := init_format pr g in
  let g2 := set_format format g1 in
  let g3 := if 0 <=? level then set_level level g2 else g2 in
  g4 ← match pr_level pr with
       | Some v =>
         if (level <? 0) && (lg_level g3 <=? LOG_WARN)
         then emit_now pr LOG_WARN None 0 (Some (ignoring_level v)) g3 else Some g3
       | None => Some g3
       end;
  match pr_format pr with
  | Some v =>
    if (log_parse_format (Some v) <? 0) && (lg_level g4 <=? LOG_WARN)
    then emit_now pr LOG_WARN None 0 (Some (ignoring_format v)) g4 else Some g4
  | None => Some g4
  end.

Definition ensure_init (pr : process) (g : logger) : option logger :=
  if lg_once g then Some g else g' ← log_init pr g; Some (set_once true g').

Definition log_set_level (pr : process) (level : Z) (g : logger) : option logger :=
  g' ← ensure_init pr g;
  Some (if (LOG_DEBUG <=? level) && (level <=? LOG_OFF) then set_level level g' else g').

Definition log_set_format (pr : process) (format : Z) (g : logger) : option logger :=
  g' ← ensure_init pr g;
  Some (if (LOG_FORMAT_TEXT <=? format) && (format <=? LOG_FORMAT_JOURNAL) then set_format format g' else g').

Definition log_get_level (pr : process) (g : logger) : option (Z * logger) :=
  g' ← ensure_init pr g; Some (lg_level g', g').

Definition log_get_format (pr : process) (g : logger) : option (Z * logger) :=
  g' ← ensure_init pr g; Some (lg_format g', g').

Definition log_enabled (pr : process) (level : Z) (g : logger) : option (bool * logger) :=
  if (LOG_DEBUG <=? level) && (level <? LOG_OFF) then
    '(current, g') ← log_get_level pr g; Some (current <=? level, g')
  else Some (false, g).

Definition log_write (pr : process) (level : Z) (file : option (list Z)) (line : Z) (text : option (list Z))
    (g : logger) : option logger :=
  '(enabled, g1) ← log_enabled pr level g;
  if negb enabled then Some g1
  else
    let saved_errno := lg_errno g1 in
    '(format, g2) ← log_get_format pr g1;
    g3 ← emit pr level format file line text g2;
    Some (set_errno saved_errno g3).
