(* ===== verification/LogCorrect.v ===== *)
(** * LogCorrect: what a record of the logger contains

    [render] says what a record is, with no buffer and no positions; [emit_record]
    computes it.  The buffer is followed through the bytes stored so far, of
    which each step appends as many as fit. *)

From S2P Require Import Prelude Log.

(** ** The reference definition *)

(** The message with [prefix] after each newline that is not its last byte. *)
Fixpoint continue_lines (prefix s : list Z) : list Z :=
  match s with
  | [] => []
  | b :: s' =>
    b :: (if (b =? 10) && bool_decide (s' <> []) then prefix else []) ++ continue_lines prefix s'
  end.

Definition priority (level : Z) : list Z := default [] (arr_get journal_prefixes level).

Definition time_and_label (level : Z) (now : list Z * Z) : list Z :=
  fst now ++ bytes_of "." ++ decimal3 (snd now / 1000000) ++ bytes_of " " ++
  default [] (arr_get level_labels level) ++ bytes_of " ".

Definition render_head (level format : Z) (file : option (list Z)) (line : Z) (now : list Z * Z) : list Z :=
  let start := if format =? LOG_FORMAT_JOURNAL then priority level else time_and_label level now in
  match file with
  | None => start
  | Some file => take 4094 (start ++ location file line)
  end.

Definition render_body (level format : Z) (text : list Z) : list Z :=
  if format =? LOG_FORMAT_JOURNAL then continue_lines (priority level) text else text.

(** Everything there is to say, whatever its length. *)
Definition render_full (level format : Z) (file : option (list Z)) (line : Z) (text : list Z) (now : list Z * Z) :
    list Z :=
  render_head level format file line now ++ render_body level format text.

Definition render (level format : Z) (file : option (list Z)) (line : Z) (text : list Z) (now : list Z * Z) : list Z :=
  let full := render_full level format file line text now in
  (if bool_decide (length full <= 4095)%nat then full else take 4092 full ++ LOG_TRUNCATED) ++ [10].

(** The clock as the code reads it: what [strftime] stored fits its buffer. *)
Definition clock_ok (now : list Z * Z) : Prop := (length (fst now) < 32)%nat /\ 0 <= snd now < 1000000000.

(** The location has a length [snprintf] can return. *)
Definition location_ok (file : option (list Z)) (line : Z) : Prop :=
  match file with Some f => Z.of_nat (length (location f line)) <= INT_MAX | None => True end.

(** ** The buffer *)

#[local] Abbreviation holds := (holds 4096).

Lemma append_holds buf pre s :
  holds buf pre -> (length pre <= 4095)%nat ->
  exists buf', append buf (Z.of_nat (length pre)) s = Some (buf', Z.of_nat (length (take 4095 (pre ++ s)))) /\
    holds buf' (take 4095 (pre ++ s)).
Proof.
  intros Hb Hp. unfold append. change (LOG_LINE_MAX - 1) with 4095.
  rewrite size_sub_small by (unfold SIZE_MAX; lia).
  assert (E : take 4095 (pre ++ s) = pre ++ take (4095 - length pre) s) by (rewrite take_app, take_ge by lia; done).
  rewrite E.
  destruct (memcpy_holds 4096 buf pre (take (4095 - length pre) s) Hb) as (buf' & H1 & H2); [rewrite length_take; lia|].
  exists buf'. split; [|done].
  assert (En : (if 4095 - Z.of_nat (length pre) <? Z.of_nat (length s) then 4095 - Z.of_nat (length pre)
                else Z.of_nat (length s)) = Z.of_nat (length (take (4095 - length pre) s)))
    by (rewrite length_take; ztest; lia).
  rewrite En, Nat2Z.id.
  assert (Et : take (length (take (4095 - length pre) s)) s = take (4095 - length pre) s)
    by (rewrite length_take, <- take_take; by rewrite (take_ge s (length s))).
  rewrite Et, H1. cbn. rewrite length_app. do 2 f_equal. lia.
Qed.

(** ** The lines of the message *)

Lemma index_of_no_newline s : index_of 10 s = None -> forall prefix, continue_lines prefix s = s.
Proof.
  induction s as [|b s IH]; intros H prefix; [done|]. cbn in *.
  destruct (b =? 10); [done|]. cbn. destruct (index_of 10 s); [done|]. by rewrite IH.
Qed.

Lemma index_of_newline s i :
  index_of 10 s = Some i -> (i < length s)%nat /\ forall prefix,
    continue_lines prefix s =
    take (S i) s ++ (if bool_decide (drop (S i) s <> []) then prefix ++ continue_lines prefix (drop (S i) s) else []).
Proof.
  revert i. induction s as [|b s IH]; intros i H; [done|]. cbn in H.
  destruct (b =? 10) eqn:Eb.
  - injection H as <-. split; [cbn; lia|]. intros prefix. cbn. rewrite Eb, drop_0, take_0. cbn.
    destruct s as [|z s]; [done|]. by rewrite bool_decide_eq_true_2.
  - destruct (index_of 10 s) as [j|]; [|done]. injection H as <-.
    destruct (IH j eq_refl) as [H1 H2]. split; [cbn; lia|]. intros prefix. cbn [continue_lines]. rewrite Eb.
    cbn [andb app]. by rewrite H2.
Qed.

(** The first line of the message and what follows. *)
Definition chunk_of (p : list Z) : nat := match index_of 10 p with Some i => S i | None => length p end.

Lemma chunk_pos p : p <> [] -> (0 < chunk_of p <= length p)%nat.
Proof.
  intros Hp. unfold chunk_of. destruct (index_of 10 p) eqn:E.
  - apply index_of_newline in E as [E _]. lia.
  - destruct p; [done|]. cbn. lia.
Qed.

Lemma continue_chunk prefix p :
  continue_lines prefix p =
  take (chunk_of p) p ++
  (if bool_decide (is_Some (index_of 10 p)) && bool_decide (drop (chunk_of p) p <> []) then prefix else []) ++
  continue_lines prefix (drop (chunk_of p) p).
Proof.
  unfold chunk_of. destruct (index_of 10 p) as [i|] eqn:E.
  - rewrite bool_decide_eq_true_2 by by eexists. apply index_of_newline in E as [_ E]. rewrite E at 1. cbn [andb].
    destruct (drop (S i) p) as [|z s] eqn:Ed; [by rewrite !app_nil_r|]. by rewrite bool_decide_eq_true_2.
  - rewrite bool_decide_eq_false_2 by by intros [? ?]. cbn [andb app]. rewrite drop_ge, take_ge by lia. cbn.
    rewrite app_nil_r. by apply index_of_no_newline.
Qed.

Definition body_of (journal : bool) (prefix p : list Z) : list Z := if journal then continue_lines prefix p else p.

Lemma body_chunk journal prefix p :
  body_of journal prefix p =
  take (chunk_of p) p ++
  (if bool_decide (is_Some (index_of 10 p)) && bool_decide (drop (chunk_of p) p <> []) && journal then prefix else []) ++
  body_of journal prefix (drop (chunk_of p) p).
Proof.
  unfold body_of. destruct journal.
  - rewrite andb_true_r. apply continue_chunk.
  - rewrite andb_false_r. cbn [app]. by rewrite take_drop.
Qed.

Lemma take_app_grow {A} n (a b : list A) : (n < length a)%nat -> take n (a ++ b) = take n a.
Proof. intros H. apply take_app_le. lia. Qed.

(** The loop appends the body, as much of it as fits, and says whether it did. *)
Lemma emit_lines_holds journal prefix fuel p buf pre truncated :
  (length p <= fuel)%nat -> holds buf pre -> (length pre <= 4095)%nat ->
  let full := pre ++ body_of journal prefix p in
  exists buf', emit_lines fuel journal prefix p buf (Z.of_nat (length pre)) truncated =
    Some (buf', Z.of_nat (length (take 4095 full)), truncated || negb (bool_decide (length full <= 4095)%nat)) /\
    holds buf' (take 4095 full).
Proof.
  revert p buf pre. induction fuel as [|fuel IH]; intros p buf pre Hf Hb Hp; cbv zeta.
  all: destruct p as [|b0 p0] eqn:Ep; [|rewrite <- Ep in *].
  1, 3: assert (Eb : body_of journal prefix [] = []) by (by destruct journal);
    rewrite Eb, app_nil_r, take_ge, bool_decide_eq_true_2, orb_false_r by lia; by exists buf.
  { subst p. cbn in Hf. lia. }
  assert (Hne : p <> []) by by subst p. destruct (chunk_pos p Hne) as [Hc1 Hc2].
  assert (Est : emit_lines (S fuel) journal prefix p buf (Z.of_nat (length pre)) truncated =
    ('(buf1, pos1) ← append buf (Z.of_nat (length pre)) (take (chunk_of p) p);
     if size_sub pos1 (Z.of_nat (length pre)) <? Z.of_nat (chunk_of p) then Some (buf1, pos1, true)
     else if bool_decide (is_Some (index_of 10 p)) && bool_decide (drop (chunk_of p) p <> []) && journal then
       '(buf2, pos2) ← append buf1 pos1 prefix;
       if size_sub pos2 pos1 <? Z.of_nat (length prefix) then Some (buf2, pos2, true)
       else emit_lines fuel journal prefix (drop (chunk_of p) p) buf2 pos2 truncated
     else emit_lines fuel journal prefix (drop (chunk_of p) p) buf1 pos1 truncated)).
  { subst p. reflexivity. }
  rewrite Est, (body_chunk journal prefix p). clear Est.
  set (line := take (chunk_of p) p). set (p' := drop (chunk_of p) p).
  assert (Hline : length line = chunk_of p) by (unfold line; rewrite length_take; lia).
  assert (Hp' : (length p' <= fuel)%nat) by (unfold p'; rewrite length_drop; lia).
  set (cond := bool_decide (is_Some (index_of 10 p)) && bool_decide (p' <> []) && journal).
  destruct (append_holds buf pre line Hb Hp) as (buf1 & -> & Hb1). cbn [mbind option_bind].
  rewrite size_sub_small by (unfold SIZE_MAX; rewrite length_take, length_app; lia).
  destruct (Z.ltb_spec (Z.of_nat (length (take 4095 (pre ++ line))) - Z.of_nat (length pre)) (Z.of_nat (chunk_of p))) as [Hlt|Hge].
  { assert (Hov : (4095 < length (pre ++ line))%nat) by (rewrite length_take, length_app in Hlt; rewrite length_app; lia).
    exists buf1. rewrite (app_assoc pre line), (take_app_grow 4095 (pre ++ line)) by done.
    rewrite bool_decide_eq_false_2 by (rewrite length_app; lia). by rewrite orb_true_r. }
  rewrite length_take, length_app in Hge.
  rewrite (take_ge (pre ++ line)) in * by (rewrite length_app; lia).
  destruct cond.
  2: { cbn [app]. rewrite (app_assoc pre line). apply IH; [done|done|rewrite length_app; lia]. }
  destruct (append_holds buf1 (pre ++ line) prefix Hb1) as (buf2 & -> & Hb2); [rewrite length_app; lia|].
  cbn [mbind option_bind].
  rewrite size_sub_small by (unfold SIZE_MAX; rewrite length_take, !length_app; lia).
  rewrite !app_assoc, <- (app_assoc pre line prefix).
  match goal with |- context [?a <? ?b] => destruct (Z.ltb_spec a b) as [Hlt|Hge2] end.
  - assert (Hov : (4095 < length (pre ++ line ++ prefix))%nat) by (rewrite length_take, !length_app in *; lia).
    exists buf2. rewrite (app_assoc pre line prefix) in *. rewrite (take_app_grow 4095 ((pre ++ line) ++ prefix)) by done.
    rewrite bool_decide_eq_false_2 by (rewrite length_app; lia). by rewrite orb_true_r.
  - rewrite length_take, !length_app in Hge2. rewrite (app_assoc pre line prefix).
    rewrite (take_ge ((pre ++ line) ++ prefix)) in * by (rewrite !length_app; lia).
    apply IH; [done|done|rewrite !length_app; lia].
Qed.

(** ** The header and the location *)

Lemma decimal3_length n : 0 <= n < 1000 -> (length (decimal3 n) <= 3)%nat.
Proof.
  intros H. assert (E : forallb (fun k => length (decimal3 (Z.of_nat k)) <=? 3)%nat (seq 0 1000) = true)
    by (vm_compute; reflexivity).
  rewrite forallb_forall in E. specialize (E (Z.to_nat n)). rewrite Z2Nat.id in E by lia.
  apply Nat.leb_le, E, in_seq. lia.
Qed.

Definition level_ok (level : Z) : Prop := 0 <= level < 4.
Definition format_ok (format : Z) : Prop := 0 <= format <= 1.

(** The four levels that have labels and priorities. *)
Lemma level_cases (P : Z -> Prop) level : level_ok level -> P 0 -> P 1 -> P 2 -> P 3 -> P level.
Proof.
  intros H ? ? ? ?. unfold level_ok in H.
  assert (E : level = 0 \/ level = 1 \/ level = 2 \/ level = 3) by lia. by destruct E as [->|[->|[->| ->]]].
Qed.

Lemma label_some level :
  level_ok level -> exists l, arr_get level_labels level = Some l /\ (length l = 5)%nat.
Proof. intros H. by apply (level_cases (fun z => exists l, arr_get level_labels z = Some l /\ (length l = 5)%nat)); [|eexists..]. Qed.

Lemma priority_some level :
  level_ok level -> arr_get journal_prefixes level = Some (priority level) /\ (length (priority level) = 3)%nat.
Proof. intros H. by apply (level_cases (fun z => arr_get journal_prefixes z = Some (priority z) /\ (length (priority z) = 3)%nat)). Qed.

Lemma time_and_label_length level now :
  level_ok level -> clock_ok now -> (3 < length (time_and_label level now) < 64)%nat.
Proof.
  intros Hl [Hc1 Hc2]. unfold time_and_label. destruct (label_some level Hl) as (l & -> & Hlen).
  pose proof (decimal3_length (snd now / 1000000)) as Hd.
  rewrite !length_app. cbn [default from_option bytes_of length].
  assert (0 <= snd now / 1000000 < 1000) by (split; [apply Z.div_pos; lia|apply Z.div_lt_upper_bound; lia]).
  specialize (Hd H). cbn. lia.
Qed.

(** The text of a record before its location. *)
Definition start_of (level format : Z) (now : list Z * Z) : list Z :=
  if format =? LOG_FORMAT_JOURNAL then priority level else time_and_label level now.

Lemma start_of_length level format now :
  level_ok level -> clock_ok now -> (3 <= length (start_of level format now) < 64)%nat.
Proof.
  intros Hl Hc. unfold start_of. destruct (_ =? _).
  - destruct (priority_some level Hl) as [_ ->]. lia.
  - pose proof (time_and_label_length level now Hl Hc). lia.
Qed.

Lemma snprintf_holds buf pre size s :
  holds buf pre -> 0 < size -> Z.of_nat (length pre) + size <= 4096 -> Z.of_nat (length s) <= INT_MAX ->
  exists buf', snprintf buf (Z.of_nat (length pre)) size s = Some (buf', Z.of_nat (length s)) /\
    holds buf' (pre ++ take (Z.to_nat (size - 1)) s).
Proof.
  intros Hb Hsz Hp Hs. unfold snprintf. rewrite (proj2 (Z.ltb_ge _ _)) by lia.
  rewrite (proj2 (Z.eqb_neq _ _)) by lia.
  destruct (memcpy_holds 4096 buf pre (take (Z.to_nat (size - 1)) s ++ [0]) Hb) as (buf' & -> & Hb').
  { rewrite length_app, length_take. cbn. lia. }
  exists buf'. split; [done|]. rewrite app_assoc in Hb'.
  apply (holds_take 4096 (length (pre ++ take (Z.to_nat (size - 1)) s))) in Hb'. by rewrite take_app_length in Hb'.
Qed.

Lemma emit_header_holds level format now buf :
  level_ok level -> clock_ok now -> holds buf [] ->
  exists prefix buf', emit_header level format now buf =
      Some (prefix, (buf', Z.of_nat (length (start_of level format now)))) /\
    holds buf' (start_of level format now) /\
    forall p, body_of (format =? LOG_FORMAT_JOURNAL) prefix p = render_body level format p.
Proof.
  intros Hl Hc Hb. unfold emit_header, start_of, render_body, body_of.
  destruct (format =? LOG_FORMAT_JOURNAL) eqn:Ef.
  - destruct (priority_some level Hl) as [E Elen]. rewrite E. cbn [mbind option_bind].
    destruct (append_holds buf [] (priority level) Hb) as (buf' & Ha & Hb'); [cbn; lia|]. cbn [length app] in *.
    change (Z.of_nat 0) with 0 in Ha. rewrite Ha. cbn [mbind option_bind].
    rewrite take_ge in * by lia. by exists (priority level), buf'.
  - destruct (label_some level Hl) as (l & E & Elen). rewrite E. cbn [mbind option_bind].
    pose proof (time_and_label_length level now Hl Hc) as Hlen.
    destruct (snprintf_holds buf [] LOG_LINE_MAX (time_and_label level now) Hb) as (buf' & Ha & Hb');
      try (cbn; unfold LOG_LINE_MAX, INT_MAX in *; lia).
    unfold time_and_label in Ha. rewrite E in Ha. cbn [default from_option length] in Ha. change (id l) with l in Ha.
    change (Z.of_nat 0) with 0 in Ha.
    rewrite Ha. cbn [mbind option_bind].
    exists [], buf'. unfold time_and_label in *. rewrite E in *. cbn [default from_option app] in *.
    rewrite wrapu_small by (cbn in *; lia). rewrite take_ge in Hb' by (unfold LOG_LINE_MAX; lia). done.
Qed.

Lemma emit_location_holds level format now file line buf :
  level_ok level -> clock_ok now -> location_ok file line -> holds buf (start_of level format now) ->
  exists buf', emit_location file line buf (Z.of_nat (length (start_of level format now))) =
    Some (buf', Z.of_nat (length (render_head level format file line now))) /\
    holds buf' (render_head level format file line now) /\
    (3 <= length (render_head level format file line now) <= 4094)%nat.
Proof.
  intros Hl Hc Hloc Hb. pose proof (start_of_length level format now Hl Hc) as Hlen.
  unfold emit_location, render_head. fold (start_of level format now). set (start := start_of level format now) in *.
  destruct file as [file|]; [|exists buf; split; [done|]; split; [done|lia]].
  unfold location_ok in Hloc. change (LOG_LINE_MAX - 1) with 4095. change (LOG_LINE_MAX - 2) with 4094.
  rewrite !size_sub_small by (unfold SIZE_MAX; lia).
  destruct (snprintf_holds buf start (4095 - Z.of_nat (length start)) (location file line) Hb) as (buf' & -> & Hb'); [lia..|].
  cbn [mbind option_bind].
  assert (Hpos : (0 < length (location file line))%nat).
  { unfold location. rewrite length_app. cbn [bytes_of app length]. lia. }
  rewrite (proj2 (Z.ltb_lt _ _)) by lia.
  assert (Et : take 4094 (start ++ location file line) =
    start ++ take (Z.to_nat (4095 - Z.of_nat (length start) - 1)) (location file line)).
  { rewrite take_app, take_ge by lia. do 2 f_equal. lia. }
  exists buf'. rewrite Et. split; [|split; [done|]].
  - do 2 f_equal. rewrite length_app, length_take. ztest; lia.
  - rewrite length_app, length_take. lia.
Qed.

(** ** The whole record *)

(** The body of the first bytes of a message begins the body of the message. *)
Lemma continue_lines_take prefix n s :
  continue_lines prefix (take n s) `prefix_of` continue_lines prefix s.
Proof.
  revert n. induction s as [|b s IH]; intros n; [by rewrite take_nil|].
  destruct n as [|n]; [apply prefix_nil|]. rewrite firstn_cons. cbn [continue_lines].
  apply prefix_cons. destruct (b =? 10); cbn [andb app]; [|apply IH].
  destruct s as [|b' s']; [by rewrite take_nil|].
  destruct n as [|n]; [cbn; apply prefix_nil|]. rewrite !bool_decide_eq_true_2 by done.
  apply prefix_app, IH.
Qed.

Lemma continue_lines_length prefix s : (length s <= length (continue_lines prefix s))%nat.
Proof. induction s as [|b s IH]; [done|]. cbn. rewrite length_app. lia. Qed.

Lemma render_body_take level format n s : render_body level format (take n s) `prefix_of` render_body level format s.
Proof.
  unfold render_body. destruct (_ =? _); [apply continue_lines_take|].
  exists (drop n s). by rewrite take_drop.
Qed.

Lemma render_body_length level format s : (length s <= length (render_body level format s))%nat.
Proof. unfold render_body. destruct (_ =? _); [apply continue_lines_length|done]. Qed.

Lemma mapM_id_some (l : list Z) : mapM id (Some <$> l) = Some l.
Proof. induction l as [|b l IH]; [done|]. cbn in *. by rewrite IH. Qed.

(** The newline at the end of what a buffer holds, and the bytes written. *)
Lemma newline_holds n (x : option (buffer * Z)) buf pre :
  x = Some (buf, Z.of_nat (length pre)) -> Prelude.holds n buf pre -> (length pre < n)%nat ->
  ('(buf4, pos4) ← x;
   buf' ← memcpy buf4 pos4 [10];
   bytes ← mapM id (take (Z.to_nat (pos4 + 1)) buf'); Some (Some bytes)) = Some (Some (pre ++ [10])).
Proof.
  intros -> Hb Hlen. cbn [mbind option_bind].
  destruct (memcpy_holds n buf pre [10] Hb) as (buf' & -> & [_ H]); [cbn; lia|].
  cbn [mbind option_bind]. replace (Z.to_nat _) with (length (pre ++ [10])) by (rewrite length_app; cbn; lia).
  by rewrite H, mapM_id_some.
Qed.

(** The marker over the end of a truncated record. *)
Lemma marker_holds buf pre :
  holds buf (take 4095 pre) ->
  exists buf', append buf (if LOG_LINE_MAX - 1 - Z.of_nat (length LOG_TRUNCATED) <? Z.of_nat (length (take 4095 pre))
                    then LOG_LINE_MAX - 1 - Z.of_nat (length LOG_TRUNCATED) else Z.of_nat (length (take 4095 pre)))
          LOG_TRUNCATED = Some (buf', Z.of_nat (length (take 4092 pre ++ LOG_TRUNCATED))) /\
    holds buf' (take 4092 pre ++ LOG_TRUNCATED).
Proof.
  intros Hb. change (LOG_LINE_MAX - 1 - Z.of_nat (length LOG_TRUNCATED)) with 4092.
  assert (E : (if 4092 <? Z.of_nat (length (take 4095 pre)) then 4092 else Z.of_nat (length (take 4095 pre))) =
    Z.of_nat (length (take 4092 pre))) by (rewrite !length_take; ztest; lia).
  rewrite E. apply (holds_take 4096 4092) in Hb. rewrite take_take, Nat.min_l in Hb by lia.
  destruct (append_holds buf _ LOG_TRUNCATED Hb) as (buf4 & H1 & H2); [rewrite length_take; lia|].
  assert (Hl : (length (take 4092 pre ++ LOG_TRUNCATED) <= 4095)%nat).
  { rewrite length_app, length_take. change (length LOG_TRUNCATED) with 3%nat. lia. }
  rewrite (take_ge (take 4092 pre ++ LOG_TRUNCATED)) in H1, H2 by exact Hl. by exists buf4.
Qed.

(** The end of [emit_record]. *)
Lemma finish_holds buf pre (truncated : bool) :
  holds buf (take 4095 pre) ->
  ('(buf4, pos4) ←
     (if truncated then
        append buf (if LOG_LINE_MAX - 1 - Z.of_nat (length LOG_TRUNCATED) <? Z.of_nat (length (take 4095 pre))
                    then LOG_LINE_MAX - 1 - Z.of_nat (length LOG_TRUNCATED) else Z.of_nat (length (take 4095 pre)))
          LOG_TRUNCATED
      else Some (buf, Z.of_nat (length (take 4095 pre))));
   buf5 ← memcpy buf4 pos4 [10];
   bytes ← mapM id (take (Z.to_nat (pos4 + 1)) buf5);
   Some (Some bytes)) =
  Some (Some ((if truncated then take 4092 pre ++ LOG_TRUNCATED else take 4095 pre) ++ [10])).
Proof.
  intros Hb. destruct truncated.
  - destruct (marker_holds buf pre Hb) as (buf' & E & Hb'). apply (newline_holds 4096 _ buf'); [exact E|done|].
    rewrite length_app, length_take. change (length LOG_TRUNCATED) with 3%nat. lia.
  - apply (newline_holds 4096 _ buf); [done|done|]. rewrite length_take. lia.
Qed.

Lemma emit_record_render level format file line text now :
  level_ok level -> clock_ok now -> location_ok file line -> Z.of_nat (length text) <= INT_MAX ->
  emit_record level format file line (Some text) now = Some (Some (render level format file line text now)).
Proof.
  intros Hl Hc Hloc Ht. unfold emit_record. rewrite (proj2 (Z.ltb_ge _ _)) by done. cbv zeta.
  change (Z.to_nat LOG_LINE_MAX) with 4096%nat.
  destruct (emit_header_holds level format now _ Hl Hc (holds_nil 4096)) as (prefix & buf1 & -> & Hb1 & Hbody).
  cbn [mbind option_bind].
  destruct (emit_location_holds level format now file line buf1 Hl Hc Hloc Hb1) as (buf2 & -> & Hb2 & Hlen).
  cbn [mbind option_bind]. set (head := render_head level format file line now) in *.
  change (Z.to_nat (LOG_LINE_MAX - 1)) with 4095%nat. set (message := take 4095 text).
  destruct (emit_lines_holds (format =? LOG_FORMAT_JOURNAL) prefix (length message) message buf2 head
    (LOG_LINE_MAX <=? Z.of_nat (length text)) (le_n _) Hb2) as (buf3 & -> & Hb3); [lia|].
  cbn [mbind option_bind]. rewrite Hbody in *.
  set (full := head ++ render_body level format message) in *.
  assert (Hbl := render_body_length level format message).
  pose proof (finish_holds buf3 full ((LOG_LINE_MAX <=? Z.of_nat (length text)) || negb (bool_decide (length full <= 4095)%nat)) Hb3) as Hfin.
  etransitivity; [exact Hfin|]. clear Hfin. unfold render, render_full. fold head. do 3 f_equal.
  destruct (Z.leb_spec LOG_LINE_MAX (Z.of_nat (length text))) as [Hlong|Hshort]; cbn [orb].
  - assert (Hm : length message = 4095%nat) by (unfold message, LOG_LINE_MAX in *; rewrite length_take; lia).
    destruct (render_body_take level format 4095 text) as [rest E]. fold message in E. rewrite E, app_assoc.
    rewrite bool_decide_eq_false_2 by (rewrite !length_app; lia).
    by rewrite (take_app_grow 4092 (head ++ _)) by (rewrite length_app; lia).
  - assert (Hm : message = text) by (apply take_ge; unfold LOG_LINE_MAX in *; lia).
    unfold full. rewrite Hm. case_bool_decide; cbn [negb]; [|done]. by rewrite take_ge by lia.
Qed.

Lemma record_length level format file line text now :
  (length (render level format file line text now) <= 4096)%nat.
Proof. unfold render. rewrite length_app. change (length [10]) with 1%nat. case_bool_decide; [lia|].
  rewrite length_app, length_take. change (length LOG_TRUNCATED) with 3%nat. lia. Qed.

(** ** The lines of a journal record *)

(** The lines of a record, each with its newline. *)
Fixpoint split_lines (s : list Z) : list (list Z) :=
  match s with
  | [] => []
  | b :: s' =>
    if b =? 10 then [b] :: split_lines s'
    else match split_lines s' with [] => [[b]] | l :: ls => (b :: l) :: ls end
  end.

Lemma split_lines_app a rest :
  10 ∉ a -> split_lines (a ++ 10 :: rest) = (a ++ [10]) :: split_lines rest.
Proof.
  induction a as [|b a IH]; intros Ha; [done|]. apply not_elem_of_cons in Ha as [Hb Ha].
  cbn. rewrite (proj2 (Z.eqb_neq b 10)) by done. by rewrite IH.
Qed.

Definition line_ok (prefix line : list Z) : Prop := prefix `prefix_of` line \/ line = [10].

Lemma continue_lines_ok prefix s a :
  10 ∉ prefix -> 10 ∉ a -> prefix `prefix_of` a ->
  Forall (line_ok prefix) (split_lines (a ++ continue_lines prefix s ++ [10])).
Proof.
  intros Hp. revert a. induction s as [|b s IH]; intros a Ha Hpa; cbn [continue_lines app].
  - rewrite split_lines_app by done. constructor; [|constructor]. left. by apply prefix_app_r.
  - destruct (Z.eqb_spec b 10) as [->|Hb]; cbn [andb].
    + rewrite split_lines_app by done. constructor; [left; by apply prefix_app_r|].
      destruct s as [|b' s']; [cbn; constructor; [by right|constructor]|].
      rewrite bool_decide_eq_true_2 by done. rewrite <- app_assoc. by apply IH.
    + cbn [app]. replace (a ++ b :: _) with ((a ++ [b]) ++ continue_lines prefix s ++ [10]) by (rewrite <- app_assoc; done).
      apply IH; [|by apply prefix_app_r]. rewrite elem_of_app, list_elem_of_singleton. intros [?|?]; [done|by subst].
Qed.

Lemma priority_plain level : level_ok level -> 10 ∉ priority level.
Proof.
  intros H. apply (level_cases (fun z => 10 ∉ priority z)); [done|..];
    apply (bool_decide_unpack _); vm_compute; exact I.
Qed.

(** ** Names *)

Lemma strcasecmp_spec a b : 0 ∉ a -> 0 ∉ b -> (strcasecmp a b =? 0) = bool_decide (tolower <$> a = tolower <$> b).
Proof.
  revert b. induction a as [|x a IH]; intros [|y b] Ha Hb; cbn [strcasecmp fmap list_fmap].
  - by rewrite bool_decide_eq_true_2.
  - apply not_elem_of_cons in Hb as [Hy _]. rewrite bool_decide_eq_false_2 by done.
    apply Z.eqb_neq. unfold tolower. destruct (Z.leb_spec 65 y), (Z.leb_spec y 90); cbn [andb]; lia.
  - apply not_elem_of_cons in Ha as [Hx _]. rewrite bool_decide_eq_false_2 by done.
    apply Z.eqb_neq. unfold tolower. destruct (Z.leb_spec 65 x), (Z.leb_spec x 90); cbn [andb]; lia.
  - apply not_elem_of_cons in Ha as [_ Ha], Hb as [_ Hb].
    destruct (Z.eqb_spec (tolower x - tolower y) 0) as [E|E].
    + rewrite IH by done. apply bool_decide_ext. replace (tolower x) with (tolower y) by lia. split; [by intros ->|].
      by intros [= ->].
    + rewrite bool_decide_eq_false_2 by (intros [= ?]; lia). by apply Z.eqb_neq.
Qed.

Lemma parse_from_spec name names i :
  0 ∉ name -> Forall (fun n => (0 ∉ n) /\ (tolower <$> n) = n) names -> 0 <= i ->
  (parse_from name names i = -1 /\ (tolower <$> name) ∉ names) \/
  (i <= parse_from name names i /\ names !! Z.to_nat (parse_from name names i - i) = Some (tolower <$> name)).
Proof.
  intros Hn Hs. revert i. induction Hs as [|n names [H0 Hl] Hs IH]; intros i Hi; cbn [parse_from].
  - left. split; [done|]. apply not_elem_of_nil.
  - rewrite strcasecmp_spec by done. case_bool_decide as E.
    + right. split; [lia|]. rewrite Z.sub_diag. cbn. by rewrite E, Hl.
    + destruct (IH (i + 1)) as [[H1 H2]|[H1 H2]]; [lia|left|right].
      * split; [done|]. rewrite not_elem_of_cons. split; [by rewrite <- Hl|done].
      * split; [lia|]. replace (Z.to_nat (parse_from name names (i + 1) - i))
          with (S (Z.to_nat (parse_from name names (i + 1) - (i + 1)))) by lia. done.
Qed.

Lemma level_names_plain : Forall (fun n => (0 ∉ n) /\ (tolower <$> n) = n) level_names.
Proof. apply (bool_decide_unpack _). vm_compute. exact I. Qed.

Lemma format_names_plain : Forall (fun n => (0 ∉ n) /\ (tolower <$> n) = n) format_names.
Proof. apply (bool_decide_unpack _). vm_compute. exact I. Qed.

Lemma parse_name_spec name names count :
  0 ∉ name -> Forall (fun n => (0 ∉ n) /\ (tolower <$> n) = n) names -> Z.to_nat count = length names ->
  let i := parse_name (Some name) names count in
  (i = -1 /\ (tolower <$> name) ∉ names) \/ (0 <= i /\ arr_get names i = Some (tolower <$> name)).
Proof.
  intros Hn Hs Hc. unfold parse_name. rewrite take_ge by lia.
  destruct (parse_from_spec name names 0 Hn Hs) as [?|[H1 H2]]; [lia|by left|right].
  split; [done|]. unfold arr_get. rewrite (proj2 (Z.leb_le _ _)) by done. by rewrite Z.sub_0_r in H2.
Qed.

(** ** Writing *)

Definition fatal (a : write_answer) : Prop := match a with Took _ => False | Failed e => e <> EINTR end.

(** The bytes the kernel is ready to take with these answers. *)
Fixpoint taken (answers : list write_answer) : nat :=
  match answers with
  | [] => 0
  | Took n :: answers' => n + taken answers'
  | Failed _ :: answers' => taken answers'
  end.

Lemma write_all_nil answers errno written : write_all answers [] errno written = Some (answers, errno, written).
Proof. by destruct answers. Qed.

(** Interrupted and partial writes are retried until the bytes are written or a
    write fails. *)
Lemma write_all_steps answers rest data errno written :
  Forall (fun a => ~ fatal a) answers ->
  exists chunks errno',
    concat chunks = take (taken answers) data /\
    if bool_decide (length data <= taken answers)%nat then
      exists answers', write_all (answers ++ rest) data errno written = Some (answers', errno', written ++ chunks)
    else write_all (answers ++ rest) data errno written =
      write_all rest (drop (taken answers) data) errno' (written ++ chunks).
Proof.
  intros Ha. revert data errno written. induction Ha as [|a answers Hf Ha IH]; intros data errno written.
  - exists [], errno. split; [done|]. cbn [taken app]. rewrite app_nil_r. case_bool_decide as Hd; [|by rewrite drop_0].
    destruct data; [|cbn in Hd; lia]. rewrite write_all_nil. by eexists.
  - destruct data as [|b data0] eqn:Ed.
    { exists [], errno. split; [by rewrite take_nil|]. rewrite bool_decide_eq_true_2 by (cbn; lia).
      rewrite write_all_nil, app_nil_r. by eexists. }
    rewrite <- Ed in *. destruct a as [n|e]; cbn [taken app].
    + destruct (IH (drop n data) errno (written ++ [take n data])) as (chunks & errno' & H1 & H2).
      exists (take n data :: chunks), errno'. split.
      { cbn. rewrite H1. rewrite <- (take_drop n (take (n + _) data)), take_take, Nat.min_l by lia.
        by rewrite <- take_drop_commute. }
      replace (write_all (Took n :: answers ++ rest) data errno written) with
        (write_all (answers ++ rest) (drop n data) errno (written ++ [take n data])) by (by subst data).
      rewrite length_drop in H2. rewrite <- app_assoc in H2. cbn [app] in H2. rewrite drop_drop in H2.
      case_bool_decide; case_bool_decide; try done; lia.
    + assert (e = EINTR) as -> by (destruct (decide (e = EINTR)); [done|by destruct Hf]).
      destruct (IH data EINTR written) as (chunks & errno' & H1 & H2). exists chunks, errno'. split; [done|].
      by replace (write_all (Failed EINTR :: answers ++ rest) data errno written) with
        (write_all (answers ++ rest) data EINTR written) by (by subst data).
Qed.

(** A kernel that takes the whole record answers a record with one write. *)
Definition whole (a : write_answer) : Prop := match a with Took n => (4096 <= n)%nat | Failed _ => False end.

Lemma write_all_whole a rest data errno written :
  whole a -> data <> [] -> (length data <= 4096)%nat ->
  write_all (a :: rest) data errno written = Some (rest, errno, written ++ [data]).
Proof.
  intros Ha Hd Hlen. destruct data as [|b data]; [done|]. destruct a as [n|e]; [|done]. cbn in Ha.
  cbn [write_all]. by rewrite drop_ge, take_ge, write_all_nil by lia.
Qed.

(** ** The settings *)

(** What the logger has at all times. *)
Record logger_ok (g : logger) : Prop := LoggerOk {
  lk_level : 0 <= lg_level g <= 4;
  lk_format : format_ok (lg_format g);
  lk_answers : Forall whole (lg_answers g)
}.

(** One line, of at most 4096 bytes, ended by a newline. *)
Definition record_ok (r : list Z) : Prop := (length r <= 4096)%nat /\ exists r', r = r' ++ [10].

Lemma render_ok level format file line text now : record_ok (render level format file line text now).
Proof. split; [apply record_length|]. by eexists. Qed.

Lemma render_nonempty level format file line text now : render level format file line text now <> [].
Proof. unfold render. intros H. apply app_eq_nil in H as [_ H]. done. Qed.

Record process_ok (pr : process) : Prop := ProcessOk { pk_clock : forall n, clock_ok (pr_clock pr n) }.

(** The records a state may still have to write for its initialisation. *)
Definition init_cost (g : logger) : nat := if lg_once g then 0 else 2.

(** [g'] comes from [g] by writing at most [n] records, those of the
    initialisation not counted. *)
Record logs (n : nat) (g g' : logger) : Prop := Logs {
  lo_ok : logger_ok g';
  lo_records : exists rs, lg_written g' = lg_written g ++ rs /\ Forall record_ok rs /\
    (length rs + init_cost g' <= init_cost g + n)%nat;
  lo_answers : (length (lg_answers g) + init_cost g' <= length (lg_answers g') + init_cost g + n)%nat
}.

Lemma logs_trans n m g g' g'' : logs n g g' -> logs m g' g'' -> logs (n + m) g g''.
Proof.
  intros [H1 (rs & H2 & H3 & H4) H5] [K1 (rs' & K2 & K3 & K4) K5]. split; [done| |lia].
  exists (rs ++ rs'). rewrite K2, H2, app_assoc, length_app. split_and!; [done|by apply Forall_app|lia].
Qed.

(** A change of the settings that keeps them valid writes nothing. *)
Lemma logs_same n g g' :
  logger_ok g' -> lg_written g' = lg_written g -> lg_answers g' = lg_answers g -> lg_once g' = lg_once g -> logs n g g'.
Proof.
  intros H1 H2 H3 H4. split; [done| |rewrite H3; unfold init_cost; rewrite H4; lia].
  exists []. rewrite H2, app_nil_r. split_and!; [done|done|unfold init_cost; rewrite H4; cbn; lia].
Qed.

Lemma logs_left n g g' k :
  logs n g g' -> lg_once g' = lg_once g -> (n + k <= length (lg_answers g))%nat -> (k <= length (lg_answers g'))%nat.
Proof. intros [_ _ H] E. unfold init_cost in H. rewrite E in H. lia. Qed.

(** A record written whole. *)
Lemma emit_whole1 pr level format file line text g n answers :
  process_ok pr -> level_ok level -> location_ok file line -> Z.of_nat (length text) <= INT_MAX ->
  lg_answers g = Took n :: answers -> (4096 <= n)%nat ->
  emit pr level format file line (Some text) g =
  Some (Logger (lg_once g) (lg_level g) (lg_format g) (lg_errno g) answers
          (lg_written g ++ [render level format file line text (pr_clock pr (lg_times g))])
          (if format =? LOG_FORMAT_JOURNAL then lg_times g else S (lg_times g))).
Proof.
  intros [Hc] Hl Hloc Ht Ha Hn. unfold emit. rewrite emit_record_render by done. cbn [mbind option_bind]. rewrite Ha.
  by rewrite write_all_whole by (done || apply render_nonempty || apply record_length).
Qed.

Lemma emit_logs pr level format file line text g :
  process_ok pr -> level_ok level -> location_ok file line -> logger_ok g -> lg_answers g <> [] ->
  exists g', emit pr level format file line text g = Some g' /\ logs 1 g g' /\
    lg_once g' = lg_once g /\ lg_level g' = lg_level g /\ lg_format g' = lg_format g.
Proof.
  intros Hpr Hl Hloc Hg Hne.
  assert (Hnone : logs 1 g g) by by apply logs_same. pose proof Hg as [Hg1 Hg2 Hg3].
  destruct text as [text|]; [|by exists g].
  destruct (Z.leb_spec (Z.of_nat (length text)) INT_MAX) as [Ht|Ht].
  - destruct (lg_answers g) as [|a answers] eqn:Ea; [done|]. inversion Hg3 as [|? ? Ha Hrest]; subst.
    destruct a as [n|]; [|done]. rewrite (emit_whole1 _ _ _ _ _ _ _ n answers) by done.
    eexists. split; [done|]. split; [|done]. split; cbn [lg_written lg_answers].
    + by split.
    + eexists. split; [done|]. split; [constructor; [apply render_ok|done]|]. unfold init_cost. cbn. lia.
    + rewrite Ea. unfold init_cost. cbn. lia.
  - exists g. split; [|done]. unfold emit, emit_record. by rewrite (proj2 (Z.ltb_lt _ _)) by done.
Qed.

(** The settings the environment asks for are valid. *)
Lemma log_parse_level_range v : -1 <= log_parse_level v <= 4.
Proof.
  destruct v as [v|]; [|cbn; lia]. unfold log_parse_level, parse_name.
  change (take _ level_names) with level_names. unfold level_names. cbn [fmap list_fmap parse_from].
  repeat (destruct (_ =? _); [lia|]). lia.
Qed.

Lemma log_parse_format_range v : -1 <= log_parse_format v <= 1.
Proof.
  destruct v as [v|]; [|cbn; lia]. unfold log_parse_format, parse_name.
  change (take _ format_names) with format_names. unfold format_names. cbn [fmap list_fmap parse_from].
  repeat (destruct (_ =? _); [lia|]). lia.
Qed.

(** A warning about a variable, when there is one to make. *)
Lemma warn_logs pr (v : option (list Z)) (test : list Z -> bool) (text : list Z -> list Z) g :
  process_ok pr -> logger_ok g -> lg_answers g <> [] ->
  exists g', match v with
    | Some v => if test v then emit_now pr LOG_WARN None 0 (Some (text v)) g else Some g
    | None => Some g
    end = Some g' /\ logs 1 g g' /\ lg_once g' = lg_once g.
Proof.
  intros Hpr Hg Hne. assert (Hid : logs 1 g g) by by apply logs_same.
  destruct v as [v|]; [|by exists g]. destruct (test v); [|by exists g].
  destruct (emit_logs pr LOG_WARN (lg_format g) None 0 (Some (text v)) g) as (g' & H1 & H2 & H3 & _);
    [done|unfold level_ok, LOG_WARN; lia|done|done|done|]. by exists g'.
Qed.

Lemma answers_nonempty g : (1 <= length (lg_answers g))%nat -> lg_answers g <> [].
Proof. intros H E. rewrite E in H. cbn in H. lia. Qed.

Lemma init_format_logs pr g :
  logger_ok g ->
  format_ok (fst (init_format pr g)) /\ logs 0 g (snd (init_format pr g)) /\ lg_once (snd (init_format pr g)) = lg_once g.
Proof.
  intros [Hg1 Hg2 Hg3]. pose proof (log_parse_format_range (pr_format pr)) as Hr. unfold init_format.
  destruct (Z.ltb_spec (log_parse_format (pr_format pr)) 0) as [H|H].
  - destruct (stderr_is_journal pr g) as [j g1] eqn:Ej. cbn [fst snd].
    split; [by destruct j|]. unfold stderr_is_journal in Ej.
    repeat case_match; simplify_eq; split; try done; by apply logs_same.
  - cbn [fst snd]. split; [unfold format_ok; lia|]. split; [by apply logs_same|done].
Qed.

Lemma log_init_logs pr g :
  process_ok pr -> logger_ok g -> (2 <= length (lg_answers g))%nat ->
  exists g', log_init pr g = Some g' /\ logs 2 g g' /\ lg_once g' = lg_once g.
Proof.
  intros Hpr Hg Hn. unfold log_init. destruct (init_format_logs pr g Hg) as (Hf & H1 & O1).
  destruct (init_format pr g) as [format g1]. cbn [fst snd] in *.
  set (g3 := if 0 <=? _ then _ else _).
  assert (H3 : logs 0 g1 g3 /\ lg_once g3 = lg_once g1).
  { destruct H1 as [[K1 K2 K3] _ _]. pose proof (log_parse_level_range (pr_level pr)). unfold g3.
    destruct (Z.leb_spec 0 (log_parse_level (pr_level pr))); (split; [apply logs_same|done]); try done; split; try done; cbn; lia. }
  destruct H3 as [H3 O3]. pose proof (logs_trans _ _ _ _ _ H1 H3) as H13. cbn [Nat.add] in H13.
  destruct (warn_logs pr (pr_level pr) (fun _ => (log_parse_level (pr_level pr) <? 0) && (lg_level g3 <=? LOG_WARN))
    ignoring_level g3) as (g4 & -> & H4 & O4);
    [done|apply H13|apply answers_nonempty, (logs_left 0 g); [done|congruence|lia]|].
  cbn [mbind option_bind].
  pose proof (logs_trans _ _ _ _ _ H13 H4) as H14. cbn [Nat.add] in H14.
  destruct (warn_logs pr (pr_format pr) (fun v => (log_parse_format (Some v) <? 0) && (lg_level g4 <=? LOG_WARN))
    ignoring_format g4) as (g5 & -> & H5 & O5);
    [done|apply H14|apply answers_nonempty, (logs_left 1 g); [done|congruence|lia]|].
  exists g5. split; [done|]. split; [exact (logs_trans _ _ _ _ _ H14 H5)|congruence].
Qed.

(** ** Any sequence of calls *)

Inductive log_call :=
| CallWrite (level : Z) (file : option (list Z)) (line : Z) (text : option (list Z))
| CallEnabled (level : Z)
| CallSetLevel (level : Z)
| CallSetFormat (format : Z)
| CallGetLevel
| CallGetFormat.

Definition log_run (pr : process) (call : log_call) (g : logger) : option logger :=
  match call with
  | CallWrite level file line text => log_write pr level file line text g
  | CallEnabled level => snd <$> log_enabled pr level g
  | CallSetLevel level => log_set_level pr level g
  | CallSetFormat format => log_set_format pr format g
  | CallGetLevel => snd <$> log_get_level pr g
  | CallGetFormat => snd <$> log_get_format pr g
  end.

Fixpoint log_runs (pr : process) (calls : list log_call) (g : logger) : option logger :=
  match calls with
  | [] => Some g
  | call :: calls' => g' ← log_run pr call g; log_runs pr calls' g'
  end.

Definition call_ok (call : log_call) : Prop :=
  match call with CallWrite _ file line _ => location_ok file line | _ => True end.

Lemma ensure_init_logs pr g :
  process_ok pr -> logger_ok g -> (init_cost g <= length (lg_answers g))%nat ->
  exists g', ensure_init pr g = Some g' /\ logs 0 g g' /\ lg_once g' = true.
Proof.
  intros Hpr Hg Hn. unfold ensure_init. destruct (lg_once g) eqn:E.
  - exists g. split; [done|]. split; [by apply logs_same|done].
  - assert (Hc : init_cost g = 2%nat) by (unfold init_cost; by rewrite E).
    destruct (log_init_logs pr g Hpr Hg) as (g' & -> & [H1 (rs & H2 & H3 & H4) H5] & O); [lia|].
    cbn [mbind option_bind]. exists (set_once true g'). split; [done|]. split; [|done].
    assert (Hc' : init_cost g' = 2%nat) by (unfold init_cost; by rewrite O, E).
    split; [destruct H1; by split| |cbn [set_once lg_answers]; unfold init_cost in *; cbn [set_once lg_once]; lia].
    exists rs. split; [done|]. split; [done|]. unfold init_cost in *. cbn [set_once lg_once]. lia.
Qed.

Lemma ensure_init_once pr g : lg_once g = true -> ensure_init pr g = Some g.
Proof. unfold ensure_init. by intros ->. Qed.

Lemma init_cost_once g : lg_once g = true -> init_cost g = 0%nat.
Proof. unfold init_cost. by intros ->. Qed.

Lemma log_write_logs pr level file line text g :
  process_ok pr -> location_ok file line -> logger_ok g -> (init_cost g + 1 <= length (lg_answers g))%nat ->
  exists g', log_write pr level file line text g = Some g' /\ logs 1 g g'.
Proof.
  intros Hpr Hloc Hg Hn. unfold log_write, log_enabled.
  destruct ((LOG_DEBUG <=? level) && (level <? LOG_OFF)) eqn:El.
  2: { cbn [mbind option_bind negb]. exists g. split; [done|]. by apply logs_same. }
  apply andb_true_iff in El as [E1%Z.leb_le E2%Z.ltb_lt]. unfold LOG_DEBUG, LOG_OFF in *.
  destruct (ensure_init_logs pr g Hpr Hg) as (g1 & H1 & L1 & O1); [lia|]. unfold log_get_level. rewrite H1.
  cbn [mbind option_bind]. pose proof (init_cost_once _ O1) as C1. pose proof (lo_answers _ _ _ L1) as A1.
  destruct (lg_level g1 <=? level); cbn [negb].
  2: { exists g1. split; [done|]. apply (logs_trans 0 1 g g1); [done|]. by apply logs_same; [apply L1|..]. }
  unfold log_get_format. rewrite ensure_init_once by done. cbn [mbind option_bind].
  destruct (emit_logs pr level (lg_format g1) file line text g1) as (g2 & -> & L2 & O2 & _);
    [done|unfold level_ok; lia|done|apply L1|apply answers_nonempty; lia|].
  cbn [mbind option_bind]. exists (set_errno (lg_errno g1) g2). split; [done|].
  apply (logs_trans 0 1 g g1); [done|]. apply (logs_trans 1 0 g1 g2); [done|].
  destruct L2 as [[] _ _]. by apply logs_same.
Qed.

Lemma log_run_logs pr call g :
  process_ok pr -> call_ok call -> logger_ok g -> (init_cost g + 1 <= length (lg_answers g))%nat ->
  exists g', log_run pr call g = Some g' /\ logs 1 g g'.
Proof.
  intros Hpr Hcall Hg Hn.
  destruct (ensure_init_logs pr g Hpr Hg) as (g1 & H1 & L1 & O1); [lia|].
  assert (Hset : forall f, (forall x, lg_written (f x) = lg_written x) -> (forall x, lg_answers (f x) = lg_answers x) ->
    (forall x, lg_once (f x) = lg_once x) -> logger_ok (f g1) -> logs 1 g (f g1)).
  { intros f F1 F2 F3 Hf. apply (logs_trans 0 1 g g1); [done|]. by apply logs_same. }
  assert (Hid : logs 1 g g1) by (apply (Hset id); try done; apply L1).
  destruct L1 as [[K1 K2 K3] _ _].
  destruct call as [level file line text|level|level|format| |]; cbn [log_run call_ok] in *.
  - by apply log_write_logs.
  - unfold log_enabled, log_get_level. rewrite H1. destruct (_ && _); [by exists g1|].
    exists g. split; [done|]. by apply logs_same.
  - unfold log_set_level. rewrite H1. cbn [mbind option_bind]. eexists. split; [done|].
    destruct ((LOG_DEBUG <=? level) && (level <=? LOG_OFF)) eqn:E; [|done]. apply andb_true_iff in E as [E1%Z.leb_le E2%Z.leb_le].
    by apply (Hset (set_level level)).
  - unfold log_set_format. rewrite H1. cbn [mbind option_bind]. eexists. split; [done|].
    destruct ((LOG_FORMAT_TEXT <=? format) && (format <=? LOG_FORMAT_JOURNAL)) eqn:E; [|done].
    apply andb_true_iff in E as [E1%Z.leb_le E2%Z.leb_le].
    by apply (Hset (set_format format)).
  - unfold log_get_level. rewrite H1. by exists g1.
  - unfold log_get_format. rewrite H1. by exists g1.
Qed.

Lemma log_runs_logs pr calls g :
  process_ok pr -> Forall call_ok calls -> logger_ok g -> (init_cost g + length calls <= length (lg_answers g))%nat ->
  exists g', log_runs pr calls g = Some g' /\ logs (length calls) g g'.
Proof.
  intros Hpr Hc. revert g. induction Hc as [|call calls Hcall Hc IH]; intros g Hg Hn.
  - exists g. split; [done|]. by apply logs_same.
  - cbn [log_runs length] in *. destruct (log_run_logs pr call g Hpr Hcall Hg) as (g1 & -> & L1); [lia|].
    cbn [mbind option_bind]. pose proof (lo_answers _ _ _ L1) as A1.
    destruct (IH g1) as (g2 & -> & L2); [apply L1|lia|]. exists g2. split; [done|].
    exact (logs_trans _ _ _ _ _ L1 L2).
Qed.

(** ** Further lemmas on single functions *)

Lemma digits_plain (x : N) s : 10 ∉ bytes_of s -> 10 ∉ bytes_of (pretty.pretty_N_go x s).
Proof.
  revert s. induction (N.lt_wf_0 x) as [x _ IH]; intros s Hs.
  assert (x = 0%N \/ (0 < x)%N) as [-> |Hx] by lia; [by rewrite pretty.pretty_N_go_0|].
  rewrite pretty.pretty_N_go_step by done. apply IH; [by apply N.div_lt|].
  cbn [bytes_of]. rewrite not_elem_of_cons. split; [|done]. unfold pretty.pretty_N_char. by repeat case_match.
Qed.

Lemma decimal_plain z : 10 ∉ decimal z.
Proof.
  assert (Hn : forall n : N, 10 ∉ bytes_of (pretty.pretty n)).
  { intros n. unfold pretty.pretty, pretty.pretty_N. case_decide; [|apply digits_plain, not_elem_of_nil].
    apply (bool_decide_unpack _). vm_compute. exact I. }
  unfold decimal. destruct z as [|p|p]; [apply (bool_decide_unpack _); vm_compute; exact I|exact (Hn (Npos p))|].
  change (bytes_of (pretty.pretty (Zneg p))) with (45 :: bytes_of (pretty.pretty (Npos p))).
  rewrite not_elem_of_cons. by split.
Qed.

Lemma take_plain {A} n (x : A) l : x ∉ l -> x ∉ take n l.
Proof. intros H Hin. apply H. apply elem_of_take in Hin as (i & Hi & _). by eapply list_elem_of_lookup_2. Qed.

Lemma location_plain file line : 10 ∉ file -> 10 ∉ location file line.
Proof.
  intros Hf. unfold location. pose proof (decimal_plain line). rewrite !not_elem_of_app.
  split_and!; try done; apply (bool_decide_unpack _); vm_compute; exact I.
Qed.

(** The head of a journal record is one unfinished line that starts with the
    priority. *)
Lemma journal_head level file line now :
  level_ok level -> 10 ∉ from_option id [] file ->
  (10 ∉ render_head level LOG_FORMAT_JOURNAL file line now) /\
  priority level `prefix_of` render_head level LOG_FORMAT_JOURNAL file line now.
Proof.
  intros Hl Hf. pose proof (priority_plain level Hl) as Hp. destruct (priority_some level Hl) as [_ Hlen].
  unfold render_head. change (LOG_FORMAT_JOURNAL =? LOG_FORMAT_JOURNAL) with true. cbv match.
  destruct file as [file|]; [|done]. cbn in Hf. split.
  - apply take_plain. rewrite not_elem_of_app. split; [done|by apply location_plain].
  - rewrite take_app, (take_ge (priority level)) by lia. by eexists.
Qed.

(** Parsing a name and naming what was parsed, for one of the two tables. *)
Lemma name_parsed s names count name_of :
  0 ∉ s -> Forall (fun n => (0 ∉ n) /\ (tolower <$> n) = n) names -> NoDup names -> Z.to_nat count = length names ->
  (forall i, 0 <= i -> name_of i = arr_get names i) -> (forall i, i < 0 -> name_of i = None) ->
  let i := parse_name (Some s) names count in
  match name_of i with
  | Some n => n = tolower <$> s
  | None => i = -1 /\ (tolower <$> s) ∉ names
  end /\
  forall j, name_of j = Some (tolower <$> s) -> i = j.
Proof.
  intros Hs Hn Hd Hc H1 H2 i.
  destruct (parse_name_spec s names count Hs Hn Hc) as [[E Hin]|[E Hin]]; fold i in E, Hin.
  - rewrite E, (H2 (-1)) by lia. split; [done|]. intros j Hj. destruct Hin.
    destruct (Z.le_gt_cases 0 j) as [Hp|Hp]; [|by rewrite H2 in Hj by lia].
    rewrite H1 in Hj by done. unfold arr_get in Hj. rewrite (proj2 (Z.leb_le _ _)) in Hj by done.
    by eapply list_elem_of_lookup_2.
  - rewrite (H1 i), Hin by done. split; [done|]. intros j Hj.
    destruct (Z.le_gt_cases 0 j) as [Hp|Hp]; [|by rewrite H2 in Hj by lia].
    rewrite H1 in Hj by done. unfold arr_get in Hj, Hin.
    rewrite (proj2 (Z.leb_le 0 j)) in Hj by done. rewrite (proj2 (Z.leb_le 0 i)) in Hin by done.
    pose proof (NoDup_lookup _ _ _ _ Hd Hin Hj). lia.
Qed.

Lemma level_parsed s :
  0 ∉ s ->
  match log_level_name (log_parse_level (Some s)) with
  | Some n => n = tolower <$> s
  | None => log_parse_level (Some s) = -1 /\ (tolower <$> s) ∉ level_names
  end /\
  forall level, log_level_name level = Some (tolower <$> s) -> log_parse_level (Some s) = level.
Proof.
  intros Hs. apply (name_parsed s level_names (LOG_OFF + 1) log_level_name Hs level_names_plain); [|done|..].
  - apply (bool_decide_unpack _). vm_compute. exact I.
  - intros i Hi. unfold log_level_name, LOG_DEBUG, LOG_OFF. rewrite (proj2 (Z.leb_le 0 i)) by done. cbn [andb].
    destruct (Z.leb_spec i 4) as [H|H]; [done|]. unfold arr_get. rewrite (proj2 (Z.leb_le 0 i)) by done.
    symmetry. apply lookup_ge_None_2. change (length level_names) with 5%nat. lia.
  - intros i Hi. unfold log_level_name, LOG_DEBUG. by rewrite (proj2 (Z.leb_gt 0 i)) by done.
Qed.

Lemma format_parsed s :
  0 ∉ s ->
  match log_format_name (log_parse_format (Some s)) with
  | Some n => n = tolower <$> s
  | None => log_parse_format (Some s) = -1 /\ (tolower <$> s) ∉ format_names
  end /\
  forall format, log_format_name format = Some (tolower <$> s) -> log_parse_format (Some s) = format.
Proof.
  intros Hs. apply (name_parsed s format_names (LOG_FORMAT_JOURNAL + 1) log_format_name Hs format_names_plain); [|done|..].
  - apply (bool_decide_unpack _). vm_compute. exact I.
  - intros i Hi. unfold log_format_name, LOG_FORMAT_TEXT, LOG_FORMAT_JOURNAL. rewrite (proj2 (Z.leb_le 0 i)) by done. cbn [andb].
    destruct (Z.leb_spec i 1) as [H|H]; [done|]. unfold arr_get. rewrite (proj2 (Z.leb_le 0 i)) by done.
    symmetry. apply lookup_ge_None_2. change (length format_names) with 2%nat. lia.
  - intros i Hi. unfold log_format_name, LOG_FORMAT_TEXT. by rewrite (proj2 (Z.leb_gt 0 i)) by done.
Qed.

(** A failing write ends the loop. *)
Lemma write_all_failed e rest data errno written :
  (0 < length data)%nat -> e <> EINTR -> write_all (Failed e :: rest) data errno written = Some (rest, e, written).
Proof.
  intros Hd He. destruct data; [cbn in Hd; lia|]. cbn [write_all]. by rewrite (proj2 (Z.eqb_neq e EINTR)).
Qed.
