(* ===== verification/LogTheorems.v ===== *)
(** * LogTheorems: what src/log.c writes and keeps

    The properties of records, names, settings and the write loop. *)

From S2P Require Import Prelude Log LogCorrect.

(** ** Inputs of the witnesses *)

Definition noon : list Z * Z := (bytes_of "2024-01-01 12:00:00", 7000000).

Definition desk : process := Process (Some (bytes_of "loud")) None (Some (bytes_of "8:1234")) (inl (8, 1234)) (fun _ => noon).

Lemma desk_ok : process_ok desk.
Proof. split. intros n. split; cbn; lia. Qed.

Definition started (level format : Z) (answers : list write_answer) : logger := Logger true level format 0 answers [] 0.

(** ** The theorems *)

(** C29: For every level that has a label, either format, any file name, line and message whatever their lengths, emit stays inside its 4096-byte buffer, uses no byte it did not store, and builds exactly the reference record: the header, the location cut at 4094 bytes, the message with the priority repeated after each inner newline in journal format, then one newline; when this takes more than 4096 bytes, its first 4092 bytes, three dots and the newline. So a record never exceeds 4096 bytes. *)
Theorem log_record_render level format file line text now :
  level_ok level -> clock_ok now -> location_ok file line -> Z.of_nat (length text) <= INT_MAX ->
  emit_record level format file line (Some text) now = Some (Some (render level format file line text now)) /\
  (length (render level format file line text now) <= 4096)%nat /\
  exists r, render level format file line text now = r ++ [10].
Proof.
  intros Hl Hc Hloc Ht. split; [by apply emit_record_render|]. apply render_ok.
Qed.

Example log_record_render_witness :
  emit_record LOG_WARN LOG_FORMAT_JOURNAL (Some (bytes_of "a.c")) 12 (Some (bytes_of "up" ++ [10] ++ bytes_of "down")) noon =
  Some (Some (bytes_of "<4>a.c:12: up" ++ [10] ++ bytes_of "<4>down" ++ [10])).
Proof.
  destruct (log_record_render LOG_WARN LOG_FORMAT_JOURNAL (Some (bytes_of "a.c")) 12 (bytes_of "up" ++ [10] ++ bytes_of "down") noon)
    as (H & _); [unfold level_ok, LOG_WARN; lia|split; cbn; lia|vm_compute; congruence|vm_compute; congruence|].
  rewrite H. vm_compute. reflexivity.
Defined.



(** The dots that mark a truncated record can erase the priority of its last line: a warning whose message has a newline after 4088 bytes fills the buffer up to the repeated prefix, over which the marker is then written, so the record ends with a line that has no priority. *)
Theorem log_journal_marker_unprefixed :
  exists record, emit_record LOG_WARN LOG_FORMAT_JOURNAL None 0 (Some (replicate 4088 97 ++ 10 :: bytes_of "more")) noon =
    Some (Some record) /\ length record = 4096%nat /\
  exists lines, split_lines record = lines ++ [bytes_of "..." ++ [10]].
Proof.
  eexists. split; [vm_compute; reflexivity|]. split; [vm_compute; reflexivity|].
  eexists [_]. vm_compute. reflexivity.
Qed.

(** C33: Names of levels and formats are matched whatever their case: a string is parsed to the level, or format, whose name is its lower-case form and to -1 when there is none; and every level's name is parsed back to the level. *)
Theorem log_names s :
  0 ∉ s ->
  match log_level_name (log_parse_level (Some s)) with
  | Some n => n = tolower <$> s
  | None => log_parse_level (Some s) = -1 /\ (tolower <$> s) ∉ level_names
  end /\
  match log_format_name (log_parse_format (Some s)) with
  | Some n => n = tolower <$> s
  | None => log_parse_format (Some s) = -1 /\ (tolower <$> s) ∉ format_names
  end /\
  (forall level, log_level_name level = Some (tolower <$> s) -> log_parse_level (Some s) = level) /\
  (forall format, log_format_name format = Some (tolower <$> s) -> log_parse_format (Some s) = format).
Proof.
  intros Hs. destruct (level_parsed s Hs) as [H1 H2]. destruct (format_parsed s Hs) as [H3 H4]. by split_and!.
Qed.

Example log_names_witness : (0 ∉ bytes_of "WaRN") /\ log_parse_level (Some (bytes_of "WaRN")) = LOG_WARN.
Proof.
  assert (H : 0 ∉ bytes_of "WaRN") by (apply (bool_decide_unpack _); vm_compute; exact I).
  split; [done|]. apply (log_names (bytes_of "WaRN") H). vm_compute. reflexivity.
Defined.

(** C31: Whatever sequence of log calls the process makes, with whatever levels, formats, texts and environment, and with a kernel that takes each record whole: every call returns, the level stays within debug and off and the format text or journal, and what is written is records of at most 4096 bytes that end with a newline, one write each, at most one per call and two for the initialisation. *)
Theorem log_settings_valid pr calls answers :
  process_ok pr -> Forall call_ok calls -> Forall whole answers -> (length calls + 2 <= length answers)%nat ->
  exists g, log_runs pr calls (logger_init answers) = Some g /\
    LOG_DEBUG <= lg_level g <= LOG_OFF /\ LOG_FORMAT_TEXT <= lg_format g <= LOG_FORMAT_JOURNAL /\
    Forall record_ok (lg_written g) /\ (length (lg_written g) <= length calls + 2)%nat.
Proof.
  intros Hpr Hc Ha Hn.
  destruct (log_runs_logs pr calls (logger_init answers) Hpr Hc) as (g & H & [[H1 H2 _] (rs & E & H3 & H4) _]);
    [by split|cbn; lia|].
  exists g. split; [done|]. split; [done|]. split; [done|]. cbn in E. rewrite E. split; [done|].
  change (init_cost (logger_init answers)) with 2%nat in H4. lia.
Qed.

Example log_settings_valid_witness :
  exists g, log_runs desk [CallWrite LOG_WARN None 0 (Some (bytes_of "hi")); CallSetLevel 9; CallSetFormat LOG_FORMAT_TEXT]
      (logger_init (replicate 5 (Took 4096))) = Some g /\
    LOG_DEBUG <= lg_level g <= LOG_OFF /\
    lg_written g = [bytes_of "<4>ignoring invalid SERVICE_LOG_LEVEL: loud" ++ [10]; bytes_of "<4>hi" ++ [10]].
Proof.
  destruct (log_settings_valid desk [CallWrite LOG_WARN None 0 (Some (bytes_of "hi")); CallSetLevel 9; CallSetFormat LOG_FORMAT_TEXT]
    (replicate 5 (Took 4096))) as (g & H & H1 & _).
  - exact desk_ok.
  - repeat constructor.
  - repeat constructor.
  - cbn. lia.
  - exists g. split; [done|]. split; [done|]. vm_compute in H. injection H as <-. vm_compute. reflexivity.
Defined.

(** Once the logger is initialised, a log_write whose level is not below the current one writes exactly its record, in one write when the kernel takes it whole, and leaves the settings and errno as they were; any other log_write changes nothing. *)
Theorem log_write_spec pr level file line text g n answers :
  process_ok pr -> location_ok file line -> Z.of_nat (length text) <= INT_MAX ->
  lg_once g = true -> lg_answers g = Took n :: answers -> (4096 <= n)%nat ->
  log_write pr level file line (Some text) g =
  if (LOG_DEBUG <=? level) && (level <? LOG_OFF) && (lg_level g <=? level) then
    Some (Logger true (lg_level g) (lg_format g) (lg_errno g) answers
            (lg_written g ++ [render level (lg_format g) file line text (pr_clock pr (lg_times g))])
            (if lg_format g =? LOG_FORMAT_JOURNAL then lg_times g else S (lg_times g)))
  else Some g.
Proof.
  intros Hpr Hloc Ht Ho Ha Hn. unfold log_write, log_enabled, log_get_level, log_get_format.
  rewrite ensure_init_once by done.
  destruct ((LOG_DEBUG <=? level) && (level <? LOG_OFF)) eqn:El; [|done]. cbn [mbind option_bind andb].
  apply andb_true_iff in El as [E1%Z.leb_le E2%Z.ltb_lt]. unfold LOG_DEBUG, LOG_OFF in *.
  destruct (lg_level g <=? level); [|done]. cbn [negb].
  rewrite ensure_init_once by done. cbn [mbind option_bind].
  rewrite (emit_whole1 pr level (lg_format g) file line text g n answers) by (done || (unfold level_ok; lia)).
  cbn [mbind option_bind set_errno]. by rewrite Ho.
Qed.

Example log_write_spec_witness :
  exists g, log_write desk LOG_ERROR None 0 (Some (bytes_of "down")) (started LOG_INFO LOG_FORMAT_TEXT [Took 5000]) = Some g /\
    lg_written g = [bytes_of "2024-01-01 12:00:00.007 ERROR down" ++ [10]].
Proof.
  rewrite (log_write_spec desk LOG_ERROR None 0 (bytes_of "down") (started LOG_INFO LOG_FORMAT_TEXT [Took 5000]) 5000 []);
    [|exact desk_ok|done|vm_compute; congruence|done|done|lia].
  eexists. split; [vm_compute; reflexivity|]. vm_compute. reflexivity.
Defined.

(** C30: write_all returns with everything written, in order, as soon as the kernel has accepted as many bytes as there are, however many partial and interrupted writes that takes; and when a write fails first for another reason than a signal, it returns with the bytes accepted until then. *)
Theorem log_write_all answers rest data errno written :
  Forall (fun a => ~ fatal a) answers ->
  ((length data <= taken answers)%nat -> exists answers' errno' chunks,
     write_all (answers ++ rest) data errno written = Some (answers', errno', written ++ chunks) /\ concat chunks = data) /\
  ((taken answers < length data)%nat -> forall e, e <> EINTR -> exists chunks,
     write_all (answers ++ Failed e :: rest) data errno written = Some (rest, e, written ++ chunks) /\
     concat chunks = take (taken answers) data).
Proof.
  intros Ha. split.
  - intros Hd. destruct (write_all_steps answers rest data errno written Ha) as (chunks & errno' & H1 & H2).
    rewrite bool_decide_eq_true_2 in H2 by done. destruct H2 as [answers' H2].
    exists answers', errno', chunks. split; [done|]. by rewrite H1, take_ge.
  - intros Hd e He. destruct (write_all_steps answers (Failed e :: rest) data errno written Ha) as (chunks & errno' & H1 & H2).
    rewrite bool_decide_eq_false_2 in H2 by lia. exists chunks. split; [|done]. rewrite H2.
    by apply write_all_failed; [rewrite length_drop; lia|].
Qed.

Example log_write_all_witness :
  exists answers' errno' chunks,
    write_all [Took 2; Failed EINTR; Took 0; Took 9] (bytes_of "hello") 0 [] = Some (answers', errno', [] ++ chunks) /\
    concat chunks = bytes_of "hello".
Proof.
  destruct (log_write_all [Took 2; Failed EINTR; Took 0; Took 9] [] (bytes_of "hello") 0 []) as [H _].
  - repeat constructor; cbn; auto.
  - apply H. cbn. lia.
Defined.
