(* ===== verification/LoadLuv.v ===== *)
(** * LoadLuv: finding luv and opening it in each Lua state (src/loadluv.c)

    The search of [package.cpath], the loader's state that all threads share, as
    programs of atomic sections (what runs under [loader_lock], the
    [pthread_once]), and the loading of the module into one Lua state.

    The files that can be read, the dynamic linker and luv itself are
    parameters. *)

From S2P Require Import Prelude SeriValue SeriPack SeriUnpack Concur.
#[local] Open Scope prog_scope.
#[local] Open Scope Z_scope.

(** ** Constants *)

Definition PATH_MAX : Z := 4096.
Definition ERROR_MAX : Z := 1024.
Definition ENOENT : Z := 2.
Definition EINVAL : Z := 22.
Definition ENOSYS : Z := 38.

(** ** The Lua state

    A stack listed from its top, tables by address, the address of the table of
    globals.  Global and [package] tables have no metatable. *)

Definition lua_settop (n : Z) (L : lua) : lua :=
  let k := lua_gettop L in
  Lua (lua_heap L) (lua_fresh L)
    (if n <=? k then drop (Z.to_nat (k - n)) (lua_stack L)
     else replicate (Z.to_nat (n - k)) VNil ++ lua_stack L).

Definition lua_field (L : lua) (p : Z) (name : string) : value :=
  raw_get (default [] (lua_heap L !! p)) (VString (bytes_of name)).

(** [lua_getglobal], the globals being the table [G]. *)
Definition lua_getglobal (G : Z) (name : string) (L : lua) : lua := lua_push (lua_field L G name) L.

(** [lua_getfield(L, -1, name)] of a table. *)
Definition lua_getfield (name : string) (L : lua) : outcome lua :=
  match lua_at L (-1) with
  | Some (VTable p) => Done (lua_push (lua_field L p name) L)
  | _ => Undef UBNoTable
  end.

(** [lua_setfield(L, -2, name)] pops the value. *)
Definition lua_setfield (name : string) (L : lua) : outcome lua :=
  match lua_stack L with
  | v :: VTable p :: rest =>
    match heap_rawset (lua_heap L) p (VString (bytes_of name)) v with
    | Done h => Done (Lua h (lua_fresh L) (VTable p :: rest))
    | Raise e => Raise e
    | Undef u => Undef u
    | NoFuel => NoFuel
    end
  | _ => Undef UBNoTable
  end.

Definition lua_istable (L : lua) (index : Z) : bool :=
  match lua_at L index with Some (VTable _) => true | _ => false end.

(** ** Searching a path *)

(** The bytes of a C string: up to the first NUL. *)
Fixpoint c_string (s : list Z) : list Z :=
  match s with b :: s' => if b =? 0 then [] else b :: c_string s' | [] => [] end.

(** A C string read from a buffer; [None] when it runs past what was stored. *)
Fixpoint buffer_string (buf : buffer) : option (list Z) :=
  match buf with
  | Some b :: buf' => if b =? 0 then Some [] else cons b <$> buffer_string buf'
  | _ => None
  end.

Section Search.
(** [access(path, R_OK) == 0]. *)
Variable readable : list Z -> bool.
(** The text [lua_tostring] makes of a number. *)
Variable number_text : Z -> list Z.

(** The candidate of a template, built in [out]: [None] when the template has no
    question mark or its expansion does not fit. *)
Definition expand_into (template : list Z) (out : buffer) (out_size : Z) : outcome (option buffer) :=
  match index_of 63 template with
  | None => Done None
  | Some question =>
    let prefix := take question template in
    let suffix := drop (S question) template in
    let prefix_length := Z.of_nat question in
    let suffix_length := Z.of_nat (length template) - prefix_length - 1 in
    if prefix_length + 3 + suffix_length <? out_size then
      match
        (out1 ← memcpy out 0 prefix;
         out2 ← memcpy out1 prefix_length (bytes_of "luv");
         out3 ← memcpy out2 (prefix_length + 3) suffix;
         memcpy out3 (prefix_length + 3 + suffix_length) [0])
      with
      | Some out' => Done (Some out')
      | None => Undef UBOutOfBounds
      end
    else Done None
  end.

(** The loop of [find_luv_so]: whether a candidate can be read, and [out].  A
    turn takes at least a byte of the path. *)
Fixpoint find_template (fuel : nat) (cursor : list Z) (out : buffer) (out_size : Z) : outcome (bool * buffer) :=
  match cursor, fuel with
  | [], _ => Done (false, out)
  | _, O => NoFuel
  | _, S fuel' =>
    let separator := index_of 59 cursor in
    let template := match separator with Some i => take i cursor | None => cursor end in
    obind (expand_into template out out_size) (fun candidate =>
      let out' := default out candidate in
      let found :=
        match candidate with
        | Some _ => match buffer_string out' with Some path => Done (readable path) | None => Undef UBUninitialised end
        | None => Done false
        end in
      obind found (fun found =>
        if found : bool then Done (true, out')
        else
          match separator with
          | None => Done (false, out')
          | Some i => find_template fuel' (drop (S i) cursor) out' out_size
          end))
  end.

(** [lua_tostring]: of a string or a number. *)
Definition lua_tostring (v : value) : option (list Z) :=
  match v with
  | VString s => Some s
  | VNumber n => Some (number_text n)
  | _ => None
  end.

(** The error, what [out] holds and the Lua state. *)
Definition find_luv_so (G : Z) (L : lua) (out : buffer) (out_size : Z) : outcome (Z * buffer * lua) :=
  let top := lua_gettop L in
  let L1 := lua_getglobal G "package" L in
  if negb (lua_istable L1 (-1)) then Done (ENOENT, out, lua_settop top L1)
  else
    obind (lua_getfield "cpath" L1) (fun L2 =>
      match lua_at L2 (-1) ≫= lua_tostring with
      | None => Done (ENOENT, out, lua_settop top L2)
      | Some path =>
        let cursor := c_string path in
        obind (find_template (length cursor) cursor out out_size) (fun '(found, out') =>
          Done (if found : bool then 0 else ENOENT, out', lua_settop top L2))
      end).

(** ** The loader *)

(** [struct luv_loader], with [loader_once]; [ld_path] and [ld_error] are the C
    strings the arrays hold. *)
Record luv_loader := LuvLoader {
  ld_handle : option Z;
  ld_luaopen_luv : option Z;
  ld_luv_set_loop : option Z;
  ld_path : list Z;
  ld_error : list Z;
  ld_status : Z;
  ld_prepared : bool;
  ld_initialization_count : nat;
  ld_once : bool
}.

Definition loader_zero : luv_loader := LuvLoader None None None [] [] 0 false 0 false.

(** The dynamic linker: a handle or the message of [dlerror], if any; the
    address of a symbol or the message. *)
Variable dlopen : list Z -> Z + option (list Z).
Variable dlsym : Z -> string -> Z + list Z.

(** [snprintf] into [loader.error]. *)
Definition loader_error (text : list Z) : list Z := take (Z.to_nat (ERROR_MAX - 1)) text.
Definition error_dlopen (path detail : list Z) : list Z :=
  loader_error (bytes_of "dlopen '" ++ take 480 path ++ bytes_of "': " ++ take 480 detail).
Definition error_symbol (path detail : list Z) : list Z :=
  loader_error (bytes_of "load '" ++ take 480 path ++ bytes_of "': " ++ take 480 detail).

(** The end [missing_symbol]: the library is closed again. *)
Definition missing_symbol (detail : list Z) (ld : luv_loader) : luv_loader :=
  LuvLoader None (ld_luaopen_luv ld) (ld_luv_set_loop ld) (ld_path ld) (error_symbol (ld_path ld) detail) ENOSYS
    (ld_prepared ld) (ld_initialization_count ld) (ld_once ld).

Definition initialize_loader (ld : luv_loader) : luv_loader :=
  let ld := LuvLoader (ld_handle ld) (ld_luaopen_luv ld) (ld_luv_set_loop ld) (ld_path ld) (ld_error ld) (ld_status ld)
    (ld_prepared ld) (S (ld_initialization_count ld)) (ld_once ld) in
  if negb (ld_status ld =? 0) then ld
  else
    match dlopen (ld_path ld) with
    | inr detail =>
      LuvLoader None (ld_luaopen_luv ld) (ld_luv_set_loop ld) (ld_path ld)
        (error_dlopen (ld_path ld) (default (bytes_of "unknown error") detail)) ENOENT (ld_prepared ld)
        (ld_initialization_count ld) (ld_once ld)
    | inl handle =>
      let ld1 := LuvLoader (Some handle) (ld_luaopen_luv ld) (ld_luv_set_loop ld) (ld_path ld) (ld_error ld)
        (ld_status ld) (ld_prepared ld) (ld_initialization_count ld) (ld_once ld) in
      match dlsym handle "luaopen_luv" with
      | inr detail => missing_symbol detail ld1
      | inl symbol =>
        let ld2 := LuvLoader (Some handle) (Some symbol) (ld_luv_set_loop ld) (ld_path ld) (ld_error ld) (ld_status ld)
          (ld_prepared ld) (ld_initialization_count ld) (ld_once ld) in
        match dlsym handle "luv_set_loop" with
        | inr detail => missing_symbol detail ld2
        | inl symbol' =>
          LuvLoader (Some handle) (Some symbol) (Some symbol') (ld_path ld) (ld_error ld) (ld_status ld)
            (ld_prepared ld) (ld_initialization_count ld) (ld_once ld)
        end
      end
    end.

(** [luv_loader_error]. *)
Definition luv_loader_error (ld : luv_loader) : list Z :=
  if bool_decide (ld_error ld = []) then bytes_of "unknown luv loader error" else ld_error ld.

(** The static array [loader.path]. *)
Definition path_zero : buffer := replicate (Z.to_nat PATH_MAX) (Some 0).

Definition not_found_message : list Z := bytes_of "luv.so not found in package.cpath".

(** The loader, and what the calls of the threads have returned: whether the
    call loaded the module, and its result. *)
Record loader_sys := LoaderSys {
  ls_loader : luv_loader;
  ls_results : list (bool * outcome Z)
}.

Definition on_loader {X} (f : luv_loader -> X * luv_loader) (_ : Z) (y : loader_sys) : option (X * loader_sys) :=
  let '(x, ld) := f (ls_loader y) in Some (x, LoaderSys ld (ls_results y)).

(** What runs under [loader_lock]: the first caller searches the path of its own
    Lua state. *)
Definition prepare_section (G : Z) (L : lua) (ld : luv_loader) : outcome unit * luv_loader :=
  if ld_prepared ld then (Done tt, ld)
  else
    match find_luv_so G L path_zero PATH_MAX with
    | Done (status, out, _) =>
      (Done tt,
       LuvLoader (ld_handle ld) (ld_luaopen_luv ld) (ld_luv_set_loop ld) (default [] (buffer_string out))
         (if status =? 0 then ld_error ld else not_found_message) status true (ld_initialization_count ld) (ld_once ld))
    | Raise e => (Raise e, ld)
    | Undef u => (Undef u, ld)
    | NoFuel => (NoFuel, ld)
    end.

(** [pthread_once(&loader_once, initialize_loader)]. *)
Definition once_section (ld : luv_loader) : unit * luv_loader :=
  if ld_once ld then (tt, ld)
  else
    let ld' := initialize_loader ld in
    (tt, LuvLoader (ld_handle ld') (ld_luaopen_luv ld') (ld_luv_set_loop ld') (ld_path ld') (ld_error ld')
      (ld_status ld') (ld_prepared ld') (ld_initialization_count ld') true).

Definition read_loader {X} (f : luv_loader -> X) : prog loader_sys X := section (on_loader (fun ld => (f ld, ld))).

(** A NULL state is [None]; the table of globals comes with a state. *)
Definition luv_loader_prepare (L : option (Z * lua)) : prog loader_sys (outcome Z) :=
  match L with
  | None => Ret (Done EINVAL)
  | Some (G, L) =>
    prepared <- section (on_loader (prepare_section G L)) ;;
    match prepared with
    | Done _ =>
      _ <- section (on_loader once_section) ;;
      status <- read_loader ld_status ;;
      Ret (Done status)
    | Raise e => Ret (Raise e)
    | Undef u => Ret (Undef u)
    | NoFuel => Ret NoFuel
    end
  end.

(** ** Loading the module into a Lua state *)

(** The two functions of luv: [luv_set_loop] stores the loop in the state;
    [luaopen_luv], called through [lua_pcall], leaves tables and either an error
    or its results. *)
Variable luv_set_loop : Z -> Z -> lua -> lua.
Variable luaopen_luv : Z -> lua -> gmap Z (list (value * value)) * Z * (value + list value).

(** [lua_pcall] of the C function at [f], without arguments: whether it failed;
    the results are pushed in order, or the error. *)
Definition pcall_luaopen (f : Z) (L : lua) : bool * lua :=
  let '(h, fresh, r) := luaopen_luv f L in
  match r with
  | inl e => (false, Lua h fresh (e :: lua_stack L))
  | inr vs => (true, Lua h fresh (rev vs ++ lua_stack L))
  end.

(** The module is on the top of the stack. *)
Definition cache_luv_module (G : Z) (L : lua) : outcome (Z * lua) :=
  let module_index := lua_gettop L in
  let L1 := lua_getglobal G "package" L in
  if negb (lua_istable L1 (-1)) then Done (EINVAL, lua_settop module_index L1)
  else
    obind (lua_getfield "loaded" L1) (fun L2 =>
    if negb (lua_istable L2 (-1)) then Done (EINVAL, lua_settop module_index L2)
    else
      obind (lua_pushvalue module_index L2) (fun L3 =>
      obind (lua_setfield "luv" L3) (fun L4 => Done (0, lua_settop module_index L4)))).

(** [service_load_luv] once the loader is ready, with the symbols found. *)
Definition load_module (G loop set_loop open : Z) (L : lua) : outcome (Z * lua) :=
  let top := lua_gettop L in
  let L1 := luv_set_loop set_loop loop L in
  let '(ok, L2) := pcall_luaopen open L1 in
  if negb ok then Done (EINVAL, lua_settop top L2)
  else
    let result_count := lua_gettop L2 - top in
    if negb (result_count =? 1) || negb (lua_istable L2 (-1)) then Done (EINVAL, lua_settop top L2)
    else
      obind (cache_luv_module G L2) (fun '(error, L3) =>
      if negb (error =? 0) then Done (EINVAL, lua_settop top L3) else Done (0, lua_settop top L3)).

(** Calling a function pointer that was never set is undefined. *)
Definition service_load_luv (L : option (Z * lua)) (loop : option Z) : prog loader_sys (outcome (Z * option lua)) :=
  match L, loop with
  | Some (G, L), Some loop =>
    prepared <- luv_loader_prepare (Some (G, L)) ;;
    match prepared with
    | Done error =>
      if negb (error =? 0) then Ret (Done (error, Some L))
      else
        symbols <- read_loader (fun ld => (ld_luv_set_loop ld, ld_luaopen_luv ld)) ;;
        match symbols with
        | (Some set_loop, Some open) =>
          Ret (obind (load_module G loop set_loop open L) (fun '(error, L') => Done (error, Some L')))
        | _ => Ret (Undef UBUninitialised)
        end
    | Raise e => Ret (Raise e)
    | Undef u => Ret (Undef u)
    | NoFuel => Ret NoFuel
    end
  | Some (_, L), None => Ret (Done (EINVAL, Some L))
  | None, _ => Ret (Done (EINVAL, None))
  end.

(** ** Threads *)

(** The calls threads make: opening the module, in the thread of a host, and
    loading luv for a service. *)
Inductive loader_call := CallPrepare (G : Z) (L : lua) | CallLoad (G : Z) (L : lua) (loop : Z).

Definition record_result (load : bool) (r : outcome Z) : prog loader_sys unit :=
  section (fun _ y => Some (tt, LoaderSys (ls_loader y) ((load, r) :: ls_results y))).

Definition call_program (call : loader_call) : prog loader_sys unit :=
  match call with
  | CallPrepare G L => r <- luv_loader_prepare (Some (G, L)) ;; record_result false r
  | CallLoad G L loop =>
    r <- service_load_luv (Some (G, L)) (Some loop) ;;
    record_result true (obind r (fun '(e, _) => Done e))
  end.

Definition loader_system (calls : list loader_call) : conf loader_sys :=
  (call_program <$> calls, LoaderSys loader_zero []).
End Search.
