(* ===== verification/LoadLuvCorrect.v ===== *)
(** * LoadLuvCorrect: the search, the shared loader and the Lua stack

    The search of [package.cpath] against a reference on lists of templates, the
    invariant of the loader under concurrent calls, and the effect of loading
    the module on a Lua state. *)

From S2P Require Import Prelude SeriValue SeriPack SeriUnpack Concur LoadLuv.
#[local] Open Scope Z_scope.

(** ** The reference search *)

(** The templates of a path, separated by semicolons. *)
Fixpoint templates (path : list Z) : list (list Z) :=
  match path with
  | [] => [[]]
  | b :: path' =>
    if b =? 59 then [] :: templates path'
    else match templates path' with t :: ts => (b :: t) :: ts | [] => [[b]] end
  end.

(** The file a template stands for, when it has a question mark and the name
    and its NUL fit a path. *)
Definition expansion (template : list Z) : option (list Z) :=
  question ← index_of 63 template;
  let path := take question template ++ bytes_of "luv" ++ drop (S question) template in
  if Z.of_nat (length path) <? PATH_MAX then Some path else None.

Section Correct.
Variable readable : list Z -> bool.
Variable number_text : Z -> list Z.

(** The first file of the path that can be read. *)
Definition search_path (path : list Z) : option (list Z) :=
  head (filter (fun p => readable p = true) (omap expansion (templates path))).

Definition cpath_of (G : Z) (L : lua) : option (list Z) :=
  match lua_field L G "package" with
  | VTable p => lua_tostring number_text (lua_field L p "cpath")
  | _ => None
  end.

Definition luv_path (G : Z) (L : lua) : option (list Z) :=
  path ← cpath_of G L; search_path (c_string path).

(** ** The search *)

Lemma templates_index path :
  templates path =
  match index_of 59 path with Some i => take i path :: templates (drop (S i) path) | None => [path] end.
Proof.
  induction path as [|b path IH]; [done|]. cbn [templates index_of].
  destruct (b =? 59); [cbn; by rewrite drop_0|]. rewrite IH. by destruct (index_of 59 path).
Qed.

Lemma buffer_string_holds n buf p : holds n buf (p ++ [0]) -> 0 ∉ p -> buffer_string buf = Some p.
Proof.
  intros [_ H] Hp. rewrite <- (take_drop (length (p ++ [0])) buf), H. clear H.
  generalize (drop (length (p ++ [0])) buf). intros rest. induction p as [|b p IH]; [done|].
  apply not_elem_of_cons in Hp as [Hb Hp]. cbn. rewrite (proj2 (Z.eqb_neq b 0)) by done.
  by rewrite IH.
Qed.

Lemma expand_into_spec template out :
  length out = Z.to_nat PATH_MAX ->
  match expansion template with
  | Some p => exists out', expand_into template out PATH_MAX = Done (Some out') /\ holds (Z.to_nat PATH_MAX) out' (p ++ [0])
  | None => expand_into template out PATH_MAX = Done None
  end.
Proof.
  intros Hout. unfold expansion, expand_into. destruct (index_of 63 template) as [i|] eqn:Ei; [|done].
  cbn [mbind option_bind]. apply index_of_Some in Ei as (_ & Hi & _).
  set (prefix := take i template). set (suffix := drop (S i) template).
  assert (Hp : length prefix = i) by (unfold prefix; rewrite length_take; lia).
  assert (Hs : Z.of_nat (length suffix) = Z.of_nat (length template) - Z.of_nat i - 1)
    by (unfold suffix; rewrite length_drop; lia).
  assert (El : Z.of_nat (length (prefix ++ bytes_of "luv" ++ suffix)) =
    Z.of_nat i + 3 + (Z.of_nat (length template) - Z.of_nat i - 1)).
  { rewrite !length_app. change (length (bytes_of "luv")) with 3%nat. lia. }
  rewrite <- El. destruct (Z.ltb_spec (Z.of_nat (length (prefix ++ bytes_of "luv" ++ suffix))) PATH_MAX) as [H|H]; [|done].
  set (N := Z.to_nat PATH_MAX) in *. assert (HN : Z.of_nat N = PATH_MAX) by done. clearbody N.
  assert (H0 : holds N out []) by by split.
  destruct (memcpy_holds N out [] prefix H0) as (o1 & E1 & H1); [cbn; rewrite !length_app in *; lia|].
  destruct (memcpy_holds N o1 prefix (bytes_of "luv") H1) as (o2 & E2 & H2); [rewrite !length_app in *; lia|].
  destruct (memcpy_holds N o2 (prefix ++ bytes_of "luv") suffix) as (o3 & E3 & H3); [done|rewrite !length_app in *; lia|].
  destruct (memcpy_holds N o3 (prefix ++ bytes_of "luv" ++ suffix) [0]) as (o4 & E4 & H4);
    [by rewrite app_assoc|cbn [length]; lia|].
  cbn [app length] in E1. change (Z.of_nat 0) with 0 in E1. rewrite E1. cbn [mbind option_bind].
  rewrite Hp in E2. rewrite E2. cbn [mbind option_bind].
  replace (Z.of_nat i + 3) with (Z.of_nat (length (prefix ++ bytes_of "luv")))
    by (rewrite length_app, Hp; change (length (bytes_of "luv")) with 3%nat; lia).
  rewrite E3. cbn [mbind option_bind]. rewrite E4. by exists o4.
Qed.

Lemma expansion_plain template p : expansion template = Some p -> 0 ∉ template -> 0 ∉ p.
Proof.
  unfold expansion. destruct (index_of 63 template) as [i|]; [|done]. cbn [mbind option_bind]. cbv zeta.
  destruct (_ <? _); [|done]. intros E H. apply (inj Some) in E as <-. rewrite !not_elem_of_app. split_and!.
  - intros Hin. apply H. by eapply elem_of_take in Hin as (j & Hj & _); eapply list_elem_of_lookup_2.
  - apply (bool_decide_unpack _). vm_compute. exact I.
  - intros Hin. apply H. rewrite <- (take_drop (S i) template), elem_of_app. by right.
Qed.

Lemma c_string_plain s : 0 ∉ c_string s.
Proof.
  induction s as [|b s IH]; cbn; [apply not_elem_of_nil|]. destruct (Z.eqb_spec b 0); [apply not_elem_of_nil|].
  rewrite not_elem_of_cons. by split.
Qed.

Lemma holds_size n buf pre : holds n buf pre -> length buf = n.
Proof. by intros [? _]. Qed.

(** The loop finds the file of the reference and leaves its name in the buffer. *)
Lemma find_template_spec fuel cursor out :
  (length cursor <= fuel)%nat -> 0 ∉ cursor -> length out = Z.to_nat PATH_MAX ->
  exists out', find_template readable fuel cursor out PATH_MAX =
      Done (bool_decide (is_Some (search_path cursor)), out') /\
    forall p, search_path cursor = Some p -> buffer_string out' = Some p.
Proof.
  revert cursor out. induction fuel as [|fuel IH]; intros cursor out Hf H0 Hout.
  all: destruct cursor as [|b0 c0] eqn:Ec; [by exists out|rewrite <- Ec in *].
  { subst cursor. cbn in Hf. lia. }
  assert (Estep : find_template readable (S fuel) cursor out PATH_MAX =
    obind (expand_into (match index_of 59 cursor with Some i => take i cursor | None => cursor end) out PATH_MAX)
      (fun candidate =>
        let out' := default out candidate in
        obind (match candidate with
          | Some _ => match buffer_string out' with Some path => Done (readable path) | None => Undef UBUninitialised end
          | None => Done false
          end) (fun found =>
          if found : bool then Done (true, out')
          else match index_of 59 cursor with
               | None => Done (false, out')
               | Some i => find_template readable fuel (drop (S i) cursor) out' PATH_MAX
               end))) by by subst cursor.
  rewrite Estep. clear Estep Ec b0 c0. unfold search_path. rewrite (templates_index cursor).
  set (template := match index_of 59 cursor with Some i => take i cursor | None => cursor end).
  assert (Ht : 0 ∉ template).
  { unfold template. destruct (index_of 59 cursor); [|done]. intros Hin. apply H0.
    by eapply elem_of_take in Hin as (j & Hj & _); eapply list_elem_of_lookup_2. }
  set (rest := match index_of 59 cursor with Some i => templates (drop (S i) cursor) | None => [] end).
  assert (Et : match index_of 59 cursor with Some i => take i cursor :: templates (drop (S i) cursor) | None => [cursor] end =
    template :: rest) by (unfold template, rest; by destruct (index_of 59 cursor)).
  rewrite Et. cbn [omap list_omap].
  assert (Hnext : forall out', length out' = Z.to_nat PATH_MAX ->
    exists out'', match index_of 59 cursor with
      | None => Done (false, out')
      | Some i => find_template readable fuel (drop (S i) cursor) out' PATH_MAX
      end = Done (bool_decide (is_Some (head (filter (fun p => readable p = true) (omap expansion rest)))), out'') /\
    forall p, head (filter (fun p => readable p = true) (omap expansion rest)) = Some p -> buffer_string out'' = Some p).
  { intros out' Hout'. unfold rest. destruct (index_of 59 cursor) as [i|] eqn:Ei; [|by exists out'].
    apply index_of_Some in Ei as (_ & Hi & _). apply IH; [rewrite length_drop; lia| |done].
    intros Hin. apply H0. rewrite <- (take_drop (S i) cursor), elem_of_app. by right. }
  pose proof (expand_into_spec template out Hout) as Hx. destruct (expansion template) as [p|] eqn:Ep.
  2: { rewrite Hx. cbn [obind default from_option]. by apply Hnext. }
  destruct Hx as (out1 & -> & Hh). cbn [obind default from_option]. unfold id.
  rewrite (buffer_string_holds _ _ _ Hh) by by eapply expansion_plain. cbn [obind].
  rewrite filter_cons. destruct (readable p) eqn:Er.
  - rewrite decide_True by done. exists out1. split; [done|]. intros q [= <-].
    apply (buffer_string_holds _ _ _ Hh). by eapply expansion_plain.
  - rewrite decide_False by done. apply Hnext. by eapply holds_size.
Qed.

(** ** The Lua stack *)

Lemma lua_settop_above L L' vs :
  lua_heap L' = lua_heap L -> lua_fresh L' = lua_fresh L -> lua_stack L' = vs ++ lua_stack L ->
  lua_settop (lua_gettop L) L' = L.
Proof.
  intros H1 H2 H3. unfold lua_settop, lua_gettop. rewrite H3, length_app.
  rewrite (proj2 (Z.leb_le _ _)) by lia. rewrite drop_app_length' by lia. rewrite H1, H2. by destruct L.
Qed.

(** What a global that holds a table looks like on the top of the stack. *)
Lemma top_istable v L : lua_istable (lua_push v L) (-1) = match v with VTable _ => true | _ => false end.
Proof. by destruct v. Qed.

Lemma lua_at_top v L : lua_at (lua_push v L) (-1) = Some v.
Proof. done. Qed.

Lemma getfield_top p name L : lua_getfield name (lua_push (VTable p) L) = Done (lua_push (lua_field L p name) (lua_push (VTable p) L)).
Proof. done. Qed.

Lemma find_luv_so_spec G L out :
  length out = Z.to_nat PATH_MAX ->
  exists out', find_luv_so readable number_text G L out PATH_MAX =
      Done (if bool_decide (is_Some (luv_path G L)) then 0 else ENOENT, out', L) /\
    forall p, luv_path G L = Some p -> buffer_string out' = Some p.
Proof.
  intros Hout. unfold find_luv_so, luv_path, cpath_of, lua_getglobal. rewrite top_istable.
  destruct (lua_field L G "package") as [| | | | | | |p|];
    try (exists out; split; [|done]; cbn [negb]; by rewrite (lua_settop_above L _ [_]) by done).
  rewrite getfield_top. cbn [negb obind]. rewrite lua_at_top. cbn [mbind option_bind].
  destruct (lua_tostring number_text (lua_field L p "cpath")) as [path|].
  2: { exists out. split; [|done]. by rewrite (lua_settop_above L _ [lua_field L p "cpath"; VTable p]). }
  cbn [mbind option_bind].
  destruct (find_template_spec (length (c_string path)) (c_string path) out) as (out' & -> & H);
    [done|apply c_string_plain|done|].
  exists out'. split; [|done]. cbn [obind]. rewrite (lua_settop_above L _ [lua_field L p "cpath"; VTable p]) by done.
  by destruct (bool_decide _).
Qed.

(** The file found can be read and its name fits. *)
Lemma luv_path_ok G L p : luv_path G L = Some p -> readable p = true /\ Z.of_nat (length p) < PATH_MAX.
Proof.
  unfold luv_path, search_path. destruct (cpath_of G L) as [path|]; [|done]. cbn [mbind option_bind]. intros H.
  apply head_Some_elem_of, list_elem_of_filter in H as [Hr Hin]. split; [done|].
  apply list_elem_of_omap in Hin as (t & _ & Ht). unfold expansion in Ht.
  destruct (index_of 63 t) as [i|]; [|done]. cbn [mbind option_bind] in Ht. cbv zeta in Ht.
  destruct (Z.ltb_spec (Z.of_nat (length (take i t ++ bytes_of "luv" ++ drop (S i) t))) PATH_MAX) as [Hl|]; [|done].
  by apply (inj Some) in Ht as <-.
Qed.

(** ** Loading the module *)

Variable luv_set_loop : Z -> Z -> lua -> lua.
Variable luaopen_luv : Z -> lua -> gmap Z (list (value * value)) * Z * (value + list value).

(** [luv_set_loop] stores the loop in the registry: the stack is as it was. *)
Hypothesis luv_set_loop_stack : forall f loop L, lua_stack (luv_set_loop f loop L) = lua_stack L.

(** The table [package.loaded]. *)
Definition loaded_of (G : Z) (L : lua) : option Z :=
  match lua_field L G "package" with
  | VTable p => match lua_field L p "loaded" with VTable q => Some q | _ => None end
  | _ => None
  end.

Definition set_heap (h : gmap Z (list (value * value))) (L : lua) : lua := Lua h (lua_fresh L) (lua_stack L).

(** [package.loaded.luv = module]. *)
Definition cached (q m : Z) (L : lua) : lua :=
  set_heap (<[q := raw_set (default [] (lua_heap L !! q)) (VString (bytes_of "luv")) (VTable m)]> (lua_heap L)) L.

Lemma cache_luv_module_spec G m L :
  cache_luv_module G (lua_push (VTable m) L) =
  match loaded_of G L with
  | Some q => Done (0, lua_push (VTable m) (cached q m L))
  | None => Done (EINVAL, lua_push (VTable m) L)
  end.
Proof.
  unfold cache_luv_module, loaded_of, lua_getglobal. set (Lm := lua_push (VTable m) L).
  assert (Hf : forall p name, lua_field Lm p name = lua_field L p name) by done. rewrite !Hf, top_istable.
  destruct (lua_field L G "package") as [| | | | | | |p|];
    try (cbn [negb]; by rewrite (lua_settop_above Lm _ [_]) by done).
  cbn [negb]. rewrite getfield_top. cbn [obind]. rewrite top_istable, Hf.
  destruct (lua_field L p "loaded") as [| | | | | | |q|] eqn:Eq;
    try (cbn [negb]; rewrite (lua_settop_above Lm _ [lua_field Lm p "loaded"; VTable p]); [done|done|done|]; cbn; by rewrite Hf, Eq).
  cbn [negb]. set (L2 := lua_push (VTable q) (lua_push (VTable p) Lm)).
  assert (Hpush : lua_pushvalue (lua_gettop Lm) L2 = Done (lua_push (VTable m) L2)).
  { unfold lua_pushvalue, lua_at. assert (Hg : lua_gettop L2 = lua_gettop Lm + 2) by (unfold lua_gettop; cbn; lia).
    assert (Hpos : 0 < lua_gettop Lm) by (unfold lua_gettop; cbn; lia).
    rewrite (proj2 (Z.ltb_ge _ _)), (proj2 (Z.leb_le _ _)), (proj2 (Z.leb_le _ _)) by lia. cbn [andb].
    rewrite Hg. replace (Z.to_nat _) with 2%nat by lia. done. }
  rewrite Hpush. cbn [obind]. unfold lua_setfield. cbn [lua_push lua_stack lua_heap L2 Lm heap_rawset obind].
  rewrite (lua_settop_above (lua_push (VTable m) (cached q m L)) _ [VTable q; VTable p]); done.
Qed.

Lemma load_module_spec G loop f open L :
  load_module luv_set_loop luaopen_luv G loop f open L =
  let '(h, fresh, r) := luaopen_luv open (luv_set_loop f loop L) in
  let L1 := Lua h fresh (lua_stack L) in
  match r with
  | inr [VTable m] => match loaded_of G L1 with Some q => Done (0, cached q m L1) | None => Done (EINVAL, L1) end
  | _ => Done (EINVAL, L1)
  end.
Proof.
  unfold load_module, pcall_luaopen. destruct (luaopen_luv open _) as [[h fresh] r]. rewrite luv_set_loop_stack.
  set (L1 := Lua h fresh (lua_stack L)).
  assert (Htop : forall vs L', lua_heap L' = lua_heap L1 -> lua_fresh L' = fresh -> lua_stack L' = vs ++ lua_stack L ->
    lua_settop (lua_gettop L) L' = L1) by (intros vs L'; apply (lua_settop_above L1 L' vs)).
  destruct r as [e|vs]; cbn [negb]; [by rewrite (Htop [e])|].
  destruct (decide (length vs = 1%nat)) as [Hl|Hl].
  2: { rewrite (proj2 (Z.eqb_neq _ _)).
       2: { unfold lua_gettop. cbn [lua_stack]. rewrite length_app, length_rev. lia. }
       cbn [negb orb]. rewrite (Htop (rev vs)) by done. destruct vs as [|? [|]]; try done. by repeat case_match. }
  destruct vs as [|v [|]]; try done. cbn [rev app]. change (Lua h fresh (v :: lua_stack L)) with (lua_push v L1).
  rewrite (proj2 (Z.eqb_eq _ _)) by (unfold lua_gettop; cbn; lia). rewrite top_istable. cbn [negb orb].
  assert (Hv : forall v, lua_settop (lua_gettop L) (lua_push v L1) = L1) by (intros v'; by apply (Htop [v'])).
  destruct v as [| | | | | | |m|]; cbn [negb]; try (by rewrite Hv).
  rewrite cache_luv_module_spec. destruct (loaded_of G L1) as [q|]; cbn [obind negb].
  - change (negb (0 =? 0)) with false. cbv match. f_equal. f_equal. by apply (lua_settop_above (cached q m L1) _ [VTable m]).
  - change (negb (EINVAL =? 0)) with true. cbv match. by rewrite (Htop [VTable m]).
Qed.

(** ** The loader under concurrent calls *)

Variable dlopen : list Z -> Z + option (list Z).
Variable dlsym : Z -> string -> Z + list Z.

#[local] Abbreviation prepare := (luv_loader_prepare readable number_text dlopen dlsym).
#[local] Abbreviation load := (service_load_luv readable number_text dlopen dlsym luv_set_loop luaopen_luv).
#[local] Abbreviation program := (call_program readable number_text dlopen dlsym luv_set_loop luaopen_luv).
#[local] Abbreviation loaders := (loader_system readable number_text dlopen dlsym luv_set_loop luaopen_luv).

(** The loader at any time. *)
Record loader_ok (ld : luv_loader) : Prop := LoaderOk {
  lk_once : ld_once ld = true -> ld_prepared ld = true;
  lk_count : ld_initialization_count ld = if ld_once ld then 1%nat else 0%nat;
  lk_status : 0 <= ld_status ld;
  lk_ready : ld_once ld = true -> ld_status ld = 0 ->
    exists set_loop open, ld_luv_set_loop ld = Some set_loop /\ ld_luaopen_luv ld = Some open
}.

(** How the loader changes: the search is made once, the initialisation once,
    and then nothing changes. *)
Record loader_le (ld ld' : luv_loader) : Prop := LoaderLe {
  ll_once : ld_once ld = true -> ld' = ld;
  ll_prepared : ld_prepared ld = true -> ld_prepared ld' = true /\ ld_path ld' = ld_path ld
}.

(** What a thread knows of the loader. *)
Inductive phase := Idle | Prepared | Ready | Returned (e : Z).

Definition knows (ld : luv_loader) (r : phase) : Prop :=
  match r with
  | Idle => True
  | Prepared => ld_prepared ld = true
  | Ready => ld_once ld = true
  | Returned e => ld_once ld = true /\ ld_status ld = e
  end.

(** What a call may have returned. *)
Definition result_ok (ld : luv_loader) (r : bool * outcome Z) : Prop :=
  ld_once ld = true /\ exists e, snd r = Done e /\ 0 <= e /\ (fst r = false \/ ld_status ld <> 0 -> e = ld_status ld).

Record loader_inv (y : loader_sys) (rs : list phase) : Prop := LoaderInv {
  li_ok : loader_ok (ls_loader y);
  li_knows : Forall (knows (ls_loader y)) rs;
  li_results : Forall (result_ok (ls_loader y)) (ls_results y)
}.

Definition loader_guar (y y' : loader_sys) : Prop := loader_le (ls_loader y) (ls_loader y').

Lemma loader_le_refl ld : loader_le ld ld.
Proof. by split. Qed.

Lemma loader_le_trans a b c : loader_le a b -> loader_le b c -> loader_le a c.
Proof.
  intros [H1 H2] [K1 K2]. split.
  - intros H. specialize (H1 H). subst b. by apply K1.
  - intros H. destruct (H2 H) as [E1 E2]. destruct (K2 E1) as [E3 E4]. split; [done|congruence].
Qed.

Lemma knows_le ld ld' r : loader_ok ld -> loader_le ld ld' -> knows ld r -> knows ld' r.
Proof.
  intros Hk [H1 H2]. destruct r; cbn; [done|by intros H; destruct (H2 H)|by intros H; rewrite H1|].
  intros [H ?]. by rewrite H1.
Qed.

Lemma result_le ld ld' r : loader_le ld ld' -> result_ok ld r -> result_ok ld' r.
Proof. intros [H1 H2] [H ?]. rewrite H1 by done. by split. Qed.

(** A section of the loader, from what the thread knows to what it then knows. *)
Lemma wt_on_loader {X} i (f : luv_loader -> X * luv_loader) (Q : X -> phase -> Prop) r :
  (forall ld, loader_ok ld -> knows ld r ->
     loader_ok (snd (f ld)) /\ loader_le ld (snd (f ld)) /\
     exists r', knows (snd (f ld)) r' /\ Q (fst (f ld)) r') ->
  wt loader_inv loader_guar i (section (on_loader f)) Q r.
Proof.
  intros H. apply wt_section. intros c y rs x y' [Hok Hk Hr] Hi Hf. unfold on_loader in Hf.
  assert (Hkn : knows (ls_loader y) r) by (rewrite Forall_forall in Hk; apply Hk; by eapply list_elem_of_lookup_2).
  destruct (H (ls_loader y) Hok Hkn) as (H1 & H2 & r' & H3 & H4). destruct (f (ls_loader y)) as [x0 ld']. simplify_eq.
  split; [exact H2|]. exists r'. split; [|done]. cbn [fst snd] in *. split; [done| |].
  - cbn. apply Forall_insert; [|done]. eapply Forall_impl; [exact Hk|]. intros r0. by apply knows_le.
  - cbn. eapply Forall_impl; [exact Hr|]. intros r0. by apply result_le.
Qed.

Lemma initialize_loader_ok ld :
  loader_ok ld -> ld_once ld = false -> ld_prepared ld = true ->
  let ld' := initialize_loader dlopen dlsym ld in
  0 <= ld_status ld' /\ ld_prepared ld' = true /\ ld_initialization_count ld' = 1%nat /\ ld_path ld' = ld_path ld /\
  (ld_status ld' = 0 -> exists set_loop open, ld_luv_set_loop ld' = Some set_loop /\ ld_luaopen_luv ld' = Some open).
Proof.
  intros [H1 H2 H3 H4] Ho Hp. rewrite Ho in H2. unfold initialize_loader.
  cbn [ld_status ld_path ld_handle ld_luaopen_luv ld_luv_set_loop ld_error ld_prepared ld_initialization_count ld_once].
  destruct (Z.eqb_spec (ld_status ld) 0) as [E|E]; cbn [negb].
  2: { cbn. rewrite H2. split_and!; done. }
  destruct (dlopen (ld_path ld)) as [h|]; [|cbn; rewrite H2; by split_and!].
  destruct (dlsym h "luaopen_luv"); [|cbn; rewrite H2; by split_and!].
  destruct (dlsym h "luv_set_loop"); [|cbn; rewrite H2; by split_and!].
  cbn. rewrite H2. split_and!; try done. intros _. by do 2 eexists.
Qed.

Lemma prepare_section_wt i G L :
  wt loader_inv loader_guar i (section (on_loader (prepare_section readable number_text G L)))
    (fun x r => x = Done tt /\ r = Prepared) Idle.
Proof.
  apply wt_on_loader. intros ld [H1 H2 H3 H4] _. unfold prepare_section.
  destruct (ld_prepared ld) eqn:Ep; [cbn; split_and!; [done|apply loader_le_refl|by exists Prepared]|].
  destruct (find_luv_so_spec G L path_zero) as (out & -> & _); [by unfold path_zero; rewrite length_replicate|].
  assert (Ho : ld_once ld = false) by (destruct (ld_once ld); [by specialize (H1 eq_refl)|done]).
  cbn [fst snd]. split_and!; [|by split; cbn; rewrite ?Ho, ?Ep|by exists Prepared].
  split; cbn; [done|done|by case_bool_decide|by rewrite Ho].
Qed.

Lemma once_section_wt i :
  wt loader_inv loader_guar i (section (on_loader (once_section dlopen dlsym))) (fun _ r => r = Ready) Prepared.
Proof.
  apply wt_on_loader. intros ld Hok Hp. cbn [knows] in Hp. unfold once_section.
  destruct (ld_once ld) eqn:Ho; [cbn; split_and!; [done|apply loader_le_refl|by exists Ready]|].
  destruct (initialize_loader_ok ld Hok Ho Hp) as (K1 & K2 & K3 & K4 & K5). cbn [fst snd].
  split_and!; [by split| |by exists Ready]. split; cbn; [by rewrite Ho|]. by intros _.
Qed.

Lemma prepare_wt i G L :
  wt loader_inv loader_guar i (prepare (Some (G, L))) (fun x r => exists e, x = Done e /\ r = Returned e /\ 0 <= e) Idle.
Proof.
  unfold luv_loader_prepare. apply wt_bind. eapply wt_mono; [|apply prepare_section_wt].
  intros x r [-> ->]. cbn beta iota. apply wt_bind. eapply wt_mono; [|apply once_section_wt].
  intros _ r' ->. apply wt_bind.
  eapply wt_mono with (Q := fun x r => r = Returned x /\ 0 <= x); [intros e r' [-> He]; by exists e|].
  apply wt_on_loader. intros ld Hok Ho. cbn [fst snd] in *. split_and!; [done|apply loader_le_refl|].
  exists (Returned (ld_status ld)). split; [by split|]. split; [done|apply Hok].
Qed.

(** Loading returns the loader's error, and 0 or [EINVAL] when it has none. *)
Lemma load_wt i G L loop :
  wt loader_inv loader_guar i (load (Some (G, L)) (Some loop))
    (fun x r => exists e e' L', x = Done (e', L') /\ r = Returned e /\ 0 <= e' /\ (e <> 0 -> e' = e)) Idle.
Proof.
  unfold service_load_luv. apply wt_bind. eapply wt_mono; [|apply prepare_wt].
  intros x r (e & -> & -> & He). cbn beta iota.
  destruct (Z.eqb_spec e 0) as [->|Hne]; cbn [negb]; [|by exists e, e, (Some L)].
  apply wt_bind.
  eapply wt_mono with (Q := fun x r => r = Returned 0 /\ exists s o, x = (Some s, Some o)).
  - intros x r (-> & s & o & ->). cbn beta iota. rewrite load_module_spec.
    destruct (luaopen_luv o _) as [[h fresh] res]. cbv zeta.
    destruct res as [v|[|[] []]]; try destruct (loaded_of _ _); cbn [obind];
      exists 0; do 2 eexists; (split; [reflexivity|]); (split; [reflexivity|]); (split; [unfold EINVAL; lia|done]).
  - apply wt_on_loader. intros ld Hok [Ho Hs]. cbn [fst snd] in *. split_and!; [done|apply loader_le_refl|].
    exists (Returned 0). split; [by split|]. split; [done|]. destruct (lk_ready _ Hok Ho Hs) as (s & o & -> & ->).
    by exists s, o.
Qed.

(** The result of loading, from what [luaopen_luv] gives. *)
Lemma load_result G L h fresh (r : value + list value) :
  let L1 := Lua h fresh (lua_stack L) in
  exists error L',
    match r with
    | inr [VTable m] => match loaded_of G L1 with Some q => Done (0, cached q m L1) | None => Done (EINVAL, L1) end
    | _ => Done (EINVAL, L1)
    end = Done (error, L') /\ 0 <= error /\ lua_stack L' = lua_stack L /\
    match r, loaded_of G L1 with
    | inr [VTable m], Some q => error = 0 /\ L' = cached q m L1
    | _, _ => error = EINVAL /\ L' = L1
    end.
Proof.
  intros L1. destruct (loaded_of G L1) as [q|]; destruct r as [v|[|v [|]]]; try (by exists EINVAL, L1);
    destruct v as [| | | | | | |m|]; try (by exists EINVAL, L1).
  by exists 0, (cached q m L1).
Qed.

(** Loading alone, when the loader is initialised. *)
Lemma load_den_failed G L loop y cs :
  ld_once (ls_loader y) = true -> (ld_once (ls_loader y) = true -> ld_prepared (ls_loader y) = true) ->
  ld_status (ls_loader y) <> 0 ->
  den (load (Some (G, L)) (Some loop)) cs y (Done (ld_status (ls_loader y), Some L)) (tl (tl (tl cs))) y.
Proof.
  intros Ho Hp Hs. specialize (Hp Ho). destruct y as [ld rs]. cbn [ls_loader] in *. cbn.
  unfold on_loader, prepare_section, once_section. cbn [ls_loader ls_results].
  do 2 eexists. rewrite Hp. split; [reflexivity|]. do 2 eexists. cbn [ls_loader]. rewrite Ho. split; [reflexivity|].
  do 2 eexists. split; [reflexivity|]. cbn [ls_loader pbind]. cbv beta iota. rewrite (proj2 (Z.eqb_neq _ _)) by done. by split_and!.
Qed.

Lemma load_den_ready G L loop y cs f open error L' :
  ld_once (ls_loader y) = true -> (ld_once (ls_loader y) = true -> ld_prepared (ls_loader y) = true) ->
  ld_status (ls_loader y) = 0 -> ld_luv_set_loop (ls_loader y) = Some f -> ld_luaopen_luv (ls_loader y) = Some open ->
  load_module luv_set_loop luaopen_luv G loop f open L = Done (error, L') ->
  den (load (Some (G, L)) (Some loop)) cs y (Done (error, Some L')) (tl (tl (tl (tl cs)))) y.
Proof.
  intros Ho Hp Hs Hf Hopen Hm. specialize (Hp Ho). destruct y as [ld rs]. cbn [ls_loader] in *. cbn.
  unfold on_loader, prepare_section, once_section. cbn [ls_loader ls_results].
  do 2 eexists. rewrite Hp. split; [reflexivity|]. do 2 eexists. cbn [ls_loader]. rewrite Ho. split; [reflexivity|].
  do 2 eexists. split; [reflexivity|]. cbn [ls_loader pbind]. cbv beta iota. rewrite Hs. cbn.
  do 2 eexists. split; [reflexivity|]. cbn [ls_loader]. rewrite Hf, Hopen. cbv beta iota. rewrite Hm. by split_and!.
Qed.

(** Loading alone, in either case. *)
Lemma load_luv_den G L loop y cs :
  loader_ok (ls_loader y) -> ld_once (ls_loader y) = true ->
  exists error L' cs',
    den (load (Some (G, L)) (Some loop)) cs y
      (Done (error, Some L')) cs' y /\
    0 <= error /\ lua_stack L' = lua_stack L /\
    (ld_status (ls_loader y) <> 0 -> error = ld_status (ls_loader y) /\ L' = L) /\
    (ld_status (ls_loader y) = 0 -> exists f open h fresh r,
       ld_luv_set_loop (ls_loader y) = Some f /\ ld_luaopen_luv (ls_loader y) = Some open /\
       luaopen_luv open (luv_set_loop f loop L) = (h, fresh, r) /\
       let L1 := Lua h fresh (lua_stack L) in
       match r, loaded_of G L1 with
       | inr [VTable m], Some q => error = 0 /\ L' = cached q m L1
       | _, _ => error = EINVAL /\ L' = L1
       end).
Proof.
  intros Hok Ho.
  destruct (Z.eq_dec (ld_status (ls_loader y)) 0) as [Hs|Hs].
  - destruct (lk_ready _ Hok Ho Hs) as (f & open & Hf & Hopen).
    destruct (luaopen_luv open (luv_set_loop f loop L)) as [[h fresh] r] eqn:El.
    destruct (load_result G L h fresh r) as (error & L' & H1 & H2 & H3 & H4).
    exists error, L'. eexists. split.
    { eapply load_den_ready; [exact Ho|apply Hok|exact Hs|exact Hf|exact Hopen|].
      rewrite load_module_spec, El. exact H1. }
    split; [done|]. split; [done|]. split; [done|]. intros _. exists f, open, h, fresh, r. by split_and!.
  - exists (ld_status (ls_loader y)), L. eexists. split; [by apply load_den_failed; [|apply Hok|]|].
    split; [apply Hok|]. by split_and!.
Qed.

(** However it ends, the stack is as it was. *)
Lemma load_module_stack G loop f open L r :
  load_module luv_set_loop luaopen_luv G loop f open L = r ->
  exists error L', r = Done (error, L') /\ lua_stack L' = lua_stack L.
Proof.
  rewrite load_module_spec. intros <-. destruct (luaopen_luv open _) as [[h fresh] r].
  destruct (load_result G L h fresh r) as (error & L' & H & _ & Hs & _).
  exists error, L'. split; [exact H|done].
Qed.

Lemma load_den_stack G L loop cs y error oL cs' y' :
  den (load (Some (G, L)) (Some loop)) cs y (Done (error, oL)) cs' y' ->
  exists L', oL = Some L' /\ lua_stack L' = lua_stack L.
Proof.
  unfold service_load_luv. intros (p & cs1 & y1 & _ & H)%den_bind_inv. destruct p as [e| | |].
  2-4: by destruct H as (? & _).
  destruct (negb (e =? 0)); [destruct H as ([= -> ->] & _); by exists L|].
  apply den_bind_inv in H as (symbols & cs2 & y2 & _ & H).
  destruct symbols as [[f|] [open|]]; try (by destruct H as (? & _)). destruct H as (H & _).
  destruct (load_module _ _ _ _ _ _ _) as [[e' L']| | |] eqn:Em; try done. cbn in H. injection H as -> ->.
  destruct (load_module_stack _ _ _ _ _ _ Em) as (e2 & L2 & [= <- <-] & Hs). by exists L'.
Qed.

Lemma record_wt i l e e' :
  0 <= e' -> (l = false \/ e <> 0 -> e' = e) ->
  wt loader_inv loader_guar i (record_result l (Done e')) (fun _ _ => True) (Returned e).
Proof.
  intros He' Hl. apply wt_section. intros c y rs x y' [Hok Hk Hr] Hi [= <- <-]. split; [apply loader_le_refl|].
  exists (Returned e). rewrite list_insert_id by done. split; [|done]. split; [done|done|]. constructor; [|done].
  assert (Hkn : knows (ls_loader y) (Returned e)) by (rewrite Forall_forall in Hk; apply Hk; by eapply list_elem_of_lookup_2).
  destruct Hkn as [Ho Hs]. split; [done|]. exists e'. cbn [ls_loader fst snd]. rewrite Hs. by split_and!.
Qed.

Lemma program_wt i call : wt loader_inv loader_guar i (program call) (fun _ _ => True) Idle.
Proof.
  destruct call as [G L|G L loop]; cbn [call_program]; apply wt_bind.
  - eapply wt_mono; [|apply prepare_wt]. intros x r (e & -> & -> & He). apply record_wt; [done|]. by intros _.
  - eapply wt_mono; [|apply load_wt]. intros x r (e & e' & L' & -> & -> & He & Hne). cbn [obind].
    apply record_wt; [done|]. intros [?|?]; [done|by apply Hne].
Qed.

Lemma loader_zero_ok : loader_ok loader_zero.
Proof. by split. Qed.

Lemma loaders_holds calls :
  conf_holds loader_inv loader_guar (fun _ _ => True) (replicate (length calls) Idle) (loaders calls).
Proof.
  split; [by rewrite length_replicate; cbn; rewrite length_fmap|]. split.
  - split; [apply loader_zero_ok|by apply Forall_replicate|constructor].
  - intros i p r Hp Hr. apply lookup_replicate_1 in Hr as [-> _]. cbn [fst loader_system] in Hp.
    rewrite list_lookup_fmap in Hp. destruct (calls !! i) as [call|]; [|done]. cbn in Hp. simplify_eq. apply program_wt.
Qed.

Lemma loaders_inv calls es cf es' cf' :
  steps conf_step (loaders calls) es cf -> steps conf_step cf es' cf' ->
  loader_ok (ls_loader (snd cf)) /\ Forall (result_ok (ls_loader (snd cf))) (ls_results (snd cf)) /\
  loader_le (ls_loader (snd cf)) (ls_loader (snd cf')).
Proof.
  intros H1 H2.
  destruct (conf_holds_steps loader_inv loader_guar (fun _ _ => True) (fun y => loader_le_refl _)
    (fun a b c => loader_le_trans _ _ _) _ _ _ _ (loaders_holds calls) H1) as (_ & rs & Hh & _).
  destruct (conf_holds_steps loader_inv loader_guar (fun _ _ => True) (fun y => loader_le_refl _)
    (fun a b c => loader_le_trans _ _ _) _ _ _ _ Hh H2) as (Hg & _).
  destruct Hh as (_ & [K1 K2 K3] & _). by split_and!.
Qed.
End Correct.
