(* ===== verification/LoadLuvTheorems.v ===== *)
(** * LoadLuvTheorems: what src/loadluv.c finds, opens and leaves

    The properties of the search, of the shared loader and of loading luv into a
    Lua state. *)

From S2P Require Import Prelude SeriValue SeriPack SeriUnpack Concur LoadLuv LoadLuvCorrect.
#[local] Open Scope Z_scope.

(** ** Inputs of the witnesses *)

(** Globals at 1, [package] at 2, [package.loaded] at 3. *)
Definition example_lua (cpath : string) : lua :=
  Lua {[ 1 := [(VString (bytes_of "package"), VTable 2)];
         2 := [(VString (bytes_of "cpath"), VString (bytes_of cpath)); (VString (bytes_of "loaded"), VTable 3)];
         3 := [] ]} 4 [VNil].

Definition example_readable (p : list Z) : bool := bool_decide (p = bytes_of "/lib/luv.so").
Definition example_text (_ : Z) : list Z := [].
Definition example_dlopen (_ : list Z) : Z + option (list Z) := inl 7.
Definition example_dlsym (_ : Z) (name : string) : Z + list Z := inl (if bool_decide (name = "luaopen_luv"%string) then 100 else 200).
Definition example_set_loop (_ _ : Z) (L : lua) : lua := L.
Definition example_open (_ : Z) (L : lua) : gmap Z (list (value * value)) * Z * (value + list value) :=
  (<[lua_fresh L := []]> (lua_heap L), lua_fresh L + 1, inr [VTable (lua_fresh L)]).

(** ** The theorems *)

(** C36: The search of package.cpath never writes outside the path's 4096 bytes, returns 0 with the name of the first readable file among the templates' expansions that fit, in the order of the path, and ENOENT when there is none or the path is missing; the Lua stack is as it was. *)
Theorem luv_search readable number_text G L out :
  length out = Z.to_nat PATH_MAX ->
  exists error out', find_luv_so readable number_text G L out PATH_MAX = Done (error, out', L) /\
    match luv_path readable number_text G L with
    | Some p => error = 0 /\ buffer_string out' = Some p /\ readable p = true /\ Z.of_nat (length p) < PATH_MAX
    | None => error = ENOENT
    end.
Proof.
  intros Hout. destruct (find_luv_so_spec readable number_text G L out Hout) as (out' & -> & H).
  do 2 eexists. split; [done|]. destruct (luv_path readable number_text G L) as [p|] eqn:E; [|done].
  split; [done|]. split; [by apply H|]. by apply luv_path_ok in E.
Qed.

Example luv_search_witness :
  exists out', find_luv_so example_readable example_text 1 (example_lua "./?.so;/lib/?.so;/usr/?.so") path_zero PATH_MAX =
      Done (0, out', example_lua "./?.so;/lib/?.so;/usr/?.so") /\ buffer_string out' = Some (bytes_of "/lib/luv.so").
Proof.
  destruct (luv_search example_readable example_text 1 (example_lua "./?.so;/lib/?.so;/usr/?.so") path_zero)
    as (e & out' & H & Hp); [by unfold path_zero; rewrite length_replicate|].
  assert (E : luv_path example_readable example_text 1 (example_lua "./?.so;/lib/?.so;/usr/?.so") =
    Some (bytes_of "/lib/luv.so")) by (vm_compute; reflexivity).
  rewrite E in Hp. destruct Hp as (-> & Hs & _). by exists out'.
Defined.

(** C34: However many threads open the module and load luv at the same time, luv is searched and opened at most once: once it is, neither the path nor the library, the symbols, the error or the status ever change again, and every call returns that status, except that a call that loads luv may return an error of its own when the status is 0. No call ever returns a negative number. *)
Theorem luv_loader_once readable number_text luv_set_loop luaopen_luv dlopen dlsym calls es cf es' cf' :
  (forall f loop L, lua_stack (luv_set_loop f loop L) = lua_stack L) ->
  steps conf_step (loader_system readable number_text dlopen dlsym luv_set_loop luaopen_luv calls) es cf ->
  steps conf_step cf es' cf' ->
  let ld := ls_loader (snd cf) in
  (ld_initialization_count ld <= 1)%nat /\
  (ld_prepared ld = true -> ld_path (ls_loader (snd cf')) = ld_path ld) /\
  (ld_once ld = true -> ls_loader (snd cf') = ld) /\
  forall loads r, (loads, r) ∈ ls_results (snd cf) ->
    ld_once ld = true /\ exists e, r = Done e /\ 0 <= e /\ (loads = false \/ ld_status ld <> 0 -> e = ld_status ld).
Proof.
  intros Hlaw H1 H2. cbv zeta.
  destruct (loaders_inv _ _ _ _ Hlaw _ _ _ _ _ _ _ H1 H2) as ([K1 K2 K3 K4] & Kr & [L1 L2]).
  split_and!; [rewrite K2; destruct (ld_once _); lia|by intros H; apply L2|done|].
  intros l r Hr. rewrite Forall_forall in Kr. by apply (Kr (l, r)).
Qed.

Definition example_calls : list loader_call :=
  [CallPrepare 1 (example_lua "/lib/?.so"); CallLoad 1 (example_lua "?.none") 9; CallLoad 1 (example_lua "x") 8].

(** The first thread searches the path, the second one opens the library. *)
Definition example_schedule : list (nat * Z) :=
  [(0%nat, 0); (1%nat, 0); (1%nat, 0); (0%nat, 0); (0%nat, 0); (0%nat, 0); (1%nat, 0); (1%nat, 0); (1%nat, 0)].

Definition example_system : conf loader_sys :=
  loader_system example_readable example_text example_dlopen example_dlsym example_set_loop example_open example_calls.

Definition example_test (cf : conf loader_sys) : bool :=
  ld_once (ls_loader (snd cf)) && bool_decide (ld_path (ls_loader (snd cf)) = bytes_of "/lib/luv.so") &&
  match ls_results (snd cf) with [(true, Done 0); (false, Done 0)] => true | _ => false end.

Example luv_loader_once_witness :
  exists cf, steps conf_step example_system example_schedule cf /\ example_test cf = true /\
    (ld_initialization_count (ls_loader (snd cf)) <= 1)%nat /\
    forall es' cf', steps conf_step cf es' cf' -> ls_loader (snd cf') = ls_loader (snd cf).
Proof.
  destruct (conf_run_test example_schedule example_system example_test) as (cf & Hs & Ht); [vm_compute; reflexivity|].
  exists cf. split; [done|]. split; [done|].
  assert (Ho : ld_once (ls_loader (snd cf)) = true)
    by (unfold example_test in Ht; apply andb_true_iff in Ht as [[Ho _]%andb_true_iff _]; done).
  split.
  - apply (luv_loader_once example_readable example_text example_set_loop example_open example_dlopen example_dlsym
      example_calls example_schedule cf [] cf); [done|done|constructor].
  - intros es' cf' Hs'.
    by apply (luv_loader_once example_readable example_text example_set_loop example_open example_dlopen example_dlsym
      example_calls example_schedule cf es' cf').
Defined.

(** C35: Loading luv once the loader is initialised: it returns the loader's error, if any, and leaves the Lua state alone; else it calls luv_set_loop and luaopen_luv and returns 0 exactly when that call returns one table and package.loaded is a table, which then maps luv to it and is otherwise unchanged, and EINVAL if not. The Lua stack is in all cases as it was, and the result is never negative, so the test for a negative result in service_init_lua never sees a failure. *)
Theorem luv_load_spec readable number_text luv_set_loop luaopen_luv dlopen dlsym G L loop y cs :
  (forall f loop L, lua_stack (luv_set_loop f loop L) = lua_stack L) ->
  loader_ok (ls_loader y) -> ld_once (ls_loader y) = true ->
  exists error L' cs',
    den (service_load_luv readable number_text dlopen dlsym luv_set_loop luaopen_luv (Some (G, L)) (Some loop)) cs y
      (Done (error, Some L')) cs' y /\
    0 <= error /\ lua_stack L' = lua_stack L /\
    (ld_status (ls_loader y) <> 0 -> error = ld_status (ls_loader y) /\ L' = L) /\
    (ld_status (ls_loader y) = 0 -> exists f open h fresh r,
       ld_luv_set_loop (ls_loader y) = Some f /\ ld_luaopen_luv (ls_loader y) = Some open /\
       luaopen_luv open (luv_set_loop f loop L) = (h, fresh, r) /\
       let L1 := Lua h fresh (lua_stack L) in
       match r, loaded_of G L1 with
       | inr [VTable m], Some q => error = 0 /\ L' = cached q m L1
       | _, _ => error = EINVAL /\ L' = L1
       end).
Proof. intros Hlaw. by apply load_luv_den. Qed.

Example luv_load_spec_witness :
  exists L' y cs', den (service_load_luv example_readable example_text example_dlopen example_dlsym example_set_loop example_open
      (Some (1, example_lua "?")) (Some 9)) [] y (Done (0, Some L')) cs' y /\
    lua_field L' 3 "luv" = VTable 4 /\ lua_stack L' = [VNil].
Proof.
  set (y := LoaderSys (LuvLoader (Some 7) (Some 100) (Some 200) [] [] 0 true 1 true) []).
  destruct (luv_load_spec example_readable example_text example_set_loop example_open example_dlopen example_dlsym
    1 (example_lua "?") 9 y []) as (e & L' & cs' & H & _ & Hst & _ & H0);
    [done|split; [done|done|done|by do 2 eexists]|done|].
  destruct (H0 eq_refl) as (f & o & h & fresh & r & [= <-] & [= <-] & El & Hr).
  vm_compute in El. injection El as <- <- <-. cbv zeta in Hr.
  match type of Hr with context [loaded_of ?g ?l] =>
    assert (E : loaded_of g l = Some 3) by (vm_compute; reflexivity); rewrite E in Hr end.
  destruct Hr as [-> ->]. do 3 eexists. split; [exact H|]. split; [vm_compute; reflexivity|done].
Defined.
