(* ===== verification/ServiceLua.v ===== *)
(** * ServiceLua: the Lua state of a service (src/service.c)

    [Service] leaves to the environment what the thread of a service does with
    its Lua state.  Here are those parts of [service.c] on the Lua stack: loading
    the source, binding the module [service], running the main chunk, making its
    result the handler, calling it, and closing the handles Lua opened.

    The steps are functions in a monad of the Lua state and of the C resources
    they hold.  Lua code and luv are parameters: a function of the arguments and
    of the calls made before, so that a closure may keep a state of its own.
    The tables of globals, [package], [package.loaded], [luv] and [service] have
    no metatable. *)

From S2P Require Import Prelude Message SeriValue SeriPack SeriUnpack Concur LoadLuv.
#[local] Open Scope Z_scope.

(** ** Constants *)

Definition ENOMEM : Z := 12.
Definition LUA_OK : Z := 0.
Definition LUA_ERRSYNTAX : Z := 3.
Definition LUA_ERRMEM : Z := 4.
Definition LUA_ERRFILE : Z := 6.

(** ** The state *)

(** A call of a Lua function and its arguments. *)
Definition lua_call : Type := value * list value.

(** The fields of [struct service] used here, [vm_open] saying that [service->L]
    is not NULL and [vm_func_ref] being the value the reference stands for; the
    live blocks and the number of open files; what was passed for the [%s] of
    [log_error], [None] for NULL; the calls made, the latest first. *)
Record vm := Vm {
  vm_open : bool;
  vm_lua : lua;
  vm_config : option Z;
  vm_func_ref : option value;
  vm_heap : gset Z;
  vm_files : nat;
  vm_log : list (option (list Z));
  vm_calls : list lua_call
}.

Definition with_lua (L : lua) (st : vm) : vm :=
  Vm (vm_open st) L (vm_config st) (vm_func_ref st) (vm_heap st) (vm_files st) (vm_log st) (vm_calls st).
Definition with_config (c : option Z) (st : vm) : vm :=
  Vm (vm_open st) (vm_lua st) c (vm_func_ref st) (vm_heap st) (vm_files st) (vm_log st) (vm_calls st).
Definition with_func_ref (v : option value) (st : vm) : vm :=
  Vm (vm_open st) (vm_lua st) (vm_config st) v (vm_heap st) (vm_files st) (vm_log st) (vm_calls st).
Definition with_heap (h : gset Z) (st : vm) : vm :=
  Vm (vm_open st) (vm_lua st) (vm_config st) (vm_func_ref st) h (vm_files st) (vm_log st) (vm_calls st).
Definition with_files (n : nat) (st : vm) : vm :=
  Vm (vm_open st) (vm_lua st) (vm_config st) (vm_func_ref st) (vm_heap st) n (vm_log st) (vm_calls st).
Definition with_log (l : list (option (list Z))) (st : vm) : vm :=
  Vm (vm_open st) (vm_lua st) (vm_config st) (vm_func_ref st) (vm_heap st) (vm_files st) l (vm_calls st).
Definition with_calls (l : list lua_call) (st : vm) : vm :=
  Vm (vm_open st) (vm_lua st) (vm_config st) (vm_func_ref st) (vm_heap st) (vm_files st) (vm_log st) l.

Definition vm_stack (st : vm) : list value := lua_stack (vm_lua st).

(** ** The environment *)

(** Tables and the address of the next one. *)
Definition store : Type := gmap Z (list (value * value)) * Z.

(** A file that can be opened: whether [fseek] to its end works, what [ftell]
    says there, whether [fseek] to the start works, and the bytes reads give. *)
Record file := File {
  f_end_ok : bool;
  f_length : Z;
  f_rewind_ok : bool;
  f_data : list Z
}.

Class LuaEnv := {
  env_globals : Z;                                  (* the table of globals *)
  env_newstate : option store;                      (* [luaL_newstate], [luaL_openlibs] *)
  env_compile : list Z -> list Z -> Z + bool * list Z; (* the chunk of a text and its name, or the error: of
                                                       syntax or (true) of memory *)
  env_call : list lua_call -> value -> list value -> store -> store * (value + list value);
  env_walk : list lua_call -> value -> store -> store * list value * option value;
                                                    (* [walk]: the handles it visits, then the error it raises *)
  env_text : Z -> list Z;                           (* the text of a number *)
  env_fopen : list Z -> option file;
  env_malloc : Z -> option Z;                       (* where a block of some size goes *)
  env_service : Z;                                  (* the address of the service *)
  env_context : Z;                                  (* the address of the [luv_close_context] *)
  env_closure : Z;                                  (* the closure of [close_luv_handle] *)
  env_readable : list Z -> bool;                    (* what [LoadLuv] takes *)
  env_dlopen : list Z -> Z + option (list Z);
  env_dlsym : Z -> string -> Z + list Z;
  env_set_loop : Z -> Z -> lua -> lua;
  env_luaopen : Z -> lua -> gmap Z (list (value * value)) * Z * (value + list value)
}.

(** ** The monad *)

Definition M (A : Type) : Type := vm -> outcome (A * vm).

Definition vret {A} (a : A) : M A := fun st => Done (a, st).
Definition vbind {A B} (m : M A) (k : A -> M B) : M B := fun st => obind (m st) (fun '(a, st') => k a st').

Declare Scope vm_scope.
Delimit Scope vm_scope with vm.
Notation "x <~ m ;; k" := (vbind m (fun x => k)) (at level 100, m at next level, k at level 200, right associativity) : vm_scope.
Notation "m ;;; k" := (vbind m (fun _ => k)) (at level 100, k at level 200, right associativity) : vm_scope.
#[local] Open Scope vm_scope.

Definition get {A} (f : vm -> A) : M A := fun st => Done (f st, st).
Definition modify (f : vm -> vm) : M unit := fun st => Done (tt, f st).
Definition on_lua (f : lua -> outcome lua) : M unit :=
  fun st => obind (f (vm_lua st)) (fun L => Done (tt, with_lua L st)).

(** *** The Lua stack *)

Definition push (v : value) : M unit := modify (fun st => with_lua (lua_push v (vm_lua st)) st).
Definition push_text (s : list Z) : M unit := push (VString s).
Definition pop1 : M unit := modify (fun st => with_lua (lua_pop (vm_lua st)) st).
Definition gettop : M Z := get (fun st => lua_gettop (vm_lua st)).
Definition settop (n : Z) : M unit := modify (fun st => with_lua (lua_settop n (vm_lua st)) st).
Definition pushvalue (index : Z) : M unit := on_lua (lua_pushvalue index).
Definition at_index (index : Z) : M value :=
  fun st => match lua_at (vm_lua st) index with Some v => Done (v, st) | None => Undef UBStackIndex end.

Definition is_function (v : value) : bool :=
  match v with VCFunction _ | VClosure _ => true | _ => false end.
Definition is_table (v : value) : bool := match v with VTable _ => true | _ => false end.
Definition truth (v : value) : bool := match v with VNil | VBoolean false => false | _ => true end.

(** [lua_getfield] of a table at an index. *)
Definition getfield (index : Z) (name : string) : M unit :=
  v <~ at_index index ;;
  match v with
  | VTable p => modify (fun st => with_lua (lua_push (lua_field (vm_lua st) p name) (vm_lua st)) st)
  | _ => fun _ => Undef UBNoTable
  end.

(** [lua_replace(L, index)] at an index below the top. *)
Definition lua_replace (index : Z) (L : lua) : outcome lua :=
  match lua_stack L with
  | v :: rest =>
    if (1 <=? index) && (index <=? Z.of_nat (length rest)) then
      Done (Lua (lua_heap L) (lua_fresh L) (<[Z.to_nat (Z.of_nat (length rest) - index) := v]> rest))
    else Undef UBStackIndex
  | [] => Undef UBStackIndex
  end.

Section Env.
Context `{E : LuaEnv}.

Definition getglobal (name : string) : M unit :=
  modify (fun st => with_lua (lua_getglobal env_globals name (vm_lua st)) st).

(** The result of a call, its stack being [rest] without function and
    arguments. *)
Definition call_result (f : value) (args rest : list value) (nresults : nat) (st : vm) : bool * vm :=
  let '(h, fresh, r) := env_call (vm_calls st) f args (lua_heap (vm_lua st), lua_fresh (vm_lua st)) in
  let st1 := with_calls ((f, args) :: vm_calls st) st in
  match r with
  | inl e => (false, with_lua (Lua h fresh (e :: rest)) st1)
  | inr vs => (true, with_lua (Lua h fresh (rev (take nresults (vs ++ replicate nresults VNil)) ++ rest)) st1)
  end.

(** [lua_pcall(L, nargs, nresults, 0) == LUA_OK]. *)
Definition pcall (nargs nresults : nat) : M bool :=
  fun st =>
    match drop nargs (vm_stack st) with
    | f :: rest => Done (call_result f (rev (take nargs (vm_stack st))) rest nresults st)
    | [] => Undef UBStackIndex
    end.

(** [lua_tostring(L, -1)], which needs a value there.  A number is converted in
    its slot, which is only read as a text afterwards. *)
Definition tostring : M (option (list Z)) := v <~ at_index (-1) ;; vret (lua_tostring env_text v).

(** [log_error("...%s", ..., lua_tostring(L, -1))]. *)
Definition log_top : M unit :=
  text <~ tostring ;; modify (fun st => with_log (text :: vm_log st) st).

(** *** C resources *)

Definition vm_malloc (size : Z) : M (option Z) :=
  fun st =>
    match env_malloc size with
    | Some a => if bool_decide (a ∈ vm_heap st) then Done (None, st) else Done (Some a, with_heap ({[a]} ∪ vm_heap st) st)
    | None => Done (None, st)
    end.

(** [free] of a block that is not live, [fclose] without an open file. *)
Definition vm_free (p : option Z) : M unit :=
  fun st => match c_free p (vm_heap st) with Some h => Done (tt, with_heap h st) | None => Undef UBAssert end.

Definition fclose : M unit :=
  fun st => match vm_files st with S n => Done (tt, with_files n st) | O => Undef UBAssert end.

Definition fopen (path : list Z) : M (option file) :=
  fun st =>
    match env_fopen path with
    | Some f => Done (Some f, with_files (S (vm_files st)) st)
    | None => Done (None, st)
    end.

(** ** Loading the source *)

(** [luaL_loadbuffer]: pushes the chunk or an error message. *)
Definition loadbuffer (text name : list Z) : M Z :=
  match env_compile text name with
  | inl chunk => push (VClosure chunk) ;;; vret LUA_OK
  | inr (memory, message) => push_text message ;;; vret (if memory then LUA_ERRMEM else LUA_ERRSYNTAX)
  end.

(** [fread] of [n] bytes into the block [buf]: how many there were, and the
    bytes. *)
Definition fread (buf : buffer) (n : Z) (f : file) : M (Z * buffer) :=
  fun st =>
    let data := take (Z.to_nat n) (f_data f) in
    match memcpy buf 0 data with
    | Some buf' => Done ((Z.of_nat (length data), buf'), st)
    | None => Undef UBOutOfBounds
    end.

(** The first [n] bytes of a block, which must be stored. *)
Definition block_bytes (buf : buffer) (n : Z) : M (list Z) :=
  fun st =>
    if Z.of_nat (length buf) <? n then Undef UBOutOfBounds
    else match mapM id (take (Z.to_nat n) buf) with Some bs => Done (bs, st) | None => Undef UBUninitialised end.

Definition quoted (before : string) (path : list Z) : list Z := bytes_of before ++ path ++ bytes_of "'".

Definition lua_loadfile_as_buffer (at_name : option (list Z)) : M Z :=
  match at_name with
  | Some (c :: (_ :: _) as path) =>
    if c =? 64 then
      file <~ fopen path ;;
      match file with
      | None => push_text (quoted "cannot open file '" path) ;;; vret LUA_ERRFILE
      | Some f =>
        if negb (f_end_ok f) || (f_length f <? 0) || negb (f_rewind_ok f) then
          fclose ;;; push_text (quoted "cannot read file '" path) ;;; vret LUA_ERRFILE
        else
          let size := if f_length f =? 0 then 1 else f_length f in
          buffer <~ vm_malloc size ;;
          match buffer with
          | None => fclose ;;; vret LUA_ERRMEM
          | Some p =>
            read <~ fread (replicate (Z.to_nat size) None) (f_length f) f ;;
            fclose ;;;
            if negb (fst read =? f_length f) then
              vm_free (Some p) ;;; push_text (quoted "cannot read file '" path) ;;; vret LUA_ERRFILE
            else
              text <~ block_bytes (snd read) (f_length f) ;;
              status <~ loadbuffer text (c :: path) ;;
              vm_free (Some p) ;;; vret status
          end
      end
    else push_text (bytes_of "source filename must start with '@'") ;;; vret LUA_ERRFILE
  | _ => push_text (bytes_of "source filename must start with '@'") ;;; vret LUA_ERRFILE
  end.

(** [service->source]: a file or the text itself. *)
Definition load_source (source : list Z) : M Z :=
  if hd 0 source =? 64 then lua_loadfile_as_buffer (Some source) else loadbuffer source source.

(** ** Binding the module [service] *)

Definition service_push_lservice_module : M Z :=
  getglobal "require" ;;;
  require <~ at_index (-1) ;;
  if negb (is_function require) then
    push_text (bytes_of "service require is unavailable") ;;; vret EINVAL
  else
    push_text (bytes_of "service") ;;;
    ok <~ pcall 1 1 ;;
    if negb ok then vret EINVAL
    else
      module <~ at_index (-1) ;;
      if negb (is_table module) then
        pop1 ;;; push_text (bytes_of "service module did not return a table") ;;; vret EINVAL
      else vret 0.

(** The service and its configuration as arguments; how many there are. *)
Definition push_arguments : M nat :=
  push (VLightUserdata env_service) ;;;
  config <~ get vm_config ;;
  match config with
  | Some c => push (VLightUserdata c) ;;; vret 2%nat
  | None => vret 1%nat
  end.

Definition service_bind_lservice : M Z :=
  top <~ gettop ;;
  error <~ service_push_lservice_module ;;
  if negb (error =? 0) then vret EINVAL
  else
    module_index <~ gettop ;;
    getfield module_index "input" ;;;
    input <~ at_index (-1) ;;
    if negb (is_function input) then
      settop top ;;; push_text (bytes_of "service.input is unavailable") ;;; vret EINVAL
    else
      argument_count <~ push_arguments ;;
      ok <~ pcall argument_count 0 ;;
      if negb ok then vret EINVAL else settop top ;;; vret 0.

Definition service_normalize_handler : M Z :=
  result_index <~ gettop ;;
  error <~ service_push_lservice_module ;;
  if negb (error =? 0) then vret EINVAL
  else
    module_index <~ gettop ;;
    getfield module_index "dispatch" ;;;
    dispatch <~ at_index (-1) ;;
    if negb (is_function dispatch) then
      settop result_index ;;; push_text (bytes_of "service.dispatch is unavailable") ;;; vret EINVAL
    else
      pushvalue result_index ;;;
      ok <~ pcall 1 1 ;;
      if negb ok then vret EINVAL
      else
        handler <~ at_index (-1) ;;
        if negb (is_function handler) then
          settop result_index ;;; push_text (bytes_of "service.dispatch did not return a function") ;;; vret EINVAL
        else on_lua (lua_replace result_index) ;;; settop result_index ;;; vret 0.

(** ** Initialising *)

(** [free(service->config); service->config = NULL]. *)
Definition release : M unit :=
  config <~ get vm_config ;; vm_free config ;;; modify (with_config None).

(** [luaL_ref(L, LUA_REGISTRYINDEX)] pops the value. *)
Definition ref_top : M unit :=
  v <~ at_index (-1) ;;
  pop1 ;;; modify (with_func_ref (if bool_decide (v = VNil) then None else Some v)).

(** [service_init_lua] once luv is loaded. *)
Definition init_handler : M Z :=
  bound <~ service_bind_lservice ;;
  if negb (bound =? 0) then release ;;; log_top ;;; vret EINVAL
  else
    argument_count <~ push_arguments ;;
    ok <~ pcall argument_count 1 ;;
    if negb ok then release ;;; log_top ;;; vret EINVAL
    else
      result <~ at_index (-1) ;;
      normalized <~ (if is_table result then service_normalize_handler else vret 0) ;;
      if negb (normalized =? 0) then release ;;; log_top ;;; vret EINVAL
      else
        release ;;;
        handler <~ at_index (-1) ;;
        if negb (is_function handler) then vret EINVAL
        else ref_top ;;; vret 0.

#[local] Open Scope prog_scope.

(** [service->L = L] of a fresh state, its standard libraries open. *)
Definition opened (s : store) (st : vm) : vm :=
  Vm true (Lua (fst s) (snd s) []) (vm_config st) (vm_func_ref st) (vm_heap st) (vm_files st) (vm_log st) (vm_calls st).

Definition of_outcome {A B} (x : outcome A) (k : A -> prog loader_sys (outcome B)) : prog loader_sys (outcome B) :=
  match x with
  | Done a => k a
  | Raise e => Ret (Raise e)
  | Undef u => Ret (Undef u)
  | NoFuel => Ret NoFuel
  end.

Definition service_init_lua (source : list Z) (loop : Z) (st : vm) : prog loader_sys (outcome (Z * vm)) :=
  match env_newstate with
  | None => Ret (Done (ENOMEM, st))
  | Some s =>
    of_outcome (load_source source (opened s st)) (fun '(status, st1) =>
      if negb (status =? LUA_OK) then Ret (vbind log_top (fun _ => vret EINVAL) st1)
      else
        luv <- service_load_luv env_readable env_text env_dlopen env_dlsym env_set_loop env_luaopen
                 (Some (env_globals, vm_lua st1)) (Some loop) ;;
        of_outcome luv (fun '(error, L) =>
          let st2 := with_lua (default (vm_lua st1) L) st1 in
          if error <? 0 then Ret (Done (EINVAL, st2)) else Ret (init_handler st2)))
  end.

(** ** Calling the handler *)

Definition has_handler (st : vm) : bool := vm_open st && bool_decide (vm_func_ref st <> None).

(** The call of [service_async_cb]: the error to record, when the handler
    failed, and whether it asks for another batch. *)
Definition dispatch_batch : M (option (list Z) * bool) :=
  top <~ gettop ;;
  handler <~ get (fun st => default VNil (vm_func_ref st)) ;;
  push handler ;;; push_text (bytes_of "msg") ;;;
  ok <~ pcall 1 1 ;;
  out <~ (if negb ok then
            message <~ tostring ;; log_top ;;;
            vret (Some (default (bytes_of "dispatcher error") message), false)
          else
            v <~ at_index (-1) ;;
            vret (None, match v with VBoolean b => b | _ => false end)) ;;
  settop top ;;; vret out.

Definition service_notify_lua_stop : M unit :=
  handler <~ get has_handler ;;
  if negb handler then vret tt
  else
    top <~ gettop ;;
    handler <~ get (fun st => default VNil (vm_func_ref st)) ;;
    push handler ;;; push_text (bytes_of "stop") ;;;
    ok <~ pcall 1 0 ;;
    (if negb ok then log_top else vret tt) ;;;
    settop top.

(** ** Closing the handles of Lua *)

(** [close_luv_handle], a C function with a stack of its own, and its upvalues:
    [context->error] after it. *)
Definition close_luv_handle (is_closing close handle : value) (error : Z) : M Z :=
  fun st =>
    obind
      ((push is_closing ;;; pushvalue 1 ;;;
        ok <~ pcall 1 1 ;;
        if negb ok then log_top ;;; pop1 ;;; vret EINVAL
        else
          closing <~ at_index (-1) ;;
          pop1 ;;;
          if truth closing then vret error
          else
            push close ;;; pushvalue 1 ;;;
            ok <~ pcall 1 0 ;;
            if negb ok then log_top ;;; pop1 ;;; vret EINVAL else vret error)
         (with_lua (Lua (lua_heap (vm_lua st)) (lua_fresh (vm_lua st)) [handle]) st))
      (fun '(error, st') =>
         Done (error, with_lua (Lua (lua_heap (vm_lua st')) (lua_fresh (vm_lua st')) (vm_stack st)) st')).

Fixpoint walk_handles (is_closing close : value) (handles : list value) (error : Z) : M Z :=
  match handles with
  | [] => vret error
  | h :: handles' =>
    error <~ close_luv_handle is_closing close h error ;; walk_handles is_closing close handles' error
  end.

(** [lua_pushcclosure(L, close_luv_handle, 3)] pops its upvalues, and
    [lua_pcall(L, 1, 0, 0)] of [walk] with the closure: whether it returned, and
    [context.error]. *)
Definition pcall_walk : M (bool * Z) :=
  fun st =>
    match vm_stack st with
    | _ :: close :: is_closing :: walk :: rest =>
      let '(h, fresh, handles, raised) :=
        env_walk (vm_calls st) walk (lua_heap (vm_lua st), lua_fresh (vm_lua st)) in
      obind (walk_handles is_closing close handles 0
               (with_calls ((walk, [VClosure env_closure]) :: vm_calls st) (with_lua (Lua h fresh rest) st)))
        (fun '(error, st') =>
           match raised with
           | Some e => vbind (push e) (fun _ => vret (false, error)) st'
           | None => Done ((true, error), st')
           end)
    | _ => Undef UBStackIndex
    end.

Definition unavailable (top : Z) : M Z := settop top ;;; vret ENOENT.

Definition service_close_luv_handles : M Z :=
  open <~ get vm_open ;;
  if negb open then vret 0
  else
    top <~ gettop ;;
    getglobal "package" ;;;
    package <~ at_index (-1) ;;
    if negb (is_table package) then unavailable top
    else
      getfield (-1) "loaded" ;;;
      loaded <~ at_index (-1) ;;
      if negb (is_table loaded) then unavailable top
      else
        getfield (-1) "luv" ;;;
        luv <~ at_index (-1) ;;
        if negb (is_table luv) then unavailable top
        else
          luv_index <~ gettop ;;
          getfield luv_index "walk" ;;;
          walk <~ at_index (-1) ;;
          if negb (is_function walk) then unavailable top
          else
            getfield luv_index "is_closing" ;;;
            is_closing <~ at_index (-1) ;;
            if negb (is_function is_closing) then unavailable top
            else
              getfield luv_index "close" ;;;
              close <~ at_index (-1) ;;
              if negb (is_function close) then unavailable top
              else
                push (VLightUserdata env_context) ;;;
                walked <~ pcall_walk ;;
                error <~ (if negb (fst walked) then log_top ;;; vret EINVAL else vret (snd walked)) ;;
                settop top ;;; vret error.
End Env.
