(* ===== verification/ServiceLuaCorrect.v ===== *)
(** * ServiceLuaCorrect: what the functions of [ServiceLua] leave behind

    [wp] is the weakest precondition of a function of the monad: it ends without
    undefined behaviour and its result and state satisfy the postcondition. *)

From S2P Require Import Prelude Message SeriValue SeriPack SeriUnpack Concur LoadLuv LoadLuvCorrect ServiceLua.
#[local] Open Scope Z_scope.
#[local] Open Scope vm_scope.

(** ** Weakest preconditions *)

Definition wp {A} (m : M A) (Q : A -> vm -> Prop) (st : vm) : Prop :=
  match m st with Done (a, st') => Q a st' | _ => False end.

Lemma wp_bind {A B} (m : M A) (k : A -> M B) Q st :
  wp m (fun a st' => wp (k a) Q st') st -> wp (m' <~ m ;; k m') Q st.
Proof. unfold wp, vbind. by destruct (m st) as [[a st']| | |]. Qed.

Lemma wp_mono {A} (m : M A) (Q Q' : A -> vm -> Prop) st :
  wp m Q st -> (forall a st', Q a st' -> Q' a st') -> wp m Q' st.
Proof. unfold wp. destruct (m st) as [[a st']| | |]; auto. Qed.

Lemma wp_Done {A} (m : M A) (Q : A -> vm -> Prop) st : wp m Q st <-> exists a st', m st = Done (a, st') /\ Q a st'.
Proof.
  unfold wp. split.
  - destruct (m st) as [[a st']| | |]; try done. by exists a, st'.
  - by intros (a & st' & -> & H).
Qed.

Lemma wp_ret {A} (a : A) (Q : A -> vm -> Prop) st : Q a st -> wp (vret a) Q st.
Proof. done. Qed.

(** A state after steps that only touch the Lua state and make calls. *)
Record keeps (st st' : vm) : Prop := Keeps {
  kp_open : vm_open st' = vm_open st;
  kp_config : vm_config st' = vm_config st;
  kp_func_ref : vm_func_ref st' = vm_func_ref st;
  kp_heap : vm_heap st' = vm_heap st;
  kp_files : vm_files st' = vm_files st
}.

Lemma keeps_refl st : keeps st st.
Proof. done. Qed.

(** Chains of [keeps], through changes of the Lua state. *)
Ltac keep := repeat match goal with H : keeps _ _ |- _ => destruct H end; split; cbn in *; congruence.

#[export] Hint Resolve keeps_refl : svc.

(** ** The stack *)

(** Cutting the stack back to a height it had. *)
Lemma settop_above vs stack L :
  lua_stack L = vs ++ stack -> lua_settop (Z.of_nat (length stack)) L = Lua (lua_heap L) (lua_fresh L) stack.
Proof. intros H. apply (lua_settop_above (Lua (lua_heap L) (lua_fresh L) stack) L vs); done. Qed.

Lemma wp_settop vs stack (Q : unit -> vm -> Prop) st :
  vm_stack st = vs ++ stack ->
  Q tt (with_lua (Lua (lua_heap (vm_lua st)) (lua_fresh (vm_lua st)) stack) st) ->
  wp (settop (Z.of_nat (length stack))) Q st.
Proof. intros Hs HQ. unfold wp, settop, modify. by erewrite settop_above by exact Hs. Qed.

(** The slot at the height of a stack is its top. *)
Lemma lua_at_height v stack vs L :
  lua_stack L = vs ++ v :: stack -> lua_at L (Z.of_nat (length (v :: stack))) = Some v.
Proof.
  intros H. unfold lua_at, lua_gettop. rewrite H, length_app. cbn [length].
  rewrite (proj2 (Z.ltb_ge _ _)), (proj2 (Z.leb_le _ _)), (proj2 (Z.leb_le _ _)) by lia. cbn [andb].
  replace (Z.to_nat _) with (length vs) by lia. by rewrite list_lookup_middle.
Qed.

Lemma lua_replace_height v w stack L :
  lua_stack L = v :: w :: stack ->
  lua_replace (Z.of_nat (length (w :: stack))) L = Done (Lua (lua_heap L) (lua_fresh L) (v :: stack)).
Proof.
  intros H. unfold lua_replace. rewrite H. cbn [length].
  rewrite (proj2 (Z.leb_le _ _)), (proj2 (Z.leb_le _ _)) by lia. cbn [andb].
  by replace (Z.to_nat _) with 0%nat by lia.
Qed.

Section Env.
Context `{E : LuaEnv}.

(** ** Calls *)

Definition vm_store (st : vm) : store := (lua_heap (vm_lua st), lua_fresh (vm_lua st)).

Definition field (s : store) (p : Z) (name : string) : value :=
  raw_get (default [] (fst s !! p)) (VString (bytes_of name)).

(** The function [f], called with [args] after the calls [hist], returned [v]
    first, or raised; and the tables then. *)
Definition returned (hist : list lua_call) (f : value) (args : list value) (s : store) (v : value) (s' : store) : Prop :=
  exists vs, env_call hist f args s = (s', inr vs) /\ v = hd VNil vs.

Definition raised (hist : list lua_call) (f : value) (args : list value) (s : store) (e : value) (s' : store) : Prop :=
  env_call hist f args s = (s', inl e).

(** The state after a call, which leaves [vs] on [rest]. *)
Definition after_call (st st' : vm) (f : value) (args : list value) (stack : list value) : Prop :=
  keeps st st' /\ vm_log st' = vm_log st /\ vm_calls st' = (f, args) :: vm_calls st /\ vm_stack st' = stack.

Lemma call_result_cases f args rest n st :
  let '(ok, st') := call_result f args rest n st in
  (ok = false /\ exists e, raised (vm_calls st) f args (vm_store st) e (vm_store st') /\
     after_call st st' f args (e :: rest)) \/
  (ok = true /\ exists vs, env_call (vm_calls st) f args (vm_store st) = (vm_store st', inr vs) /\
     after_call st st' f args (rev (take n (vs ++ replicate n VNil)) ++ rest)).
Proof.
  unfold call_result. fold (vm_store st). destruct (env_call _ f args _) as [[h fresh] [e|vs]] eqn:Ec.
  - left. split; [done|]. exists e. by split_and!.
  - right. split; [done|]. exists vs. by split_and!.
Qed.

Lemma pcall_frame n f args rest nresults st :
  vm_stack st = rev args ++ f :: rest -> length args = n ->
  pcall n nresults st = Done (call_result f args rest nresults st).
Proof.
  intros Hs <-. unfold pcall.
  by rewrite Hs, <- (length_rev args), drop_app_length, take_app_length, rev_involutive.
Qed.

(** A call for one result, and for none. *)
Lemma wp_pcall1 n f args rest (Q : bool -> vm -> Prop) st :
  vm_stack st = rev args ++ f :: rest -> length args = n ->
  (forall e st', raised (vm_calls st) f args (vm_store st) e (vm_store st') ->
     after_call st st' f args (e :: rest) -> Q false st') ->
  (forall v st', returned (vm_calls st) f args (vm_store st) v (vm_store st') ->
     after_call st st' f args (v :: rest) -> Q true st') ->
  wp (pcall n 1) Q st.
Proof.
  intros Hs Hn Hf Ht. unfold wp. rewrite (pcall_frame n f args rest) by done.
  generalize (call_result_cases f args rest 1 st). destruct (call_result f args rest 1 st) as [ok st'].
  intros [[-> (e & He & Ha)]|[-> (vs & He & Ha)]]; [by eapply Hf|].
  apply (Ht (hd VNil vs)); [by exists vs|]. by destruct vs as [|v vs].
Qed.

Lemma wp_pcall0 n f args rest (Q : bool -> vm -> Prop) st :
  vm_stack st = rev args ++ f :: rest -> length args = n ->
  (forall e st', raised (vm_calls st) f args (vm_store st) e (vm_store st') ->
     after_call st st' f args (e :: rest) -> Q false st') ->
  (forall v st', returned (vm_calls st) f args (vm_store st) v (vm_store st') ->
     after_call st st' f args rest -> Q true st') ->
  wp (pcall n 0) Q st.
Proof.
  intros Hs Hn Hf Ht. unfold wp. rewrite (pcall_frame n f args rest) by done.
  generalize (call_result_cases f args rest 0 st). destruct (call_result f args rest 0 st) as [ok st'].
  intros [[-> (e & He & Ha)]|[-> (vs & He & Ha)]]; [by eapply Hf|].
  by apply (Ht (hd VNil vs)); [exists vs|].
Qed.

(** ** The module [service] *)

Definition service_name : value := VString (bytes_of "service").

(** The global [require] and the module it gives. *)
Definition require_of (s : store) : value := field s env_globals "require".
Definition require_call (s : store) : lua_call := (require_of s, [service_name]).

Definition module_at (hist : list lua_call) (s : store) (m : Z) (s' : store) : Prop :=
  is_function (require_of s) = true /\ returned hist (require_of s) [service_name] s (VTable m) s'.

Lemma at_top v stack L : lua_stack L = v :: stack -> lua_at L (-1) = Some v.
Proof. unfold lua_at. intros ->. done. Qed.

Lemma wp_at v stack index (Q : value -> vm -> Prop) st :
  vm_stack st = v :: stack -> index = -1 -> Q v st -> wp (at_index index) Q st.
Proof. intros Hs -> HQ. unfold wp, at_index. by rewrite (at_top v stack). Qed.

(** What [service_push_lservice_module] leaves: the module, or an error. *)
Lemma push_module_wp st :
  wp service_push_lservice_module (fun e st' =>
    keeps st st' /\ vm_log st' = vm_log st /\
    ((e = 0 /\ exists m, module_at (vm_calls st) (vm_store st) m (vm_store st') /\
        vm_calls st' = require_call (vm_store st) :: vm_calls st /\ vm_stack st' = VTable m :: vm_stack st) \/
     (e = EINVAL /\ exists v vs, vm_stack st' = v :: vs ++ vm_stack st))) st.
Proof.
  unfold service_push_lservice_module. apply wp_bind. unfold wp at 1. cbn.
  apply wp_bind. eapply wp_at; [reflexivity|done|].
  change (lua_field _ _ _) with (require_of (vm_store st)). set (require := require_of (vm_store st)).
  destruct (is_function require) eqn:Hr; cbn [negb].
  2: { cbn. unfold wp; cbn. split_and!; [done|done|]. right. split; [done|]. by exists (VString (bytes_of "service require is unavailable")), [require]. }
  apply wp_bind. unfold wp at 1. cbn. apply wp_bind.
  eapply (wp_pcall1 1 require [service_name]); [reflexivity|done| |]; intros v st' Hv (Hk & Hl & Hc & Hs); cbn [negb].
  - apply wp_ret. split_and!; [keep|done|]. right. split; [done|]. by exists v, [].
  - apply wp_bind. eapply wp_at; [exact Hs|done|]. destruct v as [| | | | | | |m|]; cbn [is_table negb].
    8: { apply wp_ret. split_and!; [keep|done|]. left. split; [done|]. by exists m. }
    all: apply wp_bind; unfold wp; cbn; split_and!; [keep|done|right]; split; [done|];
      exists (VString (bytes_of "service module did not return a table")), []; unfold vm_stack in *; cbn; by rewrite Hs.
Qed.

(** *** Fields, arguments *)

Lemma wp_gettop (Q : Z -> vm -> Prop) st : Q (Z.of_nat (length (vm_stack st))) st -> wp gettop Q st.
Proof. done. Qed.

Lemma wp_pushvalue v index (Q : unit -> vm -> Prop) st :
  lua_at (vm_lua st) index = Some v -> Q tt (with_lua (lua_push v (vm_lua st)) st) -> wp (pushvalue index) Q st.
Proof. intros Hi HQ. unfold wp, pushvalue, on_lua, lua_pushvalue. by rewrite Hi. Qed.

Lemma wp_getfield p index name (Q : unit -> vm -> Prop) st :
  lua_at (vm_lua st) index = Some (VTable p) ->
  Q tt (with_lua (lua_push (lua_field (vm_lua st) p name) (vm_lua st)) st) ->
  wp (getfield index name) Q st.
Proof. intros Hi HQ. apply wp_bind. unfold wp at 1, at_index. by rewrite Hi. Qed.

Definition service_args (st : vm) : list value :=
  VLightUserdata env_service :: match vm_config st with Some c => [VLightUserdata c] | None => [] end.

Lemma push_arguments_wp (Q : nat -> vm -> Prop) st :
  (forall st', keeps st st' -> vm_log st' = vm_log st -> vm_calls st' = vm_calls st ->
     vm_store st' = vm_store st -> vm_stack st' = rev (service_args st) ++ vm_stack st -> Q (length (service_args st)) st') ->
  wp push_arguments Q st.
Proof.
  intros HQ. unfold push_arguments. apply wp_bind. unfold wp at 1. cbn. apply wp_bind. unfold wp at 1. cbn.
  unfold service_args in HQ. destruct (vm_config st) as [c|] eqn:Hc.
  - apply wp_bind. unfold wp; cbn. by apply HQ.
  - apply wp_ret. by apply HQ.
Qed.

(** An error is on the top of the stack, above what was there. *)
Definition error_above (st st' : vm) : Prop := exists v vs, vm_stack st' = v :: vs ++ vm_stack st.

(** [service.input] was called with the service's arguments. *)
Definition bound_at (hist : list lua_call) (args : list value) (s : store) (m : Z) (s' : store) (hist' : list lua_call) :
    Prop :=
  exists s1 v, module_at hist s m s1 /\ is_function (field s1 m "input") = true /\
    returned (require_call s :: hist) (field s1 m "input") args s1 v s' /\
    hist' = (field s1 m "input", args) :: require_call s :: hist.

(** [service.dispatch] made a handler of a table. *)
Definition normalized_at (hist : list lua_call) (t : Z) (s : store) (handler : value) (s' : store) (hist' : list lua_call) :
    Prop :=
  exists s1 m, module_at hist s m s1 /\ is_function (field s1 m "dispatch") = true /\
    returned (require_call s :: hist) (field s1 m "dispatch") [VTable t] s1 handler s' /\
    is_function handler = true /\ hist' = (field s1 m "dispatch", [VTable t]) :: require_call s :: hist.

Lemma bind_wp st :
  wp service_bind_lservice (fun e st' =>
    keeps st st' /\ vm_log st' = vm_log st /\
    ((e = 0 /\ exists m, bound_at (vm_calls st) (service_args st) (vm_store st) m (vm_store st') (vm_calls st') /\
        vm_stack st' = vm_stack st) \/
     (e = EINVAL /\ error_above st st'))) st.
Proof.
  unfold service_bind_lservice. apply wp_bind, wp_gettop, wp_bind. eapply wp_mono; [apply push_module_wp|].
  intros e st1 (Hk & Hl & [(-> & m & Hm & Hc & Hs)|(-> & Hs)]); cbn [negb Z.eqb].
  2: { apply wp_ret. split_and!; [done|done|by right]. }
  apply wp_bind, wp_gettop, wp_bind. rewrite Hs.
  eapply wp_getfield; [apply (lua_at_height (VTable m) (vm_stack st) [])|]; [done|].
  set (st2 := with_lua _ _). set (input := lua_field _ _ _) in *.
  assert (Hs2 : vm_stack st2 = input :: VTable m :: vm_stack st) by (unfold vm_stack in *; cbn; by rewrite Hs).
  apply wp_bind. eapply wp_at; [exact Hs2|done|]. destruct (is_function input) eqn:Hi; cbn [negb].
  2: { apply wp_bind. eapply (wp_settop [input; VTable m]); [done|]. apply wp_bind. unfold wp; cbn.
       split_and!; [keep|done|]. right. split; [done|]. by exists (VString (bytes_of "service.input is unavailable")), []. }
  assert (Ha : service_args st2 = service_args st) by (unfold service_args; cbn; by rewrite (kp_config _ _ Hk)).
  apply wp_bind, push_arguments_wp. intros st3 Hk3 Hl3 Hc3 Hst3 Hs3. rewrite Hs2, Ha in *.
  apply wp_bind. eapply (wp_pcall0 _ input (service_args st)); [exact Hs3|done| |];
    intros v st4 Hv (Hk4 & Hl4 & Hc4 & Hs4); cbn [negb].
  - apply wp_ret. split_and!; [keep|by rewrite Hl4, Hl3|].
    right. split; [done|]. by exists v, [VTable m].
  - apply wp_bind. eapply (wp_settop [VTable m]); [done|]. apply wp_ret.
    split_and!; [keep|cbn; by rewrite Hl4, Hl3|].
    left. split; [done|]. exists m. split; [|done]. exists (vm_store st1), v. cbn in Hv. rewrite Hc3, ?Hst3 in Hv. rewrite Hc3 in Hc4.
    cbn in Hv, Hc4. rewrite Hc in Hv, Hc4. by split_and!.
Qed.

(** The table [t] is on the top: its handler takes its place. *)
Lemma normalize_wp t stack st :
  vm_stack st = VTable t :: stack ->
  wp service_normalize_handler (fun e st' =>
    keeps st st' /\ vm_log st' = vm_log st /\
    ((e = 0 /\ exists handler, normalized_at (vm_calls st) t (vm_store st) handler (vm_store st') (vm_calls st') /\
        vm_stack st' = handler :: stack) \/
     (e = EINVAL /\ error_above st st'))) st.
Proof.
  intros Hst. unfold service_normalize_handler. apply wp_bind, wp_gettop, wp_bind. eapply wp_mono; [apply push_module_wp|].
  intros e st1 (Hk & Hl & [(-> & m & Hm & Hc & Hs)|(-> & Hs)]); cbn [negb Z.eqb].
  2: { apply wp_ret. split_and!; [done|done|by right]. }
  apply wp_bind, wp_gettop, wp_bind. rewrite Hs.
  eapply wp_getfield; [apply (lua_at_height (VTable m) (vm_stack st) [])|]; [done|].
  set (st2 := with_lua _ _). set (dispatch := lua_field _ _ _) in *.
  assert (Hs2 : vm_stack st2 = dispatch :: VTable m :: VTable t :: stack)
    by (unfold vm_stack in *; cbn; by rewrite Hs, Hst).
  apply wp_bind. eapply wp_at; [exact Hs2|done|]. destruct (is_function dispatch) eqn:Hi; cbn [negb].
  2: { apply wp_bind. eapply (wp_settop [dispatch; VTable m] (vm_stack st)); [by rewrite Hst|]. apply wp_bind. unfold wp; cbn.
       split_and!; [keep|done|]. right. split; [done|]. by exists (VString (bytes_of "service.dispatch is unavailable")), []. }
  rewrite Hst. apply wp_bind. unfold wp at 1, pushvalue, on_lua, lua_pushvalue.
  rewrite (lua_at_height (VTable t) stack [dispatch; VTable m]) by exact Hs2. cbn [obind].
  apply wp_bind. eapply (wp_pcall1 1 dispatch [VTable t] (VTable m :: VTable t :: stack)); [cbn; by f_equal|done| |];
    intros v st4 Hv (Hk4 & Hl4 & Hc4 & Hs4); cbn [negb].
  - apply wp_ret. split_and!; [keep|by rewrite Hl4|].
    right. split; [done|]. exists v, [VTable m]. by rewrite Hst.
  - apply wp_bind. eapply wp_at; [exact Hs4|done|]. destruct (is_function v) eqn:Hf; cbn [negb].
    2: { apply wp_bind. eapply (wp_settop [v; VTable m] (VTable t :: stack)); [done|]. apply wp_bind. unfold wp; cbn.
         split_and!; [keep|by rewrite Hl4|]. right. split; [done|].
         exists (VString (bytes_of "service.dispatch did not return a function")), []. by rewrite Hst. }
    apply wp_bind. unfold wp at 1, on_lua, lua_replace. change (lua_stack (vm_lua st4)) with (vm_stack st4). rewrite Hs4.
    cbn [length]. rewrite (proj2 (Z.leb_le _ _)), (proj2 (Z.leb_le _ _)) by lia. cbn [andb obind].
    replace (Z.to_nat _) with 1%nat by lia. cbn [list_insert insert].
    apply wp_bind. eapply (wp_settop [VTable m] (v :: stack)); [done|]. apply wp_ret.
    split_and!; [keep|cbn; by rewrite Hl4|].
    left. split; [done|]. exists v. split; [|done]. exists (vm_store st1), m. cbn in Hc4, Hv. rewrite Hc in Hc4, Hv.
    by split_and!.
Qed.

(** ** The handler *)

Definition config_live (st : vm) : Prop := match vm_config st with Some c => c ∈ vm_heap st | None => True end.

(** The heap without the configuration. *)
Definition released (st : vm) : gset Z :=
  match vm_config st with Some c => vm_heap st ∖ {[c]} | None => vm_heap st end.

Lemma release_wp (Q : unit -> vm -> Prop) st :
  config_live st -> Q tt (with_config None (with_heap (released st) st)) -> wp release Q st.
Proof.
  intros Hl HQ. unfold release. apply wp_bind. unfold wp at 1. cbn. apply wp_bind. unfold wp, vm_free.
  unfold config_live, released in *. destruct (vm_config st) as [c|]; cbn; [|exact HQ].
  by rewrite decide_True.
Qed.

(** The configuration is gone, once. *)
Record gone (st st' : vm) : Prop := Gone {
  gn_open : vm_open st' = vm_open st;
  gn_config : vm_config st' = None;
  gn_heap : vm_heap st' = released st;
  gn_files : vm_files st' = vm_files st
}.

Lemma released_keeps st st' : keeps st st' -> released st' = released st.
Proof. intros []. unfold released. by rewrite kp_config0, kp_heap0. Qed.

Lemma config_live_keeps st st' : keeps st st' -> config_live st -> config_live st'.
Proof. intros []. unfold config_live. by rewrite kp_config0, kp_heap0. Qed.

Lemma service_args_keeps st st' : keeps st st' -> service_args st' = service_args st.
Proof. intros []. unfold service_args. by rewrite kp_config0. Qed.

Lemma gone_keeps st st' : keeps st st' -> gone st (with_config None (with_heap (released st') st')).
Proof. intros Hk. rewrite (released_keeps st st' Hk). destruct Hk. by split. Qed.

(** The ends of a failed initialisation. *)
Lemma log_top_wp v stack (Q : unit -> vm -> Prop) st :
  vm_stack st = v :: stack -> Q tt (with_log (lua_tostring env_text v :: vm_log st) st) -> wp log_top Q st.
Proof.
  intros Hs HQ. unfold log_top, tostring. apply wp_bind, wp_bind. eapply wp_at; [exact Hs|done|].
  by apply wp_ret.
Qed.

Lemma fail_wp v stack st st' :
  keeps st st' -> config_live st -> vm_stack st' = v :: stack ->
  wp (release ;;; log_top ;;; vret EINVAL)
    (fun e st'' => e = EINVAL /\ gone st st'' /\ vm_func_ref st'' = vm_func_ref st) st'.
Proof.
  intros Hk Hl Hs. apply wp_bind, release_wp; [by eapply config_live_keeps|].
  pose proof (gone_keeps st st' Hk) as [].
  apply wp_bind. eapply log_top_wp; [exact Hs|]. apply wp_ret. split; [done|]. split; [by split|apply Hk].
Qed.

(** The chunk, called once the module is bound, gave the handler [h]: it is the
    function it returned, or [service.dispatch] made it of the table it
    returned. *)
Definition handler_at (hist : list lua_call) (args : list value) (chunk : value) (s : store) (h : value)
    (hist' : list lua_call) : Prop :=
  exists m s1 hist1, bound_at hist args s m s1 hist1 /\
    ((exists s2, returned hist1 chunk args s1 h s2 /\ is_function h = true /\ hist' = (chunk, args) :: hist1) \/
     (exists t s2 s3, returned hist1 chunk args s1 (VTable t) s2 /\
        normalized_at ((chunk, args) :: hist1) t s2 h s3 hist')).

(** The end of a successful one. *)
Lemma accept_wp h stack st st' :
  keeps st st' -> config_live st -> vm_stack st' = h :: stack -> vm_log st' = vm_log st ->
  wp (release ;;;
      handler <~ at_index (-1) ;;
      if negb (is_function handler) then vret EINVAL else ref_top ;;; vret 0)
    (fun e st'' => gone st st'' /\
       if is_function h
       then e = 0 /\ vm_func_ref st'' = Some h /\ vm_stack st'' = stack /\ vm_log st'' = vm_log st /\
            vm_calls st'' = vm_calls st'
       else e = EINVAL /\ vm_func_ref st'' = vm_func_ref st) st'.
Proof.
  intros Hk Hl Hs Hlog. apply wp_bind, release_wp; [by eapply config_live_keeps|].
  pose proof (gone_keeps st st' Hk) as [].
  apply wp_bind. eapply wp_at; [exact Hs|done|]. destruct (is_function h) eqn:Hf; cbn [negb].
  2: { apply wp_ret. split; [by split|]. split; [done|apply Hk]. }
  apply wp_bind. unfold ref_top. apply wp_bind. eapply wp_at; [exact Hs|done|]. apply wp_bind. unfold wp; cbn.
  rewrite bool_decide_eq_false_2 by (by intros ->). split; [by split|]. split_and!; [done|done| |done|done].
  unfold vm_stack in *. cbn. by rewrite Hs.
Qed.

Lemma init_handler_wp chunk stack st :
  vm_stack st = chunk :: stack -> config_live st ->
  wp init_handler (fun e st' => gone st st' /\
    ((e = 0 /\ exists h, vm_func_ref st' = Some h /\ is_function h = true /\ vm_stack st' = stack /\ vm_log st' = vm_log st /\
        handler_at (vm_calls st) (service_args st) chunk (vm_store st) h (vm_calls st')) \/
     (e = EINVAL /\ vm_func_ref st' = vm_func_ref st))) st.
Proof.
  intros Hst Hlive. unfold init_handler.
  assert (Hfail : forall v vs st', keeps st st' -> vm_stack st' = v :: vs ->
    wp (release ;;; log_top ;;; vret EINVAL) (fun e st' => gone st st' /\
    ((e = 0 /\ exists h, vm_func_ref st' = Some h /\ is_function h = true /\ vm_stack st' = stack /\ vm_log st' = vm_log st /\
        handler_at (vm_calls st) (service_args st) chunk (vm_store st) h (vm_calls st')) \/
     (e = EINVAL /\ vm_func_ref st' = vm_func_ref st))) st').
  { intros v vs st' Hk Hs. eapply wp_mono; [by eapply fail_wp|]. intros e st'' (-> & Hg & Hf). split; [done|by right]. }
  apply wp_bind. eapply wp_mono; [apply bind_wp|].
  intros e st1 (Hk1 & Hl1 & [(-> & m & Hb & Hs1)|(-> & v & vs & Hs1)]); cbn [negb Z.eqb]; [|by eapply Hfail].
  apply wp_bind, push_arguments_wp. intros st2 Hk2 Hl2 Hc2 Hst2 Hs2.
  rewrite Hs1, Hst, (service_args_keeps st st1 Hk1) in *.
  apply wp_bind. eapply (wp_pcall1 _ chunk (service_args st)); [exact Hs2|done| |];
    intros v st3 Hv (Hk3 & Hl3 & Hc3 & Hs3); cbn [negb]; [eapply Hfail; [keep|exact Hs3]|].
  rewrite Hc2, Hst2 in Hv. rewrite Hc2 in Hc3.
  assert (Hk : keeps st st3) by keep.
  apply wp_bind. eapply wp_at; [exact Hs3|done|]. apply wp_bind.
  destruct (is_table v) eqn:Ht.
  - destruct v as [| | | | | | |t|]; try done. eapply wp_mono; [by eapply normalize_wp|].
    intros e st4 (Hk4 & Hl4 & [(-> & h & Hn & Hs4)|(-> & w & ws & Hs4)]); cbn [negb Z.eqb]; [|eapply Hfail; [keep|exact Hs4]].
    eapply wp_mono; [eapply (accept_wp h); [|exact Hlive|exact Hs4|congruence]; keep|].
    assert (Hf : is_function h = true) by by destruct Hn as (? & ? & ? & ? & ? & ? & ?).
    rewrite Hf. intros e st5 (Hg & -> & Hr & Hs5 & Hl5 & Hc5). split; [done|]. left. split; [done|]. exists h.
    split_and!; [done..|]. exists m, (vm_store st1), (vm_calls st1). split; [done|]. right.
    exists t, (vm_store st3), (vm_store st4). split; [done|]. by rewrite Hc5, <- Hc3.
  - apply wp_ret. cbn [negb Z.eqb].
    eapply wp_mono; [eapply (accept_wp v); [exact Hk|exact Hlive|exact Hs3|congruence]|].
    destruct (is_function v) eqn:Hf; [|by intros e st5 (Hg & -> & Hr); split; [|right]].
    intros e st5 (Hg & -> & Hr & Hs5 & Hl5 & Hc5). split; [done|]. left. split; [done|]. exists v.
    split_and!; [done..|]. exists m, (vm_store st1), (vm_calls st1). split; [done|]. left.
    exists (vm_store st3). split_and!; [done|done|]. by rewrite Hc5.
Qed.

(** ** Loading a file *)

(** Only the stack may differ. *)
Definition stack_only (st st' : vm) : Prop :=
  keeps st st' /\ vm_store st' = vm_store st /\ vm_log st' = vm_log st /\ vm_calls st' = vm_calls st.

(** What compiling a text pushes. *)
Definition compiled (text name : list Z) (st : vm) (status : Z) (st' : vm) : Prop :=
  match env_compile text name with
  | inl chunk => status = LUA_OK /\ vm_stack st' = VClosure chunk :: vm_stack st
  | inr (memory, message) =>
    status = (if memory then LUA_ERRMEM else LUA_ERRSYNTAX) /\ vm_stack st' = VString message :: vm_stack st
  end.

Definition file_error (st : vm) (status : Z) (st' : vm) : Prop :=
  status = LUA_ERRFILE /\ exists message, vm_stack st' = VString message :: vm_stack st.

(** The path of a name, after its [@]. *)
Definition at_path (at_name : option (list Z)) : option (list Z) :=
  match at_name with
  | Some (c :: (_ :: _) as path) => if c =? 64 then Some path else None
  | _ => None
  end.

(** The block for a file, when there is memory. *)
Definition file_block (f : file) (h : gset Z) : option Z :=
  match env_malloc (if f_length f =? 0 then 1 else f_length f) with
  | Some a => if bool_decide (a ∈ h) then None else Some a
  | None => None
  end.

Definition measured (f : file) : bool := f_end_ok f && (0 <=? f_length f) && f_rewind_ok f.

Definition file_loaded (at_name : option (list Z)) (st : vm) (status : Z) (st' : vm) : Prop :=
  match at_path at_name with
  | None => file_error st status st'
  | Some path =>
    match env_fopen path with
    | None => file_error st status st'
    | Some f =>
      if negb (measured f) then file_error st status st'
      else
        match file_block f (vm_heap st) with
        | None => status = LUA_ERRMEM /\ vm_stack st' = vm_stack st
        | Some _ =>
          if Z.of_nat (length (f_data f)) <? f_length f then file_error st status st'
          else compiled (take (Z.to_nat (f_length f)) (f_data f)) (default [] at_name) st status st'
        end
    end
  end.

Lemma mapM_id_Some (l : list Z) : mapM id (Some <$> l) = Some l.
Proof. induction l as [|x l IH]; [done|]. cbn in *. by rewrite IH. Qed.

Lemma loadbuffer_wp text name (Q : Z -> vm -> Prop) st :
  (forall status st', stack_only st st' -> compiled text name st status st' -> Q status st') ->
  wp (loadbuffer text name) Q st.
Proof.
  intros HQ. unfold loadbuffer. unfold compiled in HQ.
  destruct (env_compile text name) as [chunk|[memory message]]; unfold wp; cbn; apply HQ; done.
Qed.

(** A failure pushes its message and changes nothing else. *)
Lemma file_error_wp message st st' :
  stack_only st st' -> vm_stack st' = vm_stack st ->
  wp (push_text message ;;; vret LUA_ERRFILE) (fun status st'' => stack_only st st'' /\ file_error st status st'') st'.
Proof.
  intros (Hk & Hs & Hl & Hc) Hst. apply wp_bind. unfold wp; cbn. split; [split_and!; [keep|done..]|].
  split; [done|]. exists message. by rewrite <- Hst.
Qed.

Lemma fread_wp f n size (Q : Z * buffer -> vm -> Prop) st :
  0 <= n <= size ->
  (forall buf, holds (Z.to_nat size) buf (take (Z.to_nat n) (f_data f)) ->
     Q (Z.of_nat (length (take (Z.to_nat n) (f_data f))), buf) st) ->
  wp (fread (replicate (Z.to_nat size) None) n f) Q st.
Proof.
  intros Hn HQ. unfold wp, fread.
  destruct (memcpy_holds _ _ [] (take (Z.to_nat n) (f_data f)) (holds_nil (Z.to_nat size))) as (buf & E1 & E2).
  { rewrite length_take. cbn. lia. }
  cbn [length] in E1. change (Z.of_nat 0) with 0 in E1. rewrite E1. by apply HQ.
Qed.

Lemma block_bytes_wp size buf n bs (Q : list Z -> vm -> Prop) st :
  holds size buf bs -> Z.of_nat (length bs) = n -> Q bs st -> wp (block_bytes buf n) Q st.
Proof.
  intros Hh <- HQ. unfold wp, block_bytes. pose proof (holds_length _ _ _ Hh). destruct Hh as [H1 H2].
  rewrite (proj2 (Z.ltb_ge _ _)) by lia. by rewrite Nat2Z.id, H2, mapM_id_Some.
Qed.

(** Reading the file into a block of its own, which is freed. *)
Lemma read_file_wp f p name path st :
  measured f = true -> p ∉ vm_heap st ->
  let size := if f_length f =? 0 then 1 else f_length f in
  wp (read <~ fread (replicate (Z.to_nat size) None) (f_length f) f ;;
      fclose ;;;
      if negb (fst read =? f_length f) then
        vm_free (Some p) ;;; push_text (quoted "cannot read file '" path) ;;; vret LUA_ERRFILE
      else
        text <~ block_bytes (snd read) (f_length f) ;;
        status <~ loadbuffer text name ;;
        vm_free (Some p) ;;; vret status)
    (fun status st' => stack_only st st' /\
       if Z.of_nat (length (f_data f)) <? f_length f then file_error st status st'
       else compiled (take (Z.to_nat (f_length f)) (f_data f)) name st status st')
    (with_heap ({[p]} ∪ vm_heap st) (with_files (S (vm_files st)) st)).
Proof.
  intros Hm Hp size. unfold measured in Hm. apply andb_true_iff in Hm as [[_ Hm%Z.leb_le]%andb_true_iff _].
  assert (Hfree : forall st', vm_heap st' = {[p]} ∪ vm_heap st -> forall Q,
    Q tt (with_heap (vm_heap st) st') -> wp (vm_free (Some p)) Q st').
  { intros st' Hh Q HQ. unfold wp, vm_free, c_free. rewrite Hh, decide_True by set_solver.
    replace (({[p]} ∪ vm_heap st) ∖ {[p]}) with (vm_heap st) by set_solver. done. }
  apply wp_bind, fread_wp; [subst size; ztest; lia|]. intros buf Hbuf.
  assert (Hlen := length_take (f_data f) (Z.to_nat (f_length f))).
  apply wp_bind. unfold wp at 1. cbn [fclose vm_files with_heap with_files fst snd].
  destruct (Z.eqb_spec (Z.of_nat (length (take (Z.to_nat (f_length f)) (f_data f)))) (f_length f)); cbn [negb].
  - rewrite (proj2 (Z.ltb_ge _ _)) by lia. apply wp_bind. eapply block_bytes_wp; [exact Hbuf|done|].
    apply wp_bind, loadbuffer_wp. intros status st' (Hk & Hs & Hl & Hc) Hcomp.
    apply wp_bind, Hfree; [by rewrite (kp_heap _ _ Hk)|]. apply wp_ret. split; [split_and!; [keep|done..]|].
    unfold compiled in *. by destruct (env_compile _ name) as [|[]].
  - rewrite (proj2 (Z.ltb_lt _ _)) by lia. apply wp_bind, Hfree; [done|].
    apply file_error_wp; [|done]. split_and!; [keep|done..].
Qed.

Lemma loadfile_wp at_name st :
  wp (lua_loadfile_as_buffer at_name) (fun status st' => stack_only st st' /\ file_loaded at_name st status st') st.
Proof.
  assert (Hrefl : stack_only st st) by by split_and!.
  unfold lua_loadfile_as_buffer, file_loaded, at_path.
  destruct at_name as [[|c [|d path]]|]; try (by apply file_error_wp).
  destruct (c =? 64); [|by apply file_error_wp].
  apply wp_bind. unfold wp at 1, fopen. destruct (env_fopen (d :: path)) as [f|] eqn:Ef; [|by apply file_error_wp].
  assert (Hm : negb (f_end_ok f) || (f_length f <? 0) || negb (f_rewind_ok f) = negb (measured f))
    by (unfold measured; rewrite Z.ltb_antisym; by destruct (f_end_ok f), (0 <=? f_length f), (f_rewind_ok f)).
  rewrite Hm. destruct (measured f) eqn:Em; cbn [negb].
  2: { apply wp_bind. unfold wp at 1. cbn [fclose vm_files with_files]. apply file_error_wp; [|done].
       split_and!; [keep|done..]. }
  apply wp_bind. unfold wp at 1, vm_malloc, file_block. cbn [vm_heap with_files].
  destruct (env_malloc _) as [p|].
  2: { apply wp_bind. unfold wp; cbn. split; [|done]. split_and!; [keep|done..]. }
  destruct (bool_decide_reflect (p ∈ vm_heap st)) as [Hin|Hin].
  { apply wp_bind. unfold wp; cbn. split; [|done]. split_and!; [keep|done..]. }
  by apply (read_file_wp f p (c :: d :: path) (d :: path) st).
Qed.

(** ** Calling the handler *)

Definition handler_of (st : vm) : value := default VNil (vm_func_ref st).

(** What a call of the handler with a word answers: an error is logged. *)
Lemma dispatch_wp st :
  wp dispatch_batch (fun out st' =>
    keeps st st' /\ vm_stack st' = vm_stack st /\
    vm_calls st' = (handler_of st, [VString (bytes_of "msg")]) :: vm_calls st /\
    ((exists e, raised (vm_calls st) (handler_of st) [VString (bytes_of "msg")] (vm_store st) e (vm_store st') /\
        out = (Some (default (bytes_of "dispatcher error") (lua_tostring env_text e)), false) /\
        vm_log st' = lua_tostring env_text e :: vm_log st) \/
     (exists v, returned (vm_calls st) (handler_of st) [VString (bytes_of "msg")] (vm_store st) v (vm_store st') /\
        out = (None, bool_decide (v = VBoolean true)) /\ vm_log st' = vm_log st))) st.
Proof.
  unfold dispatch_batch. apply wp_bind, wp_gettop. apply wp_bind. unfold wp at 1. cbn.
  do 2 (apply wp_bind; unfold wp at 1; cbn). apply wp_bind.
  eapply (wp_pcall1 1 (handler_of st) [VString (bytes_of "msg")] (vm_stack st)); [done|done| |];
    intros v st1 Hv (Hk1 & Hl1 & Hc1 & Hs1); cbn [negb]; cbn in Hc1.
  - apply wp_bind, wp_bind, wp_bind. eapply wp_at; [exact Hs1|done|]. apply wp_ret.
    apply wp_bind. eapply log_top_wp; [exact Hs1|]. apply wp_ret.
    apply wp_bind. eapply (wp_settop [v]); [exact Hs1|]. apply wp_ret. split; [keep|]. split_and!; [done|done|].
    left. exists v. split_and!; [done|done|]. cbn. by rewrite Hl1.
  - apply wp_bind, wp_bind. eapply wp_at; [exact Hs1|done|]. apply wp_ret.
    apply wp_bind. eapply (wp_settop [v]); [exact Hs1|]. apply wp_ret. split; [keep|]. split_and!; [done|done|].
    right. exists v. split_and!; [done| |done]. f_equal. destruct v as [|[]| | | | | | |]; try done.
Qed.

Lemma notify_stop_wp st :
  wp service_notify_lua_stop (fun _ st' =>
    keeps st st' /\ vm_stack st' = vm_stack st /\
    vm_calls st' = (if has_handler st then (handler_of st, [VString (bytes_of "stop")]) :: vm_calls st else vm_calls st)) st.
Proof.
  unfold service_notify_lua_stop. apply wp_bind. unfold wp at 1. cbn.
  destruct (has_handler st); cbn [negb]; [|by apply wp_ret].
  apply wp_bind, wp_gettop. apply wp_bind. unfold wp at 1. cbn.
  do 2 (apply wp_bind; unfold wp at 1; cbn). apply wp_bind.
  eapply (wp_pcall0 1 (handler_of st) [VString (bytes_of "stop")] (vm_stack st)); [done|done| |];
    intros v st1 Hv (Hk1 & Hl1 & Hc1 & Hs1); cbn [negb]; cbn in Hc1; apply wp_bind.
  - eapply log_top_wp; [exact Hs1|]. eapply (wp_settop [v]); [exact Hs1|]. split; [keep|done].
  - apply wp_ret. eapply (wp_settop []); [exact Hs1|]. split; [keep|done].
Qed.

(** ** Closing the handles of Lua *)

(** What happens to one handle: the calls made and whether none failed. *)
Inductive handle_end (is_closing close h : value) (hist : list lua_call) (s : store) :
    bool -> list lua_call -> store -> Prop :=
| InspectFailed e s' : raised hist is_closing [h] s e s' ->
    handle_end is_closing close h hist s false ((is_closing, [h]) :: hist) s'
| AlreadyClosing v s' : returned hist is_closing [h] s v s' -> truth v = true ->
    handle_end is_closing close h hist s true ((is_closing, [h]) :: hist) s'
| CloseFailed v s1 e s' : returned hist is_closing [h] s v s1 -> truth v = false ->
    raised ((is_closing, [h]) :: hist) close [h] s1 e s' ->
    handle_end is_closing close h hist s false ((close, [h]) :: (is_closing, [h]) :: hist) s'
| Closed v s1 w s' : returned hist is_closing [h] s v s1 -> truth v = false ->
    returned ((is_closing, [h]) :: hist) close [h] s1 w s' ->
    handle_end is_closing close h hist s true ((close, [h]) :: (is_closing, [h]) :: hist) s'.

Inductive handles_end (is_closing close : value) : list value -> list lua_call -> store -> bool -> list lua_call -> store -> Prop :=
| NoHandle hist s : handles_end is_closing close [] hist s true hist s
| NextHandle h hs hist s ok hist1 s1 oks hist' s' :
    handle_end is_closing close h hist s ok hist1 s1 ->
    handles_end is_closing close hs hist1 s1 oks hist' s' ->
    handles_end is_closing close (h :: hs) hist s (ok && oks) hist' s'.

Definition error_if (ok : bool) (error : Z) : Z := if ok then error else EINVAL.

Lemma close_luv_handle_wp is_closing close h error st :
  wp (close_luv_handle is_closing close h error) (fun e st' =>
    keeps st st' /\ vm_stack st' = vm_stack st /\
    exists ok, e = error_if ok error /\
      handle_end is_closing close h (vm_calls st) (vm_store st) ok (vm_calls st') (vm_store st')) st.
Proof.
  set (Q := fun (e : Z) st' => keeps st st' /\ exists ok, e = error_if ok error /\
    handle_end is_closing close h (vm_calls st) (vm_store st) ok (vm_calls st') (vm_store st')).
  match goal with |- wp ?m ?P st => set (post := P) end. unfold wp, close_luv_handle.
  match goal with |- context [obind (?m ?st0) _] =>
    cut (wp m Q st0); [|clear post] end.
  { rewrite wp_Done. intros (e & st' & -> & Hk & Ho). cbn [obind]. subst post. cbv beta. split; [keep|]. by split. }
  apply wp_bind. unfold wp at 1. cbn. apply wp_bind. unfold wp at 1. cbn. apply wp_bind.
  eapply (wp_pcall1 1 is_closing [h] [h]); [done|done| |]; intros v st1 Hv (Hk1 & Hl1 & Hc1 & Hs1); cbn [negb];
    cbn in Hv, Hc1.
  - apply wp_bind. eapply log_top_wp; [exact Hs1|]. apply wp_bind. unfold wp; cbn. split; [keep|].
    exists false. split; [done|]. cbn. rewrite Hc1. by eapply InspectFailed.
  - apply wp_bind. eapply wp_at; [exact Hs1|done|]. apply wp_bind. unfold wp at 1. cbn.
    destruct (truth v) eqn:Ht.
    { apply wp_ret. split; [keep|]. exists true. split; [done|]. cbn. rewrite Hc1. by eapply AlreadyClosing. }
    apply wp_bind. unfold wp at 1. cbn. apply wp_bind.
    eapply wp_pushvalue; [apply (lua_at_height h [] [close]); unfold vm_stack in Hs1; cbn; by rewrite Hs1|].
    apply wp_bind. eapply (wp_pcall0 1 close [h] [h]); [unfold vm_stack in *; cbn; by rewrite Hs1|done| |];
      intros w st2 Hw (Hk2 & Hl2 & Hc2 & Hs2); cbn [negb]; cbn in Hw, Hc2; rewrite Hc1 in Hw, Hc2.
    + apply wp_bind. eapply log_top_wp; [exact Hs2|]. apply wp_bind. unfold wp; cbn. split; [keep|].
      exists false. split; [done|]. cbn. rewrite Hc2. by eapply CloseFailed.
    + apply wp_ret. split; [keep|]. exists true. split; [done|]. rewrite Hc2. by eapply Closed.
Qed.

Lemma walk_handles_wp is_closing close hs error st :
  error = 0 \/ error = EINVAL ->
  wp (walk_handles is_closing close hs error) (fun e st' =>
    keeps st st' /\ vm_stack st' = vm_stack st /\
    exists ok, e = error_if ok error /\
      handles_end is_closing close hs (vm_calls st) (vm_store st) ok (vm_calls st') (vm_store st')) st.
Proof.
  revert error st. induction hs as [|h hs IH]; intros error st He; cbn [walk_handles].
  - apply wp_ret. split_and!; [done|done|]. exists true. split; [done|constructor].
  - apply wp_bind. eapply wp_mono; [apply close_luv_handle_wp|]. intros e1 st1 (Hk1 & Hs1 & ok & -> & H1).
    eapply wp_mono; [apply IH|].
    { destruct ok; cbn; auto. }
    intros e2 st2 (Hk2 & Hs2 & oks & -> & H2). split; [keep|]. split; [congruence|]. exists (ok && oks).
    split; [by destruct ok, oks|]. by econstructor.
Qed.

(** The three functions, when [package.loaded.luv] is a table that has them. *)
Definition luv_functions (s : store) : option (value * value * value) :=
  match field s env_globals "package" with
  | VTable p =>
    match field s p "loaded" with
    | VTable q =>
      match field s q "luv" with
      | VTable l =>
        let '(walk, is_closing, close) := (field s l "walk", field s l "is_closing", field s l "close") in
        if is_function walk && is_function is_closing && is_function close then Some (walk, is_closing, close) else None
      | _ => None
      end
    | _ => None
    end
  | _ => None
  end.

(** What closing the handles means. *)
Definition handles_closed_at (st : vm) (e : Z) (st' : vm) : Prop :=
  match luv_functions (vm_store st) with
  | None => e = ENOENT /\ vm_calls st' = vm_calls st /\ vm_store st' = vm_store st
  | Some (walk, is_closing, close) =>
    let '(s1, handles, raised) := env_walk (vm_calls st) walk (vm_store st) in
    exists ok, handles_end is_closing close handles ((walk, [VClosure env_closure]) :: vm_calls st) s1 ok
        (vm_calls st') (vm_store st') /\
      e = if ok && bool_decide (raised = None) then 0 else EINVAL
  end.

(** Giving up leaves the state as it was. *)
Lemma unavailable_wp vs st st' :
  stack_only st st' -> vm_stack st' = vs ++ vm_stack st -> luv_functions (vm_store st) = None ->
  wp (unavailable (Z.of_nat (length (vm_stack st))))
    (fun e st'' => keeps st st'' /\ vm_stack st'' = vm_stack st /\ handles_closed_at st e st'') st'.
Proof.
  intros (Hk & Hs & Hl & Hc) Hst Hn. apply wp_bind. eapply wp_settop; [exact Hst|]. apply wp_ret.
  split; [keep|]. split; [done|]. unfold handles_closed_at. by rewrite Hn.
Qed.

(** The call of [walk], its three functions on the stack: its error is on the
    top. *)
Lemma pcall_walk_wp walk is_closing close c stack st :
  vm_stack st = c :: close :: is_closing :: walk :: stack ->
  let '(s1, handles, r) := env_walk (vm_calls st) walk (vm_store st) in
  wp pcall_walk (fun out st' => keeps st st' /\ exists ok,
    out = (bool_decide (r = None), error_if ok 0) /\
    vm_stack st' = match r with Some e => [e] | None => [] end ++ stack /\
    handles_end is_closing close handles ((walk, [VClosure env_closure]) :: vm_calls st) s1 ok
      (vm_calls st') (vm_store st')) st.
Proof.
  intros Hst. destruct (env_walk (vm_calls st) walk (vm_store st)) as [[[h fresh] handles] r] eqn:Ew.
  unfold wp, pcall_walk. rewrite Hst. fold (vm_store st). rewrite Ew.
  match goal with |- context [walk_handles _ _ _ _ ?s] =>
    pose proof (walk_handles_wp is_closing close handles 0 s (or_introl eq_refl)) as Hw end.
  apply wp_Done in Hw as (e & st1 & -> & Hk1 & Hs1 & ok & -> & Hh). cbn in Hs1, Hh.
  destruct r as [err|]; cbn; split; try keep; exists ok; (split; [done|]).
  - split; [|done]. unfold vm_stack in *. cbn. by rewrite Hs1.
  - by split.
Qed.

(** [walk] and what follows. *)
Lemma walk_wp walk is_closing close vs st st' c :
  stack_only st st' -> vm_stack st' = c :: close :: is_closing :: walk :: vs ++ vm_stack st ->
  luv_functions (vm_store st) = Some (walk, is_closing, close) ->
  wp (walked <~ pcall_walk ;;
      error <~ (if negb (fst walked) then log_top ;;; vret EINVAL else vret (snd walked)) ;;
      settop (Z.of_nat (length (vm_stack st))) ;;; vret error)
    (fun e st'' => keeps st st'' /\ vm_stack st'' = vm_stack st /\ handles_closed_at st e st'') st'.
Proof.
  intros (Hk & Hs & Hl & Hc) Hst Hf. pose proof (pcall_walk_wp walk is_closing close c _ st' Hst) as Hw.
  unfold handles_closed_at. rewrite Hf, <- Hs, <- Hc.
  destruct (env_walk _ walk _) as [[s1 handles] r]. apply wp_bind. eapply wp_mono; [exact Hw|].
  intros out st1 (Hk1 & ok & -> & Hs1 & Hh). cbn [fst snd]. apply wp_bind. destruct r as [err|]; cbn [negb bool_decide].
  - rewrite bool_decide_eq_false_2 by done. cbn [negb]. apply wp_bind. eapply log_top_wp; [exact Hs1|]. apply wp_ret.
    apply wp_bind. eapply (wp_settop (err :: vs)); [exact Hs1|]. apply wp_ret.
    split; [keep|]. split; [done|]. exists ok. split; [done|]. by rewrite andb_false_r.
  - rewrite bool_decide_eq_true_2 by done. cbn [negb]. apply wp_ret.
    apply wp_bind. eapply (wp_settop vs); [exact Hs1|]. apply wp_ret.
    split; [keep|]. split; [done|]. exists ok. split; [done|]. by rewrite andb_true_r.
Qed.

(** A field read and tested, on a stack that differs from [st]'s only above. *)
Lemma field_wp {A} p index name vs st st' (k : value -> M A) Q :
  stack_only st st' -> vm_stack st' = vs ++ vm_stack st -> lua_at (vm_lua st') index = Some (VTable p) ->
  (forall st2, stack_only st st2 -> vm_stack st2 = (field (vm_store st) p name :: vs) ++ vm_stack st ->
     wp (k (field (vm_store st) p name)) Q st2) ->
  wp (getfield index name ;;; v <~ at_index (-1) ;; k v) Q st'.
Proof.
  intros (Hk & Hs & Hl & Hc) Hst Hi HQ. apply wp_bind. eapply wp_getfield; [exact Hi|].
  change (lua_field (vm_lua st') p name) with (field (vm_store st') p name). rewrite Hs.
  set (st2 := with_lua _ st'). assert (Hs2 : vm_stack st2 = (field (vm_store st) p name :: vs) ++ vm_stack st)
    by (unfold vm_stack in *; cbn; by rewrite Hst).
  apply wp_bind. eapply wp_at; [exact Hs2|done|]. apply HQ; [|exact Hs2]. split_and!; [keep|done..].
Qed.

Lemma close_luv_wp st :
  wp service_close_luv_handles (fun e st' => keeps st st' /\ vm_stack st' = vm_stack st /\
    if vm_open st then handles_closed_at st e st' else e = 0 /\ st' = st) st.
Proof.
  unfold service_close_luv_handles. apply wp_bind. unfold wp at 1. cbn.
  destruct (vm_open st); cbn [negb]; [|by apply wp_ret].
  apply wp_bind, wp_gettop, wp_bind. unfold wp at 1, getglobal, modify, lua_getglobal.
  set (s := vm_store st). change (lua_field (vm_lua st) env_globals "package") with (field s env_globals "package").
  set (st1 := with_lua _ st). assert (H1 : stack_only st st1) by (split_and!; [keep|done..]).
  assert (S1 : vm_stack st1 = [field s env_globals "package"] ++ vm_stack st) by done. clearbody st1.
  apply wp_bind. eapply wp_at; [exact S1|done|].
  destruct (field s env_globals "package") as [| | | | | | |p|] eqn:Ep; cbn [is_table negb];
    try (eapply unavailable_wp; [exact H1|exact S1|]; change (vm_store st) with s; unfold luv_functions; by rewrite Ep).
  eapply field_wp; [exact H1|exact S1|by eapply at_top|]. intros st2 H2 S2. fold s in S2 |- *.
  destruct (field s p "loaded") as [| | | | | | |q|] eqn:Eq; cbn [is_table negb];
    try (eapply unavailable_wp; [exact H2|exact S2|]; change (vm_store st) with s; unfold luv_functions; by rewrite Ep, Eq).
  eapply field_wp; [exact H2|exact S2|by eapply at_top|]. intros st3 H3 S3. fold s in S3 |- *.
  destruct (field s q "luv") as [| | | | | | |l|] eqn:El; cbn [is_table negb];
    try (eapply unavailable_wp; [exact H3|exact S3|]; change (vm_store st) with s; unfold luv_functions; by rewrite Ep, Eq, El).
  assert (Hlf : luv_functions s =
    if is_function (field s l "walk") && is_function (field s l "is_closing") && is_function (field s l "close")
    then Some (field s l "walk", field s l "is_closing", field s l "close") else None)
    by (unfold luv_functions; by rewrite Ep, Eq, El).
  apply wp_bind, wp_gettop. rewrite S3. set (below := VTable q :: VTable p :: vm_stack st).
  eapply field_wp; [exact H3|exact S3|by apply (lua_at_height (VTable l) below [])|].
  intros st4 H4 S4. fold s in S4 |- *. destruct (is_function (field s l "walk")); cbn [negb andb] in *;
    [|by eapply unavailable_wp; [exact H4|exact S4|]].
  eapply field_wp; [exact H4|exact S4|by apply (lua_at_height (VTable l) below [field s l "walk"])|].
  intros st5 H5 S5. fold s in S5 |- *. destruct (is_function (field s l "is_closing")); cbn [negb andb] in *;
    [|by eapply unavailable_wp; [exact H5|exact S5|]].
  eapply field_wp; [exact H5|exact S5|by apply (lua_at_height (VTable l) below [field s l "is_closing"; field s l "walk"])|].
  intros st6 H6 S6. fold s in S6 |- *. destruct (is_function (field s l "close")); cbn [negb] in *;
    [|by eapply unavailable_wp; [exact H6|exact S6|]].
  apply wp_bind. unfold wp at 1. cbn [push modify].
  eapply (walk_wp _ _ _ [VTable l; VTable q; VTable p]); [| |exact Hlf].
  - destruct H6 as (? & ? & ? & ?). split_and!; [keep|done..].
  - unfold vm_stack in *. cbn. by rewrite S6.
Qed.

(** ** Initialising *)

(** The text of the source, and whether it is a file for which there is no
    memory. *)
Definition source_file (source : list Z) : option file :=
  if hd 0 source =? 64 then
    f ← at_path (Some source) ≫= env_fopen; if measured f then Some f else None
  else None.

Definition source_text (source : list Z) : option (list Z) :=
  if hd 0 source =? 64 then
    f ← source_file source;
    if Z.of_nat (length (f_data f)) <? f_length f then None else Some (take (Z.to_nat (f_length f)) (f_data f))
  else Some source.

Definition unallocated (source : list Z) (h : gset Z) : bool :=
  match source_file source with
  | Some f => match file_block f h with None => true | Some _ => false end
  | None => false
  end.

Definition source_loaded (source : list Z) (st : vm) (status : Z) (st' : vm) : Prop :=
  if unallocated source (vm_heap st) then status = LUA_ERRMEM /\ vm_stack st' = vm_stack st
  else
    (status = LUA_OK /\ exists text chunk, source_text source = Some text /\ env_compile text source = inl chunk /\
       vm_stack st' = VClosure chunk :: vm_stack st) \/
    (status <> LUA_OK /\ exists message, vm_stack st' = VString message :: vm_stack st).

Lemma compiled_loaded text source st status st' :
  source_text source = Some text -> unallocated source (vm_heap st) = false ->
  compiled text source st status st' -> source_loaded source st status st'.
Proof.
  unfold source_loaded, compiled. intros Ht -> Hc. destruct (env_compile text source) as [chunk|[memory message]] eqn:Ec.
  - destruct Hc as [-> Hs]. left. split; [done|]. by exists text, chunk.
  - destruct Hc as [-> Hs]. right. split; [by destruct memory|]. by exists message.
Qed.

Lemma load_source_wp source st :
  wp (load_source source) (fun status st' => stack_only st st' /\ source_loaded source st status st') st.
Proof.
  unfold load_source. destruct (hd 0 source =? 64) eqn:Eh.
  2: { apply loadbuffer_wp. intros status st' Hk Hc. split; [done|].
       apply (compiled_loaded source); [|unfold unallocated|done]; unfold source_text, source_file; by rewrite Eh. }
  eapply wp_mono; [apply loadfile_wp|]. intros status st' [Hk Hl]. split; [done|].
  assert (Herr : file_error st status st' -> unallocated source (vm_heap st) = false -> source_loaded source st status st').
  { unfold source_loaded. intros (-> & message & Hs) ->. right. split; [done|]. by exists message. }
  assert (Hf : source_file source = ((at_path (Some source) ≫= env_fopen) ≫= (fun f => if measured f then Some f else None)))
    by (unfold source_file; by rewrite Eh).
  unfold file_loaded in Hl. cbn [default] in Hl.
  destruct (at_path (Some source)) as [path|]; [|apply Herr; [done|unfold unallocated; by rewrite Hf]]. cbn in Hf.
  destruct (env_fopen path) as [f|]; [|apply Herr; [done|unfold unallocated; by rewrite Hf]]. cbn in Hf.
  destruct (measured f); cbn [negb] in Hl; [|apply Herr; [done|unfold unallocated; by rewrite Hf]].
  destruct (file_block f (vm_heap st)) as [a|] eqn:Ea.
  2: { unfold source_loaded, unallocated. by rewrite Hf, Ea. }
  assert (Hu : unallocated source (vm_heap st) = false) by (unfold unallocated; by rewrite Hf, Ea).
  destruct (Z.of_nat (length (f_data f)) <? f_length f) eqn:El; [by apply Herr|].
  eapply compiled_loaded; [|done|exact Hl]. unfold source_text. rewrite Eh, Hf. cbn. by rewrite El.
Qed.

(** How initialising ends. *)
Definition init_done (source : list Z) (st : vm) (e : Z) (st' : vm) : Prop :=
  vm_files st' = vm_files st /\
  ((e = ENOMEM /\ st' = st) \/
   (e = EINVAL /\ vm_open st' = true /\ vm_config st' = vm_config st /\ vm_heap st' = vm_heap st /\
      vm_func_ref st' = vm_func_ref st) \/
   (e = EINVAL /\ vm_open st' = true /\ vm_config st' = None /\ vm_heap st' = released st /\
      vm_func_ref st' = vm_func_ref st) \/
   (e = 0 /\ vm_open st' = true /\ vm_config st' = None /\ vm_heap st' = released st /\
      vm_stack st' = [] /\ vm_log st' = vm_log st /\
      exists text chunk s handler, source_text source = Some text /\ env_compile text source = inl chunk /\
        vm_func_ref st' = Some handler /\ is_function handler = true /\
        handler_at (vm_calls st) (service_args st) (VClosure chunk) s handler (vm_calls st'))).

Definition starved (source : list Z) (st : vm) : bool :=
  bool_decide (env_newstate <> None) && unallocated source (vm_heap st).

(** Nothing in the state of a fresh service can make the log of a failed load
    read below the stack, except a file too large for the memory. *)
Definition init_end (source : list Z) (st : vm) (r : outcome (Z * vm)) : Prop :=
  if starved source st then r = Undef UBStackIndex
  else exists e st', r = Done (e, st') /\ init_done source st e st'.

(** The last step, luv being loaded. *)
Lemma init_rest source s st chunk text L st1 :
  config_live st -> stack_only (opened s st) st1 -> vm_stack st1 = [VClosure chunk] ->
  source_text source = Some text -> env_compile text source = inl chunk ->
  lua_stack L = vm_stack st1 ->
  wp init_handler (init_done source st) (with_lua L st1).
Proof.
  intros Hlive (Hk & Hs & Hl & Hc) Hst Ht Hcomp HL.
  assert (Hst' : vm_stack (with_lua L st1) = [VClosure chunk]) by (unfold vm_stack in *; cbn; congruence).
  assert (Hk1 : keeps (opened s st) (with_lua L st1)) by keep.
  assert (Hr : released (with_lua L st1) = released st) by apply (released_keeps (opened s st) _ Hk1).
  assert (Ha : service_args (with_lua L st1) = service_args st) by apply (service_args_keeps (opened s st) _ Hk1).
  eapply wp_mono; [eapply init_handler_wp; [exact Hst'|by apply (config_live_keeps (opened s st) _ Hk1)]|].
  intros e st2 [[Ho Hcf Hh Hf] Hcase]. rewrite Hr in Hh. cbn in Ho, Hf. unfold init_done.
  destruct Hk as [K1 K2 K3 K4 K5]. cbn in K1, K3, K5, Hl, Hc. split; [congruence|]. right. right.
  destruct Hcase as [(-> & h & Href & Hfun & Hs2 & Hl2 & Hat)|(-> & Href)].
  - right. split_and!; [done|congruence|done|done|done|cbn in Hl2; congruence|].
    exists text, chunk, (vm_store (with_lua L st1)), h. split_and!; try done. rewrite Ha in Hat. cbn in Hat. rewrite Hc in Hat. done.
  - left. split_and!; [done|congruence|done|done|]. cbn in Href. congruence.
Qed.

(** Before luv is loaded: the end, or what goes on with luv. *)
Definition load_phase (source : list Z) (st : vm) : outcome (Z * vm) + option vm :=
  match env_newstate with
  | None => inl (Done (ENOMEM, st))
  | Some s =>
    match load_source source (opened s st) with
    | Done (status, st1) =>
      if negb (status =? LUA_OK) then inl (vbind log_top (fun _ => vret EINVAL) st1) else inr (Some st1)
    | _ => inr None
    end
  end.

Lemma load_phase_spec source st :
  match load_phase source st with
  | inl r => init_end source st r
  | inr (Some st1) =>
    starved source st = false /\
    exists s text chunk, stack_only (opened s st) st1 /\ vm_stack st1 = [VClosure chunk] /\
      source_text source = Some text /\ env_compile text source = inl chunk
  | inr None => False
  end.
Proof.
  unfold load_phase, init_end, starved. destruct env_newstate as [s|].
  2: { rewrite bool_decide_eq_false_2 by naive_solver. cbn [andb]. exists ENOMEM, st. split; [done|]. split; [done|by left]. }
  rewrite bool_decide_eq_true_2 by done. cbn [andb].
  destruct (proj1 (wp_Done _ _ _) (load_source_wp source (opened s st))) as (status & st1 & -> & Hk & Hl).
  unfold source_loaded in Hl. cbn [vm_heap opened] in Hl. destruct (unallocated source (vm_heap st)).
  - destruct Hl as [-> Hs]. cbn [negb Z.eqb LUA_ERRMEM LUA_OK]. change (4 =? 0) with false. cbn [negb].
    unfold vbind, log_top, tostring, at_index, vbind, lua_at. unfold vm_stack in Hs. cbn in Hs. by rewrite Hs.
  - destruct Hl as [(-> & text & chunk & Ht & Hc & Hs)|(Hne & message & Hs)].
    + cbn [negb]. change (LUA_OK =? LUA_OK) with true. cbn [negb]. split; [done|]. by exists s, text, chunk.
    + rewrite (proj2 (Z.eqb_neq _ _)) by done. cbn [negb].
      assert (Hw : wp (log_top ;;; vret EINVAL) (init_done source st) st1).
      { apply wp_bind. eapply log_top_wp; [exact Hs|]. apply wp_ret. destruct Hk as ([K1 K2 K3 K4 K5] & _).
        split; [done|]. right. left. by split_and!. }
      apply wp_Done in Hw as (e & st2 & Hr & Hd). exists e, st2. by split.
Qed.

Lemma init_end_Done source st r : init_end source st (Done r) -> init_done source st (fst r) (snd r).
Proof. unfold init_end. destruct (starved _ _); [done|]. by intros (e & st' & [= ->] & Hd). Qed.

(** Every run ends as [init_end] says. *)
Lemma init_run source loop st cs y r cs' y' :
  (forall f loop L, lua_stack (env_set_loop f loop L) = lua_stack L) -> config_live st ->
  den (service_init_lua source loop st) cs y (Done r) cs' y' -> init_done source st (fst r) (snd r).
Proof.
  intros Hlaw Hlive. pose proof (load_phase_spec source st) as Hp.
  unfold service_init_lua. unfold load_phase in Hp. destruct env_newstate as [s|].
  2: { intros (E1 & _). apply init_end_Done. by rewrite E1. }
  destruct (load_source source (opened s st)) as [[status st1]| | |]; try done. cbn [of_outcome].
  destruct (negb (status =? LUA_OK)).
  { intros (E1 & _). apply init_end_Done. by rewrite E1. }
  destruct Hp as (_ & s' & text & chunk & Hk & Hst & Ht & Hc).
  intros (luv & cs1 & y1 & H1 & H2)%den_bind_inv. destruct luv as [[error oL]| | |]; try (by destruct H2 as (? & _)).
  apply load_den_stack in H1 as (L & -> & HL); [|done]. cbn [of_outcome] in H2.
  change (default (vm_lua st1) (Some L)) with L in H2.
  destruct (error <? 0).
  - destruct H2 as ([= ->] & _). destruct Hk as ([K1 K2 K3 K4 K5] & _). split; [done|]. right. left. by split_and!.
  - destruct H2 as (E1 & _). assert (Hw := init_rest source s' st chunk text L st1 Hlive Hk Hst Ht Hc HL).
    apply wp_Done in Hw as (e & st2 & Er & Hd). rewrite Er in E1. by injection E1 as ->.
Qed.

(** And one ends, once luv was searched for and opened. *)
Lemma init_den source loop st y cs :
  (forall f loop L, lua_stack (env_set_loop f loop L) = lua_stack L) -> config_live st ->
  loader_ok (ls_loader y) -> ld_once (ls_loader y) = true ->
  exists r cs', den (service_init_lua source loop st) cs y r cs' y /\ init_end source st r.
Proof.
  intros Hlaw Hlive Hok Ho. pose proof (load_phase_spec source st) as Hp.
  unfold service_init_lua. unfold load_phase in Hp. destruct env_newstate as [s|]; [|do 2 eexists; by split].
  destruct (load_source source (opened s st)) as [[status st1]| | |]; try done. cbn [of_outcome].
  destruct (negb (status =? LUA_OK)); [do 2 eexists; by split|].
  destruct Hp as (Hu & s' & text & chunk & Hk & Hst & Ht & Hc).
  destruct (load_luv_den env_readable env_text env_set_loop env_luaopen Hlaw env_dlopen env_dlsym
    env_globals (vm_lua st1) loop y cs Hok Ho) as (error & L & cs1 & Hd & Hpos & HL & _).
  assert (Hw := init_rest source s' st chunk text L st1 Hlive Hk Hst Ht Hc HL).
  apply wp_Done in Hw as (e & st2 & Er & Hdone).
  exists (Done (e, st2)), cs1. split.
  - eapply den_bind; [exact Hd|]. cbn [of_outcome]. rewrite (proj2 (Z.ltb_ge _ _)) by done.
    change (default (vm_lua st1) (Some L)) with L. by rewrite Er.
  - unfold init_end. rewrite Hu. by exists e, st2.
Qed.
End Env.
