(* ===== verification/ServiceLuaTheorems.v ===== *)
(** * ServiceLuaTheorems: the Lua state of a service

    Loading the source, making its handler and closing the handles Lua opened,
    on every branch, and that the programs of [Service] leave nothing out. *)

From S2P Require Import Prelude Message Mailbox Queue MailboxCorrect SeriValue SeriPack SeriUnpack Concur ServiceState.
From S2P Require Import LoadLuv LoadLuvCorrect ServiceLua ServiceLuaCorrect.
From S2P Require Service.
#[local] Open Scope Z_scope.
#[local] Open Scope prog_scope.

(** ** The service that runs the Lua state *)





Section Runs.
Context `{U : Libuv}.
Variable lua_call : Z -> option Service.api_call.








End Runs.

(** ** The theorems *)


(** *** A Lua state for the witnesses

    Globals at 1, [package] at 2, [package.loaded] at 3, [luv] at 4, the module
    [service] at 5.  The main chunk returns a table, and [walk] visits three
    handles: the first is closing already, the third cannot be closed. *)

Definition key (name : string) : value := VString (bytes_of name).

Definition example_store : store :=
  ({[ 1 := [(key "require", VCFunction 10); (key "package", VTable 2)];
      2 := [(key "loaded", VTable 3)];
      3 := [(key "luv", VTable 4); (key "service", VTable 5)];
      4 := [(key "walk", VCFunction 20); (key "is_closing", VCFunction 21); (key "close", VCFunction 22)];
      5 := [(key "input", VClosure 11); (key "dispatch", VClosure 12)];
      6 := [] ]}, 7).

Definition example_call (_ : list ServiceLua.lua_call) (f : value) (args : list value) (s : store) :
    store * (value + list value) :=
  (s, match f, args with
      | VCFunction 10, _ => inr [VTable 5]
      | VClosure 12, _ => inr [VClosure 13]
      | VClosure 50, _ => inr [VTable 6]
      | VCFunction 21, [VLightUserdata h] => inr [VBoolean (h =? 1)]
      | VCFunction 22, [VLightUserdata 3] => inl (key "busy")
      | _, _ => inr []
      end).


Definition example_env : LuaEnv := {|
  env_globals := 1;
  env_newstate := Some example_store;
  env_compile text _ := if bool_decide (text = bytes_of "return {}") then inl 50 else inr (false, bytes_of "syntax");
  env_call := example_call;
  env_walk _ _ s := (s, [VLightUserdata 1; VLightUserdata 2; VLightUserdata 3], None);
  env_text _ := [];
  env_fopen path :=
    if bool_decide (path = bytes_of "main.lua") then Some (File true 9 true (bytes_of "return {}")) else None;
  env_malloc size := if size <? 1000 then Some 77 else None;
  env_service := 900;
  env_context := 901;
  env_closure := 902;
  env_readable _ := true;
  env_dlopen _ := inl 7;
  env_dlsym _ _ := inl 100;
  env_set_loop _ _ L := L;
  env_luaopen _ L := (lua_heap L, lua_fresh L, inr [VTable 4])
|}.

#[local] Existing Instance example_env.

(** A service with a configuration, and the loader once luv is open. *)
Definition example_vm : vm := Vm false (Lua ∅ 0 []) (Some 40) None {[40]} 0 [] [].







#[local] Instance idle_libuv : Libuv := {|
  uv_loop_init c l := (c, l); uv_async_init _ c l := (c, l); uv_async_send _ c l := (c, l);
  uv_is_closing _ _ := true; uv_close _ l := l; uv_poll _ _ := None; uv_loop_close _ l := (0, l); uv_user _ l := l
|}.



(** C27: Loading a source file, whatever the file system and the memory answer: it ends without reading outside the block or bytes never stored, the file is closed and the block freed on every path, and the chunk is compiled exactly when the name is @ and a path, the file can be opened, measured, held in memory and read whole, and then from exactly its bytes under that name; otherwise the status is not LUA_OK and a message is pushed, except when malloc fails, where nothing is pushed. *)
Theorem service_loadfile_spec `{E : LuaEnv} at_name st :
  exists status st', lua_loadfile_as_buffer at_name st = Done (status, st') /\
    vm_heap st' = vm_heap st /\ vm_files st' = vm_files st /\ vm_store st' = vm_store st /\
    vm_log st' = vm_log st /\ vm_calls st' = vm_calls st /\
    match at_path at_name ≫= env_fopen with
    | Some f =>
      if measured f then
        match file_block f (vm_heap st) with
        | None => status = LUA_ERRMEM /\ vm_stack st' = vm_stack st
        | Some _ =>
          if Z.of_nat (length (f_data f)) <? f_length f then file_error st status st'
          else compiled (take (Z.to_nat (f_length f)) (f_data f)) (default [] at_name) st status st'
        end
      else file_error st status st'
    | None => file_error st status st'
    end.
Proof.
  destruct (proj1 (wp_Done _ _ _) (loadfile_wp at_name st)) as (status & st' & Hr & ([] & Hs & Hl & Hc) & Hf).
  exists status, st'. split_and!; try done. unfold file_loaded in Hf.
  destruct (at_path at_name) as [path|]; [|done]. cbn. destruct (env_fopen path) as [f|]; [|done]. by destruct (measured f).
Qed.

(** C28: Closing the handles Lua left open: when package.loaded.luv is a table with the functions walk, is_closing and close, every handle that walk visits is inspected in order, and each one that is not closing is closed, once, whether or not the calls for other handles fail; the result is 0 exactly when no call failed and EINVAL otherwise. When one of them is missing the result is ENOENT and nothing is called, and without a Lua state it is 0. The stack is in all cases as it was. *)
Theorem service_close_luv_spec `{E : LuaEnv} st :
  exists e st', service_close_luv_handles st = Done (e, st') /\ keeps st st' /\ vm_stack st' = vm_stack st /\
    if negb (vm_open st) then e = 0 /\ st' = st
    else
      match luv_functions (vm_store st) with
      | None => e = ENOENT /\ vm_calls st' = vm_calls st /\ vm_store st' = vm_store st
      | Some (walk, is_closing, close) =>
        let '(s1, handles, raised) := env_walk (vm_calls st) walk (vm_store st) in
        exists ok, handles_end is_closing close handles ((walk, [VClosure env_closure]) :: vm_calls st) s1 ok
            (vm_calls st') (vm_store st') /\
          e = if ok && bool_decide (raised = None) then 0 else EINVAL
      end.
Proof.
  destruct (proj1 (wp_Done _ _ _) (close_luv_wp st)) as (e & st' & Hr & Hk & Hs & He). exists e, st'.
  split_and!; [done..|]. by destruct (vm_open st).
Qed.

(** The handle that cannot be closed does not keep the others open. *)
Example close_luv_example :
  match service_close_luv_handles (opened example_store example_vm) with
  | Done (e, st') => e = EINVAL /\
      filter (fun c : ServiceLua.lua_call => bool_decide (fst c = VCFunction 22)) (vm_calls st') =
        [(VCFunction 22, [VLightUserdata 3]); (VCFunction 22, [VLightUserdata 2])]
  | _ => False
  end.
Proof. vm_compute. by split. Qed.

(** Calling the handler, for a batch or to tell it of the stop: the stack, the configuration, the heap and the handler are as they were and exactly one call is made, of the handler with its word. A dispatcher that raises gives its message, or dispatcher error when the error is no text, and asks for no further batch; otherwise it asks for one exactly when it returned true. *)
Theorem service_dispatch_spec `{E : LuaEnv} st :
  (exists out st', dispatch_batch st = Done (out, st') /\ keeps st st' /\ vm_stack st' = vm_stack st /\
    vm_calls st' = (handler_of st, [VString (bytes_of "msg")]) :: vm_calls st /\
    match env_call (vm_calls st) (handler_of st) [VString (bytes_of "msg")] (vm_store st) with
    | (s', inl e) => vm_store st' = s' /\ out = (Some (default (bytes_of "dispatcher error") (lua_tostring env_text e)), false)
    | (s', inr vs) => vm_store st' = s' /\ out = (None, bool_decide (hd VNil vs = VBoolean true))
    end) /\
  (exists st', service_notify_lua_stop st = Done (tt, st') /\ keeps st st' /\ vm_stack st' = vm_stack st /\
    vm_calls st' =
      if has_handler st then (handler_of st, [VString (bytes_of "stop")]) :: vm_calls st else vm_calls st).
Proof.
  split.
  - destruct (proj1 (wp_Done _ _ _) (dispatch_wp st)) as (out & st' & Hr & Hk & Hs & Hc & H). exists out, st'.
    split_and!; [done..|]. destruct H as [(e & -> & -> & _)|(v & (vs & -> & ->) & -> & _)]; done.
  - destruct (proj1 (wp_Done _ _ _) (notify_stop_wp st)) as ([] & st' & Hr & Hk & Hs & Hc). by exists st'.
Qed.
