(* ===== verification/LService.v ===== *)
(** * LService: the functions Lua calls (src/lservice.c)

    The argument checks of each function, the call it makes, what it returns to
    Lua or raises, and what becomes of the pointers Lua hands over.  A function
    takes its arguments as a list of Lua values; those that use services are
    programs over the pool, those of the logger act on its state.

    A pointer is an integer, 0 for NULL.  What LuaJIT makes of a number as an
    integer or as a text, and of a string as a number, is a parameter, and so are
    the addresses of services, loops and handles.  Full userdata are not passed. *)

From S2P Require Import Prelude Message Mailbox Queue Concur ServiceState Service Log.
From S2P Require SeriValue SeriPack SeriUnpack LoadLuv.
#[local] Open Scope Z_scope.
#[local] Open Scope prog_scope.

Import SeriValue(value(..), dbl_of_int).
#[local] Abbreviation prog := (prog sys).

(** ** Errors and results *)

(** A bad argument, or the text given to [luaL_error]. *)
Inductive call_error := BadArgument (index : Z) | ErrorMessage (m : list Z).

Inductive lua_result := LuaError (e : call_error) | LuaReturn (vs : list value).

Definition checked (A : Type) : Type := call_error + A.

Definition cbind {A B} (x : checked A) (k : A -> checked B) : checked B :=
  match x with inl e => inl e | inr a => k a end.

Declare Scope check_scope.
Notation "'check' x ':=' c 'in' k" := (cbind c (fun x => k))
  (at level 10, x pattern, c at level 200, k at level 200) : check_scope.
#[local] Open Scope check_scope.

(** A program run with the arguments, once they are checked. *)
Definition run_checked {A} (x : checked A) (p : A -> prog lua_result) : prog lua_result :=
  match x with inl e => ret (LuaError e) | inr a => p a end.

(** ** LuaJIT and addresses *)

Class LuaApi := {
  number_integer : Z -> Z;                   (* [lua_Integer] of a number *)
  number_string : Z -> list Z;               (* [lua_tostring] of a number *)
  string_number : list Z -> option Z         (* the number a string stands for *)
}.

Class LuaApiLaws `{LuaApi} := {
  (* [lua_Integer] has 64 bits *)
  number_integer_range n : - 2 ^ 63 <= number_integer n < 2 ^ 63;
  (* a natural number of at most 53 bits is a number of its own *)
  number_integer_exact z : 0 <= z < 2 ^ 53 -> number_integer (dbl_of_int z) = z
}.

(** Where the objects of the model are: a service, its loop, its inbox handle. *)
Class Addresses := {
  service_address : Z -> Z;
  service_of : Z -> option Z;
  loop_address : Z -> Z;
  async_address : Z -> Z;
  pool_address : Z
}.

Class AddressesLaws `{Addresses} := {
  service_of_address s : service_of (service_address s) = Some s;
  service_of_null : service_of 0 = None;
  pool_address_null : pool_address <> 0
}.

Definition SERVICE_MAILBOX_DEFAULT_SIZE : Z := 1024.

Section LuaApi.
Context `{LA : LuaApi} `{AD : Addresses} `{U : Libuv}.

(** Argument [n], from 1; [None] when there is none. *)
Definition argument (args : list value) (n : nat) : option value := args !! pred n.

Definition lua_isnil (args : list value) (n : nat) : bool :=
  match argument args n with Some VNil => true | _ => false end.
Definition lua_isnoneornil (args : list value) (n : nat) : bool :=
  match argument args n with None | Some VNil => true | _ => false end.

Definition lua_touserdata (args : list value) (n : nat) : Z :=
  match argument args n with Some (VLightUserdata p) => p | _ => 0 end.

Definition pointer (p : Z) : option Z := if p =? 0 then None else Some p.

Definition luaL_checkinteger (args : list value) (n : nat) : checked Z :=
  match argument args n with
  | Some (VNumber x) => inr (number_integer x)
  | Some (VString s) => match string_number s with Some x => inr (number_integer x) | None => inl (BadArgument (Z.of_nat n)) end
  | _ => inl (BadArgument (Z.of_nat n))
  end.

Definition luaL_checkstring (args : list value) (n : nat) : checked (list Z) :=
  match argument args n with
  | Some (VString s) => inr (LoadLuv.c_string s)
  | Some (VNumber x) => inr (LoadLuv.c_string (number_string x))
  | _ => inl (BadArgument (Z.of_nat n))
  end.

Definition luaL_optstring (args : list value) (n : nat) : checked (option (list Z)) :=
  if lua_isnoneornil args n then inr None else check s := luaL_checkstring args n in inr (Some s).

Definition luaL_optinteger (args : list value) (n : nat) (d : Z) : checked Z :=
  if lua_isnoneornil args n then inr d else luaL_checkinteger args n.

Definition luaL_checklightuserdata (args : list value) (n : nat) : checked unit :=
  match argument args n with Some (VLightUserdata _) => inr tt | _ => inl (BadArgument (Z.of_nat n)) end.

Definition luaL_checkboolean (args : list value) (n : nat) : checked bool :=
  match argument args n with Some (VBoolean b) => inr b | _ => inl (BadArgument (Z.of_nat n)) end.

Definition VInteger (z : Z) : value := VNumber (dbl_of_int z).

(** The service an argument points to. *)
Definition service_arg (args : list value) (n : nat) : option Z := service_of (lua_touserdata args n).

Definition pool_arg (args : list value) (n : nat) : bool := negb (lua_touserdata args n =? 0).

(** [NULL] or the string at [n]: [lua_isnil(L, n) ? NULL : luaL_checkstring(L, n)]. *)
Definition name_arg (args : list value) (n : nat) : checked (option (list Z)) :=
  if lua_isnil args n then inr None else check s := luaL_checkstring args n in inr (Some s).

(** ** Messages *)

Definition check_uint32 (args : list value) (index : nat) (field : string) : checked Z :=
  check value := luaL_checkinteger args index in
  if (value <? 0) || (UINT32_MAX <? wrapu 64 value) then inl (ErrorMessage (bytes_of field ++ bytes_of " must be a uint32"))
  else inr (wrapu 32 value).

Definition compose_message (args : list value) : checked message :=
  check from := check_uint32 args 2 "from" in
  check to := check_uint32 args 3 "to" in
  check session := check_uint32 args 4 "session" in
  check type := luaL_checkinteger args 5 in
  let type := wraps 32 type in
  if lua_isnoneornil args 6 then inr (Message from to session type None 0)
  else
    check _ := luaL_checklightuserdata args 6 in
    let msg := pointer (lua_touserdata args 6) in
    check size := luaL_checkinteger args 7 in
    if size <? 0 then inl (ErrorMessage (bytes_of "message size must be non-negative"))
    else inr (Message from to session type msg (wrapu 64 size)).

(** The reason given to Lua. *)
Definition send_error (result : send_result) : list Z :=
  match result with
  | SERVICE_SEND_FULL => bytes_of "MAILBOX_FULL"
  | SERVICE_SEND_NOT_FOUND => bytes_of "SERVICE_NOT_FOUND"
  | SERVICE_SEND_STOPPING => bytes_of "SERVICE_STOPPING"
  | _ => bytes_of "SERVICE_STOPPED"
  end.

Definition send_arguments (args : list value) : checked message :=
  check _ := luaL_checklightuserdata args 1 in compose_message args.

Definition lservice_send_message (args : list value) : prog lua_result :=
  run_checked (send_arguments args)
    (fun m =>
       result <- service_send (pool_arg args 1) (Some m) ;;
       if bool_decide (result = SERVICE_SEND_OK) then ret (LuaReturn [VBoolean true])
       else
         _ <- section (free (m_msg m)) ;;
         ret (LuaReturn [VNil; VString (send_error result)])).

Definition message_values (m : message) : list value :=
  [VInteger (m_from m); VInteger (m_to m); VInteger (m_session m); VInteger (m_type m);
   match m_msg m with Some p => VLightUserdata p | None => VNil end; VInteger (m_sz m)].

Definition lservice_recv_message (args : list value) : prog lua_result :=
  run_checked
    (check _ := luaL_checklightuserdata args 1 in luaL_checkboolean args 2)
    (fun _ =>
       m <- service_recv (service_arg args 1) true ;;
       ret (LuaReturn (match m with Some m => message_values m | None => [] end))).

(** ** Services *)

Section Calls.
Variable self : nat.

Definition could_not (text : string) (ret : Z) : lua_result :=
  LuaError (ErrorMessage (bytes_of text ++ decimal ret)).

(** The heap of a call of [_new]: argument 5 may be a table, with its entries. *)
Variable tables : SeriValue.heap.

Definition table_field (args : list value) (n : nat) (name : string) : option value :=
  match argument args n with
  | Some (VTable p) => Some (SeriValue.raw_get (SeriValue.t_entries (SeriValue.heap_get tables p)) (VString (bytes_of name)))
  | _ => None
  end.

Definition mailbox_size_arg (args : list value) : checked Z :=
  match table_field args 5 "mailbox_size" with
  | None | Some VNil => inr SERVICE_MAILBOX_DEFAULT_SIZE
  | Some v =>
    check value := match v with
      | VNumber x => inr (number_integer x)
      | VString s => match string_number s with Some x => inr (number_integer x) | None => inl (BadArgument (-1)) end
      | _ => inl (BadArgument (-1))
      end in
    if (value <? SERVICE_MAILBOX_MIN_SIZE) || (SERVICE_MAILBOX_MAX_SIZE <? value) then
      inl (ErrorMessage (bytes_of "mailbox_size must be between " ++ decimal SERVICE_MAILBOX_MIN_SIZE ++
                         bytes_of " and " ++ decimal SERVICE_MAILBOX_MAX_SIZE))
    else inr value
  end.

Definition lservice_new (args : list value) : prog lua_result :=
  run_checked
    (check name := name_arg args 2 in
     check source := luaL_checkstring args 3 in
     check mailbox_size := mailbox_size_arg args in
     inr (name, source, mailbox_size))
    (fun '(name, source, mailbox_size) =>
       let config := pointer (lua_touserdata args 4) in
       s <- service_new (pool_arg args 1) name (Some source) config mailbox_size ;;
       match s with
       | None => _ <- section (free config) ;; ret (LuaError (ErrorMessage (bytes_of "could not create service")))
       | Some s => ret (LuaReturn [VLightUserdata (service_address s)])
       end).

Definition lservice_lookup (args : list value) : prog lua_result :=
  run_checked (name_arg args 2) (fun name =>
    s <- service_pool_lookup_service (pool_arg args 1) name ;;
    ret (LuaReturn (match s with Some s => [VInteger s] | None => [] end))).

Definition lservice_start (args : list value) : prog lua_result :=
  let s := service_arg args 1 in
  r <- service_start self s ;;
  if negb (r =? 0) then
    state <- service_get_state s ;;
    _ <- (if state_code SERVICE_STOPPING <=? state_code state then service_join self s else ret 0) ;;
    ret (could_not "SERVICE_START_FAILED: " r)
  else ret (LuaReturn [VInteger r]).

Definition lservice_pool_delete (args : list value) : prog lua_result :=
  run_checked (luaL_checklightuserdata args 1) (fun _ =>
    _ <- service_pool_delete self (pool_arg args 1) ;; ret (LuaReturn [])).

Definition lservice_stop (args : list value) : prog lua_result :=
  let s := service_arg args 1 in
  run_checked (luaL_optstring args 2) (fun exit_error =>
    _ <- service_set_exit_error s exit_error ;;
    r <- service_stop s ;;
    ret (if negb (r =? 0) then could_not "could not stop service: " r else LuaReturn [VInteger r])).

Definition lservice_join (args : list value) : prog lua_result :=
  r <- service_join self (service_arg args 1) ;;
  ret (if negb (r =? 0) then could_not "could not join service: " r else LuaReturn [VInteger r]).

Definition lservice_get_exit_error (args : list value) : prog lua_result :=
  message <- service_get_exit_error (service_arg args 1) ;;
  ret (LuaReturn (match message with Some m => [VString m] | None => [] end)).

Definition lservice_get_uv_loop (args : list value) : prog lua_result :=
  loop <- service_get_loop (service_arg args 1) ;;
  ret (LuaReturn (match service_arg args 1 with
                  | Some s => if loop : bool then [VLightUserdata (loop_address s)] else []
                  | None => []
                  end)).

(** [s->id] and [s->pool] of a NULL pointer lead nowhere. *)
Definition null_dereference : prog lua_result := section (fun _ _ => None).

Definition lservice_get_id (args : list value) : prog lua_result :=
  match service_arg args 1 with Some s => ret (LuaReturn [VInteger s]) | None => null_dereference end.

Definition lservice_get_pool (args : list value) : prog lua_result :=
  match service_arg args 1 with Some _ => ret (LuaReturn [VLightUserdata pool_address]) | None => null_dereference end.

Definition lservice_pool_new (ok : bool) : lua_result * option sys :=
  match service_pool_new ok with
  | None => (LuaError (ErrorMessage (bytes_of "could not create service pool")), None)
  | Some y => (LuaReturn [VLightUserdata pool_address], Some y)
  end.

Definition lservice_get_async (args : list value) : prog lua_result :=
  async <- service_get_async (service_arg args 1) ;;
  ret (LuaReturn (match service_arg args 1 with
                  | Some s => if async : bool then [VLightUserdata (async_address s)] else []
                  | None => []
                  end)).

Definition lservice_get_addr (args : list value) : prog lua_result :=
  let s := service_arg args 1 in
  let not_found := LuaReturn [VNil; VString (bytes_of "SERVICE_NOT_FOUND")] in
  run_checked (luaL_checkinteger args 2) (fun value =>
    if bool_decide (s = None) || (value <? 0) || (MAX_SERVICES <=? wrapu 64 value) then ret not_found
    else
      r <- service_pool_get_service true (wrapu 32 value) ;;
      ret (match r with Some r => LuaReturn [VLightUserdata (service_address r)] | None => not_found end)).
End Calls.

(** [remove]. *)
Definition luaseri_remove (args : list value) : prog lua_result :=
  if lua_isnoneornil args 1 then ret (LuaReturn [])
  else
    run_checked
      (check _ := luaL_checklightuserdata args 1 in luaL_checkinteger args 2)
      (fun _ => _ <- section (free (pointer (lua_touserdata args 1))) ;; ret (LuaReturn [])).

(** ** The logger *)

Section Logging.
Variable pr : process.

#[local] Abbreviation logged A := (option (A * logger)).

Definition check_log_level (args : list value) (arg : nat) : checked Z :=
  check name := luaL_checkstring args arg in
  let level := log_parse_level (Some name) in
  if (level <? 0) || (level =? LOG_OFF) then inl (BadArgument (Z.of_nat arg)) else inr level.

(** The text of a record: who logs, then the message. *)
Definition log_text (who : option Z) (message : list Z) : list Z :=
  match who with
  | None => bytes_of "[host] " ++ message
  | Some s => bytes_of "[svc " ++ decimal s ++ bytes_of "] " ++ message
  end.

(** The service's address is only checked when the record is written. *)
Definition write_log (args : list value) (level : Z) (message_arg : nat) (g : logger) : logged lua_result :=
  match
    (check message := luaL_checkstring args message_arg in
     check file := luaL_optstring args (S message_arg) in
     check line := luaL_optinteger args (S (S message_arg)) 0 in
     inr (message, file, wraps 32 line))
  with
  | inl e => Some (LuaError e, g)
  | inr (message, file, line) =>
    '(enabled, g1) ← log_enabled pr level g;
    if negb enabled then Some (LuaReturn [], g1)
    else if lua_isnoneornil args 1 then
      g2 ← log_write pr level file line (Some (log_text None message)) g1;
      Some (LuaReturn [], g2)
    else
      match luaL_checklightuserdata args 1, service_arg args 1 with
      | inl e, _ => Some (LuaError e, g1)
      | inr _, Some s =>
        g2 ← log_write pr level file line (Some (log_text (Some s) message)) g1;
        Some (LuaReturn [], g2)
      | inr _, None => None
      end
  end.

Definition lservice_log (args : list value) (g : logger) : logged lua_result :=
  match check_log_level args 2 with
  | inl e => Some (LuaError e, g)
  | inr level => write_log args level 3 g
  end.

Definition lservice_log_error (args : list value) (g : logger) : logged lua_result := write_log args LOG_ERROR 2 g.

Definition lservice_log_enabled (args : list value) (g : logger) : logged lua_result :=
  match check_log_level args 1 with
  | inl e => Some (LuaError e, g)
  | inr level => '(enabled, g1) ← log_enabled pr level g; Some (LuaReturn [VBoolean enabled], g1)
  end.

(** A level or format argument: -1 when there is none. *)
Definition setting_arg (parse : option (list Z) -> Z) (args : list value) (n : nat) : checked Z :=
  if lua_isnoneornil args n then inr (-1)
  else
    check name := luaL_checkstring args n in
    let setting := parse (Some name) in
    if setting <? 0 then inl (BadArgument (Z.of_nat n)) else inr setting.

(** [lua_pushstring] of a C string or NULL. *)
Definition pushstring (s : option (list Z)) : value := match s with Some s => VString s | None => VNil end.

Definition lservice_log_config (args : list value) (g : logger) : logged lua_result :=
  match
    (check level := setting_arg log_parse_level args 1 in
     check format := setting_arg log_parse_format args 2 in
     inr (level, format))
  with
  | inl e => Some (LuaError e, g)
  | inr (level, format) =>
    g1 ← (if 0 <=? level then log_set_level pr level g else Some g);
    g2 ← (if 0 <=? format then log_set_format pr format g1 else Some g1);
    '(level, g3) ← log_get_level pr g2;
    '(format, g4) ← log_get_format pr g3;
    Some (LuaReturn [pushstring (log_level_name level); pushstring (log_format_name format)], g4)
  end.
End Logging.
End LuaApi.

(** ** Opening the module *)

Section Open.
Variable readable : list Z -> bool.
Variable number_text : Z -> list Z.
Variable dlopen : list Z -> Z + option (list Z).
Variable dlsym : Z -> string -> Z + list Z.

(** The functions of the table, in the order of their registration. *)
Definition service_functions : list string :=
  ["_pool_new"; "_pool_delete"; "_lookup"; "_get_pool"; "_get_async"; "_get_addr"; "_get_uv_loop";
   "_new"; "_start"; "_stop"; "_join"; "_get_exit_error"; "_get_id"; "_send_message"; "_recv_message";
   "_log"; "_log_error"; "_log_enabled"; "_log_config"; "remove"; "pack"; "unpack"; "unpack_remove"]%string.

(** The error raised, or the functions of the module. *)
Definition luaopen_service_c (G : Z) (L : SeriUnpack.lua) : Concur.prog LoadLuv.loader_sys (SeriValue.outcome (checked (list string))) :=
  r <- LoadLuv.luv_loader_prepare readable number_text dlopen dlsym (Some (G, L)) ;;
  match r with
  | SeriValue.Done error =>
    if negb (error =? 0) then
      detail <- LoadLuv.read_loader LoadLuv.luv_loader_error ;;
      Ret (SeriValue.Done (inl (ErrorMessage (bytes_of "could not initialize luv loader: " ++ detail))))
    else Ret (SeriValue.Done (inr service_functions))
  | SeriValue.Raise e => Ret (SeriValue.Raise e)
  | SeriValue.Undef u => Ret (SeriValue.Undef u)
  | SeriValue.NoFuel => Ret SeriValue.NoFuel
  end.
End Open.
