(* ===== verification/LServiceTheorems.v ===== *)
(** * LServiceTheorems: what src/lservice.c does with what Lua hands over

    The ownership of payloads across a send, the round trip of a message through
    Lua, and the settings of the logger. *)

From S2P Require Import Prelude Message Mailbox Queue MailboxCorrect Concur ServiceState Service ServiceExec.
From S2P Require Import Log LogCorrect LService.
From S2P Require SeriValue SeriPack SeriUnpack SeriDecode LoadLuv.
#[local] Open Scope Z_scope.
#[local] Open Scope prog_scope.

Import SeriValue(value(..), dbl_of_int, dbl_trunc).

(** ** Composing a message *)

Section Compose.
Context `{LA : LuaApi} {LL : @LuaApiLaws LA}.

(** The fields as [message_t] stores them. *)
Record message_ok (m : message) : Prop := MessageOk {
  mo_from : 0 <= m_from m <= UINT32_MAX;
  mo_to : 0 <= m_to m <= UINT32_MAX;
  mo_session : 0 <= m_session m <= UINT32_MAX;
  mo_type : - 2 ^ 31 <= m_type m < 2 ^ 31;
  mo_msg : m_msg m <> Some 0;
  mo_sz : 0 <= m_sz m < 2 ^ 63
}.



Lemma wraps_range w z : 0 < w -> - 2 ^ (w - 1) <= wraps w z < 2 ^ (w - 1).
Proof.
  intros Hw. unfold wraps. assert (E : 2 ^ w = 2 * 2 ^ (w - 1)) by (rewrite <- Z.pow_succ_r by lia; f_equal; lia).
  pose proof (Z.mod_pos_bound z (2 ^ w)). pose proof (Z.pow_pos_nonneg 2 (w - 1)). ztest; lia.
Qed.



(** An integer handed to Lua and taken back. *)
Lemma checkinteger_exact args n z :
  argument args n = Some (VInteger z) -> 0 <= z < 2 ^ 53 -> luaL_checkinteger args n = inr z.
Proof. intros H Hz. unfold luaL_checkinteger. rewrite H. unfold VInteger. by rewrite number_integer_exact. Qed.

Lemma check_uint32_exact args n field z :
  argument args n = Some (VInteger z) -> 0 <= z <= UINT32_MAX -> check_uint32 args n field = inr z.
Proof.
  intros H Hz. unfold check_uint32, UINT32_MAX in *. rewrite (checkinteger_exact _ _ z) by (done || lia). cbn [cbind].
  rewrite !wrapu_small by lia. rewrite (proj2 (Z.ltb_ge _ _)), (proj2 (Z.ltb_ge _ _)) by lia. done.
Qed.
End Compose.

(** ** Sending *)



Section Send.
Context `{LA : LuaApi} {LL : @LuaApiLaws LA} {U : Libuv} {L : @LibuvLaws U}.


End Send.

(** ** The settings of the logger *)

(** An argument that is accepted is a setting, or -1 when there is none. *)
Lemma setting_arg_range `{LuaApi} parse args n z k :
  (forall v, -1 <= parse v <= k) -> setting_arg parse args n = inr z -> -1 <= z <= k.
Proof.
  intros Hp. unfold setting_arg. destruct (lua_isnoneornil args n).
  - intros [= <-]. specialize (Hp None). lia.
  - destruct (luaL_checkstring args n) as [|s]; [done|]. cbn [cbind]. specialize (Hp (Some s)).
    destruct (_ <? _); [done|]. by intros [= <-].
Qed.

Lemma apply_level pr level g :
  lg_once g = true -> -1 <= level <= 4 ->
  (if 0 <=? level then log_set_level pr level g else Some g) =
    Some (set_level (if level =? -1 then lg_level g else level) g).
Proof.
  intros Ho Hl. destruct (Z.leb_spec 0 level).
  - unfold log_set_level. rewrite ensure_init_once by done. cbn [mbind option_bind]. unfold LOG_DEBUG, LOG_OFF.
    rewrite (proj2 (Z.leb_le 0 level)), (proj2 (Z.leb_le level 4)), (proj2 (Z.eqb_neq level (-1))) by lia. done.
  - rewrite (proj2 (Z.eqb_eq level (-1))) by lia. by destruct g.
Qed.

Lemma apply_format pr format g :
  lg_once g = true -> -1 <= format <= 1 ->
  (if 0 <=? format then log_set_format pr format g else Some g) =
    Some (set_format (if format =? -1 then lg_format g else format) g).
Proof.
  intros Ho Hl. destruct (Z.leb_spec 0 format).
  - unfold log_set_format. rewrite ensure_init_once by done. cbn [mbind option_bind]. unfold LOG_FORMAT_TEXT, LOG_FORMAT_JOURNAL.
    rewrite (proj2 (Z.leb_le 0 format)), (proj2 (Z.leb_le format 1)), (proj2 (Z.eqb_neq format (-1))) by lia. done.
  - rewrite (proj2 (Z.eqb_eq format (-1))) by lia. by destruct g.
Qed.

Lemma level_name_parsed level : 0 <= level <= 4 -> exists n, log_level_name level = Some n /\ log_parse_level (Some n) = level.
Proof.
  intros H. assert (E : level = 0 \/ level = 1 \/ level = 2 \/ level = 3 \/ level = 4) by lia.
  destruct E as [->|[->|[->|[->| ->]]]]; eexists; (split; [reflexivity|vm_compute; reflexivity]).
Qed.

Lemma format_name_parsed format : 0 <= format <= 1 -> exists n, log_format_name format = Some n /\ log_parse_format (Some n) = format.
Proof.
  intros H. assert (E : format = 0 \/ format = 1) by lia.
  destruct E as [->| ->]; eexists; (split; [reflexivity|vm_compute; reflexivity]).
Qed.

(** ** Inputs of the witnesses *)

(** A LuaJIT whose integers are their numbers. *)
Definition example_integer (x : Z) : Z := wraps 64 (dbl_trunc x).

Definition example_api : LuaApi := {| number_integer := example_integer; number_string _ := []; string_number _ := None |}.
#[local] Existing Instance example_api.

(** The integer of a number made from a natural number. *)
Lemma dbl_trunc_of_int z : 0 <= z < 2 ^ 53 -> dbl_trunc (dbl_of_int z) = z.
Proof.
  intros Hz. destruct (Z.eq_dec z 0) as [->|Hz0]; [reflexivity|]. unfold dbl_trunc.
  rewrite (proj2 (SeriDecode.dbl_of_int_decode z ltac:(lia))).
  assert (Hl : 0 <= Z.log2 z < 53) by (split; [apply Z.log2_nonneg|apply Z.log2_lt_pow2; lia]).
  destruct (Z.leb_spec 0 (Z.log2 z - 52)).
  - replace (Z.log2 z) with 52 by lia. change (2 ^ (52 - 52)) with 1. lia.
  - replace (- (Z.log2 z - 52)) with (52 - Z.log2 z) by lia. apply Z.quot_mul.
    apply Z.pow_nonzero; lia.
Qed.

Lemma example_api_laws : @LuaApiLaws example_api.
Proof.
  split.
  - intros n. apply (wraps_range 64). lia.
  - intros z Hz. cbn [number_integer example_api]. unfold example_integer. rewrite dbl_trunc_of_int by done.
    apply SeriValue.wraps_small; lia.
Qed.

#[local] Existing Instance example_api_laws.






(** ** The theorems *)




(** C38: A message survives the passage through Lua: the six values that recv gives for a message whose fields are those of message_t, a natural type, and a size of at most 53 bits that is 0 without payload, are composed by send into the same message. *)
Theorem lservice_message_roundtrip (LA : LuaApi) (LL : @LuaApiLaws LA) pool m :
  message_ok m -> 0 <= m_type m -> m_sz m < 2 ^ 53 -> (m_msg m = None -> m_sz m = 0) ->
  send_arguments (VLightUserdata pool :: message_values m) = inr m.
Proof.
  intros [H1 H2 H3 H4 H5 H6] Hty Hsz Hnone. unfold send_arguments, compose_message. cbn [cbind].
  change (luaL_checklightuserdata (VLightUserdata pool :: message_values m) 1) with (@inr call_error unit tt). cbn [cbind].
  rewrite (check_uint32_exact _ 2 _ (m_from m)), (check_uint32_exact _ 3 _ (m_to m)),
    (check_uint32_exact _ 4 _ (m_session m)), (checkinteger_exact _ 5 (m_type m)) by (done || lia). cbn [cbind].
  rewrite SeriValue.wraps_small by lia. unfold lua_isnoneornil. change (argument _ 6) with
    (Some (match m_msg m with Some p => VLightUserdata p | None => VNil end)).
  destruct m as [from to session type [p|] sz]; cbn [m_from m_to m_session m_type m_msg m_sz] in *.
  - change (luaL_checklightuserdata _ 6) with (@inr call_error unit tt). cbn [cbind].
    rewrite (checkinteger_exact _ 7 sz) by (done || lia). cbn [cbind]. rewrite (proj2 (Z.ltb_ge sz 0)) by lia.
    change (lua_touserdata _ 6) with p. unfold pointer. rewrite (proj2 (Z.eqb_neq p 0)) by congruence.
    by rewrite wrapu_small by lia.
  - by rewrite Hnone.
Qed.

Example lservice_message_roundtrip_witness :
  send_arguments (VLightUserdata 500 :: message_values (Message 3 4 5 1 (Some 77) 20)) = inr (Message 3 4 5 1 (Some 77) 20).
Proof.
  apply (lservice_message_roundtrip example_api example_api_laws 500 (Message 3 4 5 1 (Some 77) 20)).
  - split; cbn; unfold UINT32_MAX; try lia; congruence.
  - cbn; lia.
  - cbn; lia.
  - cbn; congruence.
Defined.

(** Log_config validates both arguments before it applies either: when one of them is no name, it raises and the logger is as it was; otherwise both given settings are applied, those not given are kept, nothing is written, and the names returned are those of the settings now in effect. *)
Theorem lservice_log_config_spec (LA : LuaApi) pr args g :
  lg_once g = true -> 0 <= lg_level g <= 4 -> 0 <= lg_format g <= 1 ->
  match setting_arg log_parse_level args 1, setting_arg log_parse_format args 2 with
  | inr level, inr format =>
    let level' := if level =? -1 then lg_level g else level in
    let format' := if format =? -1 then lg_format g else format in
    exists n n', lservice_log_config pr args g = Some (LuaReturn [VString n; VString n'], set_format format' (set_level level' g)) /\
      log_parse_level (Some n) = level' /\ log_parse_format (Some n') = format'
  | _, _ => exists e, lservice_log_config pr args g = Some (LuaError e, g)
  end.
Proof.
  intros Ho Hl Hf. unfold lservice_log_config.
  destruct (setting_arg log_parse_level args 1) as [e|level] eqn:El; [by exists e|]. cbn [cbind].
  destruct (setting_arg log_parse_format args 2) as [e|format] eqn:Ef; [by exists e|]. cbn [cbind]. cbv zeta.
  apply (setting_arg_range _ _ _ _ 4 log_parse_level_range) in El.
  apply (setting_arg_range _ _ _ _ 1 log_parse_format_range) in Ef.
  rewrite (apply_level pr level g) by done. cbn [mbind option_bind].
  rewrite (apply_format pr format) by done. cbn [mbind option_bind].
  unfold log_get_level, log_get_format. rewrite ensure_init_once by done. cbn [mbind option_bind].
  rewrite ensure_init_once by done. cbn [mbind option_bind lg_level lg_format set_level set_format].
  destruct (level_name_parsed (if level =? -1 then lg_level g else level)) as (n & -> & Hn); [ztest; lia|].
  destruct (format_name_parsed (if format =? -1 then lg_format g else format)) as (n' & -> & Hn'); [ztest; lia|].
  by exists n, n'.
Qed.

Example lservice_log_config_spec_witness :
  exists n n', lservice_log_config (Process None None None (inr 9) (fun _ => ([], 0))) [VString (bytes_of "WARN")]
      (Logger true LOG_INFO LOG_FORMAT_JOURNAL 0 [] [] 0) =
    Some (LuaReturn [VString n; VString n'], Logger true LOG_WARN LOG_FORMAT_JOURNAL 0 [] [] 0) /\
    log_parse_level (Some n) = LOG_WARN /\ log_parse_format (Some n') = LOG_FORMAT_JOURNAL.
Proof.
  apply (lservice_log_config_spec example_api (Process None None None (inr 9) (fun _ => ([], 0))) [VString (bytes_of "WARN")]
    (Logger true LOG_INFO LOG_FORMAT_JOURNAL 0 [] [] 0)); unfold LOG_INFO, LOG_FORMAT_JOURNAL; cbn; lia || done.
Defined.
